(** * Merge Tab Groups: the service worker's merge-and-dedupe engine

    A shallow embedding of the extension's background script
    (src/background.js and its later revision kept in src/unnamed/part_001):
    title normalisation, bucketing by window and by normalised title, target
    selection, tab draining, the explicit merge operations, the incremental
    recompute, and the per-window debouncer.

    The browser is an explicit [Host] value: its tab groups, its tabs, the
    extension's stored settings and the trace of requests the script has
    issued.  Asynchronous functions are state-passing computations that either
    return a value or reject. *)

From Stdlib Require Import Ascii String DecimalString ZArith NArith Bool Arith Lia List
  Permutation.
Import ListNotations.

Open Scope Z_scope.
Open Scope list_scope.


(* ================================================================== *)
(** * JavaScript strings (code points below 256) *)

Module JsString.

(** [String.prototype.trim] removes WhiteSpace and LineTerminator code
    points; below 256 these are TAB, LF, VT, FF, CR, SP and NBSP. *)
Definition isWhiteSpace (c : ascii) : bool :=
  let n := N_of_ascii c in
  ((9 <=? n) && (n <=? 13) || (n =? 32) || (n =? 160))%N.

Fixpoint trimStart (s : string) : string :=
  match s with
  | EmptyString => EmptyString
  | String c r => if isWhiteSpace c then trimStart r else s
  end.

Fixpoint trimEnd (s : string) : string :=
  match s with
  | EmptyString => EmptyString
  | String c r =>
      match trimEnd r with
      | EmptyString => if isWhiteSpace c then EmptyString else String c EmptyString
      | r' => String c r'
      end
  end.

Definition trim (s : string) : string := trimEnd (trimStart s).

(** [String.prototype.toLowerCase] on Latin-1: A-Z and the accented
    capitals U+00C0..U+00DE (except the multiplication sign). *)
Definition lowerChar (c : ascii) : ascii :=
  let n := N_of_ascii c in
  if ((65 <=? n) && (n <=? 90)
      || (192 <=? n) && (n <=? 222) && negb (n =? 215))%N
  then ascii_of_N (n + 32) else c.

Fixpoint toLowerCase (s : string) : string :=
  match s with
  | EmptyString => EmptyString
  | String c r => String (lowerChar c) (toLowerCase r)
  end.

(** Truthiness of a string: non-empty. *)
Definition truthy (s : string) : bool :=
  match s with EmptyString => false | _ => true end.

End JsString.

(* ================================================================== *)
(** * [Array.prototype.sort] with a comparison function

    The sort is stable (ECMAScript 2019), so for a consistent comparator the
    result is the stable insertion sort: an element moves behind a later one
    only when the comparator says it is strictly greater. *)

Section JsSort.
Context {A : Type}.
Variable comparefn : A -> A -> Z.

Fixpoint sort_insert (x : A) (l : list A) : list A :=
  match l with
  | [] => [x]
  | y :: r => if 0 <? comparefn x y then y :: sort_insert x r else x :: l
  end.

Fixpoint js_sort (l : list A) : list A :=
  match l with
  | [] => []
  | x :: r => sort_insert x (js_sort r)
  end.
End JsSort.

(* ================================================================== *)
(** * [Map] in insertion order, as the script uses it for bucketing *)

Section JsMap.
Context {K V : Type}.
Variable eqb : K -> K -> bool.

Definition JsMap := list (K * list V).

Fixpoint map_has (k : K) (m : JsMap) : bool :=
  match m with
  | [] => false
  | (k', _) :: r => eqb k k' || map_has k r
  end.

Fixpoint map_get (k : K) (m : JsMap) : option (list V) :=
  match m with
  | [] => None
  | (k', v) :: r => if eqb k k' then Some v else map_get k r
  end.

(** [if (!m.has(k)) m.set(k, []); m.get(k).push(v)] *)
Fixpoint map_push (k : K) (v : V) (m : JsMap) : JsMap :=
  match m with
  | [] => [(k, [v])]
  | (k', vs) :: r =>
      if eqb k k' then (k', vs ++ [v]) :: r else (k', vs) :: map_push k v r
  end.
End JsMap.

(* ================================================================== *)
(** * Data model *)

Record Group := mkGroup {
  group_id : Z;
  group_title : option string;
  group_windowId : Z;
  group_collapsed : bool
}.

Record Tab := mkTab {
  tab_id : Z;
  tab_groupId : Z;
  tab_windowId : Z;
  tab_active : bool;
  tab_url : option string;
  tab_pendingUrl : option string
}.

(** Requests sent to the browser, in the order they are issued. *)
Inductive Request :=
| ReqDiscard (tabId : Z)
| ReqMove (tabIds : list Z) (groupId : Z)
| ReqUpdate (groupId : Z) (title : option string) (collapsed : bool).

Record Host := mkHost {
  groups : list Group;
  tabs : list Tab;
  currentWindow : Z;
  stored_keepCollapsed : option bool;
  stored_fastMerge : option bool;
  requests : list Request
}.

Definition with_groups (gs : list Group) (h : Host) : Host :=
  mkHost gs (tabs h) (currentWindow h) (stored_keepCollapsed h)
         (stored_fastMerge h) (requests h).

Definition with_tabs (ts : list Tab) (h : Host) : Host :=
  mkHost (groups h) ts (currentWindow h) (stored_keepCollapsed h)
         (stored_fastMerge h) (requests h).

Definition issue (r : Request) (h : Host) : Host :=
  mkHost (groups h) (tabs h) (currentWindow h) (stored_keepCollapsed h)
         (stored_fastMerge h) (requests h ++ [r]).

(* ================================================================== *)
(** * Asynchronous computations over the host *)

Inductive Outcome (A : Type) :=
| Returned (a : A)
| Thrown (msg : string).
Arguments Returned {A} a.
Arguments Thrown {A} msg.

Definition Async (A : Type) := Host -> Outcome A * Host.

Definition ret {A} (a : A) : Async A := fun h => (Returned a, h).

Definition bind {A B} (m : Async A) (k : A -> Async B) : Async B :=
  fun h => match m h with
           | (Returned a, h') => k a h'
           | (Thrown e, h') => (Thrown e, h')
           end.

Definition throw {A} (msg : string) : Async A := fun h => (Thrown msg, h).

(** [try { await m } catch {}] *)
Definition try_catch (m : Async unit) : Async unit :=
  fun h => match m h with
           | (Returned _, h') => (Returned tt, h')
           | (Thrown _, h') => (Returned tt, h')
           end.

Notation "x <- m ;; k" := (bind m (fun x => k))
  (at level 61, m at next level, right associativity).
Notation "m ;;; k" := (bind m (fun _ => k))
  (at level 61, right associativity).

(** [for (const x of xs) { await body(x) }] *)
Fixpoint for_each {A} (xs : list A) (body : A -> Async unit) : Async unit :=
  match xs with
  | [] => ret tt
  | x :: r => body x ;;; for_each r body
  end.

(** [await Promise.all(xs.map(f))] *)
Fixpoint promise_all {A B} (xs : list A) (f : A -> Async B) : Async (list B) :=
  match xs with
  | [] => ret []
  | x :: r => y <- f x ;; ys <- promise_all r f ;; ret (y :: ys)
  end.

(** [await Promise.allSettled(xs.map(f))]: every rejection is absorbed. *)
Fixpoint promise_allSettled {A} (xs : list A) (f : A -> Async unit) : Async unit :=
  match xs with
  | [] => ret tt
  | x :: r => try_catch (f x) ;;; promise_allSettled r f
  end.

(* ================================================================== *)
(** * The browser's primitives *)

Module chrome.

Definition mem (x : Z) (l : list Z) : bool := existsb (Z.eqb x) l.

Definition find_group (gid : Z) (h : Host) : option Group :=
  find (fun g => group_id g =? gid) (groups h).

(** [chrome.tabGroups.query({windowId})] and [chrome.tabGroups.query({})] *)
Definition tabGroups_query (windowId : option Z) : Async (list Group) :=
  fun h => (Returned match windowId with
                     | Some w => filter (fun g => group_windowId g =? w) (groups h)
                     | None => groups h
                     end, h).

(** The messages of the browser's rejections; the identifier is written
    in decimal, as a template literal writes a number. *)
Definition decimal (id : Z) : string := NilZero.string_of_int (Z.to_int id).

Definition noGroupWithId (gid : Z) : string :=
  ("No group with id: " ++ decimal gid ++ ".")%string.

Definition noTabWithId (tabId : Z) : string :=
  ("No tab with id: " ++ decimal tabId ++ ".")%string.

Definition cannotDiscardTab (tabId : Z) : string :=
  ("Cannot discard tab with id: " ++ decimal tabId ++ ".")%string.

(** [chrome.tabGroups.get(id)] rejects when no such group exists. *)
Definition tabGroups_get (gid : Z) : Async Group :=
  fun h => match find_group gid h with
           | Some g => (Returned g, h)
           | None => (Thrown (noGroupWithId gid), h)
           end.

(** [chrome.windows.getCurrent()] *)
Definition windows_getCurrent : Async Z :=
  fun h => (Returned (currentWindow h), h).

(** [chrome.tabs.query({groupId})] *)
Definition tabs_query (groupId : Z) : Async (list Tab) :=
  fun h => (Returned (filter (fun t => tab_groupId t =? groupId) (tabs h)), h).

(** [chrome.tabs.discard(id)] rejects for a missing or an active tab.
    Unloading a page changes neither a tab's group nor any field the
    script reads, so the request is recorded and the tab left as it is;
    every caller absorbs the rejection. *)
Definition tabs_discard (tabId : Z) : Async unit :=
  fun h =>
    let h1 := issue (ReqDiscard tabId) h in
    match find (fun t => tab_id t =? tabId) (tabs h) with
    | Some t =>
        if tab_active t
        then (Thrown (cannotDiscardTab tabId), h1)
        else (Returned tt, h1)
    | None => (Thrown (noTabWithId tabId), h1)
    end.

Definition set_group (gid w : Z) (t : Tab) : Tab :=
  mkTab (tab_id t) gid w (tab_active t) (tab_url t) (tab_pendingUrl t).

Definition has_tabs (ts : list Tab) (g : Group) : bool :=
  existsb (fun t => tab_groupId t =? group_id g) ts.

(** [chrome.tabs.group({tabIds, groupId})] rejects when the group or one
    of the tabs has vanished, naming the group or the first such tab;
    otherwise the tabs join the group, and a group left without tabs ceases
    to exist. *)
Definition tabs_group (tabIds : list Z) (groupId : Z) : Async unit :=
  fun h =>
    let h1 := issue (ReqMove tabIds groupId) h in
    match find_group groupId h with
    | Some g =>
        match find (fun i => negb (mem i (map tab_id (tabs h)))) tabIds with
        | None =>
            let ts := map (fun t => if mem (tab_id t) tabIds
                                    then set_group groupId (group_windowId g) t
                                    else t) (tabs h) in
            (Returned tt,
             with_groups (filter (has_tabs ts) (groups h)) (with_tabs ts h1))
        | Some i => (Thrown (noTabWithId i), h1)
        end
    | None => (Thrown (noGroupWithId groupId), h1)
    end.

Definition set_props (title : option string) (collapsed : bool) (g : Group) : Group :=
  mkGroup (group_id g)
          (match title with Some t => Some t | None => group_title g end)
          (group_windowId g) collapsed.

(** [chrome.tabGroups.update(id, {title, collapsed})] rejects when the
    group has vanished; an undefined title leaves the title as it is. *)
Definition tabGroups_update (groupId : Z) (title : option string)
           (collapsed : bool) : Async Group :=
  fun h =>
    let h1 := issue (ReqUpdate groupId title collapsed) h in
    match find_group groupId h with
    | Some g =>
        (Returned (set_props title collapsed g),
         with_groups (map (fun g' => if group_id g' =? groupId
                                     then set_props title collapsed g' else g')
                          (groups h)) h1)
    | None => (Thrown (noGroupWithId groupId), h1)
    end.

(** [chrome.storage.sync.get(["keepCollapsed", "fastMerge"])] *)
Definition storage_get : Async (option bool * option bool) :=
  fun h => (Returned (stored_keepCollapsed h, stored_fastMerge h), h).

End chrome.

(* ================================================================== *)
(** * The background script *)

Record Settings := mkSettings {
  caseSensitive : bool;
  includeUnnamed : bool;
  fastMerge : bool;
  keepCollapsed : bool
}.

Inductive Scope := CurrentWindow | AllWindows.

(** [title ?? ""] *)
Definition orEmpty (title : option string) : string :=
  match title with Some t => t | None => EmptyString end.

Definition normalizeTitle (title : option string) (caseSensitive : bool) : string :=
  let t := JsString.trim (orEmpty title) in
  if caseSensitive then t else JsString.toLowerCase t.

Definition listGroups (scope : Scope) (windowId : option Z) : Async (list Group) :=
  match windowId with
  | Some w => chrome.tabGroups_query (Some w)
  | None =>
      match scope with
      | CurrentWindow =>
          current <- chrome.windows_getCurrent ;;
          chrome.tabGroups_query (Some current)
      | AllWindows => chrome.tabGroups_query None
      end
  end.

Definition listTabsInGroup (groupId : Z) : Async (list Tab) :=
  chrome.tabs_query groupId.

Definition safeDiscardTabs (tabIds : list Z) : Async unit :=
  promise_allSettled tabIds chrome.tabs_discard.

(** [shouldAvoidDiscard] of the later revision (src/unnamed/part_001). *)
Definition shouldAvoidDiscard (tab : Tab) : bool :=
  if tab_active tab then true
  else
    let url := JsString.trim (orEmpty (tab_url tab)) in
    let hasPending := match tab_pendingUrl tab with
                      | Some p => JsString.truthy p
                      | None => false
                      end in
    negb (JsString.truthy url) || String.eqb url "about:blank" || hasPending.

(** The filter of src/background.js: [tabs.filter(t => !t.active)]. *)
Definition isActive (tab : Tab) : bool := tab_active tab.

(** [(g.title ?? "").trim()] for every member, keeping the truthy ones. *)
Definition bucketTitles (bucket : list Group) : list string :=
  filter JsString.truthy
         (map (fun g => JsString.trim (orEmpty (group_title g))) bucket).

Definition occurrences (t : string) (titles : list string) : Z :=
  Z.of_nat (length (filter (fun t' => String.eqb t' t) titles)).

(** [titles.sort((a, b) => #b - #a)[0]], or the target's own title when no
    member has a non-empty one.  The comparator counts occurrences in the
    array being sorted; a count does not depend on the order of the array,
    so it is taken in [titles] as built. *)
Definition titleToSet (bucket : list Group) (target : Group) : option string :=
  let titles := bucketTitles bucket in
  match js_sort (fun a b => occurrences b titles - occurrences a titles) titles with
  | t :: _ => Some t
  | [] => group_title target
  end.

(** [counts.sort((a, b) => b.count - a.count)] *)
Definition sortByCount (counts : list (Group * Z)) : list (Group * Z) :=
  js_sort (fun a b => snd b - snd a) counts.

(** [bucket.sort((a, b) => a.id - b.id)] *)
Definition sortById (bucket : list Group) : list Group :=
  js_sort (fun a b => group_id a - group_id b) bucket.

Definition countTabs (g : Group) : Async (Group * Z) :=
  ts <- listTabsInGroup (group_id g) ;;
  ret (g, Z.of_nat (length ts)).

(** The loop [for (const g of groups) { key = ...; if (!includeUnnamed &&
    key === "") continue; ...push(g) }] shared by both merge paths. *)
Definition buildBuckets (caseSensitive includeUnnamed : bool)
           (gs : list Group) : JsMap (K:=string) (V:=Group) :=
  fold_left
    (fun buckets g =>
       let key := normalizeTitle (group_title g) caseSensitive in
       if negb includeUnnamed && String.eqb key ""
       then buckets
       else map_push String.eqb key g buckets)
    gs [].

Definition partitionByWindow (gs : list Group) : JsMap (K:=Z) (V:=Group) :=
  fold_left (fun byWindow g => map_push Z.eqb (group_windowId g) g byWindow) gs [].

Record MergeResult := mkMergeResult {
  res_windowId : Z;
  res_title : option string;
  res_mergedInto : Z;
  res_mergedCount : Z
}.

Record SelectedResult := mkSelectedResult {
  sel_ok : bool;
  sel_error : option string;
  sel_targetGroupId : option Z;
  sel_finalTitle : option string;
  sel_mergedCount : option Z
}.

Definition failure (msg : string) : SelectedResult :=
  mkSelectedResult false (Some msg) None None None.

(** [for (...) { ...; results.push(r) }]: each iteration contributes the
    entries it pushes. *)
Fixpoint for_collect {A R} (xs : list A) (body : A -> Async (list R)) : Async (list R) :=
  match xs with
  | [] => ret []
  | x :: r => a <- body x ;; b <- for_collect r body ;; ret (a ++ b)
  end.

Section Engine.

(** The two revisions of the script differ in which tabs they refuse to
    discard: src/background.js keeps [t.active] tabs only, the later one
    uses [shouldAvoidDiscard]. *)
Variable avoidDiscard : Tab -> bool.

(** [ids = tabs.filter(t => !avoid(t)).map(t => t.id);
     if (ids.length) await safeDiscardTabs(ids)] *)
Definition safeDiscardFromTabs (ts : list Tab) : Async unit :=
  let ids := map tab_id (filter (fun t => negb (avoidDiscard t)) ts) in
  match ids with
  | [] => ret tt
  | _ => safeDiscardTabs ids
  end.

Definition discardNonActiveTabsInGroup (groupId : Z) : Async unit :=
  try_catch (ts <- listTabsInGroup groupId ;; safeDiscardFromTabs ts).

Definition mergeGroupSet (targetGroupId : Z) (otherGroupIds : list Z)
           (fastMerge : bool) : Async unit :=
  for_each otherGroupIds (fun gid =>
    if gid =? targetGroupId then ret tt
    else
      ts <- listTabsInGroup gid ;;
      let tabIds := map tab_id ts in
      (match fastMerge, tabIds with
       | true, _ :: _ => safeDiscardFromTabs ts
       | _, _ => ret tt
       end) ;;;
      match tabIds with
      | _ :: _ => try_catch (chrome.tabs_group tabIds targetGroupId)
      | [] => ret tt
      end).

Definition drainGroupToTarget (targetGroupId sourceGroupId : Z)
           (fastMerge : bool) : Async unit :=
  if targetGroupId =? sourceGroupId then ret tt
  else
    ts <- listTabsInGroup sourceGroupId ;;
    match ts with
    | [] => ret tt
    | _ :: _ =>
        (if fastMerge then safeDiscardFromTabs ts else ret tt) ;;;
        try_catch (chrome.tabs_group (map tab_id ts) targetGroupId)
    end.

(** Body of the loop over [buckets.entries()] in
    [recomputeAndDrainDuplicates]; it yields the index entry it sets. *)
Definition recomputeBucket (st : Settings) (entry : string * list Group)
  : Async (list (string * (Z * list Z))) :=
  let (key, bucket) := entry in
  match bucket with
  | _ :: _ :: _ =>
      match sortById bucket with
      | [] => throw "bucket[0] is undefined"
      | target :: others =>
          for_each others (fun src =>
            drainGroupToTarget (group_id target) (group_id src) (fastMerge st)) ;;;
          _ <- chrome.tabGroups_update (group_id target) (group_title target)
                                       (keepCollapsed st) ;;
          ret [(key, (group_id target, map group_id others))]
      end
  | _ => ret []
  end.

(** Returns the index that the script stores in [duplicateTargets] under
    [windowId]. *)
Definition recomputeAndDrainDuplicates (windowId : Z) (st : Settings)
  : Async (list (string * (Z * list Z))) :=
  gs <- listGroups CurrentWindow (Some windowId) ;;
  let buckets := buildBuckets (caseSensitive st) (includeUnnamed st) gs in
  for_collect buckets (recomputeBucket st).

(** Body of the loop over [buckets.entries()] in [mergeDuplicatesByName]. *)
Definition mergeBucket (st : Settings) (windowId : Z)
           (entry : string * list Group) : Async (list MergeResult) :=
  let (key, bucket) := entry in
  match bucket with
  | _ :: _ :: _ =>
      counts <- promise_all bucket countTabs ;;
      match sortByCount counts with
      | [] => throw "counts[0] is undefined"
      | (target, _) :: rest =>
          let others := map fst rest in
          (if fastMerge st
           then try_catch (discardNonActiveTabsInGroup (group_id target))
           else ret tt) ;;;
          mergeGroupSet (group_id target) (map group_id others) (fastMerge st) ;;;
          let title := titleToSet bucket target in
          _ <- chrome.tabGroups_update (group_id target) title (keepCollapsed st) ;;
          ret [mkMergeResult windowId title (group_id target)
                             (Z.of_nat (length bucket) - 1)]
      end
  | _ => ret []
  end.

Definition mergeWindow (st : Settings) (entry : Z * list Group)
  : Async (list MergeResult) :=
  let (windowId, windowGroups) := entry in
  let buckets := buildBuckets (caseSensitive st) (includeUnnamed st) windowGroups in
  for_collect buckets (mergeBucket st windowId).

Definition mergeDuplicatesByName (scope : Scope) (windowId : option Z)
           (st : Settings) : Async (list MergeResult) :=
  gs <- listGroups scope windowId ;;
  let byWindow := partitionByWindow gs in
  for_collect byWindow (mergeWindow st).

(** [groupIds] is the array sent by the popup; [targetTitle] is absent when
    the popup's field is empty.  The settings are read from storage with
    [true] as the default of both. *)
Definition mergeSelectedGroups (targetTitle : option string)
           (groupIds : list Z) : Async SelectedResult :=
  if (length groupIds <? 2)%nat
  then ret (failure "Select at least two groups.")
  else
    details <- promise_all groupIds chrome.tabGroups_get ;;
    let byWindow := partitionByWindow details in
    if (1 <? length byWindow)%nat
    then ret (failure "For now, merge groups from one window at a time.")
    else
      match byWindow with
      | [] => throw "windowGroups is undefined"
      | (_, windowGroups) :: _ =>
          withCounts <- promise_all windowGroups countTabs ;;
          match sortByCount withCounts with
          | [] => throw "withCounts[0] is undefined"
          | (target, _) :: rest =>
              let others := map fst rest in
              let finalTitle :=
                JsString.trim (match targetTitle with
                               | Some t => t
                               | None => orEmpty (group_title target)
                               end) in
              stored <- chrome.storage_get ;;
              let keepCollapsed := match fst stored with Some b => b | None => true end in
              let fastMerge := match snd stored with Some b => b | None => true end in
              _ <- chrome.tabGroups_update (group_id target) (Some finalTitle)
                                           keepCollapsed ;;
              (if fastMerge
               then try_catch (discardNonActiveTabsInGroup (group_id target))
               else ret tt) ;;;
              mergeGroupSet (group_id target) (map group_id others) fastMerge ;;;
              ret (mkSelectedResult true None (Some (group_id target))
                                    (Some finalTitle)
                                    (Some (Z.of_nat (length others))))
          end
      end.

(** [findDuplicateTargetGroup] of the later revision. *)
Definition findDuplicateTargetGroup (windowId : Z) (title : option string)
           (caseSensitive includeUnnamed : bool) : Async (option Z) :=
  let key := normalizeTitle title caseSensitive in
  if negb includeUnnamed && String.eqb key "" then ret None
  else
    gs <- listGroups CurrentWindow (Some windowId) ;;
    let same := filter (fun g => String.eqb (normalizeTitle (group_title g) caseSensitive) key) gs in
    if (length same <? 2)%nat then ret None
    else
      match sortById same with
      | g :: _ => ret (Some (group_id g))
      | [] => throw "same[0] is undefined"
      end.

End Engine.

(* ================================================================== *)
(** * The per-window debouncer and the timers it arms

    Time is the event loop's clock.  [debounceTimers] is the script's map
    from [String(windowId)] to the id of the timer last armed for that
    window. *)

Module Debounce.
Section WithCallbacks.

Variable Fn : Type.

(** A pending timer: its id, the debounce key it was armed under, the
    time it is due and the callback it will run. *)
Record Timer := mkTimer {
  timer_id : Z;
  timer_key : Z;
  timer_due : Z;
  timer_fn : Fn
}.

Record Loop := mkLoop {
  now : Z;
  nextTimer : Z;
  pending : list Timer;
  debounceTimers : Z -> option Z;
  executed : list (Z * Fn * Z)
}.

(** No timer has been armed yet; [setTimeout] hands out ids from 1. *)
Definition start : Loop := mkLoop 0 1 [] (fun _ => None) [].

Definition clearTimeout (id : Z) (l : Loop) : Loop :=
  mkLoop (now l) (nextTimer l)
         (filter (fun t => negb (timer_id t =? id)) (pending l))
         (debounceTimers l) (executed l).

(** [const prev = debounceTimers.get(key); if (prev) clearTimeout(prev);
     const t = setTimeout(fn, delay); debounceTimers.set(key, t)] *)
Definition debounceByWindow (windowId : Z) (fn : Fn) (delay : Z) (l : Loop) : Loop :=
  let key := windowId in
  let l1 := match debounceTimers l key with
            | Some prev => if prev =? 0 then l else clearTimeout prev l
            | None => l
            end in
  let t := nextTimer l1 in
  mkLoop (now l1) (t + 1)
         (pending l1 ++ [mkTimer t key (now l1 + Z.max 0 delay) fn])
         (fun k => if k =? key then Some t else debounceTimers l1 k)
         (executed l1).

Definition isDue (t : Z) (x : Timer) : bool := timer_due x <=? t.

(** The clock reaches [t]: every timer due by then runs, earliest first,
    and is no longer pending. *)
Definition advance (t : Z) (l : Loop) : Loop :=
  let due := js_sort (fun a b => timer_due a - timer_due b)
                     (filter (isDue t) (pending l)) in
  mkLoop (Z.max (now l) t) (nextTimer l)
         (filter (fun x => negb (isDue t x)) (pending l))
         (debounceTimers l)
         (executed l ++ map (fun x => (timer_key x, timer_fn x, timer_due x)) due).

Inductive Event :=
| Schedule (windowId : Z) (fn : Fn) (delay : Z)
| Elapse (t : Z).

Definition handle (l : Loop) (e : Event) : Loop :=
  match e with
  | Schedule w fn d => debounceByWindow w fn d l
  | Elapse t => advance t l
  end.

Definition run (es : list Event) (l : Loop) : Loop := fold_left handle es l.

Definition pendingFor (w : Z) (l : Loop) : list Timer :=
  filter (fun x => timer_key x =? w) (pending l).

Definition executedFor (w : Z) (l : Loop) : list (Z * Fn * Z) :=
  filter (fun x => fst (fst x) =? w) (executed l).

(** A burst for one window: calls at times [t1 <= t2 <= ...], each made
    before the timer armed by the previous one is due. *)
Fixpoint isBurst (from : Z) (calls : list (Z * Fn * Z)) : Prop :=
  match calls with
  | [] => True
  | (t, _, d) :: rest =>
      from <= t /\
      match rest with
      | [] => True
      | (t', _, _) :: _ => t' < t + Z.max 0 d
      end /\
      isBurst t rest
  end.

Definition burstEvents (w : Z) (calls : list (Z * Fn * Z)) : list Event :=
  flat_map (fun c => [Elapse (fst (fst c)); Schedule w (snd (fst c)) (snd c)]) calls.

(** What the debouncer maintains: timer ids are positive and fresh ones
    are larger, pending timers have distinct ids, the map records, for
    every pending timer, that timer under its key, and no two keys
    record the same timer. *)
Definition wellKept (l : Loop) : Prop :=
  0 < nextTimer l /\
  (forall x, In x (pending l) -> 0 < timer_id x < nextTimer l) /\
  NoDup (map timer_id (pending l)) /\
  (forall x, In x (pending l) -> debounceTimers l (timer_key x) = Some (timer_id x)) /\
  (forall k i, debounceTimers l k = Some i -> 0 < i < nextTimer l) /\
  (forall k k' i, debounceTimers l k = Some i -> debounceTimers l k' = Some i -> k = k').

(** No timer of window [w] is due by time [t]. *)
Definition quietUntil (w t : Z) (l : Loop) : Prop :=
  forall x, In x (pending l) -> timer_key x = w -> t < timer_due x.

(** Time of the first call of a burst, and what the last call arms. *)
Definition firstTime (calls : list (Z * Fn * Z)) (default : Z) : Z :=
  match calls with
  | (t, _, _) :: _ => t
  | [] => default
  end.

Fixpoint lastArmed (w : Z) (calls : list (Z * Fn * Z)) : option (Z * Fn * Z) :=
  match calls with
  | [] => None
  | (t, fn, d) :: rest =>
      match rest with
      | [] => Some (w, fn, t + Z.max 0 d)
      | _ :: _ => lastArmed w rest
      end
  end.

End WithCallbacks.

Arguments mkTimer {Fn}.
Arguments timer_id {Fn}.
Arguments timer_key {Fn}.
Arguments timer_due {Fn}.
Arguments timer_fn {Fn}.
Arguments mkLoop {Fn}.
Arguments now {Fn}.
Arguments nextTimer {Fn}.
Arguments pending {Fn}.
Arguments debounceTimers {Fn}.
Arguments executed {Fn}.
Arguments start {Fn}.
Arguments clearTimeout {Fn}.
Arguments debounceByWindow {Fn}.
Arguments isDue {Fn}.
Arguments advance {Fn}.
Arguments Schedule {Fn}.
Arguments Elapse {Fn}.
Arguments handle {Fn}.
Arguments run {Fn}.
Arguments pendingFor {Fn}.
Arguments executedFor {Fn}.
Arguments isBurst {Fn}.
Arguments burstEvents {Fn}.
Arguments wellKept {Fn}.
Arguments quietUntil {Fn}.
Arguments firstTime {Fn}.
Arguments lastArmed {Fn}.

End Debounce.

(* ================================================================== *)
(** * Notions used to state the properties *)

Section Front.
Context {A : Type}.
Variable comparefn : A -> A -> Z.

(** What ends up in front: the first element that no later element beats. *)
Fixpoint front (l : list A) : option A :=
  match l with
  | [] => None
  | x :: r =>
      match front r with
      | None => Some x
      | Some y => if 0 <? comparefn x y then Some y else Some x
      end
  end.
End Front.

Section Buckets.
Context {K V : Type}.
Variable eqb : K -> K -> bool.
Variable key : V -> K.

Definition collect (l : list V) (m0 : JsMap) : JsMap :=
  fold_left (fun m x => map_push eqb (key x) x m) l m0.

(** [m] holds exactly the buckets of [l]: one entry per key that occurs,
    with the elements of that key in the order of [l]. *)
Definition bucketsOf (l : list V) (m : JsMap) : Prop :=
  NoDup (map fst m) /\
  (forall k b, In (k, b) m -> b <> [] /\ b = filter (fun x => eqb (key x) k) l) /\
  (forall x, In x l -> In (key x) (map fst m)).
End Buckets.

(** Whether a group takes part in bucketing at all. *)
Definition included (cs iu : bool) (g : Group) : bool :=
  negb (negb iu && String.eqb (normalizeTitle (group_title g) cs) "").

Definition keyOf (cs : bool) (g : Group) : string :=
  normalizeTitle (group_title g) cs.

(** The tabs of a group, and how many there are. *)
Definition tabsOf (gid : Z) (h : Host) : list Tab :=
  filter (fun t => tab_groupId t =? gid) (tabs h).

Definition tabCount (gid : Z) (h : Host) : Z :=
  Z.of_nat (length (tabsOf gid h)).

(** The host after further requests have been recorded. *)
Definition logged (l : list Request) (h : Host) : Host :=
  mkHost (groups h) (tabs h) (currentWindow h) (stored_keepCollapsed h)
         (stored_fastMerge h) (requests h ++ l).

(** [i] is the smallest identifier among [gs]. *)
Definition smallestId (gs : list Group) (i : Z) : Prop :=
  In i (map group_id gs) /\ Forall (fun g => i <= group_id g) gs.

(** ** What the script may ask of the browser

    One step is one request together with the host state the browser leaves
    behind.  A discard is asked only for a tab the script has listed and
    that its filter lets through; a move takes all the tabs one group
    currently has into another group; [canMove] and [canUpdate] say which
    groups an operation is entitled to touch. *)
Section Steps.
Variable avoidDiscard : Tab -> bool.
Variable canMove : Z -> Z -> Prop.
Variable canUpdate : Z -> Prop.

Inductive step : Host -> Request -> Host -> Prop :=
| step_discard (h : Host) (t : Tab) :
    In t (tabs h) -> avoidDiscard t = false ->
    step h (ReqDiscard (tab_id t)) (issue (ReqDiscard (tab_id t)) h)
| step_move (h : Host) (src dst : Z) :
    canMove src dst -> src <> dst -> tabsOf src h <> [] ->
    step h (ReqMove (map tab_id (tabsOf src h)) dst)
           (snd (chrome.tabs_group (map tab_id (tabsOf src h)) dst h))
| step_update (h : Host) (gid : Z) (title : option string) (c : bool) :
    canUpdate gid ->
    step h (ReqUpdate gid title c)
           (snd (chrome.tabGroups_update gid title c h)).

Inductive steps : Host -> list Request -> Host -> Prop :=
| steps_nil (h : Host) : steps h [] h
| steps_cons (h : Host) (r : Request) (h1 : Host) (l : list Request) (h2 : Host) :
    step h r h1 -> steps h1 l h2 -> steps h (r :: l) h2.

(** A computation that always returns, having taken such steps. *)
Definition runs {A} (m : Async A) : Prop :=
  forall h, exists a l h', m h = (Returned a, h') /\ steps h l h'.

(** A computation that takes such steps, whether it returns or rejects. *)
Definition reaches {A} (m : Async A) : Prop :=
  forall h, exists l, steps h l (snd (m h)).
End Steps.

(** A request that, if it moves tabs, moves them into [target], and that
    updates no group. *)
Definition movesInto (target : Z) (r : Request) : Prop :=
  match r with
  | ReqDiscard _ => True
  | ReqMove _ g => g = target
  | ReqUpdate _ _ _ => False
  end.

(** [target] is the first member of [bucket] with the largest tab count. *)
Definition firstLargest (h : Host) (bucket : list Group) (target : Group) : Prop :=
  exists pre post,
    bucket = pre ++ target :: post /\
    (forall g, In g pre -> tabCount (group_id g) h < tabCount (group_id target) h) /\
    (forall g, In g post -> tabCount (group_id g) h <= tabCount (group_id target) h).

(** The titles the specification speaks of: the titles of the members,
    trimmed, leaving out those that are empty once trimmed, in the order of
    the bucket. *)
Definition nonEmptyTrimmedTitles (bucket : list Group) : list string :=
  filter (fun t => negb (String.eqb t EmptyString))
         (map (fun g => JsString.trim (match group_title g with
                                       | Some t => t
                                       | None => EmptyString
                                       end)) bucket).

(** [t] occurs in [titles] at least as often as every other title, and
    more often than every title that comes before its first occurrence. *)
Definition mostFrequentFirst (titles : list string) (t : string) : Prop :=
  exists pre post,
    titles = pre ++ t :: post /\
    (forall x, In x pre ->
       (count_occ string_dec titles x < count_occ string_dec titles t)%nat) /\
    (forall x, In x post ->
       (count_occ string_dec titles x <= count_occ string_dec titles t)%nat).

(** ** A window used in the examples

    Three groups titled "Work", "work" and "Work " with three, one and five
    tabs, and three groups without a name. *)
Module Sample.
Open Scope string_scope.

Definition g40 := mkGroup 40 (Some "Work") 1 false.
Definition g12 := mkGroup 12 (Some "work") 1 false.
Definition g77 := mkGroup 77 (Some "Work ") 1 false.
Definition u5 := mkGroup 5 (Some "") 1 false.
Definition u6 := mkGroup 6 (Some "  ") 1 false.
Definition u7 := mkGroup 7 None 1 false.

Definition tab (i gid : Z) (active : bool) (url : string) : Tab :=
  mkTab i gid 1 active (Some url) None.

Definition host : Host :=
  mkHost [g40; g12; g77; u5; u6; u7]
         [tab 1 40 true "https://a.example/"; tab 2 40 false "https://b.example/";
          tab 3 40 false ""; tab 4 12 false "https://c.example/";
          tab 5 77 false "https://d.example/"; tab 6 77 false "about:blank";
          tab 7 77 false "https://e.example/"; tab 8 77 false "https://f.example/";
          tab 9 77 false "https://g.example/"; tab 10 5 false "https://h.example/";
          tab 11 6 false "https://i.example/"; tab 12 7 false "https://j.example/"]
         1 None None [].

Definition bucket : list Group := [g40; g12; g77].

(** A window whose three groups all lack a name. *)
Definition unnamedOnly : Host :=
  mkHost [u5; u6; u7]
         [tab 10 5 false "https://h.example/"; tab 11 6 false "https://i.example/";
          tab 12 7 true "https://j.example/"]
         1 None None [].

(** The same window next to a second one holding one more "Work" group. *)
Definition g90 := mkGroup 90 (Some "Work") 2 false.

Definition twoWindows : Host :=
  mkHost (groups host ++ [g90])
         (tabs host ++ [mkTab 13 90 2 true (Some "https://k.example/") None])
         1 None None [].

Definition settings : Settings := mkSettings false false true true.

(** A window with two groups that lack a name: one titled with the empty
    string and one tab, one titled with two spaces and two tabs. *)
Definition blankTitles : Host :=
  mkHost [u5; u6]
         [tab 10 5 false "https://h.example/"; tab 11 6 false "https://i.example/";
          tab 12 6 false "https://j.example/"]
         1 None None [].

(** The settings with [includeUnnamed] on. *)
Definition withUnnamed : Settings := mkSettings false true true true.
End Sample.

(** ** Well-formed hosts

    Identifiers are unique, and a group exists only while it has a tab. *)
Definition uniqueGroups (h : Host) : Prop := NoDup (map group_id (groups h)).
Definition uniqueTabs (h : Host) : Prop := NoDup (map tab_id (tabs h)).
Definition populated (h : Host) : Prop :=
  forall g, In g (groups h) -> tabsOf (group_id g) h <> [].
Definition wellFormed (h : Host) : Prop :=
  uniqueGroups h /\ uniqueTabs h /\ populated h.

(** The identifiers of the groups of a listing that take part in bucketing. *)
Definition takesPart (cs iu : bool) (listing : list Group) (i : Z) : Prop :=
  In i (map group_id (filter (included cs iu) listing)).

(** A request that neither moves tabs into [u], nor moves a tab that [u]
    had in [h0], nor updates [u]. *)
Definition leavesAlone (u : Group) (h0 : Host) (r : Request) : Prop :=
  match r with
  | ReqDiscard _ => True
  | ReqMove ids g =>
      g <> group_id u /\
      forall t, In t (tabsOf (group_id u) h0) -> ~ In (tab_id t) ids
  | ReqUpdate g _ _ => g <> group_id u
  end.

(** A request that, if it moves tabs, moves them into [target] and moves
    none of the tabs [target] had in [h0]. *)
Definition sparesTarget (target : Z) (h0 : Host) (r : Request) : Prop :=
  match r with
  | ReqMove ids g =>
      g = target /\ forall t, In t (tabsOf target h0) -> ~ In (tab_id t) ids
  | _ => True
  end.

(** A discard request is for a tab of [h0] that [avoid] lets through. *)
Definition discardsEligible (avoid : Tab -> bool) (h0 : Host) (r : Request) : Prop :=
  match r with
  | ReqDiscard i => exists t, In t (tabs h0) /\ tab_id t = i /\ avoid t = false
  | _ => True
  end.

(** ** Classes of groups

    Groups are duplicates of one another when they sit in the same window
    and their titles have the same key. *)
Definition class := (Z * string)%type.

Definition class_eqb (a b : class) : bool :=
  (fst a =? fst b) && String.eqb (snd a) (snd b).

Definition inClass (cs : bool) (c : class) (g : Group) : bool :=
  (group_windowId g =? fst c) && String.eqb (keyOf cs g) (snd c).

Definition classGroups (cs : bool) (c : class) (h : Host) : list Group :=
  filter (inClass cs c) (groups h).

Definition totalTabs (gs : list Group) (h : Host) : Z :=
  fold_right Z.add 0 (map (fun g => tabCount (group_id g) h) gs).

(** From [h] to [h'] the class has collapsed into one group that holds as
    many tabs as the groups of the class held together. *)
Definition merged (cs : bool) (c : class) (h h' : Host) : Prop :=
  exists g', classGroups cs c h' = [g'] /\
             tabCount (group_id g') h' = totalTabs (classGroups cs c h) h.

(** From [h] to [h'] the class has the same groups with as many tabs each. *)
Definition untouched (cs : bool) (c : class) (h h' : Host) : Prop :=
  classGroups cs c h' = classGroups cs c h /\
  forall g, In g (classGroups cs c h) -> tabCount (group_id g) h' = tabCount (group_id g) h.

(** The classes in [handled] that had at least two groups are merged, all
    others untouched, and the host is still well formed. *)
Definition effect (cs : bool) (handled : class -> bool) (h h' : Host) : Prop :=
  wellFormed h' /\
  map tab_id (tabs h') = map tab_id (tabs h) /\
  forall c, if handled c && (2 <=? length (classGroups cs c h))%nat
            then merged cs c h h'
            else untouched cs c h h'.

(** Whether a window is within what [listGroups] returns. *)
Definition inScope (scope : Scope) (windowId : option Z) (h : Host) (w : Z) : bool :=
  match windowId with
  | Some w' => w =? w'
  | None => match scope with
            | CurrentWindow => w =? currentWindow h
            | AllWindows => true
            end
  end.

(** Whether a key takes part in bucketing. *)
Definition includedKey (iu : bool) (k : string) : bool :=
  negb (negb iu && String.eqb k "").

Definition sumCounts (ids : list Z) (h : Host) : Z :=
  fold_right Z.add 0 (map (fun i => tabCount i h) ids).

(* ================================================================== *)
(** * The index of duplicate targets *)

(** What [recomputeAndDrainDuplicates] records under a bucket's key:
    [index.set(key, { target: target.id, others: others.map(g => g.id) })]
    for a bucket of two or more groups, nothing for a smaller one. *)
Definition indexEntry (entry : string * list Group) : list (string * (Z * list Z)) :=
  let (key, bucket) := entry in
  match bucket with
  | _ :: _ :: _ =>
      match sortById bucket with
      | target :: others => [(key, (group_id target, map group_id others))]
      | [] => []
      end
  | _ => []
  end.

(** [index.get(key)] *)
Definition index_get (key : string) (index : list (string * (Z * list Z)))
  : option (Z * list Z) :=
  option_map snd (find (fun e => String.eqb (fst e) key) index).

(** What one bucket of the recompute yields and leaves behind: the index
    entry of the bucket and, for a bucket of two or more groups, a class
    reduced to the member in front of the sorted bucket, titled as it
    was. *)
Definition recomputed (st : Settings) (w : Z) (entry : string * list Group)
           (res : list (string * (Z * list Z))) (h' : Host) : Prop :=
  res = indexEntry entry /\
  ((2 <= length (snd entry))%nat ->
   exists target others,
     sortById (snd entry) = target :: others /\
     classGroups (caseSensitive st) (w, fst entry) h'
     = [chrome.set_props (group_title target) (keepCollapsed st) target]).


(* ================================================================== *)
(** * Moving one tab as soon as it shows up *)

(** [moveTabToDuplicateTargetIfAny] of the later revision
    (src/unnamed/part_001); [tab] is the snapshot the event carries, and
    [g.title || ""] is the title looked up. *)
Definition moveTabToDuplicateTargetIfAny (tab : Tab)
           (caseSensitive includeUnnamed : bool) : Async unit :=
  try_catch
    (if tab_groupId tab <? 0 then ret tt
     else
       g <- chrome.tabGroups_get (tab_groupId tab) ;;
       targetId <- findDuplicateTargetGroup (tab_windowId tab)
                     (Some (orEmpty (group_title g))) caseSensitive includeUnnamed ;;
       match targetId with
       | Some i =>
           if negb (i =? 0) && negb (i =? group_id g)
           then try_catch (chrome.tabs_group [tab_id tab] i)
           else ret tt
       | None => ret tt
       end).

(** When that function has something to do for [tab]: the snapshot names a
    group that exists, the key of the group's title takes part, two or more
    groups of the tab's window share the key, and the one with the smallest
    id, [i], is neither falsy nor the tab's own group. *)
Definition hasDuplicateTarget (tab : Tab) (cs iu : bool) (h : Host)
           (g : Group) (i : Z) : Prop :=
  0 <= tab_groupId tab /\
  chrome.find_group (tab_groupId tab) h = Some g /\
  includedKey iu (keyOf cs g) = true /\
  (2 <= length (classGroups cs (tab_windowId tab, keyOf cs g) h))%nat /\
  smallestId (classGroups cs (tab_windowId tab, keyOf cs g) h) i /\
  i <> 0 /\ i <> group_id g.

(** The part of [tabCreatedHandlerRef] and [tabUpdatedHandlerRef] of
    src/background.js that looks the tab's group up in the index last stored
    for its window, [duplicateTargets.get(tab.windowId)], and moves the tab
    into the recorded target. *)
Definition moveToRecordedTarget (duplicateTargets : Z -> option (list (string * (Z * list Z))))
           (caseSensitive : bool) (tabId : Z) (tab : Tab) : Async unit :=
  if 0 <=? tab_groupId tab
  then
    match duplicateTargets (tab_windowId tab) with
    | Some st =>
        try_catch
          (g <- chrome.tabGroups_get (tab_groupId tab) ;;
           let key := normalizeTitle (group_title g) caseSensitive in
           match index_get key st with
           | Some e =>
               if negb (fst e =? 0) && negb (fst e =? group_id g)
               then try_catch (chrome.tabs_group [tabId] (fst e))
               else ret tt
           | None => ret tt
           end)
    | None => ret tt
    end
  else ret tt.

(** When that lookup finds something to do: the index stored for the
    tab's window records, under the key of the tab's group, a target that
    is neither falsy nor the tab's own group. *)
Definition hasRecordedTarget (duplicateTargets : Z -> option (list (string * (Z * list Z))))
           (cs : bool) (tab : Tab) (h : Host) (g : Group) (target : Z) : Prop :=
  0 <= tab_groupId tab /\
  exists st others,
    duplicateTargets (tab_windowId tab) = Some st /\
    chrome.find_group (tab_groupId tab) h = Some g /\
    index_get (keyOf cs g) st = Some (target, others) /\
    target <> 0 /\ target <> group_id g.

(** [tabCreatedHandlerRef]: an active tab is left alone; any other tab is
    discarded at once and then moved if its group is a recorded
    duplicate. *)
Definition tabCreatedHandler (duplicateTargets : Z -> option (list (string * (Z * list Z))))
           (caseSensitive : bool) (tab : Tab) : Async unit :=
  if tab_active tab then ret tt
  else
    try_catch (chrome.tabs_discard (tab_id tab)) ;;;
    moveToRecordedTarget duplicateTargets caseSensitive (tab_id tab) tab.

(** What [chrome.tabs.onUpdated] reports to have changed. *)
Record ChangeInfo := mkChangeInfo {
  change_groupId : option Z;
  change_status : option string;
  change_url : option string
}.

(** [tabUpdatedHandlerRef]: acts when the tab has just joined a group or
    started loading, and is not active. *)
Definition tabUpdatedHandler (duplicateTargets : Z -> option (list (string * (Z * list Z))))
           (caseSensitive : bool) (tabId : Z) (changeInfo : ChangeInfo) (tab : Tab)
  : Async unit :=
  let joinedGroup := match change_groupId changeInfo with
                     | Some g => 0 <=? g
                     | None => false
                     end in
  let startedLoading := match change_status changeInfo with
                        | Some s => String.eqb s "loading"
                        | None => false
                        end in
  if (joinedGroup || startedLoading) && negb (tab_active tab)
  then
    try_catch (chrome.tabs_discard tabId) ;;;
    moveToRecordedTarget duplicateTargets caseSensitive tabId tab
  else ret tt.

(* ================================================================== *)
(** * Stored settings *)

Inductive JsValue :=
| JsBool (b : bool)
| JsText (s : string).

(** A plain object: its own properties in insertion order. *)
Definition JsObject := list (string * JsValue).

(** [o[k]], [None] standing for [undefined] *)
Fixpoint obj_get (k : string) (o : JsObject) : option JsValue :=
  match o with
  | [] => None
  | (k', v) :: r => if String.eqb k k' then Some v else obj_get k r
  end.

(** [o[k] = v] *)
Fixpoint obj_set (k : string) (v : JsValue) (o : JsObject) : JsObject :=
  match o with
  | [] => [(k, v)]
  | (k', v') :: r =>
      if String.eqb k k' then (k', v) :: r else (k', v') :: obj_set k v r
  end.

(** [Object.assign(target, source)], which is also [{ ...target, ...source }] *)
Definition obj_assign (target source : JsObject) : JsObject :=
  fold_left (fun o kv => obj_set (fst kv) (snd kv) o) source target.

(** [Object.keys(o)] *)
Definition obj_keys (o : JsObject) : list string := map fst o.

(** [!!v] *)
Definition js_truthy (v : JsValue) : bool :=
  match v with
  | JsBool b => b
  | JsText s => JsString.truthy s
  end.

(** [!!o[k]] *)
Definition flag (k : string) (o : JsObject) : bool :=
  match obj_get k o with
  | Some v => js_truthy v
  | None => false
  end.

Definition DEFAULTS : JsObject :=
  [("autoMerge"%string, JsBool false);
   ("caseSensitive"%string, JsBool false);
   ("includeUnnamed"%string, JsBool false);
   ("fastMerge"%string, JsBool true);
   ("keepCollapsed"%string, JsBool true);
   ("scope"%string, JsText "currentWindow")].

(** [chrome.storage.sync.get(keys)]: the stored items among [keys]. *)
Definition storage_sync_get (keys : list string) (area : JsObject) : JsObject :=
  flat_map (fun k => match obj_get k area with
                     | Some v => [(k, v)]
                     | None => []
                     end) keys.

(** [chrome.storage.sync.set(items)] *)
Definition storage_sync_set (items : JsObject) (area : JsObject) : JsObject :=
  obj_assign area items.

(** The listener of [chrome.runtime.onInstalled]: every default that is
    not stored yet is stored. *)
Definition onInstalled (area : JsObject) : JsObject :=
  let stored := storage_sync_get (obj_keys DEFAULTS) area in
  let toSet :=
    fold_left (fun o kv => match obj_get (fst kv) stored with
                           | None => obj_set (fst kv) (snd kv) o
                           | Some _ => o
                           end) DEFAULTS [] in
  match obj_keys toSet with
  | [] => area
  | _ :: _ => storage_sync_set toSet area
  end.

(* ================================================================== *)
(** * The message router and the keyboard shortcut *)

(** The storage area next to the browser. *)
Record World := mkWorld {
  storage : JsObject;
  browser : Host
}.

(** The browser as the script sees it: what [mergeSelectedGroups] reads
    with [chrome.storage.sync.get(["keepCollapsed", "fastMerge"])] and then
    tests for truth comes from the storage area. *)
Definition seen (w : World) : Host :=
  mkHost (groups (browser w)) (tabs (browser w)) (currentWindow (browser w))
         (option_map js_truthy (obj_get "keepCollapsed" (storage w)))
         (option_map js_truthy (obj_get "fastMerge" (storage w)))
         (requests (browser w)).

(** A message of the popup or of the options page; an absent field is
    [None]. *)
Record Message := mkMessage {
  msg_type : string;
  msg_scope : option string;
  msg_caseSensitive : option bool;
  msg_includeUnnamed : option bool;
  msg_fastMerge : option bool;
  msg_keepCollapsed : option bool;
  msg_targetTitle : option string;
  msg_groupIds : option (list Z);
  msg_settings : option JsObject
}.

(** What [sendResponse] is called with. *)
Inductive Response :=
| ListedGroups (groups : list (Group * Z))
| MergedDuplicates (tabGroups : list MergeResult)
| MergedSelected (res : SelectedResult)
| CurrentSettings (settings : JsObject)
| Saved
| Failed (error : string).

(** [const { scope = "currentWindow" } = msg], as [listGroups] reads it:
    any string but "currentWindow" lists all windows. *)
Definition scopeOf (scope : option string) : Scope :=
  match scope with
  | None => CurrentWindow
  | Some s => if String.eqb s "currentWindow" then CurrentWindow else AllWindows
  end.

(** [msg.x ?? !!st.x] *)
Definition orStored (x : option bool) (k : string) (st : JsObject) : bool :=
  match x with
  | Some b => b
  | None => flag k st
  end.

(** [String(e?.message || e)] for an [Error] with message [e] *)
Definition errorText (e : string) : string :=
  if JsString.truthy e then e else "Error"%string.

(** [try { ...; sendResponse(f(result)) } catch (e) { sendResponse({ ok:
    false, error: ... }) }] *)
Definition respond {A} (f : A -> Response) (area : JsObject) (r : Outcome A * Host)
  : Response * World :=
  match r with
  | (Returned a, h) => (f a, mkWorld area h)
  | (Thrown e, h) => (Failed (errorText e), mkWorld area h)
  end.

Section Router.
Variable avoidDiscard : Tab -> bool.

Definition onMessage (msg : Message) (w : World) : Response * World :=
  let area := storage w in
  if String.eqb (msg_type msg) "LIST_GROUPS" then
    respond ListedGroups area
      ((gs <- listGroups (scopeOf (msg_scope msg)) None ;;
        promise_all gs countTabs) (seen w))
  else if String.eqb (msg_type msg) "MERGE_DUPLICATES" then
    let st := storage_sync_get (obj_keys DEFAULTS) area in
    respond MergedDuplicates area
      (mergeDuplicatesByName avoidDiscard (scopeOf (msg_scope msg)) None
         (mkSettings (orStored (msg_caseSensitive msg) "caseSensitive" st)
                     (orStored (msg_includeUnnamed msg) "includeUnnamed" st)
                     (orStored (msg_fastMerge msg) "fastMerge" st)
                     (orStored (msg_keepCollapsed msg) "keepCollapsed" st))
         (seen w))
  else if String.eqb (msg_type msg) "MERGE_SELECTED" then
    respond MergedSelected area
      (match msg_groupIds msg with
       | Some groupIds =>
           mergeSelectedGroups avoidDiscard (msg_targetTitle msg) groupIds (seen w)
       | None => (Returned (failure "Select at least two groups."), seen w)
       end)
  else if String.eqb (msg_type msg) "GET_SETTINGS" then
    let st := storage_sync_get (obj_keys DEFAULTS) area in
    (CurrentSettings (obj_assign DEFAULTS st), w)
  else if String.eqb (msg_type msg) "SET_SETTINGS" then
    (Saved,
     mkWorld (storage_sync_set (match msg_settings msg with
                                | Some s => s
                                | None => []
                                end) area)
             (browser w))
  else (Failed "Unknown message type.", w).

(** The listener of [chrome.commands.onCommand]. *)
Definition onCommand (cmd : string) (w : World) : World :=
  if String.eqb cmd "merge_same_names_current_window" then
    let st := storage_sync_get ["caseSensitive"; "includeUnnamed"; "fastMerge";
                                "keepCollapsed"]%string (storage w) in
    mkWorld (storage w)
            (snd (mergeDuplicatesByName avoidDiscard CurrentWindow None
                    (mkSettings (flag "caseSensitive" st) (flag "includeUnnamed" st)
                                (flag "fastMerge" st) (flag "keepCollapsed" st))
                    (seen w)))
  else w.

End Router.

(* ================================================================== *)
(** * Attaching the listeners *)

Inductive EventName :=
| TabGroupsOnCreated | TabGroupsOnUpdated | TabGroupsOnMoved | TabGroupsOnRemoved
| TabsOnUpdated | TabsOnMoved | TabsOnDetached | TabsOnAttached | TabsOnCreated.

(** The functions that [maybeAttachAutoMergeListeners] creates: the eight
    members of [autoHandlerRef] and the two early-discard handlers. *)
Inductive Role :=
| OnGroupCreated | OnGroupUpdated | OnGroupMoved | OnGroupRemoved
| OnTabUpdated | OnTabMoved | OnTabDetached | OnTabAttached
| TabCreatedHandler | TabUpdatedHandler.

(** What the closures of one call capture: [enabled] and the four
    settings, as the truth values the closures test. *)
Record Captured := mkCaptured {
  enabled : bool;
  cap_caseSensitive : bool;
  cap_includeUnnamed : bool;
  cap_fastMerge : bool;
  cap_keepCollapsed : bool
}.

(** A function object: every call of [maybeAttachAutoMergeListeners]
    creates new ones, so a listener is told apart by the call that made it
    and by its role. *)
Record Listener := mkListener {
  made : nat;
  role : Role;
  captured : Captured
}.

Definition event_eqb (a b : EventName) : bool :=
  match a, b with
  | TabGroupsOnCreated, TabGroupsOnCreated | TabGroupsOnUpdated, TabGroupsOnUpdated
  | TabGroupsOnMoved, TabGroupsOnMoved | TabGroupsOnRemoved, TabGroupsOnRemoved
  | TabsOnUpdated, TabsOnUpdated | TabsOnMoved, TabsOnMoved
  | TabsOnDetached, TabsOnDetached | TabsOnAttached, TabsOnAttached
  | TabsOnCreated, TabsOnCreated => true
  | _, _ => false
  end.

Definition role_eqb (a b : Role) : bool :=
  match a, b with
  | OnGroupCreated, OnGroupCreated | OnGroupUpdated, OnGroupUpdated
  | OnGroupMoved, OnGroupMoved | OnGroupRemoved, OnGroupRemoved
  | OnTabUpdated, OnTabUpdated | OnTabMoved, OnTabMoved
  | OnTabDetached, OnTabDetached | OnTabAttached, OnTabAttached
  | TabCreatedHandler, TabCreatedHandler | TabUpdatedHandler, TabUpdatedHandler => true
  | _, _ => false
  end.

(** [f === g] for function objects *)
Definition same_function (f g : Listener) : bool :=
  (made f =? made g)%nat && role_eqb (role f) (role g).

Definition Registry := EventName -> list Listener.

(** [event.removeListener(f)] *)
Definition removeListener (e : EventName) (f : Listener) (r : Registry) : Registry :=
  fun e' => if event_eqb e' e
            then filter (fun g => negb (same_function g f)) (r e')
            else r e'.

(** [event.addListener(f)]; a function already registered is not
    registered twice. *)
Definition addListener (e : EventName) (f : Listener) (r : Registry) : Registry :=
  fun e' => if event_eqb e' e
            then if existsb (fun g => same_function g f) (r e')
                 then r e'
                 else r e' ++ [f]
            else r e'.

(** The script's variables that track what is attached, with the browser's
    registry of listeners. *)
Record Script := mkScript {
  attachments : nat;
  autoHandlerRef : option (nat * Captured);
  tabCreatedHandlerRef : option Listener;
  tabUpdatedHandlerRef : option Listener;
  tabGroupHandlersAttached : bool;
  listeners : Registry
}.

(** The script when the service worker starts. *)
Definition freshScript : Script := mkScript 0 None None None false (fun _ => []).

(** The events [autoHandlerRef]'s members are registered for, in the order
    of the script. *)
Definition autoEvents : list (EventName * Role) :=
  [(TabGroupsOnCreated, OnGroupCreated); (TabGroupsOnUpdated, OnGroupUpdated);
   (TabGroupsOnMoved, OnGroupMoved); (TabGroupsOnRemoved, OnGroupRemoved);
   (TabsOnUpdated, OnTabUpdated); (TabsOnMoved, OnTabMoved);
   (TabsOnDetached, OnTabDetached); (TabsOnAttached, OnTabAttached)].

(** What an attachment captures from the storage area:
    [enabled = !!autoMerge] and the truth values of the four settings. *)
Definition capturedFrom (area : JsObject) : Captured :=
  mkCaptured (flag "autoMerge" area) (flag "caseSensitive" area)
             (flag "includeUnnamed" area) (flag "fastMerge" area)
             (flag "keepCollapsed" area).

(** [maybeAttachAutoMergeListeners] of src/background.js, from the point
    where [chrome.storage.sync.get] has answered with [area]'s values. *)
Definition maybeAttachAutoMergeListeners (area : JsObject) (s : Script) : Script :=
  let n := attachments s in
  let c := capturedFrom area in
  let detached :=
    match tabGroupHandlersAttached s, autoHandlerRef s with
    | true, Some old =>
        fold_left (fun r er => removeListener (fst er)
                                 (mkListener (fst old) (snd er) (snd old)) r)
                  autoEvents (listeners s)
    | _, _ => listeners s
    end in
  let attached :=
    fold_left (fun r er => addListener (fst er) (mkListener n (snd er) c) r)
              autoEvents detached in
  let withoutCreated :=
    match tabCreatedHandlerRef s with
    | Some f => removeListener TabsOnCreated f attached
    | None => attached
    end in
  let withoutUpdated :=
    match tabUpdatedHandlerRef s with
    | Some f => removeListener TabsOnUpdated f withoutCreated
    | None => withoutCreated
    end in
  if cap_fastMerge c
  then
    let created := mkListener n TabCreatedHandler c in
    let updated := mkListener n TabUpdatedHandler c in
    mkScript (S n) (Some (n, c)) (Some created) (Some updated) true
             (addListener TabsOnUpdated updated
                (addListener TabsOnCreated created withoutUpdated))
  else
    mkScript (S n) (Some (n, c)) None None true withoutUpdated.

(** The script after the storage area has been read as [areas], one
    attachment after the other: once at start-up and once for every change
    of the storage. *)
Definition attachAll (areas : list JsObject) (s : Script) : Script :=
  fold_left (fun s area => maybeAttachAutoMergeListeners area s) areas s.

(** What a listener asks of the timers when it runs. *)
Inductive Scheduled :=
| Debounced (windowId : Z) (delay : Z) (st : Settings)
| DiscardLater (groupId : Z) (delay : Z).

(** An event with what the browser passes to its listeners. *)
Inductive BrowserEvent :=
| GroupCreated (g : Group)
| GroupUpdated (g : Group)
| GroupMoved (g : Group)
| GroupRemoved (g : Group)
| TabUpdated (tabId : Z) (changeInfo : ChangeInfo) (tab : Tab)
| TabMoved (tabId : Z) (windowId : Z)
| TabDetached (tabId : Z) (oldWindowId : Z)
| TabAttached (tabId : Z) (newWindowId : Z)
| TabCreated (tab : Tab).

Definition eventName (e : BrowserEvent) : EventName :=
  match e with
  | GroupCreated _ => TabGroupsOnCreated
  | GroupUpdated _ => TabGroupsOnUpdated
  | GroupMoved _ => TabGroupsOnMoved
  | GroupRemoved _ => TabGroupsOnRemoved
  | TabUpdated _ _ _ => TabsOnUpdated
  | TabMoved _ _ => TabsOnMoved
  | TabDetached _ _ => TabsOnDetached
  | TabAttached _ _ => TabsOnAttached
  | TabCreated _ => TabsOnCreated
  end.

(** The settings a closure passes to [recomputeAndDrainDuplicates]. *)
Definition settingsOf (c : Captured) : Settings :=
  mkSettings (cap_caseSensitive c) (cap_includeUnnamed c) (cap_fastMerge c)
             (cap_keepCollapsed c).

(** [handler(windowId)]: nothing when auto-merge is off, else a debounced
    recompute of the window with the default delay. *)
Definition handler (c : Captured) (windowId : Z) : list Scheduled :=
  if enabled c then [Debounced windowId 400 (settingsOf c)] else [].

(** The calls of [debounceByWindow] and [setTimeout] a listener makes for
    an event.  The two early-discard handlers arm no timer. *)
Definition schedules (f : Listener) (e : BrowserEvent) : list Scheduled :=
  let c := captured f in
  match role f, e with
  | OnGroupCreated, GroupCreated g =>
      (if enabled c then [Debounced (group_windowId g) 80 (settingsOf c)] else [])
      ++ (if cap_fastMerge c then [DiscardLater (group_id g) 80] else [])
  | OnGroupUpdated, GroupUpdated g => handler c (group_windowId g)
  | OnGroupMoved, GroupMoved g => handler c (group_windowId g)
  | OnGroupRemoved, GroupRemoved g => handler c (group_windowId g)
  | OnTabUpdated, TabUpdated _ _ tab =>
      if 0 <=? tab_groupId tab then handler c (tab_windowId tab) else []
  | OnTabMoved, TabMoved _ windowId => handler c windowId
  | OnTabDetached, TabDetached _ oldWindowId => handler c oldWindowId
  | OnTabAttached, TabAttached _ newWindowId => handler c newWindowId
  | _, _ => []
  end.

(** The browser runs every listener registered for the event. *)
Definition dispatch (s : Script) (e : BrowserEvent) : list Scheduled :=
  flat_map (fun f => schedules f e) (listeners s (eventName e)).

(** The window an event is about, as the listeners read it. *)
Definition windowOf (e : BrowserEvent) : Z :=
  match e with
  | GroupCreated g | GroupUpdated g | GroupMoved g | GroupRemoved g => group_windowId g
  | TabUpdated _ _ tab | TabCreated tab => tab_windowId tab
  | TabMoved _ w | TabDetached _ w | TabAttached _ w => w
  end.

(** What is registered after an attachment made as call [n] with [c]
    captured: one listener per event, and the two early-discard handlers
    when [fastMerge] is on. *)
Definition registered (n : nat) (c : Captured) : Registry :=
  fun e =>
    match e with
    | TabGroupsOnCreated => [mkListener n OnGroupCreated c]
    | TabGroupsOnUpdated => [mkListener n OnGroupUpdated c]
    | TabGroupsOnMoved => [mkListener n OnGroupMoved c]
    | TabGroupsOnRemoved => [mkListener n OnGroupRemoved c]
    | TabsOnUpdated =>
        mkListener n OnTabUpdated c
        :: (if cap_fastMerge c then [mkListener n TabUpdatedHandler c] else [])
    | TabsOnMoved => [mkListener n OnTabMoved c]
    | TabsOnDetached => [mkListener n OnTabDetached c]
    | TabsOnAttached => [mkListener n OnTabAttached c]
    | TabsOnCreated => if cap_fastMerge c then [mkListener n TabCreatedHandler c] else []
    end.

(** The script's variables and the registry right after the attachment
    made as call [n] with [c] captured. *)
Definition attachedAs (n : nat) (c : Captured) (s : Script) : Prop :=
  attachments s = S n /\
  autoHandlerRef s = Some (n, c) /\
  tabGroupHandlersAttached s = true /\
  tabCreatedHandlerRef s
  = (if cap_fastMerge c then Some (mkListener n TabCreatedHandler c) else None) /\
  tabUpdatedHandlerRef s
  = (if cap_fastMerge c then Some (mkListener n TabUpdatedHandler c) else None) /\
  forall e, listeners s e = registered n c e.

(* ================================================================== *)
(** * The options page and the popup *)

Module Options.

(** The ids of the five checkboxes. *)
Definition ids : list string :=
  ["autoMerge"; "caseSensitive"; "includeUnnamed"; "fastMerge"; "keepCollapsed"]%string.

(** [save]: the message sent for the boxes as they are checked,
    [settings[id] = !!els[id].checked] for every id. *)
Definition save (checked : string -> bool) : Message :=
  mkMessage "SET_SETTINGS" None None None None None None None
            (Some (fold_left (fun settings id => obj_set id (JsBool (checked id)) settings)
                             ids [])).

Definition getSettings : Message :=
  mkMessage "GET_SETTINGS" None None None None None None None None.

(** [load]: what a box shows for the answer to [GET_SETTINGS],
    [!!s[id]] with [s = st?.settings || {}]. *)
Definition load (st : Response) (id : string) : bool :=
  match st with
  | CurrentSettings s => flag id s
  | _ => false
  end.

End Options.

Module Popup.

(** The click on "merge duplicates": the settings are asked for, and two
    of them are sent along with the request for the current window. *)
Definition mergeDuplicates (avoidDiscard : Tab -> bool) (w : World) : Response * World :=
  let st := onMessage avoidDiscard Options.getSettings w in
  onMessage avoidDiscard
    (mkMessage "MERGE_DUPLICATES" (Some "currentWindow"%string)
               (Some (Options.load (fst st) "caseSensitive"))
               (Some (Options.load (fst st) "includeUnnamed"))
               None None None None None)
    (snd st).

End Popup.

(* ================================================================== *)
(** * Which tabs are asked to be discarded *)

(** Every discard request of [l] names a tab of [h0] that satisfies [P]. *)
Definition discardsOnly (P : Tab -> Prop) (h0 : Host) (l : list Request) : Prop :=
  forall i, In (ReqDiscard i) l -> exists t, In t (tabs h0) /\ tab_id t = i /\ P t.

(** A tab that shows a page: its URL, trimmed, is neither empty nor
    about:blank, and no navigation is pending. *)
Definition committed (t : Tab) : Prop :=
  JsString.trim (orEmpty (tab_url t)) <> EmptyString /\
  JsString.trim (orEmpty (tab_url t)) <> "about:blank"%string /\
  (tab_pendingUrl t = None \/ tab_pendingUrl t = Some EmptyString).

(* ================================================================== *)
(** * What the explicit merge leaves of a bucket *)

(** What one bucket of [mergeDuplicatesByName] yields and leaves behind,
    the tab counts being those of [h0]: nothing for a bucket of fewer than
    two groups; otherwise the entry pushed to [results] and a class
    reduced to the member in front of the sorted counts, with the title
    chosen for it. *)
Definition mergedBucket (st : Settings) (w : Z) (h0 : Host)
           (entry : string * list Group) (res : list MergeResult) (h' : Host) : Prop :=
  match snd entry with
  | _ :: _ :: _ =>
      exists target n rest,
        sortByCount (map (fun g => (g, tabCount (group_id g) h0)) (snd entry))
          = (target, n) :: rest /\
        res = [mkMergeResult w (titleToSet (snd entry) target) (group_id target)
                             (Z.of_nat (length (snd entry)) - 1)] /\
        classGroups (caseSensitive st) (w, fst entry) h'
          = [chrome.set_props (titleToSet (snd entry) target) (keepCollapsed st) target]
  | _ => res = []
  end.

(** The same for a window: one list of entries per bucket. *)
Definition mergedWindow (st : Settings) (h0 : Host) (entry : Z * list Group)
           (res : list MergeResult) (h' : Host) : Prop :=
  exists rs,
    res = concat rs /\
    Forall2 (fun e r => mergedBucket st (fst entry) h0 e r h')
            (buildBuckets (caseSensitive st) (includeUnnamed st) (snd entry)) rs.

(* ================================================================== *)
(** * Facts about strings and title normalisation *)

Module JsStringFacts.
Import JsString.

Lemma trimEnd_idem (s : string) : trimEnd (trimEnd s) = trimEnd s.
Proof.
  induction s as [|c r IH]; simpl; [reflexivity|].
  destruct (trimEnd r) as [|a r'] eqn:E.
  - destruct (isWhiteSpace c) eqn:W; simpl; [reflexivity|].
    now rewrite W.
  - change (trimEnd (String c (String a r'))) with
      (match trimEnd (String a r') with
       | EmptyString => if isWhiteSpace c then EmptyString else String c EmptyString
       | r'' => String c r''
       end).
    now rewrite IH.
Qed.

Lemma trimStart_fixed (c : ascii) (r : string) :
  isWhiteSpace c = false -> trimStart (String c r) = String c r.
Proof. intros W; simpl; now rewrite W. Qed.

Lemma trimStart_cases (s : string) :
  trimStart s = EmptyString \/
  exists c r, trimStart s = String c r /\ isWhiteSpace c = false.
Proof.
  induction s as [|c r IH]; simpl; [now left|].
  destruct (isWhiteSpace c) eqn:W; [exact IH|].
  right; now exists c, r.
Qed.

Lemma trimEnd_keeps_head (c : ascii) (r : string) :
  isWhiteSpace c = false -> exists r', trimEnd (String c r) = String c r'.
Proof.
  intros W; simpl. destruct (trimEnd r); [rewrite W|]; eauto.
Qed.

Lemma trim_idem (s : string) : trim (trim s) = trim s.
Proof.
  unfold trim.
  destruct (trimStart_cases s) as [E | (c & r & E & W)]; rewrite E.
  - reflexivity.
  - destruct (trimEnd_keeps_head c r W) as [r' E'].
    rewrite E', (trimStart_fixed c r' W), <- E'. apply trimEnd_idem.
Qed.

Lemma toLowerCase_empty (s : string) :
  toLowerCase s = EmptyString <-> s = EmptyString.
Proof. destruct s; simpl; split; congruence. Qed.

Lemma truthy_false (s : string) : truthy s = false <-> s = EmptyString.
Proof. destruct s; simpl; split; congruence. Qed.

End JsStringFacts.

Lemma normalizeTitle_trimmed (title : option string) (cs : bool) :
  normalizeTitle (Some (JsString.trim (orEmpty title))) cs = normalizeTitle title cs.
Proof.
  unfold normalizeTitle; simpl. now rewrite JsStringFacts.trim_idem.
Qed.

Lemma normalizeTitle_empty (title : option string) (cs : bool) :
  normalizeTitle title cs = EmptyString <-> JsString.trim (orEmpty title) = EmptyString.
Proof.
  unfold normalizeTitle. destruct cs; [tauto|].
  apply JsStringFacts.toLowerCase_empty.
Qed.

(* ================================================================== *)
(** * Facts about the stable sort *)

Section JsSortFacts.
Context {A : Type}.
Variable comparefn : A -> A -> Z.

Lemma sort_insert_head (x : A) (l : list A) :
  hd_error (sort_insert comparefn x l) =
  match hd_error l with
  | None => Some x
  | Some y => if 0 <? comparefn x y then Some y else Some x
  end.
Proof. destruct l as [|y r]; simpl; [reflexivity|]. now destruct (0 <? comparefn x y). Qed.

Lemma js_sort_head (l : list A) : hd_error (js_sort comparefn l) = front comparefn l.
Proof.
  induction l as [|x r IH]; simpl; [reflexivity|].
  now rewrite sort_insert_head, IH.
Qed.

Lemma sort_insert_length (x : A) (l : list A) :
  length (sort_insert comparefn x l) = S (length l).
Proof.
  induction l as [|y r IH]; simpl; [reflexivity|].
  destruct (0 <? comparefn x y); simpl; congruence.
Qed.

Lemma js_sort_length (l : list A) : length (js_sort comparefn l) = length l.
Proof.
  induction l as [|x r IH]; simpl; [reflexivity|].
  now rewrite sort_insert_length, IH.
Qed.

Lemma sort_insert_In (x : A) (l : list A) (y : A) :
  In y (sort_insert comparefn x l) <-> y = x \/ In y l.
Proof.
  induction l as [|z r IH]; simpl.
  - intuition congruence.
  - destruct (0 <? comparefn x z); simpl; rewrite ?IH; intuition congruence.
Qed.

Lemma js_sort_In (l : list A) (y : A) : In y (js_sort comparefn l) <-> In y l.
Proof.
  induction l as [|x r IH]; simpl; [tauto|].
  rewrite sort_insert_In, IH. intuition congruence.
Qed.

(** When the comparator orders by a score, descending, the front element
    has the greatest score and is the first to reach it. *)
Variable score : A -> Z.
Hypothesis comparefn_score :
  forall a b, (0 <? comparefn a b) = (score a <? score b).

Lemma front_greatest (l : list A) (m : A) :
  front comparefn l = Some m ->
  exists pre post,
    l = pre ++ m :: post /\
    (forall x, In x pre -> score x < score m) /\
    (forall x, In x post -> score x <= score m).
Proof.
  revert m; induction l as [|x r IH]; simpl; intros m H; [discriminate|].
  destruct (front comparefn r) as [y|] eqn:F.
  - destruct (IH y eq_refl) as (pre & post & -> & Hpre & Hpost).
    rewrite comparefn_score in H.
    destruct (score x <? score y) eqn:C; inversion H; subst m; clear H.
    + apply Z.ltb_lt in C. exists (x :: pre), post. repeat split; auto.
      intros z [<-|Hz]; auto.
    + apply Z.ltb_ge in C. exists [], (pre ++ y :: post). repeat split.
      * intros z [].
      * intros z Hz. apply in_app_or in Hz. destruct Hz as [Hz|[<-|Hz]].
        -- specialize (Hpre z Hz). lia.
        -- exact C.
        -- specialize (Hpost z Hz). lia.
  - inversion H; subst m. destruct r as [|z r'].
    + exists [], []. repeat split; intros ? [].
    + simpl in F. destruct (front comparefn r'); [destruct (0 <? comparefn z a)|]; discriminate.
Qed.

Lemma front_nonempty (l : list A) : l <> [] -> exists m, front comparefn l = Some m.
Proof.
  destruct l as [|x r]; [congruence|]. intros _; simpl.
  destruct (front comparefn r); [destruct (0 <? comparefn x a)|]; eauto.
Qed.
End JsSortFacts.

Section JsSortPermutation.
Context {A : Type}.
Variable comparefn : A -> A -> Z.

Lemma sort_insert_perm (x : A) (l : list A) :
  Permutation (sort_insert comparefn x l) (x :: l).
Proof.
  induction l as [|y r IH]; simpl; [reflexivity|].
  destruct (0 <? comparefn x y); [|reflexivity].
  rewrite IH. apply perm_swap.
Qed.

Lemma js_sort_perm (l : list A) : Permutation (js_sort comparefn l) l.
Proof.
  induction l as [|x r IH]; simpl; [reflexivity|].
  rewrite sort_insert_perm. now constructor.
Qed.
End JsSortPermutation.

(* ================================================================== *)
(** * Facts about bucketing into a [Map] *)

Section JsMapFacts.
Context {K V : Type}.
Variable eqb : K -> K -> bool.
Hypothesis eqb_eq : forall a b, eqb a b = true <-> a = b.
Variable key : V -> K.

Lemma eqb_refl (a : K) : eqb a a = true.
Proof. now apply eqb_eq. Qed.

Lemma eqb_neq (a b : K) : a <> b -> eqb a b = false.
Proof.
  intros N. destruct (eqb a b) eqn:E; [|reflexivity].
  apply eqb_eq in E. contradiction.
Qed.

Lemma map_push_keys (k : K) (v : V) (m : JsMap) (k' : K) :
  In k' (map fst (map_push eqb k v m)) <-> k' = k \/ In k' (map fst m).
Proof.
  induction m as [|[k0 vs] r IH]; simpl.
  - intuition congruence.
  - destruct (eqb k k0) eqn:E; simpl.
    + apply eqb_eq in E; subst k0. intuition congruence.
    + rewrite IH. intuition congruence.
Qed.

Lemma map_push_NoDup (k : K) (v : V) (m : JsMap) :
  NoDup (map fst m) -> NoDup (map fst (map_push eqb k v m)).
Proof.
  induction m as [|[k0 vs] r IH]; simpl; intros ND.
  - constructor; [intros []|constructor].
  - inversion ND as [|? ? Hnot ND']; subst.
    destruct (eqb k k0) eqn:E; simpl.
    + now constructor.
    + constructor; [|auto].
      rewrite map_push_keys. intros [->|H]; [|contradiction].
      rewrite eqb_refl in E. discriminate.
Qed.

Lemma map_push_In (k : K) (v : V) (m : JsMap) (k' : K) (b' : list V) :
  NoDup (map fst m) ->
  In (k', b') (map_push eqb k v m) ->
  (k' <> k /\ In (k', b') m) \/
  (k' = k /\ ((exists b, In (k, b) m /\ b' = b ++ [v]) \/
              (~ In k (map fst m) /\ b' = [v]))).
Proof.
  induction m as [|[k0 vs] r IH]; simpl; intros ND H.
  - destruct H as [H|[]]. inversion H; subst. right; split; auto.
  - inversion ND as [|? ? Hnot ND']; subst.
    destruct (eqb k k0) eqn:E.
    + apply eqb_eq in E; subst k0. destruct H as [H|H].
      * inversion H; subst. right; split; auto. left. exists vs. auto.
      * left. split; [|auto]. intros ->. apply Hnot.
        change k with (fst (k, b')). now apply in_map.
    + assert (k <> k0) by (intros ->; rewrite eqb_refl in E; discriminate).
      destruct H as [H|H].
      * inversion H; subst. left; split; auto.
      * destruct (IH ND' H) as [[N I]|[-> [(b & I & ->)|[N ->]]]].
        -- left; auto.
        -- right; split; auto. left; exists b; auto.
        -- right; split; auto. right; split; auto. intros [?|?]; auto.
Qed.

Lemma filter_snoc (p : V -> bool) (l : list V) (x : V) :
  filter p (l ++ [x]) = filter p l ++ (if p x then [x] else []).
Proof. rewrite filter_app. reflexivity. Qed.

Lemma bucketsOf_push (l : list V) (m : JsMap) (x : V) :
  bucketsOf eqb key l m -> bucketsOf eqb key (l ++ [x]) (map_push eqb (key x) x m).
Proof.
  intros (ND & HB & HK). split; [|split].
  - now apply map_push_NoDup.
  - intros k b H. rewrite filter_snoc.
    destruct (map_push_In _ _ _ _ _ ND H) as [[N I]|[-> [(b0 & I & ->)|[N ->]]]].
    + destruct (HB _ _ I) as [Hne ->]. split; [exact Hne|].
      rewrite eqb_neq by congruence. now rewrite app_nil_r.
    + destruct (HB _ _ I) as [Hne ->]. rewrite eqb_refl. split; [|reflexivity].
      intros E. apply app_eq_nil in E. destruct E; discriminate.
    + rewrite eqb_refl. split; [discriminate|].
      replace (filter (fun x0 => eqb (key x0) (key x)) l) with (@nil V); [reflexivity|].
      symmetry. clear HB H ND. induction l as [|y r IH]; simpl; [reflexivity|].
      destruct (eqb (key y) (key x)) eqn:E.
      * apply eqb_eq in E. exfalso. apply N. rewrite <- E. apply HK. now left.
      * apply IH. intros z Hz. apply HK. now right.
  - intros y Hy. rewrite map_push_keys. apply in_app_or in Hy.
    destruct Hy as [Hy|[<-|[]]]; auto.
Qed.

Lemma collect_bucketsOf (l l0 : list V) (m : JsMap) :
  bucketsOf eqb key l0 m -> bucketsOf eqb key (l0 ++ l) (collect eqb key l m).
Proof.
  revert l0 m; induction l as [|x r IH]; simpl; intros l0 m H.
  - now rewrite app_nil_r.
  - replace (l0 ++ x :: r) with ((l0 ++ [x]) ++ r) by (now rewrite <- app_assoc).
    apply IH. now apply bucketsOf_push.
Qed.

Lemma collect_spec (l : list V) : bucketsOf eqb key l (collect eqb key l []).
Proof.
  apply (collect_bucketsOf l [] []). split; [constructor|split].
  - intros ? ? [].
  - intros ? [].
Qed.

Lemma fold_left_skip (skip : V -> bool) (l : list V) (m : JsMap) :
  fold_left (fun m x => if skip x then m else map_push eqb (key x) x m) l m =
  collect eqb key (filter (fun x => negb (skip x)) l) m.
Proof.
  revert m; induction l as [|x r IH]; simpl; intros m; [reflexivity|].
  destruct (skip x); simpl; apply IH.
Qed.
End JsMapFacts.

Lemma String_eqb_eq (a b : string) : String.eqb a b = true <-> a = b.
Proof. apply String.eqb_eq. Qed.

Lemma buildBuckets_spec (cs iu : bool) (gs : list Group) :
  bucketsOf String.eqb (keyOf cs) (filter (included cs iu) gs) (buildBuckets cs iu gs).
Proof.
  unfold buildBuckets.
  rewrite (fold_left_skip String.eqb (keyOf cs)
             (fun g => negb iu && String.eqb (normalizeTitle (group_title g) cs) "")).
  apply collect_spec. exact String_eqb_eq.
Qed.

Lemma partitionByWindow_spec (gs : list Group) :
  bucketsOf Z.eqb group_windowId gs (partitionByWindow gs).
Proof. apply collect_spec. exact Z.eqb_eq. Qed.

(* ================================================================== *)
(** * Basic facts about running the script *)

Lemma tabs_discard_snd (i : Z) (h : Host) :
  snd (chrome.tabs_discard i h) = issue (ReqDiscard i) h.
Proof.
  unfold chrome.tabs_discard.
  destruct (find _ (tabs h)) as [t|]; [destruct (tab_active t)|]; reflexivity.
Qed.

Lemma try_catch_run (m : Async unit) (h : Host) :
  try_catch m h = (Returned tt, snd (m h)).
Proof. unfold try_catch. destruct (m h) as [[[]|e] h']; reflexivity. Qed.

Lemma logged_nil (h : Host) : logged [] h = h.
Proof. destruct h; unfold logged; simpl. now rewrite app_nil_r. Qed.

Lemma logged_app (l1 l2 : list Request) (h : Host) :
  logged l2 (logged l1 h) = logged (l1 ++ l2) h.
Proof. unfold logged; simpl. now rewrite app_assoc. Qed.

Lemma safeDiscardTabs_run (ids : list Z) (h : Host) :
  safeDiscardTabs ids h = (Returned tt, logged (map ReqDiscard ids) h).
Proof.
  unfold safeDiscardTabs. revert h; induction ids as [|i r IH]; intros h; simpl.
  - unfold ret. now rewrite logged_nil.
  - unfold bind. rewrite try_catch_run, tabs_discard_snd, IH.
    change (issue (ReqDiscard i) h) with (logged [ReqDiscard i] h).
    now rewrite logged_app.
Qed.

Section EngineBasics.
Variable avoidDiscard : Tab -> bool.

(** The ids [safeDiscardFromTabs] asks the browser to discard. *)
Lemma safeDiscardFromTabs_run (ts : list Tab) (h : Host) :
  safeDiscardFromTabs avoidDiscard ts h =
  (Returned tt,
   logged (map ReqDiscard (map tab_id (filter (fun t => negb (avoidDiscard t)) ts))) h).
Proof.
  unfold safeDiscardFromTabs.
  destruct (map tab_id (filter _ ts)) as [|i r] eqn:E.
  - unfold ret. simpl. now rewrite logged_nil.
  - apply safeDiscardTabs_run.
Qed.

Lemma listTabsInGroup_run (gid : Z) (h : Host) :
  listTabsInGroup gid h = (Returned (tabsOf gid h), h).
Proof. reflexivity. Qed.

Lemma discardNonActiveTabsInGroup_run (gid : Z) (h : Host) :
  discardNonActiveTabsInGroup avoidDiscard gid h =
  (Returned tt,
   logged (map ReqDiscard
             (map tab_id (filter (fun t => negb (avoidDiscard t)) (tabsOf gid h)))) h).
Proof.
  unfold discardNonActiveTabsInGroup. rewrite try_catch_run.
  unfold bind. rewrite listTabsInGroup_run, safeDiscardFromTabs_run. reflexivity.
Qed.

Lemma promise_all_countTabs (bucket : list Group) (h : Host) :
  promise_all bucket countTabs h =
  (Returned (map (fun g => (g, tabCount (group_id g) h)) bucket), h).
Proof.
  induction bucket as [|g r IH]; simpl; [reflexivity|].
  unfold bind at 1. unfold countTabs at 1. unfold bind at 1.
  rewrite listTabsInGroup_run. unfold ret at 1.
  unfold bind. rewrite IH. reflexivity.
Qed.

(** The update of a group's properties is recorded whether or not the
    browser accepts it. *)
Lemma tabGroups_update_requests (gid : Z) (title : option string) (c : bool) (h : Host) :
  requests (snd (chrome.tabGroups_update gid title c h)) =
  requests h ++ [ReqUpdate gid title c].
Proof.
  unfold chrome.tabGroups_update. destruct (chrome.find_group gid h); reflexivity.
Qed.
End EngineBasics.

(* ================================================================== *)
(** * Steps of the script against the browser *)

Lemma tabs_group_requests (ids : list Z) (gid : Z) (h : Host) :
  requests (snd (chrome.tabs_group ids gid h)) = requests h ++ [ReqMove ids gid].
Proof.
  unfold chrome.tabs_group.
  destruct (chrome.find_group gid h); [destruct (find _ ids)|]; reflexivity.
Qed.

Section StepFacts.
Variable avoidDiscard : Tab -> bool.
Variable canMove : Z -> Z -> Prop.
Variable canUpdate : Z -> Prop.

Abbreviation step := (step avoidDiscard canMove canUpdate).
Abbreviation steps := (steps avoidDiscard canMove canUpdate).
Abbreviation runs := (runs avoidDiscard canMove canUpdate).
Abbreviation reaches := (reaches avoidDiscard canMove canUpdate).

Lemma steps_app (h h1 h2 : Host) (l1 l2 : list Request) :
  steps h l1 h1 -> steps h1 l2 h2 -> steps h (l1 ++ l2) h2.
Proof.
  intros S1; revert l2 h2; induction S1; intros l2 h3 S2; simpl; [exact S2|].
  econstructor; eauto.
Qed.

Lemma steps_one (h h' : Host) (r : Request) : step h r h' -> steps h [r] h'.
Proof. intros S. econstructor; [exact S|constructor]. Qed.

Lemma step_requests (h h' : Host) (r : Request) :
  step h r h' -> requests h' = requests h ++ [r].
Proof.
  intros S. destruct S; [reflexivity|apply tabs_group_requests|
                         apply tabGroups_update_requests].
Qed.

Lemma steps_requests (h h' : Host) (l : list Request) :
  steps h l h' -> requests h' = requests h ++ l.
Proof.
  intros S. induction S; [now rewrite app_nil_r|].
  rewrite IHS, (step_requests _ _ _ H), <- app_assoc. reflexivity.
Qed.

(** An invariant of every step holds at the end, and what every step's
    request satisfies holds of the whole trace. *)
Lemma steps_invariant (I : Host -> Prop) (P : Request -> Prop) :
  (forall h r h', I h -> step h r h' -> I h' /\ P r) ->
  forall h l h', steps h l h' -> I h -> I h' /\ Forall P l.
Proof.
  intros HI h l h' S. induction S; intros Ih; [auto|].
  destruct (HI _ _ _ Ih H) as [I1 Pr].
  destruct (IHS I1) as [I2 Pl]. auto.
Qed.

Lemma runs_ret {A} (a : A) : runs (ret a).
Proof. intros h. exists a, [], h. split; [reflexivity|constructor]. Qed.

Lemma runs_bind {A B} (m : Async A) (k : A -> Async B) :
  runs m -> (forall a, runs (k a)) -> runs (bind m k).
Proof.
  intros Hm Hk h. destruct (Hm h) as (a & l1 & h1 & E1 & S1).
  destruct (Hk a h1) as (b & l2 & h2 & E2 & S2).
  exists b, (l1 ++ l2), h2. unfold bind. rewrite E1. split; [exact E2|].
  eapply steps_app; eauto.
Qed.

Lemma runs_for_each {A} (xs : list A) (body : A -> Async unit) :
  (forall x, In x xs -> runs (body x)) -> runs (for_each xs body).
Proof.
  induction xs as [|x r IH]; simpl; intros Hb.
  - apply runs_ret.
  - apply runs_bind; auto.
Qed.

Lemma runs_reaches {A} (m : Async A) : runs m -> reaches m.
Proof.
  intros R h. destruct (R h) as (a & l & h' & E & S). exists l. now rewrite E.
Qed.

Lemma reaches_ret {A} (a : A) : reaches (ret a).
Proof. apply runs_reaches, runs_ret. Qed.

Lemma reaches_throw {A} (msg : string) : reaches (@throw A msg).
Proof. intros h. exists []. constructor. Qed.

Lemma reaches_bind {A B} (m : Async A) (k : A -> Async B) :
  reaches m -> (forall a, reaches (k a)) -> reaches (bind m k).
Proof.
  intros Hm Hk h. destruct (Hm h) as (l1 & S1). unfold bind.
  destruct (m h) as [[a|e] h1]; simpl in S1.
  - destruct (Hk a h1) as (l2 & S2). exists (l1 ++ l2). eapply steps_app; eauto.
  - exists l1. exact S1.
Qed.

Lemma reaches_for_collect {A R} (xs : list A) (body : A -> Async (list R)) :
  (forall x, In x xs -> reaches (body x)) -> reaches (for_collect xs body).
Proof.
  induction xs as [|x r IH]; simpl; intros Hb.
  - apply reaches_ret.
  - apply reaches_bind; auto. intros a.
    apply reaches_bind; auto. intros b. apply reaches_ret.
Qed.

Lemma reaches_update (gid : Z) (title : option string) (c : bool) :
  canUpdate gid -> reaches (chrome.tabGroups_update gid title c).
Proof.
  intros C h. exists [ReqUpdate gid title c]. apply steps_one. now constructor.
Qed.

(** Discarding the tabs the filter lets through, among listed tabs. *)
Lemma discards_steps (ts : list Tab) (h : Host) :
  incl ts (tabs h) ->
  steps h (map ReqDiscard (map tab_id (filter (fun t => negb (avoidDiscard t)) ts)))
        (logged (map ReqDiscard (map tab_id (filter (fun t => negb (avoidDiscard t)) ts))) h).
Proof.
  revert h; induction ts as [|t r IH]; intros h Hin; simpl.
  - rewrite logged_nil. constructor.
  - assert (Hr : incl r (tabs h)) by (intros x Hx; apply Hin; now right).
    destruct (avoidDiscard t) eqn:E; simpl; [now apply IH|].
    apply steps_cons with (h1 := issue (ReqDiscard (tab_id t)) h).
    + constructor; [apply Hin; now left|exact E].
    + change (issue (ReqDiscard (tab_id t)) h) with (logged [ReqDiscard (tab_id t)] h).
      replace (logged (ReqDiscard (tab_id t)
                       :: map ReqDiscard
                            (map tab_id (filter (fun t => negb (avoidDiscard t)) r))) h)
        with (logged (map ReqDiscard
                        (map tab_id (filter (fun t => negb (avoidDiscard t)) r)))
                     (logged [ReqDiscard (tab_id t)] h))
        by (apply logged_app).
      apply IH. exact Hr.
Qed.

Lemma tabsOf_incl (gid : Z) (h : Host) : incl (tabsOf gid h) (tabs h).
Proof. intros t Ht. unfold tabsOf in Ht. now apply filter_In in Ht. Qed.

Lemma runs_discardNonActiveTabsInGroup (gid : Z) :
  runs (discardNonActiveTabsInGroup avoidDiscard gid).
Proof.
  intros h. rewrite discardNonActiveTabsInGroup_run.
  eexists _, _, _. split; [reflexivity|]. apply discards_steps, tabsOf_incl.
Qed.

Lemma runs_try_catch (m : Async unit) : runs m -> runs (try_catch m).
Proof.
  intros R h. destruct (R h) as ([] & l & h' & E & S).
  exists tt, l, h'. rewrite try_catch_run, E. auto.
Qed.

(** The discards before a move leave the listing of the source as it was,
    and the move then takes exactly the tabs the source has. *)
Lemma drain_runs (target gid : Z) (discardFirst : bool) (h : Host) :
  canMove gid target -> gid <> target -> tabsOf gid h <> [] ->
  exists l h',
    bind (if discardFirst then safeDiscardFromTabs avoidDiscard (tabsOf gid h)
          else ret tt)
         (fun _ => try_catch (chrome.tabs_group (map tab_id (tabsOf gid h)) target)) h
    = (Returned tt, h') /\ steps h l h'.
Proof.
  intros C N Hne.
  set (L := if discardFirst
            then map ReqDiscard (map tab_id (filter (fun t => negb (avoidDiscard t))
                                                    (tabsOf gid h)))
            else []).
  assert (E1 : (if discardFirst then safeDiscardFromTabs avoidDiscard (tabsOf gid h)
                else ret tt) h = (Returned tt, logged L h)).
  { unfold L. destruct discardFirst.
    - apply safeDiscardFromTabs_run.
    - unfold ret. now rewrite logged_nil. }
  assert (S1 : steps h L (logged L h)).
  { unfold L. destruct discardFirst.
    - apply discards_steps, tabsOf_incl.
    - rewrite logged_nil. constructor. }
  unfold bind. rewrite E1, try_catch_run.
  eexists _, _. split; [reflexivity|].
  eapply steps_app; [exact S1|]. apply steps_one.
  assert (Et : tabsOf gid (logged L h) = tabsOf gid h) by reflexivity.
  rewrite <- Et. constructor; auto.
Qed.

Lemma runs_mergeGroupSet (target : Z) (others : list Z) (fast : bool) :
  (forall s, In s others -> s <> target -> canMove s target) ->
  runs (mergeGroupSet avoidDiscard target others fast).
Proof.
  intros C. unfold mergeGroupSet. apply runs_for_each. intros gid Hg.
  destruct (gid =? target) eqn:E; [apply runs_ret|].
  apply Z.eqb_neq in E. intros h.
  unfold bind at 1. rewrite listTabsInGroup_run.
  destruct (tabsOf gid h) as [|t ts] eqn:Ets.
  - exists tt, [], h. split; [|constructor].
    simpl. destruct fast; reflexivity.
  - destruct (drain_runs target gid fast h (C gid Hg E) E) as (l & h' & Er & S).
    { rewrite Ets. discriminate. }
    exists tt, l, h'. split; [|exact S].
    rewrite Ets in Er. simpl in Er |- *. destruct fast; exact Er.
Qed.

Lemma runs_drainGroupToTarget (target source : Z) (fast : bool) :
  (source <> target -> canMove source target) ->
  runs (drainGroupToTarget avoidDiscard target source fast).
Proof.
  intros C. unfold drainGroupToTarget.
  destruct (target =? source) eqn:E; [apply runs_ret|].
  apply Z.eqb_neq in E. intros h.
  unfold bind at 1. rewrite listTabsInGroup_run.
  destruct (tabsOf source h) as [|t ts] eqn:Ets.
  - exists tt, [], h. split; [reflexivity|constructor].
  - assert (N : source <> target) by congruence.
    destruct (drain_runs target source fast h (C N) N) as (l & h' & Er & S).
    { rewrite Ets. discriminate. }
    exists tt, l, h'. split; [|exact S].
    rewrite Ets in Er. exact Er.
Qed.
End StepFacts.

(** More permissions allow the same steps. *)
Lemma steps_mono (avoid : Tab -> bool) (canMove canMove' : Z -> Z -> Prop)
      (canUpdate canUpdate' : Z -> Prop) :
  (forall s d, canMove s d -> canMove' s d) ->
  (forall g, canUpdate g -> canUpdate' g) ->
  forall h l h', steps avoid canMove canUpdate h l h' ->
                 steps avoid canMove' canUpdate' h l h'.
Proof.
  intros HM HU h l h' S. induction S; [constructor|].
  econstructor; [|exact IHS].
  destruct H; constructor; auto.
Qed.

Lemma reaches_mono {A} (avoid : Tab -> bool) (canMove canMove' : Z -> Z -> Prop)
      (canUpdate canUpdate' : Z -> Prop) (m : Async A) :
  (forall s d, canMove s d -> canMove' s d) ->
  (forall g, canUpdate g -> canUpdate' g) ->
  reaches avoid canMove canUpdate m -> reaches avoid canMove' canUpdate' m.
Proof.
  intros HM HU R h. destruct (R h) as [l S]. exists l.
  eapply steps_mono; eauto.
Qed.

(* ================================================================== *)
(** * Target and title selection *)

Lemma bind_ret_snd {A B} (m : Async A) (f : A -> B) (h : Host) :
  snd (bind m (fun x => ret (f x)) h) = snd (m h).
Proof. unfold bind, ret. destruct (m h) as [[a|e] h']; reflexivity. Qed.

Lemma map_split_at {A B} (f : A -> B) (l : list A) (l1 l2 : list B) (y : B) :
  map f l = l1 ++ y :: l2 ->
  exists a x b, l = a ++ x :: b /\ map f a = l1 /\ f x = y /\ map f b = l2.
Proof.
  revert l; induction l1 as [|z l1 IH]; intros [|x l] E; simpl in E; try discriminate.
  - inversion E; subst. exists [], x, l. auto.
  - inversion E; subst. destruct (IH l H1) as (a & x' & b & -> & Ha & Hx & Hb).
    exists (x :: a), x', b. simpl. rewrite Ha. auto.
Qed.

(** [counts.sort(...)][0] is the first group of the bucket with the largest
    number of tabs. *)
Lemma sortByCount_head (bucket : list Group) (h : Host) :
  bucket <> [] ->
  exists target rest pre post,
    sortByCount (map (fun g => (g, tabCount (group_id g) h)) bucket)
      = (target, tabCount (group_id target) h) :: rest /\
    bucket = pre ++ target :: post /\
    (forall g, In g pre -> tabCount (group_id g) h < tabCount (group_id target) h) /\
    (forall g, In g post -> tabCount (group_id g) h <= tabCount (group_id target) h).
Proof.
  intros Hne.
  set (f := fun g => (g, tabCount (group_id g) h)).
  set (cmp := fun a b : Group * Z => snd b - snd a).
  destruct (front_nonempty cmp (map f bucket)) as [m Fm].
  { destruct bucket; [congruence|discriminate]. }
  assert (Hcmp : forall a b : Group * Z, (0 <? cmp a b) = (snd a <? snd b)).
  { intros a b. unfold cmp.
    destruct (snd a <? snd b) eqn:E; [apply Z.ltb_lt in E; apply Z.ltb_lt|
                                      apply Z.ltb_ge in E; apply Z.ltb_ge]; lia. }
  destruct (front_greatest cmp snd Hcmp _ _ Fm) as (pre' & post' & E & Hpre & Hpost).
  destruct (map_split_at f bucket pre' post' m E) as (a & x & b & -> & Ha & Hx & Hb).
  rewrite <- js_sort_head in Fm. unfold sortByCount. fold cmp. fold f.
  destruct (js_sort cmp (map f (a ++ x :: b))) as [|c rest]; [discriminate|].
  simpl in Fm. inversion Fm; subst c. subst m.
  exists x, rest, a, b. repeat split; auto.
  - intros g Hg. apply (Hpre (f g)). rewrite <- Ha. now apply in_map.
  - intros g Hg. apply (Hpost (f g)). rewrite <- Hb. now apply in_map.
Qed.

(** [bucket.sort((a, b) => a.id - b.id)][0] has the smallest identifier. *)
Lemma sortById_head (bucket : list Group) :
  bucket <> [] ->
  exists target others,
    sortById bucket = target :: others /\
    In target bucket /\
    Forall (fun g => group_id target <= group_id g) bucket.
Proof.
  intros Hne.
  set (cmp := fun a b : Group => group_id a - group_id b).
  destruct (front_nonempty cmp bucket Hne) as [m Fm].
  assert (Hcmp : forall a b, (0 <? cmp a b) = (- group_id a <? - group_id b)).
  { intros a b. unfold cmp.
    destruct (- group_id a <? - group_id b) eqn:E;
      [apply Z.ltb_lt in E; apply Z.ltb_lt|apply Z.ltb_ge in E; apply Z.ltb_ge]; lia. }
  destruct (front_greatest cmp (fun g => - group_id g) Hcmp _ _ Fm)
    as (pre & post & E & Hpre & Hpost).
  rewrite <- js_sort_head in Fm. unfold sortById. fold cmp.
  destruct (js_sort cmp bucket) as [|c rest]; [discriminate|].
  simpl in Fm. inversion Fm; subst c.
  exists m, rest. split; [reflexivity|]. split.
  - rewrite E. apply in_or_app. right. now left.
  - apply Forall_forall. intros g Hg. rewrite E in Hg.
    apply in_app_or in Hg. destruct Hg as [Hg|[<-|Hg]].
    + specialize (Hpre g Hg). simpl in Hpre. lia.
    + lia.
    + specialize (Hpost g Hg). simpl in Hpost. lia.
Qed.

(** The title [titles.sort(...)][0]: the first of the most frequent ones. *)
Lemma titleToSet_most_frequent (bucket : list Group) (target : Group) :
  bucketTitles bucket <> [] ->
  exists t pre post,
    titleToSet bucket target = Some t /\
    bucketTitles bucket = pre ++ t :: post /\
    (forall x, In x pre ->
       occurrences x (bucketTitles bucket) < occurrences t (bucketTitles bucket)) /\
    (forall x, In x post ->
       occurrences x (bucketTitles bucket) <= occurrences t (bucketTitles bucket)).
Proof.
  intros Hne. unfold titleToSet.
  set (titles := bucketTitles bucket) in *.
  set (cmp := fun a b : string => occurrences b titles - occurrences a titles).
  destruct (front_nonempty cmp titles Hne) as [m Fm].
  assert (Hcmp : forall a b, (0 <? cmp a b)
                             = (occurrences a titles <? occurrences b titles)).
  { intros a b. unfold cmp.
    destruct (occurrences a titles <? occurrences b titles) eqn:E;
      [apply Z.ltb_lt in E; apply Z.ltb_lt|apply Z.ltb_ge in E; apply Z.ltb_ge]; lia. }
  destruct (front_greatest cmp (fun t => occurrences t titles) Hcmp _ _ Fm)
    as (pre & post & E & Hpre & Hpost).
  rewrite <- js_sort_head in Fm.
  destruct (js_sort cmp titles) as [|c rest]; [discriminate|].
  simpl in Fm. inversion Fm; subst c.
  exists m, pre, post. auto.
Qed.

Lemma steps_movesInto (avoid : Tab -> bool) (target : Z) (P : Z -> Prop)
      (h h' : Host) (l : list Request) :
  steps avoid (fun s d => d = target /\ P s) (fun _ => False) h l h' ->
  Forall (movesInto target) l.
Proof.
  intros S.
  apply (steps_invariant avoid (fun s d => d = target /\ P s) (fun _ => False)
           (fun _ => True) (movesInto target)) with (h := h) (h' := h') (l := l); auto.
  intros h0 r h1 _ St. split; [exact I|].
  destruct St as [| ? ? ? [-> _] |? ? ? ? []]; simpl; auto.
Qed.


(* ================================================================== *)
(** * Validation in [mergeSelectedGroups] *)

(** Looking the selected groups up changes nothing. *)
Lemma promise_all_get_snd (ids : list Z) (h : Host) :
  snd (promise_all ids chrome.tabGroups_get h) = h.
Proof.
  revert h; induction ids as [|i r IH]; intros h; simpl; [reflexivity|].
  unfold bind at 1. unfold chrome.tabGroups_get at 1.
  destruct (chrome.find_group i h) as [g|]; [|reflexivity].
  unfold bind. specialize (IH h).
  destruct (promise_all r chrome.tabGroups_get h) as [[gs|e] h']; simpl in *; congruence.
Qed.

Lemma promise_all_get_found (ids : list Z) (h : Host) :
  Forall (fun i => chrome.find_group i h <> None) ids ->
  exists gs,
    promise_all ids chrome.tabGroups_get h = (Returned gs, h) /\
    Forall2 (fun i g => chrome.find_group i h = Some g) ids gs.
Proof.
  induction 1 as [|i r Hi Hr IH]; simpl.
  - exists []. split; [reflexivity|constructor].
  - destruct IH as (gs & E & F).
    unfold bind at 1. unfold chrome.tabGroups_get at 1.
    destruct (chrome.find_group i h) as [g|] eqn:G; [|congruence].
    unfold bind. rewrite E. exists (g :: gs). split; [reflexivity|].
    constructor; auto.
Qed.

Lemma Forall2_In_left {A B} (R : A -> B -> Prop) (l : list A) (l' : list B) (a : A) :
  Forall2 R l l' -> In a l -> exists b, In b l' /\ R a b.
Proof.
  induction 1 as [|x y l l' Hxy F IH]; intros Hin; [destruct Hin|].
  destruct Hin as [<-|Hin].
  - exists y. split; [now left|exact Hxy].
  - destruct (IH Hin) as (b & Hb & Rb). exists b. split; [now right|exact Rb].
Qed.

Lemma Forall2_In_right {A B} (R : A -> B -> Prop) (l : list A) (l' : list B) (b : B) :
  Forall2 R l l' -> In b l' -> exists a, In a l /\ R a b.
Proof.
  induction 1 as [|x y l l' Hxy F IH]; intros Hin; [destruct Hin|].
  destruct Hin as [<-|Hin].
  - exists x. split; [now left|exact Hxy].
  - destruct (IH Hin) as (a & Ha & Ra). exists a. split; [now right|exact Ra].
Qed.

Lemma two_distinct_members {A} (l : list A) (a b : A) :
  NoDup l -> In a l -> In b l -> a <> b -> (2 <= length l)%nat.
Proof.
  intros ND Ha Hb N. destruct l as [|x [|y r]]; simpl in *; [destruct Ha| |lia].
  destruct Ha as [<-|[]], Hb as [<-|[]]. congruence.
Qed.

(** Groups of two windows make two entries in [byWindow]. *)
Lemma partitionByWindow_two (gs : list Group) (g1 g2 : Group) :
  In g1 gs -> In g2 gs -> group_windowId g1 <> group_windowId g2 ->
  (2 <= length (partitionByWindow gs))%nat.
Proof.
  intros H1 H2 N.
  destruct (partitionByWindow_spec gs) as (ND & _ & HK).
  rewrite <- (length_map fst).
  apply (two_distinct_members _ _ _ ND (HK g1 H1) (HK g2 H2) N).
Qed.

(** Groups of one window make one entry, holding all of them in order. *)
Lemma partitionByWindow_one (gs : list Group) (w : Z) :
  gs <> [] -> (forall g, In g gs -> group_windowId g = w) ->
  partitionByWindow gs = [(w, gs)].
Proof.
  intros Hne Hw.
  destruct (partitionByWindow_spec gs) as (ND & HB & HK).
  assert (Hkeys : forall k, In k (map fst (partitionByWindow gs)) -> k = w).
  { intros k Hk. apply in_map_iff in Hk. destruct Hk as ([k' b] & <- & Hin).
    destruct (HB _ _ Hin) as [Hb Eb]. simpl.
    destruct b as [|g b']; [congruence|].
    assert (Hg : In g (filter (fun x => group_windowId x =? k') gs))
      by (rewrite <- Eb; now left).
    apply filter_In in Hg. destruct Hg as [Hg Ek]. apply Z.eqb_eq in Ek.
    rewrite <- Ek. now apply Hw. }
  destruct gs as [|g0 r]; [congruence|].
  pose proof (HK g0 (or_introl eq_refl)) as H0.
  destruct (partitionByWindow (g0 :: r)) as [|[k b] m] eqn:E; [destruct H0|].
  assert (k = w) by (apply Hkeys; now left). subst k.
  destruct m as [|[k2 b2] m'].
  - f_equal. f_equal. destruct (HB w b (or_introl eq_refl)) as [_ ->].
    clear - Hw. induction (g0 :: r) as [|x l IH]; simpl; [reflexivity|].
    rewrite (Hw x (or_introl eq_refl)), Z.eqb_refl. f_equal.
    apply IH. intros g Hg. apply Hw. now right.
  - exfalso. assert (k2 = w) by (apply Hkeys; right; now left). subst k2.
    simpl in ND. inversion ND as [|? ? Hnot _]; subst. apply Hnot. now left.
Qed.

(* ================================================================== *)
(** * The debouncer keeps one timer per window *)

Lemma filter_nil_iff {A} (p : A -> bool) (l : list A) :
  (forall x, In x l -> p x = false) -> filter p l = [].
Proof.
  induction l as [|x r IH]; simpl; intros H; [reflexivity|].
  rewrite (H x (or_introl eq_refl)). apply IH. intros y Hy. apply H. now right.
Qed.

Lemma filter_filter_absorb {A} (p q : A -> bool) (l : list A) :
  (forall x, In x l -> p x = true -> q x = true) ->
  filter p (filter q l) = filter p l.
Proof.
  induction l as [|x r IH]; simpl; intros H; [reflexivity|].
  assert (Hr : forall y, In y r -> p y = true -> q y = true)
    by (intros y Hy; apply H; now right).
  destruct (q x) eqn:Q; simpl.
  - destruct (p x); now rewrite IH.
  - destruct (p x) eqn:P.
    + rewrite (H x (or_introl eq_refl) P) in Q. discriminate.
    + now apply IH.
Qed.

Lemma filter_comm {A} (p q : A -> bool) (l : list A) :
  filter p (filter q l) = filter q (filter p l).
Proof.
  induction l as [|x r IH]; simpl; [reflexivity|].
  destruct (p x) eqn:P, (q x) eqn:Q; simpl; rewrite ?P, ?Q, IH; reflexivity.
Qed.

Lemma filter_map_swap {A B} (f : A -> B) (p : B -> bool) (l : list A) :
  filter p (map f l) = map f (filter (fun x => p (f x)) l).
Proof.
  induction l as [|x r IH]; simpl; [reflexivity|].
  destruct (p (f x)); simpl; now rewrite IH.
Qed.

Lemma Permutation_filter_both {A} (p : A -> bool) (l l' : list A) :
  Permutation l l' -> Permutation (filter p l) (filter p l').
Proof.
  induction 1; simpl.
  - constructor.
  - destruct (p x); [now constructor|assumption].
  - destruct (p x), (p y); try reflexivity. apply perm_swap.
  - etransitivity; eassumption.
Qed.

Lemma NoDup_map_filter {T U} (image : T -> U) (keep : T -> bool) (xs : list T) :
  NoDup (map image xs) -> NoDup (map image (filter keep xs)).
Proof.
  intros ND. induction xs as [|x r IH]; simpl in *; [constructor|].
  apply NoDup_cons_iff in ND. destruct ND as [Hnot ND].
  destruct (keep x); simpl; [|now apply IH].
  apply NoDup_cons_iff. split; [|now apply IH].
  intros Hin. apply Hnot. apply in_map_iff in Hin. destruct Hin as (y & E & Hy).
  apply filter_In in Hy. apply in_map_iff. exists y. tauto.
Qed.

Module DebounceFacts.
Section WithCallbacks.
Import Debounce.
Variable Fn : Type.

Abbreviation Loop := (Loop Fn).
Abbreviation Timer := (Timer Fn).

Lemma wellKept_start : wellKept (@start Fn).
Proof.
  unfold wellKept, start; simpl. repeat split; try lia; try constructor;
    try (intros ? []); try discriminate.
Qed.

Lemma wellKept_advance (t : Z) (l : Loop) : wellKept l -> wellKept (advance t l).
Proof.
  intros (H0 & Hid & ND & Hmap & Hrec & Hinj). unfold wellKept, advance; simpl.
  split; [exact H0|]. split; [|split; [|split; [|split]]]; auto.
  - intros x Hx. apply Hid. apply filter_In in Hx. tauto.
  - now apply NoDup_map_filter.
  - intros x Hx. apply Hmap. apply filter_In in Hx. tauto.
Qed.

(** Before arming, the previous timer of the window is gone, and nothing
    else has changed. *)
Lemma cancelled (w : Z) (l : Loop) :
  wellKept l ->
  let l1 := match debounceTimers l w with
            | Some prev => if prev =? 0 then l else clearTimeout prev l
            | None => l
            end in
  now l1 = now l /\ nextTimer l1 = nextTimer l /\ executed l1 = executed l /\
  debounceTimers l1 = debounceTimers l /\
  incl (pending l1) (pending l) /\
  NoDup (map timer_id (pending l1)) /\
  (forall v, pendingFor v l1 = if v =? w then [] else pendingFor v l).
Proof.
  intros (H0 & Hid & ND & Hmap & Hrec & Hinj). simpl.
  assert (Hw : forall x, In x (pending l) -> timer_key x = w ->
                         debounceTimers l w = Some (timer_id x)).
  { intros x Hx <-. now apply Hmap. }
  assert (Hkeep : forall (l1 : Loop),
             l1 = l -> pendingFor w l = [] ->
             now l1 = now l /\ nextTimer l1 = nextTimer l /\ executed l1 = executed l /\
             debounceTimers l1 = debounceTimers l /\
             incl (pending l1) (pending l) /\
             NoDup (map timer_id (pending l1)) /\
             (forall v, pendingFor v l1 = if v =? w then [] else pendingFor v l)).
  { intros l1 -> Hnone. repeat split; auto; try apply incl_refl.
    intros v. destruct (v =? w) eqn:V; [|reflexivity].
    apply Z.eqb_eq in V. now subst v. }
  destruct (debounceTimers l w) as [prev|] eqn:M.
  - destruct (prev =? 0) eqn:Z0.
    + apply Z.eqb_eq in Z0. specialize (Hrec _ _ M). lia.
    + repeat split; auto.
      * intros x Hx. simpl in Hx. apply filter_In in Hx. tauto.
      * simpl. now apply NoDup_map_filter.
      * intros v. unfold pendingFor; simpl. destruct (v =? w) eqn:V.
        -- apply Z.eqb_eq in V. subst v.
           apply filter_nil_iff. intros x Hx.
           apply filter_In in Hx. destruct Hx as [Hx Hn].
           destruct (timer_key x =? w) eqn:K; [|reflexivity].
           apply Z.eqb_eq in K. specialize (Hw x Hx K). inversion Hw; subst prev.
           rewrite Z.eqb_refl in Hn. discriminate.
        -- apply filter_filter_absorb. intros x Hx Kx.
           destruct (timer_id x =? prev) eqn:I; [|reflexivity].
           apply Z.eqb_eq in I. apply Z.eqb_eq in Kx.
           specialize (Hmap x Hx). rewrite Kx, I in Hmap.
           rewrite (Hinj _ _ _ Hmap M), Z.eqb_refl in V. discriminate.
  - apply Hkeep; [reflexivity|].
    apply filter_nil_iff. intros x Hx.
    destruct (timer_key x =? w) eqn:K; [|reflexivity].
    apply Z.eqb_eq in K. specialize (Hw x Hx K). discriminate.
Qed.

(** A call cancels and arms: afterwards the window has exactly the timer
    just armed, and the other windows have what they had. *)
Lemma debounce_effect (w : Z) (fn : Fn) (d : Z) (l : Loop) :
  wellKept l ->
  wellKept (debounceByWindow w fn d l) /\
  now (debounceByWindow w fn d l) = now l /\
  executed (debounceByWindow w fn d l) = executed l /\
  pendingFor w (debounceByWindow w fn d l)
    = [mkTimer (nextTimer l) w (now l + Z.max 0 d) fn] /\
  (forall v, v <> w -> pendingFor v (debounceByWindow w fn d l) = pendingFor v l).
Proof.
  intros WK. pose proof (cancelled w l WK) as C. simpl in C.
  destruct WK as (H0 & Hid & ND & Hmap & Hrec & Hinj).
  unfold debounceByWindow.
  set (l1 := match debounceTimers l w with
             | Some prev => if prev =? 0 then l else clearTimeout prev l
             | None => l
             end) in *.
  destruct C as (En & Et & Ee & Em & Hincl & ND1 & Hp).
  cbv zeta. rewrite En, Et, Ee, Em.
  assert (Hw1 : forall x, In x (pending l1) -> timer_key x <> w).
  { intros x Hx K. specialize (Hp w). rewrite Z.eqb_refl in Hp.
    assert (Hin : In x (pendingFor w l1)).
    { apply filter_In. split; [exact Hx|]. now apply Z.eqb_eq. }
    rewrite Hp in Hin. destruct Hin. }
  split; [|split; [reflexivity|split; [reflexivity|split]]].
  - unfold wellKept; simpl.
    split; [lia|]. split; [|split; [|split; [|split]]].
    + intros x Hx. apply in_app_or in Hx. destruct Hx as [Hx|[<-|[]]].
      * specialize (Hid x (Hincl x Hx)). lia.
      * simpl. lia.
    + rewrite map_app. simpl. apply NoDup_app; auto.
      * constructor; [intros []|constructor].
      * intros i Hi [<-|[]]. apply in_map_iff in Hi.
        destruct Hi as (x & E & Hx). specialize (Hid x (Hincl x Hx)). lia.
    + intros x Hx. apply in_app_or in Hx. destruct Hx as [Hx|[<-|[]]].
      * destruct (timer_key x =? w) eqn:K.
        -- apply Z.eqb_eq in K. now apply Hw1 in K.
        -- apply Hmap. now apply Hincl.
      * simpl. now rewrite Z.eqb_refl.
    + intros k i. destruct (k =? w).
      * intros E; inversion E; subst. lia.
      * intros E. specialize (Hrec _ _ E). lia.
    + intros k k' i. destruct (k =? w) eqn:K, (k' =? w) eqn:K'; intros E E'.
      * apply Z.eqb_eq in K, K'. congruence.
      * inversion E; subst i. specialize (Hrec _ _ E'). lia.
      * inversion E'; subst i. specialize (Hrec _ _ E). lia.
      * eapply Hinj; eauto.
  - unfold pendingFor; simpl. rewrite filter_app. simpl. rewrite Z.eqb_refl.
    fold (pendingFor w l1). rewrite (Hp w), Z.eqb_refl. reflexivity.
  - intros v Hv. unfold pendingFor; simpl. rewrite filter_app. simpl.
    replace (w =? v) with false by (symmetry; apply Z.eqb_neq; congruence).
    fold (pendingFor v l1). rewrite (Hp v), app_nil_r.
    replace (v =? w) with false by (symmetry; now apply Z.eqb_neq).
    reflexivity.
Qed.

Lemma wellKept_handle (l : Loop) (e : Event Fn) : wellKept l -> wellKept (handle l e).
Proof.
  intros WK. destruct e as [w fn d|t]; simpl.
  - now apply debounce_effect.
  - now apply wellKept_advance.
Qed.

Lemma wellKept_run (es : list (Event Fn)) (l : Loop) :
  wellKept l -> wellKept (run es l).
Proof.
  revert l; induction es as [|e r IH]; simpl; intros l WK; [exact WK|].
  apply IH. now apply wellKept_handle.
Qed.

Lemma pending_at_most_one (w : Z) (l : Loop) :
  wellKept l -> (length (pendingFor w l) <= 1)%nat.
Proof.
  intros (H0 & Hid & ND & Hmap & _).
  assert (ND' : NoDup (map timer_id (pendingFor w l)))
    by (now apply NoDup_map_filter).
  assert (Hsame : forall x, In x (pendingFor w l) ->
                            debounceTimers l w = Some (timer_id x)).
  { intros x Hx. apply filter_In in Hx. destruct Hx as [Hx K].
    apply Z.eqb_eq in K. rewrite <- K. now apply Hmap. }
  destruct (pendingFor w l) as [|x [|y r]]; simpl; try lia.
  exfalso. inversion ND' as [|? ? Hnot _]; subst. apply Hnot. left.
  pose proof (Hsame x (or_introl eq_refl)) as Ex.
  pose proof (Hsame y (or_intror (or_introl eq_refl))) as Ey.
  congruence.
Qed.

(** Time passing up to [t] neither runs nor removes a timer of a window
    that is quiet until [t]. *)
Lemma advance_quiet (w t : Z) (l : Loop) :
  quietUntil w t l ->
  executedFor w (advance t l) = executedFor w l /\
  pendingFor w (advance t l) = pendingFor w l.
Proof.
  intros Q. unfold executedFor, pendingFor, advance; simpl. split.
  - rewrite filter_app, filter_map_swap. simpl.
    rewrite (filter_nil_iff (fun x => timer_key x =? w)); [now rewrite app_nil_r|].
    intros x Hx. apply js_sort_In in Hx. apply filter_In in Hx.
    destruct Hx as [Hx Hd]. destruct (timer_key x =? w) eqn:K; [|reflexivity].
    apply Z.eqb_eq in K. specialize (Q x Hx K).
    unfold isDue in Hd. apply Z.leb_le in Hd. lia.
  - apply filter_filter_absorb. intros x Hx K. apply Z.eqb_eq in K.
    specialize (Q x Hx K). unfold isDue.
    apply negb_true_iff. apply Z.leb_gt. exact Q.
Qed.

(** Once the clock passes the due time of a window's only timer, its
    callback has run, once. *)
Lemma advance_fires (w T : Z) (l : Loop) (x : Timer) :
  pendingFor w l = [x] -> timer_due x <= T ->
  executedFor w (advance T l) = executedFor w l ++ [(w, timer_fn x, timer_due x)] /\
  pendingFor w (advance T l) = [].
Proof.
  intros P D.
  assert (Kx : timer_key x = w).
  { assert (Hin : In x (pendingFor w l)) by (rewrite P; now left).
    apply filter_In in Hin. now apply Z.eqb_eq. }
  unfold executedFor, pendingFor, advance; simpl. split.
  - rewrite filter_app, filter_map_swap. simpl. f_equal.
    assert (Perm : Permutation
              (filter (fun y => timer_key y =? w)
                 (js_sort (fun a b => timer_due a - timer_due b)
                    (filter (isDue T) (pending l))))
              [x]).
    { rewrite (Permutation_filter_both _ _ _ (js_sort_perm _ _)).
      rewrite filter_comm. fold (pendingFor w l). rewrite P. simpl.
      unfold isDue. replace (timer_due x <=? T) with true
        by (symmetry; now apply Z.leb_le).
      reflexivity. }
    apply Permutation_sym, Permutation_length_1_inv in Perm.
    rewrite Perm. simpl. now rewrite Kx.
  - rewrite filter_comm. fold (pendingFor w l). rewrite P. simpl.
    unfold isDue. replace (timer_due x <=? T) with true
      by (symmetry; now apply Z.leb_le).
    reflexivity.
Qed.

Lemma quiet_of_single (w t : Z) (l : Loop) (x : Timer) :
  pendingFor w l = [x] -> t < timer_due x -> quietUntil w t l.
Proof.
  intros P D y Hy K.
  assert (Hin : In y (pendingFor w l)).
  { apply filter_In. split; [exact Hy|]. now apply Z.eqb_eq. }
  rewrite P in Hin. destruct Hin as [<-|[]]. exact D.
Qed.

(** After a burst nothing of the window has run yet, and its one pending
    timer is the one armed by the last call. *)
Lemma burst_armed (w : Z) (calls : list (Z * Fn * Z)) (l : Loop) :
  wellKept l -> calls <> [] ->
  isBurst (now l) calls -> quietUntil w (firstTime calls 0) l ->
  wellKept (run (burstEvents w calls) l) /\
  executedFor w (run (burstEvents w calls) l) = executedFor w l /\
  exists x, pendingFor w (run (burstEvents w calls) l) = [x] /\
            lastArmed w calls = Some (w, timer_fn x, timer_due x).
Proof.
  revert l; induction calls as [|[[t fn] d] rest IH]; intros l WK Hne B Q;
    [congruence|].
  destruct B as (Hfrom & Hgap & Brest). simpl in Q.
  destruct (advance_quiet w t l Q) as [Ex1 Pe1].
  pose proof (wellKept_advance t l WK) as WK1.
  destruct (debounce_effect w fn d (advance t l) WK1) as (WK2 & N2 & Ex2 & Pe2 & _).
  assert (Nt : now (advance t l) = t) by (simpl; lia).
  rewrite Nt in *.
  assert (Ex2' : executedFor w (debounceByWindow w fn d (advance t l)) = executedFor w l).
  { unfold executedFor in *. now rewrite Ex2. }
  change (run (burstEvents w ((t, fn, d) :: rest)) l)
    with (run (burstEvents w rest) (debounceByWindow w fn d (advance t l))).
  destruct rest as [|[[t' fn'] d'] rest'].
  - simpl. split; [exact WK2|]. split; [exact Ex2'|].
    eexists. split; [exact Pe2|]. reflexivity.
  - destruct (IH (debounceByWindow w fn d (advance t l))) as (WK3 & Ex3 & x & Px & Lx);
      auto; try discriminate.
    + now rewrite N2.
    + simpl. eapply quiet_of_single; [exact Pe2|]. simpl. exact Hgap.
    + split; [exact WK3|]. split; [congruence|].
      exists x. split; [exact Px|]. exact Lx.
Qed.
End WithCallbacks.
End DebounceFacts.

(* ================================================================== *)
(** * What the browser's primitives change *)

Lemma tabGroups_update_tabs (gid : Z) (title : option string) (c : bool) (h : Host) :
  tabs (snd (chrome.tabGroups_update gid title c h)) = tabs h.
Proof.
  unfold chrome.tabGroups_update. destruct (chrome.find_group gid h); reflexivity.
Qed.

Lemma find_none_map_id {A} (p : A -> bool) (f : A -> A) (l : list A) :
  find p l = None -> map (fun x => if p x then f x else x) l = l.
Proof.
  induction l as [|x r IH]; simpl; [reflexivity|].
  destruct (p x); [discriminate|]. intros H. now rewrite IH.
Qed.

Lemma tabGroups_update_groups (gid : Z) (title : option string) (c : bool) (h : Host) :
  groups (snd (chrome.tabGroups_update gid title c h)) =
  map (fun g => if group_id g =? gid then chrome.set_props title c g else g) (groups h).
Proof.
  unfold chrome.tabGroups_update, chrome.find_group.
  destruct (find (fun g => group_id g =? gid) (groups h)) eqn:F; simpl; [reflexivity|].
  symmetry. exact (find_none_map_id _ _ _ F).
Qed.

(** A move either fails and changes nothing, or re-homes the tabs named
    and drops the groups left without tabs. *)
Lemma tabs_group_effect (ids : list Z) (gid : Z) (h : Host) :
  exists f,
    tabs (snd (chrome.tabs_group ids gid h)) = map f (tabs h) /\
    (forall t, f t = t \/
               (chrome.mem (tab_id t) ids = true /\
                exists w, f t = chrome.set_group gid w t)) /\
    (groups (snd (chrome.tabs_group ids gid h)) = groups h \/
     groups (snd (chrome.tabs_group ids gid h))
       = filter (chrome.has_tabs (tabs (snd (chrome.tabs_group ids gid h)))) (groups h)).
Proof.
  unfold chrome.tabs_group.
  destruct (chrome.find_group gid h) as [g|].
  - destruct (find _ ids); simpl.
    + exists (fun t => t). rewrite map_id. auto.
    + eexists. split; [reflexivity|]. split; [|now right].
      intros t. destruct (chrome.mem (tab_id t) ids); [right|left]; eauto.
  - exists (fun t => t). simpl. rewrite map_id. auto.
Qed.

Lemma tabs_group_ids (ids : list Z) (gid : Z) (h : Host) :
  map tab_id (tabs (snd (chrome.tabs_group ids gid h))) = map tab_id (tabs h).
Proof.
  destruct (tabs_group_effect ids gid h) as (f & -> & Hf & _).
  rewrite map_map. apply map_ext. intros t.
  destruct (Hf t) as [->|(_ & w & ->)]; reflexivity.
Qed.

Lemma find_absent {A} (p : A -> bool) (l : list A) :
  (forall x, In x l -> p x = false) -> find p l = None.
Proof.
  induction l as [|x r IH]; simpl; intros H; [reflexivity|].
  rewrite (H x (or_introl eq_refl)). apply IH. intros y Hy. apply H. now right.
Qed.

Lemma mem_In (x : Z) (l : list Z) : chrome.mem x l = true <-> In x l.
Proof.
  unfold chrome.mem. rewrite existsb_exists. split.
  - intros (y & Hy & E). apply Z.eqb_eq in E. now subst.
  - intros H. exists x. split; [exact H|apply Z.eqb_refl].
Qed.

Lemma unique_by_id (ts : list Tab) (a b : Tab) :
  NoDup (map tab_id ts) -> In a ts -> In b ts -> tab_id a = tab_id b -> a = b.
Proof.
  induction ts as [|x r IH]; simpl; intros ND Ha Hb E; [destruct Ha|].
  apply NoDup_cons_iff in ND. destruct ND as [Hnot ND].
  destruct Ha as [<-|Ha], Hb as [<-|Hb]; auto.
  - exfalso. apply Hnot. rewrite E. now apply in_map.
  - exfalso. apply Hnot. rewrite <- E. now apply in_map.
Qed.

Lemma filter_map_stable {A} (p : A -> bool) (f : A -> A) (l : list A) :
  (forall x, In x l -> (p x = true -> f x = x) /\ (p x = false -> p (f x) = false)) ->
  filter p (map f l) = filter p l.
Proof.
  induction l as [|x r IH]; simpl; intros H; [reflexivity|].
  destruct (H x (or_introl eq_refl)) as [H1 H2].
  rewrite IH by (intros y Hy; apply H; now right).
  destruct (p x) eqn:P.
  - rewrite (H1 eq_refl), P. reflexivity.
  - now rewrite (H2 eq_refl).
Qed.

(** The tabs of a group that neither gives nor receives are untouched by a
    move of all the tabs of [src] into [dst]. *)
Lemma move_keeps_bystander (src dst u : Z) (h : Host) :
  uniqueTabs h -> u <> src -> u <> dst ->
  tabsOf u (snd (chrome.tabs_group (map tab_id (tabsOf src h)) dst h)) = tabsOf u h.
Proof.
  intros UT Ns Nd. unfold tabsOf at 1.
  destruct (tabs_group_effect (map tab_id (tabsOf src h)) dst h) as (f & -> & Hf & _).
  apply filter_map_stable. intros t Ht. split.
  - intros Hu. apply Z.eqb_eq in Hu.
    destruct (Hf t) as [E|(M & _)]; [exact E|].
    exfalso. apply mem_In, in_map_iff in M. destruct M as (t' & E & Ht').
    apply filter_In in Ht'. destruct Ht' as [Ht' Hs]. apply Z.eqb_eq in Hs.
    assert (t' = t) by (apply (unique_by_id (tabs h)); auto). subst t'. congruence.
  - intros Hu. destruct (Hf t) as [->|(_ & w & ->)]; [exact Hu|].
    simpl. now apply Z.eqb_neq.
Qed.

Lemma move_keeps_uniqueTabs (ids : list Z) (dst : Z) (h : Host) :
  uniqueTabs h -> uniqueTabs (snd (chrome.tabs_group ids dst h)).
Proof. unfold uniqueTabs. now rewrite tabs_group_ids. Qed.

(** A group that still has tabs survives a move. *)
Lemma move_keeps_group (ids : list Z) (dst : Z) (h : Host) (g : Group) :
  In g (groups h) ->
  tabsOf (group_id g) (snd (chrome.tabs_group ids dst h)) <> [] ->
  In g (groups (snd (chrome.tabs_group ids dst h))).
Proof.
  intros Hg Hne.
  destruct (tabs_group_effect ids dst h) as (f & _ & _ & [->| ->]); [exact Hg|].
  apply filter_In. split; [exact Hg|].
  unfold chrome.has_tabs. apply existsb_exists.
  unfold tabsOf in Hne.
  destruct (filter _ (tabs _)) as [|t r] eqn:E; [congruence|].
  assert (Ht : In t (t :: r)) by now left. rewrite <- E in Ht.
  apply filter_In in Ht. exists t. exact Ht.
Qed.

(* ================================================================== *)
(** * Which groups the merge operations touch *)

Lemma sortByCount_members (b : list Group) (f : Group -> Group * Z)
      (t : Group) (n : Z) (rest : list (Group * Z)) :
  (forall g, fst (f g) = g) ->
  sortByCount (map f b) = (t, n) :: rest ->
  In t b /\ incl (map fst rest) b.
Proof.
  intros Hf Hs.
  assert (Hall : forall x, In x ((t, n) :: rest) -> In (fst x) b).
  { intros x Hx. rewrite <- Hs in Hx. unfold sortByCount in Hx.
    apply js_sort_In in Hx. apply in_map_iff in Hx.
    destruct Hx as (g & <- & Hg). now rewrite Hf. }
  split.
  - apply (Hall (t, n)). now left.
  - intros g Hg. apply in_map_iff in Hg. destruct Hg as (x & <- & Hx).
    apply Hall. now right.
Qed.

Lemma sortById_members (b : list Group) (t : Group) (others : list Group) :
  sortById b = t :: others -> In t b /\ incl others b.
Proof.
  intros Hs.
  assert (Hall : forall x, In x (t :: others) -> In x b).
  { intros x Hx. rewrite <- Hs in Hx. now apply js_sort_In in Hx. }
  split; [apply Hall; now left|]. intros g Hg. apply Hall. now right.
Qed.

Section Reach.
Variable avoidDiscard : Tab -> bool.

Lemma reaches_mergeBucket (st : Settings) (w : Z) (key : string) (b : list Group) :
  reaches avoidDiscard
          (fun s d => In s (map group_id b) /\ In d (map group_id b))
          (fun g => In g (map group_id b))
          (mergeBucket avoidDiscard st w (key, b)).
Proof.
  unfold mergeBucket. destruct b as [|g1 [|g2 r]]; try apply reaches_ret.
  set (b := g1 :: g2 :: r). intros h.
  unfold bind at 1. rewrite promise_all_countTabs.
  destruct (sortByCount _) as [|[target n] rest] eqn:Hs; [apply reaches_throw|].
  destruct (sortByCount_members b (fun g => (g, tabCount (group_id g) h)) target n rest
              (fun g => eq_refl) Hs) as [Ht Ho].
  apply reaches_bind.
  - destruct (fastMerge st); [|apply reaches_ret].
    apply runs_reaches, runs_try_catch, runs_discardNonActiveTabsInGroup.
  - intros _. apply reaches_bind.
    + apply runs_reaches, runs_mergeGroupSet. intros s Hin _. split.
      * apply in_map_iff in Hin. destruct Hin as (g & <- & Hg).
        apply in_map. now apply Ho.
      * now apply in_map.
    + intros _. apply reaches_bind; [|intros; apply reaches_ret].
      apply reaches_update. now apply in_map.
Qed.

Lemma reaches_recomputeBucket (st : Settings) (key : string) (b : list Group) :
  reaches avoidDiscard
          (fun s d => In s (map group_id b) /\ In d (map group_id b))
          (fun g => In g (map group_id b))
          (recomputeBucket avoidDiscard st (key, b)).
Proof.
  unfold recomputeBucket. destruct b as [|g1 [|g2 r]]; try apply reaches_ret.
  set (b := g1 :: g2 :: r).
  destruct (sortById b) as [|target others] eqn:Hs; [apply reaches_throw|].
  destruct (sortById_members b target others Hs) as [Ht Ho].
  apply reaches_bind.
  - apply runs_reaches, runs_for_each. intros src Hsrc.
    apply runs_drainGroupToTarget. intros _. split; apply in_map; auto.
  - intros _. apply reaches_bind; [|intros; apply reaches_ret].
    apply reaches_update. now apply in_map.
Qed.

(** Every bucket is made of groups that take part in bucketing. *)
Lemma bucket_members_take_part (cs iu : bool) (gs : list Group) (k : string)
      (b : list Group) (i : Z) :
  In (k, b) (buildBuckets cs iu gs) -> In i (map group_id b) -> takesPart cs iu gs i.
Proof.
  intros Hin Hi. destruct (buildBuckets_spec cs iu gs) as (_ & HB & _).
  destruct (HB _ _ Hin) as [_ ->].
  apply in_map_iff in Hi. destruct Hi as (g & <- & Hg).
  apply filter_In in Hg. apply in_map. tauto.
Qed.

Lemma reaches_buckets {R} (cs iu : bool) (gs : list Group)
      (body : string * list Group -> Async (list R)) :
  (forall k b, reaches avoidDiscard
                 (fun s d => In s (map group_id b) /\ In d (map group_id b))
                 (fun g => In g (map group_id b))
                 (body (k, b))) ->
  reaches avoidDiscard
          (fun s d => takesPart cs iu gs s /\ takesPart cs iu gs d)
          (takesPart cs iu gs)
          (for_collect (buildBuckets cs iu gs) body).
Proof.
  intros Hbody. apply reaches_for_collect. intros [k b] Hin.
  eapply reaches_mono; [| |apply Hbody].
  - intros s d [Hs Hd]. split; eapply bucket_members_take_part; eauto.
  - intros g Hg. eapply bucket_members_take_part; eauto.
Qed.

Lemma takesPart_incl (cs iu : bool) (gs gs' : list Group) (i : Z) :
  incl gs gs' -> takesPart cs iu gs i -> takesPart cs iu gs' i.
Proof.
  intros Hincl Hi. unfold takesPart in *.
  apply in_map_iff in Hi. destruct Hi as (g & <- & Hg).
  apply filter_In in Hg. apply in_map. apply filter_In. split; [apply Hincl|]; tauto.
Qed.

Lemma window_groups_incl (gs : list Group) (w : Z) (wg : list Group) :
  In (w, wg) (partitionByWindow gs) -> incl wg gs.
Proof.
  intros Hin. destruct (partitionByWindow_spec gs) as (_ & HB & _).
  destruct (HB _ _ Hin) as [_ ->]. intros g Hg. apply filter_In in Hg. tauto.
Qed.

Lemma listGroups_run (scope : Scope) (wid : option Z) (h : Host) :
  exists gs, listGroups scope wid h = (Returned gs, h) /\ incl gs (groups h).
Proof.
  unfold listGroups, bind, chrome.tabGroups_query, chrome.windows_getCurrent.
  destruct wid as [w|]; [|destruct scope]; eexists; (split; [reflexivity|]);
    try apply incl_refl; intros g Hg; apply filter_In in Hg; tauto.
Qed.

(** [mergeDuplicatesByName] moves tabs between, and updates, only groups of
    its listing that take part in bucketing. *)
Lemma mergeDuplicatesByName_steps (scope : Scope) (wid : option Z) (st : Settings)
      (h : Host) :
  exists l,
    steps avoidDiscard
          (fun s d => takesPart (caseSensitive st) (includeUnnamed st) (groups h) s /\
                      takesPart (caseSensitive st) (includeUnnamed st) (groups h) d)
          (takesPart (caseSensitive st) (includeUnnamed st) (groups h))
          h l (snd (mergeDuplicatesByName avoidDiscard scope wid st h)).
Proof.
  destruct (listGroups_run scope wid h) as (gs & E & Hincl).
  unfold mergeDuplicatesByName, bind at 1. rewrite E.
  apply reaches_for_collect. intros [w wg] Hin.
  unfold mergeWindow.
  assert (Hwg : incl wg (groups h)).
  { eapply incl_tran; [eapply window_groups_incl; exact Hin|exact Hincl]. }
  eapply reaches_mono; [| |apply reaches_buckets; intros; apply reaches_mergeBucket].
  - intros s d [Hs Hd]. split; eapply takesPart_incl; eauto.
  - intros g Hg. eapply takesPart_incl; eauto.
Qed.

Lemma recomputeAndDrainDuplicates_steps (w : Z) (st : Settings) (h : Host) :
  exists l,
    steps avoidDiscard
          (fun s d => takesPart (caseSensitive st) (includeUnnamed st) (groups h) s /\
                      takesPart (caseSensitive st) (includeUnnamed st) (groups h) d)
          (takesPart (caseSensitive st) (includeUnnamed st) (groups h))
          h l (snd (recomputeAndDrainDuplicates avoidDiscard w st h)).
Proof.
  destruct (listGroups_run CurrentWindow (Some w) h) as (gs & E & Hincl).
  unfold recomputeAndDrainDuplicates, bind at 1. rewrite E.
  eapply reaches_mono; [| |apply reaches_buckets; intros; apply reaches_recomputeBucket].
  - intros s d [Hs Hd]. split; eapply takesPart_incl; eauto.
  - intros g Hg. eapply takesPart_incl; eauto.
Qed.
End Reach.

(* ================================================================== *)
(** * Groups outside the permissions are left alone *)

Lemma unique_group_by_id (gs : list Group) (a b : Group) :
  NoDup (map group_id gs) -> In a gs -> In b gs -> group_id a = group_id b -> a = b.
Proof.
  induction gs as [|x r IH]; simpl; intros ND Ha Hb E; [destruct Ha|].
  apply NoDup_cons_iff in ND. destruct ND as [Hnot ND].
  destruct Ha as [<-|Ha], Hb as [<-|Hb]; auto.
  - exfalso. apply Hnot. rewrite E. now apply in_map.
  - exfalso. apply Hnot. rewrite <- E. now apply in_map.
Qed.

Lemma steps_leave_alone (avoid : Tab -> bool) (canMove : Z -> Z -> Prop)
      (canUpdate : Z -> Prop) (u : Group) (h0 h' : Host) (l : list Request) :
  (forall s d, canMove s d -> s <> group_id u /\ d <> group_id u) ->
  (forall g, canUpdate g -> g <> group_id u) ->
  uniqueTabs h0 -> In u (groups h0) -> tabsOf (group_id u) h0 <> [] ->
  steps avoid canMove canUpdate h0 l h' ->
  In u (groups h') /\ tabsOf (group_id u) h' = tabsOf (group_id u) h0 /\
  Forall (leavesAlone u h0) l.
Proof.
  intros HM HU UT Hu Hne S.
  destruct (steps_invariant avoid canMove canUpdate
              (fun h => uniqueTabs h /\ In u (groups h) /\
                        tabsOf (group_id u) h = tabsOf (group_id u) h0)
              (leavesAlone u h0)) with (h := h0) (l := l) (h' := h')
    as [(_ & I2 & I3) P]; auto.
  clear S. intros h r h1 (U1 & G1 & T1) St.
  destruct St as [h t Ht Ha|h src dst C N Hsrc|h gid title c C].
  - simpl. auto.
  - destruct (HM _ _ C) as [Ns Nd].
    assert (Tk : tabsOf (group_id u)
                   (snd (chrome.tabs_group (map tab_id (tabsOf src h)) dst h))
                 = tabsOf (group_id u) h)
      by (apply move_keeps_bystander; auto).
    split; [split; [|split]|].
    + now apply move_keeps_uniqueTabs.
    + apply move_keeps_group; [exact G1|]. rewrite Tk, T1. exact Hne.
    + now rewrite Tk.
    + simpl. split; [exact Nd|]. intros t Ht Hin.
      rewrite <- T1 in Ht. apply filter_In in Ht. destruct Ht as [Ht Hg].
      apply Z.eqb_eq in Hg.
      apply in_map_iff in Hin. destruct Hin as (t' & E & Ht').
      apply filter_In in Ht'. destruct Ht' as [Ht' Hg']. apply Z.eqb_eq in Hg'.
      assert (t' = t) by (apply (unique_by_id (tabs h)); auto). subst t'. congruence.
  - pose proof (HU _ C) as Ng.
    split; [split; [|split]|].
    + unfold uniqueTabs. now rewrite tabGroups_update_tabs.
    + rewrite tabGroups_update_groups. apply in_map_iff. exists u.
      split; [|exact G1].
      replace (group_id u =? gid) with false; [reflexivity|].
      symmetry. apply Z.eqb_neq. congruence.
    + unfold tabsOf in *. now rewrite tabGroups_update_tabs.
    + simpl. exact Ng.
Qed.

(** With [includeUnnamed] off, a group that takes part has a name. *)
Lemma takesPart_named (cs : bool) (h : Host) (u : Group) (i : Z) :
  uniqueGroups h -> In u (groups h) ->
  normalizeTitle (group_title u) cs = EmptyString ->
  takesPart cs false (groups h) i -> i <> group_id u.
Proof.
  intros UG Hu Ku Hi E. unfold takesPart in Hi.
  apply in_map_iff in Hi. destruct Hi as (g & Eg & Hg).
  apply filter_In in Hg. destruct Hg as [Hg Inc].
  assert (g = u) by (apply (unique_group_by_id (groups h)); auto; congruence).
  subst g. unfold included in Inc. rewrite Ku in Inc. discriminate.
Qed.

Lemma buckets_exclude_unnamed (cs : bool) (gs : list Group) (k : string)
      (b : list Group) :
  In (k, b) (buildBuckets cs false gs) ->
  k <> EmptyString /\
  forall g, In g b -> normalizeTitle (group_title g) cs <> EmptyString.
Proof.
  intros Hin. destruct (buildBuckets_spec cs false gs) as (_ & HB & _).
  destruct (HB _ _ Hin) as [Hne Eb].
  assert (Hmem : forall g, In g b ->
                   normalizeTitle (group_title g) cs <> EmptyString /\
                   normalizeTitle (group_title g) cs = k).
  { intros g Hg. rewrite Eb in Hg. apply filter_In in Hg. destruct Hg as [Hg Ek].
    apply String.eqb_eq in Ek. apply filter_In in Hg. destruct Hg as [_ Inc].
    split; [|exact Ek]. unfold included in Inc. simpl in Inc.
    apply negb_true_iff in Inc. now apply String.eqb_neq in Inc. }
  split; [|intros g Hg; now apply Hmem].
  destruct b as [|g r]; [congruence|].
  destruct (Hmem g (or_introl eq_refl)) as [N <-]. exact N.
Qed.

(* ================================================================== *)
(** * A selection that passes validation *)

Lemma steps_spare_target (avoid : Tab -> bool) (canMove : Z -> Z -> Prop)
      (canUpdate : Z -> Prop) (target : Z) (h0 h' : Host) (l : list Request) :
  (forall s d, canMove s d -> d = target /\ s <> target) ->
  uniqueTabs h0 ->
  steps avoid canMove canUpdate h0 l h' ->
  Forall (sparesTarget target h0) l.
Proof.
  intros HM UT S.
  set (Inv := fun h => uniqueTabs h /\
                       forall t0, In t0 (tabsOf target h0) ->
                                  exists t, In t (tabsOf target h) /\ tab_id t = tab_id t0).
  assert (I0 : Inv h0).
  { split; [exact UT|]. intros t0 Ht0. exists t0. auto. }
  refine (proj2 (steps_invariant avoid canMove canUpdate Inv (sparesTarget target h0)
                   _ h0 l h' S I0)).
  clear S I0. unfold Inv. intros h r h1 (U1 & K1) St.
  destruct St as [h t Ht Ha|h src dst C N Hsrc|h gid title c C].
  - split; [split; [exact U1|exact K1]|exact I].
  - destruct (HM _ _ C) as [-> Ns].
    split; [split|].
    + now apply move_keeps_uniqueTabs.
    + intros t0 Ht0. destruct (K1 t0 Ht0) as (t & Ht & Et).
      apply filter_In in Ht. destruct Ht as [Ht Hg]. apply Z.eqb_eq in Hg.
      destruct (tabs_group_effect (map tab_id (tabsOf src h)) target h)
        as (f & Ef & Hf & _).
      exists (f t). split.
      * apply filter_In. split; [rewrite Ef; now apply in_map|].
        apply Z.eqb_eq. destruct (Hf t) as [->|(_ & w & ->)]; [exact Hg|reflexivity].
      * destruct (Hf t) as [->|(_ & w & ->)]; [exact Et|exact Et].
    + simpl. split; [reflexivity|]. intros t0 Ht0 Hin.
      destruct (K1 t0 Ht0) as (t & Ht & Et).
      apply filter_In in Ht. destruct Ht as [Ht Hg]. apply Z.eqb_eq in Hg.
      apply in_map_iff in Hin. destruct Hin as (t' & E & Ht').
      apply filter_In in Ht'. destruct Ht' as [Ht' Hg']. apply Z.eqb_eq in Hg'.
      assert (t' = t) by (apply (unique_by_id (tabs h)); auto; congruence).
      subst t'. congruence.
  - split; [split|].
    + unfold uniqueTabs. now rewrite tabGroups_update_tabs.
    + intros t0 Ht0. destruct (K1 t0 Ht0) as (t & Ht & Et).
      exists t. split; [|exact Et]. unfold tabsOf in *.
      now rewrite tabGroups_update_tabs.
    + simpl. exact I.
Qed.

Lemma find_group_id (i : Z) (h : Host) (g : Group) :
  chrome.find_group i h = Some g -> group_id g = i /\ In g (groups h).
Proof.
  unfold chrome.find_group. intros F. apply find_some in F.
  destruct F as [Hin E]. apply Z.eqb_eq in E. auto.
Qed.

Lemma find_group_self (h : Host) (g : Group) (i : Z) :
  chrome.find_group i h = Some g -> chrome.find_group (group_id g) h = Some g.
Proof. intros F. destruct (find_group_id i h g F) as [-> _]. exact F. Qed.

Section SelectedRun.
Variable avoidDiscard : Tab -> bool.

(** With at least two ids, all of existing groups of one window,
    [mergeSelectedGroups] succeeds: it updates the group in front of the
    sorted counts, drains the other entries into it, and counts every entry
    but the first as merged. *)
Lemma mergeSelectedGroups_accepts (targetTitle : option string) (ids : list Z) (h : Host) :
  (2 <= length ids)%nat ->
  Forall (fun i => chrome.find_group i h <> None) ids ->
  (forall i j gi gj, In i ids -> In j ids ->
     chrome.find_group i h = Some gi -> chrome.find_group j h = Some gj ->
     group_windowId gi = group_windowId gj) ->
  exists target l h',
    In (group_id target) ids /\
    mergeSelectedGroups avoidDiscard targetTitle ids h =
      (Returned (mkSelectedResult true None (Some (group_id target))
                   (Some (JsString.trim (match targetTitle with
                                         | Some t => t
                                         | None => orEmpty (group_title target)
                                         end)))
                   (Some (Z.of_nat (length ids) - 1))), h') /\
    steps avoidDiscard
          (fun s d => d = group_id target /\ s <> group_id target)
          (fun g => g = group_id target) h l h'.
Proof.
  intros Hlen Hall Hwin.
  destruct (promise_all_get_found ids h Hall) as (gs & E & F).
  pose proof (Forall2_length F) as Lgs.
  unfold mergeSelectedGroups.
  replace (length ids <? 2)%nat with false by (symmetry; apply Nat.ltb_ge; lia).
  unfold bind at 1. rewrite E.
  destruct gs as [|g0 gr]; [simpl in Lgs; lia|].
  set (gs := g0 :: gr) in *.
  assert (Hg0 : In g0 gs) by now left.
  assert (Hsame : forall g, In g gs -> group_windowId g = group_windowId g0).
  { intros g Hg.
    destruct (Forall2_In_right _ _ _ g F Hg) as (i & Hi & Fi).
    destruct (Forall2_In_right _ _ _ g0 F Hg0) as (j & Hj & Fj).
    exact (Hwin i j g g0 Hi Hj Fi Fj). }
  rewrite (partitionByWindow_one gs (group_windowId g0)); [|discriminate|exact Hsame].
  change (1 <? length [(group_windowId g0, gs)])%nat with false. cbv iota.
  unfold bind at 1. rewrite promise_all_countTabs.
  destruct (sortByCount _) as [|[target n] rest] eqn:Hs.
  { pose proof (js_sort_length (fun a b : Group * Z => snd b - snd a)
                  (map (fun g => (g, tabCount (group_id g) h)) gs)) as L.
    unfold sortByCount in Hs. rewrite Hs, length_map in L. simpl in L. lia. }
  destruct (sortByCount_members gs (fun g => (g, tabCount (group_id g) h)) target n rest
              (fun g => eq_refl) Hs) as [Ht Ho].
  destruct (Forall2_In_right _ _ _ target F Ht) as (it & Hit & Fit).
  destruct (find_group_id it h target Fit) as [Eit _].
  pose proof (find_group_self h target it Fit) as Fself.
  assert (Lrest : length rest = pred (length ids)).
  { pose proof (js_sort_length (fun a b : Group * Z => snd b - snd a)
                  (map (fun g => (g, tabCount (group_id g) h)) gs)) as L.
    unfold sortByCount in Hs. rewrite Hs, length_map in L.
    unfold gs in L, Lgs. simpl in L, Lgs. lia. }
  set (title := JsString.trim (match targetTitle with
                               | Some t => t
                               | None => orEmpty (group_title target)
                               end)).
  unfold bind at 1, chrome.storage_get at 1. cbv beta iota. simpl fst. simpl snd.
  set (kc := match stored_keepCollapsed h with Some b => b | None => true end).
  set (fm := match stored_fastMerge h with Some b => b | None => true end).
  set (canMove := fun s d : Z => d = group_id target /\ s <> group_id target).
  set (canUpdate := fun g : Z => g = group_id target).
  assert (Eu : exists g', chrome.tabGroups_update (group_id target) (Some title) kc h
                          = (Returned g', snd (chrome.tabGroups_update (group_id target)
                                                 (Some title) kc h))).
  { unfold chrome.tabGroups_update. rewrite Fself. eexists. reflexivity. }
  destruct Eu as (g' & Eu).
  assert (S0 : steps avoidDiscard canMove canUpdate h
                 [ReqUpdate (group_id target) (Some title) kc]
                 (snd (chrome.tabGroups_update (group_id target) (Some title) kc h))).
  { apply steps_one. constructor. reflexivity. }
  set (h0 := snd (chrome.tabGroups_update (group_id target) (Some title) kc h)) in *.
  assert (T1 : runs avoidDiscard canMove canUpdate
                 (if fm then try_catch (discardNonActiveTabsInGroup avoidDiscard
                                          (group_id target))
                  else ret tt)).
  { destruct fm; [|apply runs_ret].
    apply runs_try_catch, runs_discardNonActiveTabsInGroup. }
  destruct (T1 h0) as ([] & l1 & h1 & E1 & S1).
  destruct (runs_mergeGroupSet avoidDiscard canMove canUpdate (group_id target)
              (map group_id (map fst rest)) fm
              (fun s _ N => conj eq_refl N) h1) as ([] & l2 & h2 & E2 & S2).
  exists target, ([ReqUpdate (group_id target) (Some title) kc] ++ l1 ++ l2), h2.
  split; [now rewrite Eit|]. split.
  - unfold bind at 1. fold title kc. rewrite Eu.
    unfold bind at 1. fold fm. rewrite E1.
    unfold bind at 1. rewrite E2. unfold ret.
    rewrite !length_map, Lrest. repeat f_equal. lia.
  - eapply steps_app; [exact S0|]. eapply steps_app; eauto.
Qed.
End SelectedRun.

(* ================================================================== *)
(** * Which tabs are discarded *)

Lemma steps_discard_eligible (avoid : Tab -> bool) (canMove : Z -> Z -> Prop)
      (canUpdate : Z -> Prop) (h0 h' : Host) (l : list Request) :
  (forall t g w, avoid (chrome.set_group g w t) = avoid t) ->
  steps avoid canMove canUpdate h0 l h' ->
  Forall (discardsEligible avoid h0) l.
Proof.
  intros Hav S.
  set (Inv := fun h => forall t, In t (tabs h) ->
                         exists t0, In t0 (tabs h0) /\ tab_id t0 = tab_id t /\
                                    avoid t0 = avoid t).
  assert (I0 : Inv h0) by (intros t Ht; exists t; auto).
  refine (proj2 (steps_invariant avoid canMove canUpdate Inv (discardsEligible avoid h0)
                   _ h0 l h' S I0)).
  clear S I0. unfold Inv. intros h r h1 K St.
  destruct St as [h t Ht Ha|h src dst C N Hsrc|h gid title c C].
  - split; [exact K|]. simpl. destruct (K t Ht) as (t0 & H0 & E & A).
    exists t0. split; [exact H0|]. split; [exact E|congruence].
  - split; [|exact I]. intros t Ht.
    destruct (tabs_group_effect (map tab_id (tabsOf src h)) dst h) as (f & Ef & Hf & _).
    rewrite Ef in Ht. apply in_map_iff in Ht. destruct Ht as (t1 & <- & Ht1).
    destruct (K t1 Ht1) as (t0 & H0 & E & A). exists t0. split; [exact H0|].
    destruct (Hf t1) as [->|(_ & w & ->)]; [auto|]. rewrite Hav. auto.
  - split; [|exact I]. intros t Ht. rewrite tabGroups_update_tabs in Ht. auto.
Qed.

Lemma shouldAvoidDiscard_set_group (t : Tab) (g w : Z) :
  shouldAvoidDiscard (chrome.set_group g w t) = shouldAvoidDiscard t.
Proof. reflexivity. Qed.

Lemma isActive_set_group (t : Tab) (g w : Z) :
  isActive (chrome.set_group g w t) = isActive t.
Proof. reflexivity. Qed.

(** What the later revision's filter lets through: tabs that are not
    active, have a non-blank committed URL and no pending navigation. *)
Lemma shouldAvoidDiscard_false (t : Tab) :
  shouldAvoidDiscard t = false ->
  tab_active t = false /\
  JsString.trim (orEmpty (tab_url t)) <> EmptyString /\
  JsString.trim (orEmpty (tab_url t)) <> "about:blank"%string /\
  (tab_pendingUrl t = None \/ tab_pendingUrl t = Some EmptyString).
Proof.
  unfold shouldAvoidDiscard. destruct (tab_active t); [discriminate|].
  intros H. apply orb_false_iff in H. destruct H as [H Hp].
  apply orb_false_iff in H. destruct H as [Hu Hb].
  apply negb_false_iff in Hu. apply String.eqb_neq in Hb.
  split; [reflexivity|]. split; [|split; [exact Hb|]].
  - intros E. rewrite E in Hu. discriminate.
  - destruct (tab_pendingUrl t) as [[|c p]|]; auto. discriminate.
Qed.

(* ================================================================== *)
(** * Draining one group into another *)

Lemma tabsOf_nonempty_count (x : Z) (h : Host) :
  tabsOf x h <> [] <-> 0 < tabCount x h.
Proof.
  unfold tabCount. destruct (tabsOf x h); simpl; split; intros H;
    try congruence; try lia; try discriminate.
Qed.

(** Re-homing the tabs of [src]: how many tabs each group then has. *)
Lemma rehome_count (src dst w x : Z) (ts : list Tab) :
  src <> dst ->
  length (filter (fun t => tab_groupId t =? x)
            (map (fun t => if tab_groupId t =? src then chrome.set_group dst w t else t) ts))
  = if x =? src then 0%nat
    else if x =? dst
         then Nat.add (length (filter (fun t => tab_groupId t =? dst) ts))
                      (length (filter (fun t => tab_groupId t =? src) ts))
         else length (filter (fun t => tab_groupId t =? x) ts).
Proof.
  intros N. induction ts as [|t r IH]; simpl.
  - destruct (x =? src), (x =? dst); reflexivity.
  - destruct (Z.eqb_spec x src) as [Xs|Xs], (Z.eqb_spec x dst) as [Xd|Xd],
             (Z.eqb_spec (tab_groupId t) src) as [Ts|Ts]; try congruence; simpl;
      repeat match goal with
             | |- context [Z.eqb ?a ?b] => destruct (Z.eqb_spec a b); try congruence
             end; simpl; rewrite ?IH; try lia; try congruence.
Qed.

(** In a well-formed host, moving all the tabs of [src] into an existing
    group [dst] succeeds: the tabs change group and [src] disappears. *)
Lemma move_all_effect (src dst : Z) (h : Host) (gd : Group) :
  wellFormed h -> src <> dst -> chrome.find_group dst h = Some gd ->
  tabsOf src h <> [] ->
  tabs (snd (chrome.tabs_group (map tab_id (tabsOf src h)) dst h))
    = map (fun t => if tab_groupId t =? src
                    then chrome.set_group dst (group_windowId gd) t else t) (tabs h) /\
  groups (snd (chrome.tabs_group (map tab_id (tabsOf src h)) dst h))
    = filter (fun g => negb (group_id g =? src)) (groups h).
Proof.
  intros (UG & UT & Pop) N F Hne.
  assert (Hmem : forall t, In t (tabs h) ->
                   chrome.mem (tab_id t) (map tab_id (tabsOf src h))
                   = (tab_groupId t =? src)).
  { intros t Ht. destruct (tab_groupId t =? src) eqn:E.
    - apply mem_In. apply in_map. apply filter_In. auto.
    - destruct (chrome.mem _ _) eqn:M; [|reflexivity].
      apply mem_In, in_map_iff in M. destruct M as (t' & Et & Ht').
      apply filter_In in Ht'. destruct Ht' as [Ht' Hs].
      assert (t' = t) by (apply (unique_by_id (tabs h)); auto). subst t'. congruence. }
  assert (Hall : find (fun i => negb (chrome.mem i (map tab_id (tabs h))))
                      (map tab_id (tabsOf src h)) = None).
  { apply find_absent. intros i Hi. apply negb_false_iff, mem_In.
    apply in_map_iff in Hi. destruct Hi as (t & <- & Ht).
    apply in_map. now apply tabsOf_incl in Ht. }
  unfold chrome.tabs_group. rewrite F, Hall. simpl.
  assert (Et : map (fun t => if chrome.mem (tab_id t) (map tab_id (tabsOf src h))
                             then chrome.set_group dst (group_windowId gd) t else t)
                   (tabs h)
               = map (fun t => if tab_groupId t =? src
                               then chrome.set_group dst (group_windowId gd) t else t)
                     (tabs h)).
  { apply map_ext_in. intros t Ht. now rewrite Hmem. }
  rewrite Et. split; [reflexivity|].
  apply filter_ext_in. intros g Hg. unfold chrome.has_tabs.
  destruct (group_id g =? src) eqn:Eg; simpl.
  - apply Z.eqb_eq in Eg. apply not_true_is_false. intros Hex.
    apply existsb_exists in Hex. destruct Hex as (t' & Ht' & Egt).
    apply in_map_iff in Ht'. destruct Ht' as (t & <- & Ht).
    apply Z.eqb_eq in Egt. rewrite Eg in Egt.
    destruct (tab_groupId t =? src) eqn:Es; simpl in Egt.
    + congruence.
    + apply Z.eqb_neq in Es. congruence.
  - apply existsb_exists. specialize (Pop g Hg).
    destruct (tabsOf (group_id g) h) as [|t r] eqn:Etabs; [congruence|].
    assert (Ht : In t (tabsOf (group_id g) h)) by (rewrite Etabs; now left).
    apply filter_In in Ht. destruct Ht as [Ht Egt]. apply Z.eqb_eq in Egt.
    exists t. split.
    + apply in_map_iff. exists t. split; [|exact Ht].
      replace (tab_groupId t =? src) with false; [reflexivity|].
      symmetry. apply Z.eqb_neq. apply Z.eqb_neq in Eg. congruence.
    + now apply Z.eqb_eq.
Qed.

(* ================================================================== *)
(** * Draining the sources of a bucket *)

Lemma exists_group_iff (i : Z) (h : Host) :
  In i (map group_id (groups h)) <-> exists g, chrome.find_group i h = Some g.
Proof.
  split.
  - intros Hin. apply in_map_iff in Hin. destruct Hin as (g & E & Hg).
    unfold chrome.find_group.
    destruct (find (fun g0 => group_id g0 =? i) (groups h)) as [g'|] eqn:F; [eauto|].
    exfalso. apply (find_none _ _ F) in Hg. apply Z.eqb_neq in Hg. congruence.
  - intros [g F]. destruct (find_group_id i h g F) as [<- Hg]. now apply in_map.
Qed.

Lemma filter_all {A} (p : A -> bool) (l : list A) :
  (forall x, In x l -> p x = true) -> filter p l = l.
Proof.
  induction l as [|x r IH]; simpl; intros H; [reflexivity|].
  rewrite (H x (or_introl eq_refl)), IH; auto.
Qed.

Lemma filter_twice {A} (p q : A -> bool) (l : list A) :
  filter p (filter q l) = filter (fun x => q x && p x) l.
Proof.
  induction l as [|x r IH]; simpl; [reflexivity|].
  destruct (q x); simpl; [destruct (p x)|]; now rewrite IH.
Qed.

(** A successful move, in terms of groups and tab counts. *)
Lemma move_all_counts (src dst : Z) (h : Host) :
  wellFormed h -> src <> dst -> In dst (map group_id (groups h)) ->
  tabsOf src h <> [] ->
  wellFormed (snd (chrome.tabs_group (map tab_id (tabsOf src h)) dst h)) /\
  groups (snd (chrome.tabs_group (map tab_id (tabsOf src h)) dst h))
    = filter (fun g => negb (group_id g =? src)) (groups h) /\
  (forall x, tabCount x (snd (chrome.tabs_group (map tab_id (tabsOf src h)) dst h))
             = if x =? src then 0
               else if x =? dst then tabCount dst h + tabCount src h
                    else tabCount x h).
Proof.
  intros WF N Hd Hne.
  apply exists_group_iff in Hd. destruct Hd as [gd F].
  destruct (move_all_effect src dst h gd WF N F Hne) as [Et Eg].
  assert (Hc : forall x,
             tabCount x (snd (chrome.tabs_group (map tab_id (tabsOf src h)) dst h))
             = if x =? src then 0
               else if x =? dst then tabCount dst h + tabCount src h
                    else tabCount x h).
  { intros x. unfold tabCount. unfold tabsOf at 1.
    rewrite Et, (rehome_count src dst _ x _ N).
    destruct (x =? src); [reflexivity|]. destruct (x =? dst); [|reflexivity].
    unfold tabsOf. now rewrite Nat2Z.inj_add. }
  destruct WF as (UG & UT & Pop).
  split; [|split; [exact Eg|exact Hc]].
  split; [|split].
  - unfold uniqueGroups. rewrite Eg. now apply NoDup_map_filter.
  - now apply move_keeps_uniqueTabs.
  - intros g Hg. rewrite Eg in Hg. apply filter_In in Hg. destruct Hg as [Hg Ns].
    apply negb_true_iff in Ns. apply tabsOf_nonempty_count. rewrite Hc, Ns.
    pose proof (proj1 (tabsOf_nonempty_count (group_id g) h) (Pop g Hg)) as Pg.
    destruct (group_id g =? dst) eqn:Ed; [|exact Pg].
    apply Z.eqb_eq in Ed. rewrite Ed in Pg. unfold tabCount in *. lia.
Qed.

Lemma for_each_cons_run {A} (x : A) (xs : list A) (body : A -> Async unit)
      (h h1 : Host) :
  for_each [x] body h = (Returned tt, h1) ->
  for_each (x :: xs) body h = for_each xs body h1.
Proof.
  simpl. unfold bind, ret. destruct (body x h) as [[[]|e] h2]; intros E; inversion E.
  reflexivity.
Qed.

Section Drain.
Variable avoidDiscard : Tab -> bool.

Lemma mergeGroupSet_cons (target o : Z) (os : list Z) (fast : bool) (h h1 : Host) :
  mergeGroupSet avoidDiscard target [o] fast h = (Returned tt, h1) ->
  mergeGroupSet avoidDiscard target (o :: os) fast h
  = mergeGroupSet avoidDiscard target os fast h1.
Proof. unfold mergeGroupSet. apply for_each_cons_run. Qed.

(** One source: its tabs, if it has any, end up in the target and the
    source is gone. *)
Lemma mergeGroupSet_one (target o : Z) (fast : bool) (h : Host) :
  wellFormed h -> o <> target -> In target (map group_id (groups h)) ->
  exists h1,
    mergeGroupSet avoidDiscard target [o] fast h = (Returned tt, h1) /\
    wellFormed h1 /\
    groups h1 = filter (fun g => negb (group_id g =? o)) (groups h) /\
    (forall x, tabCount x h1
               = if x =? o then 0
                 else if x =? target then tabCount target h + tabCount o h
                      else tabCount x h).
Proof.
  intros WF N Ht.
  unfold mergeGroupSet. simpl for_each.
  replace (o =? target) with false by (symmetry; now apply Z.eqb_neq).
  unfold bind at 1. unfold bind at 1. rewrite listTabsInGroup_run.
  destruct (tabsOf o h) as [|t ts] eqn:Ets.
  - exists h. split.
    { simpl. destruct fast; reflexivity. }
    split; [exact WF|]. split.
    + symmetry. apply filter_all. intros g Hg. apply negb_true_iff, Z.eqb_neq.
      intros E. destruct WF as (_ & _ & Pop). apply (Pop g Hg). now rewrite E.
    + intros x. destruct (Z.eqb_spec x o) as [->|Nx].
      * unfold tabCount. now rewrite Ets.
      * destruct (x =? target) eqn:Xt; [|reflexivity].
        apply Z.eqb_eq in Xt. subst x. unfold tabCount at 3. rewrite Ets. simpl. lia.
  - assert (Hd : exists L,
               (match fast, map tab_id (t :: ts) with
                | true, _ :: _ => safeDiscardFromTabs avoidDiscard (t :: ts)
                | _, _ => ret tt
                end) h = (Returned tt, logged L h)).
    { destruct fast; simpl.
      - eexists. apply safeDiscardFromTabs_run.
      - exists []. unfold ret. now rewrite logged_nil. }
    destruct Hd as [L Hd]. unfold bind at 1. rewrite Hd.
    change (map tab_id (t :: ts)) with (tab_id t :: map tab_id ts).
    cbv iota. rewrite try_catch_run.
    assert (Hne : tabsOf o (logged L h) <> []).
    { change (tabsOf o (logged L h)) with (tabsOf o h). rewrite Ets. discriminate. }
    destruct (move_all_counts o target (logged L h) WF N Ht Hne) as (WF1 & Eg & Hc).
    change (tabsOf o (logged L h)) with (tabsOf o h) in WF1, Eg, Hc.
    rewrite Ets in WF1, Eg, Hc.
    change (map tab_id (t :: ts)) with (tab_id t :: map tab_id ts) in WF1, Eg, Hc.
    eexists. split; [unfold ret; reflexivity|].
    split; [exact WF1|]. split; [exact Eg|exact Hc].
Qed.

Lemma mergeGroupSet_effect (target : Z) (fast : bool) (others : list Z) (h : Host) :
  wellFormed h -> In target (map group_id (groups h)) ->
  NoDup others -> ~ In target others ->
  exists h',
    mergeGroupSet avoidDiscard target others fast h = (Returned tt, h') /\
    wellFormed h' /\
    groups h' = filter (fun g => negb (chrome.mem (group_id g) others)) (groups h) /\
    (forall x, tabCount x h'
               = if chrome.mem x others then 0
                 else if x =? target then tabCount target h + sumCounts others h
                      else tabCount x h).
Proof.
  revert h; induction others as [|o os IH]; intros h WF Ht ND Hnot.
  - exists h. split; [reflexivity|]. split; [exact WF|]. split.
    + symmetry. now apply filter_all.
    + intros x. simpl. destruct (Z.eqb_spec x target) as [->|]; [|reflexivity].
      unfold sumCounts. simpl. lia.
  - apply NoDup_cons_iff in ND. destruct ND as [Ho ND].
    assert (No : o <> target) by (intros ->; apply Hnot; now left).
    assert (Hnot' : ~ In target os) by (intros H; apply Hnot; now right).
    destruct (mergeGroupSet_one target o fast h WF No Ht) as (h1 & E1 & WF1 & G1 & C1).
    assert (Ht1 : In target (map group_id (groups h1))).
    { rewrite G1. apply in_map_iff in Ht. destruct Ht as (g & Eg & Hg).
      apply in_map_iff. exists g. split; [exact Eg|].
      apply filter_In. split; [exact Hg|].
      apply negb_true_iff, Z.eqb_neq. congruence. }
    destruct (IH h1 WF1 Ht1 ND Hnot') as (h' & E' & WF' & G' & C').
    exists h'. split; [rewrite (mergeGroupSet_cons target o os fast h h1 E1); exact E'|].
    split; [exact WF'|]. split.
    + rewrite G', G1, filter_twice. apply filter_ext. intros g. simpl.
      now rewrite negb_orb.
    + intros x. rewrite C'. simpl chrome.mem.
      destruct (chrome.mem x os) eqn:Mx.
      * now rewrite orb_true_r.
      * rewrite orb_false_r.
        assert (Hs : sumCounts os h1 = sumCounts os h).
        { unfold sumCounts. f_equal. apply map_ext_in. intros i Hi. rewrite C1.
          replace (i =? o) with false
            by (symmetry; apply Z.eqb_neq; intros ->; contradiction).
          replace (i =? target) with false
            by (symmetry; apply Z.eqb_neq; intros ->; contradiction).
          reflexivity. }
        rewrite Hs, !C1.
        destruct (Z.eqb_spec x o) as [->|Nx].
        -- replace (o =? target) with false by (symmetry; now apply Z.eqb_neq).
           reflexivity.
        -- rewrite Z.eqb_refl.
           replace (target =? o) with false
             by (symmetry; apply Z.eqb_neq; congruence).
           destruct (x =? target); [|reflexivity].
           unfold sumCounts. simpl. lia.
Qed.
End Drain.

(* ================================================================== *)
(** * Merging one bucket *)

Lemma class_eqb_eq (a b : class) : class_eqb a b = true <-> a = b.
Proof.
  destruct a as [w k], b as [w' k']. unfold class_eqb. simpl.
  rewrite andb_true_iff, Z.eqb_eq, String.eqb_eq. split.
  - intros [-> ->]. reflexivity.
  - intros E. inversion E. auto.
Qed.

Lemma inClass_iff (cs : bool) (c : class) (g : Group) :
  inClass cs c g = true <-> (group_windowId g, keyOf cs g) = c.
Proof. apply (class_eqb_eq (group_windowId g, keyOf cs g) c). Qed.

Lemma steps_tab_ids (avoid : Tab -> bool) (canMove : Z -> Z -> Prop)
      (canUpdate : Z -> Prop) (h h' : Host) (l : list Request) :
  steps avoid canMove canUpdate h l h' ->
  map tab_id (tabs h') = map tab_id (tabs h).
Proof.
  intros S. induction S as [|h r h1 l h2 St S IH]; [reflexivity|].
  rewrite IH. destruct St.
  - reflexivity.
  - apply tabs_group_ids.
  - now rewrite tabGroups_update_tabs.
Qed.

Lemma sumCounts_perm (l l' : list Z) (h : Host) :
  Permutation l l' -> sumCounts l h = sumCounts l' h.
Proof.
  unfold sumCounts. induction 1; simpl; try lia.
Qed.

Lemma totalTabs_sumCounts (gs : list Group) (h : Host) :
  totalTabs gs h = sumCounts (map group_id gs) h.
Proof. unfold totalTabs, sumCounts. now rewrite map_map. Qed.

Lemma filter_single {A} (p : A -> bool) (l : list A) (t : A) :
  NoDup l -> In t l -> (forall x, In x l -> (p x = true <-> x = t)) ->
  filter p l = [t].
Proof.
  induction l as [|x r IH]; simpl; intros ND Ht Hp; [destruct Ht|].
  apply NoDup_cons_iff in ND. destruct ND as [Hx ND].
  destruct Ht as [->|Ht].
  - rewrite (proj2 (Hp t (or_introl eq_refl)) eq_refl). f_equal.
    apply filter_nil_iff. intros y Hy.
    destruct (p y) eqn:P; [|reflexivity].
    apply (Hp y (or_intror Hy)) in P. subst y. contradiction.
  - destruct (p x) eqn:P.
    + apply (Hp x (or_introl eq_refl)) in P. subst x. contradiction.
    + apply IH; auto; intros y Hy; apply Hp; now right.
Qed.

Lemma filter_map_filter_keep {A} (p q : A -> bool) (f : A -> A) (l : list A) :
  (forall x, In x l ->
     (p x = true -> q x = true /\ f x = x) /\
     (p x = false -> q x = true -> p (f x) = false)) ->
  filter p (map f (filter q l)) = filter p l.
Proof.
  induction l as [|x r IH]; simpl; intros H; [reflexivity|].
  destruct (H x (or_introl eq_refl)) as [H1 H2].
  assert (Hr : filter p (map f (filter q r)) = filter p r)
    by (apply IH; intros y Hy; apply H; now right).
  destruct (p x) eqn:P.
  - destruct (H1 eq_refl) as [Q F]. rewrite Q. simpl. rewrite F, P, Hr. reflexivity.
  - destruct (q x) eqn:Q; simpl; [|exact Hr].
    rewrite (H2 eq_refl eq_refl). exact Hr.
Qed.

Lemma NoDup_of_map {A B} (f : A -> B) (l : list A) : NoDup (map f l) -> NoDup l.
Proof.
  induction l as [|x r IH]; simpl; intros ND; [constructor|].
  apply NoDup_cons_iff in ND. destruct ND as [Hx ND].
  constructor; [|auto]. intros Hin. apply Hx. now apply in_map.
Qed.

(** The title given to the target keeps it in the class of the bucket. *)
Lemma titleToSet_keeps_key (cs kc : bool) (k : string) (b : list Group) (target : Group) :
  (forall g, In g b -> keyOf cs g = k) -> In target b ->
  keyOf cs (chrome.set_props (titleToSet b target) kc target) = k.
Proof.
  intros Hk Ht. unfold titleToSet.
  destruct (js_sort _ (bucketTitles b)) as [|t rest] eqn:Hs.
  - unfold keyOf. simpl. rewrite <- (Hk target Ht). unfold keyOf.
    destruct (group_title target); reflexivity.
  - assert (Hin : In t (bucketTitles b)).
    { eapply js_sort_In. rewrite Hs. now left. }
    unfold bucketTitles in Hin. apply filter_In in Hin. destruct Hin as [Hin _].
    apply in_map_iff in Hin. destruct Hin as (g & <- & Hg).
    unfold keyOf. simpl. rewrite normalizeTitle_trimmed. exact (Hk g Hg).
Qed.

Lemma sortByCount_perm (b : list Group) (h : Host) (target : Group) (n : Z)
      (rest : list (Group * Z)) :
  sortByCount (map (fun g => (g, tabCount (group_id g) h)) b) = (target, n) :: rest ->
  Permutation (target :: map fst rest) b.
Proof.
  intros Hs.
  pose proof (js_sort_perm (fun a b0 : Group * Z => snd b0 - snd a)
                (map (fun g => (g, tabCount (group_id g) h)) b)) as P.
  unfold sortByCount in Hs. rewrite Hs in P.
  apply (Permutation_map fst) in P. rewrite map_map in P. simpl in P.
  now rewrite map_id in P.
Qed.

Lemma untouched_refl (cs : bool) (c : class) (h : Host) : untouched cs c h h.
Proof. split; auto. Qed.

Section BucketEffect.
Variable avoidDiscard : Tab -> bool.

(** A bucket that is exactly a class of the current host: with two or more
    groups the class is merged, otherwise nothing happens; no other class
    is affected. *)
Lemma mergeBucket_effect (st : Settings) (w : Z) (k : string) (h : Host) :
  wellFormed h ->
  exists res h',
    mergeBucket avoidDiscard st w (k, classGroups (caseSensitive st) (w, k) h) h
      = (Returned res, h') /\
    effect (caseSensitive st) (fun c => class_eqb c (w, k)) h h'.
Proof.
  intros WF. set (cs := caseSensitive st).
  pose proof (reaches_mergeBucket avoidDiscard st w k (classGroups cs (w, k) h) h)
    as [trace Str].
  apply steps_tab_ids in Str.
  remember (classGroups cs (w, k) h) as b eqn:Eb.
  destruct (2 <=? length b)%nat eqn:Big.
  2: { exists [], h. split.
       - unfold mergeBucket. destruct b as [|g1 [|g2 r]]; try reflexivity.
         simpl in Big. discriminate.
       - split; [exact WF|]. split; [reflexivity|]. intros c. cbv beta.
         destruct (class_eqb c (w, k)) eqn:E; cbn [andb]; [|apply untouched_refl].
         apply class_eqb_eq in E. subst c. fold cs. rewrite <- Eb, Big.
         apply untouched_refl. }
  apply Nat.leb_le in Big.
  assert (Hne : b <> []) by (destruct b; simpl in Big; [lia|discriminate]).
  destruct (sortByCount_head b h Hne) as (target & rest & _ & _ & Hs & _).
  pose proof (sortByCount_perm b h target _ rest Hs) as Perm.
  set (others := map fst rest) in *.
  set (oids := map group_id others).
  destruct WF as (UG & UT & Pop).
  assert (WF : wellFormed h) by (split; [|split]; assumption).
  assert (Hb : forall g, In g b <-> In g (groups h) /\ inClass cs (w, k) g = true).
  { intros g. rewrite Eb. apply filter_In. }
  assert (Fb : forall g, In g b <-> g = target \/ In g others).
  { intros g. split; intros H.
    - apply (Permutation_in _ (Permutation_sym Perm)) in H. destruct H; auto.
    - apply (Permutation_in _ Perm). destruct H; [left|right]; auto. }
  assert (Ht : In target b) by (apply Fb; now left).
  assert (Hta : In target (groups h)) by (now apply Hb in Ht).
  assert (NDp : NoDup (map group_id (target :: others))).
  { apply (Permutation_NoDup (Permutation_sym (Permutation_map group_id Perm))).
    rewrite Eb. now apply NoDup_map_filter. }
  simpl in NDp. apply NoDup_cons_iff in NDp. destruct NDp as [Hnot NDo].
  fold oids in Hnot, NDo.
  assert (Fo : forall g, In g (groups h) ->
                         (chrome.mem (group_id g) oids = true <-> In g others)).
  { intros g Hg. rewrite mem_In. split; intros H.
    - apply in_map_iff in H. destruct H as (o & E & Ho).
      assert (Hob : In o (groups h)) by (apply Hb, Fb; now right).
      replace g with o; [exact Ho|].
      apply (unique_group_by_id (groups h)); auto.
    - now apply in_map. }
  assert (Ft : forall g, In g (groups h) -> group_id g = group_id target -> g = target).
  { intros g Hg E. apply (unique_group_by_id (groups h)); auto. }
  (* running the bucket *)
  set (title := titleToSet b target).
  set (kc := keepCollapsed st).
  assert (E1 : exists L,
             (if fastMerge st
              then try_catch (discardNonActiveTabsInGroup avoidDiscard (group_id target))
              else ret tt) h = (Returned tt, logged L h)).
  { destruct (fastMerge st).
    - rewrite try_catch_run, discardNonActiveTabsInGroup_run. eexists. reflexivity.
    - exists []. unfold ret. now rewrite logged_nil. }
  destruct E1 as [L E1].
  destruct (mergeGroupSet_effect avoidDiscard (group_id target) (fastMerge st) oids
              (logged L h) WF (in_map group_id _ _ Hta) NDo Hnot)
    as (h2 & E2 & WF2 & G2 & C2).
  assert (G2' : groups h2
                = filter (fun g => negb (chrome.mem (group_id g) oids)) (groups h))
    by exact G2.
  assert (C2' : forall x, tabCount x h2
                          = if chrome.mem x oids then 0
                            else if x =? group_id target
                                 then tabCount (group_id target) h + sumCounts oids h
                                 else tabCount x h)
    by exact C2.
  clear G2 C2.
  assert (Hkeep : In target (groups h2)).
  { rewrite G2'. apply filter_In. split; [exact Hta|].
    apply negb_true_iff. destruct (chrome.mem (group_id target) oids) eqn:M; [|reflexivity].
    apply mem_In in M. contradiction. }
  assert (Eu : exists g', chrome.tabGroups_update (group_id target) title kc h2
                          = (Returned g', snd (chrome.tabGroups_update (group_id target)
                                                 title kc h2))).
  { unfold chrome.tabGroups_update.
    destruct (proj1 (exists_group_iff (group_id target) h2)
                    (in_map group_id _ _ Hkeep)) as [g' F].
    rewrite F. eexists. reflexivity. }
  destruct Eu as [g' Eu].
  set (h3 := snd (chrome.tabGroups_update (group_id target) title kc h2)) in *.
  assert (Erun : mergeBucket avoidDiscard st w (k, b) h
                 = (Returned [mkMergeResult w title (group_id target)
                                            (Z.of_nat (length b) - 1)], h3)).
  { unfold mergeBucket. destruct b as [|g1 [|g2 r]]; simpl in Big; try lia.
    unfold bind at 1. rewrite promise_all_countTabs, Hs.
    unfold bind at 1. rewrite E1.
    unfold bind at 1. fold others oids. rewrite E2.
    unfold bind at 1. fold title kc. rewrite Eu. reflexivity. }
  rewrite Erun in Str. simpl in Str.
  exists [mkMergeResult w title (group_id target) (Z.of_nat (length b) - 1)], h3.
  split; [exact Erun|].
  set (upd := fun g => if group_id g =? group_id target
                       then chrome.set_props title kc g else g).
  assert (G3 : groups h3 = map upd (filter (fun g => negb (chrome.mem (group_id g) oids))
                                           (groups h))).
  { unfold h3. now rewrite tabGroups_update_groups, G2'. }
  assert (T3 : tabs h3 = tabs h2) by apply tabGroups_update_tabs.
  assert (C3 : forall x, tabCount x h3 = tabCount x h2).
  { intros x. unfold tabCount, tabsOf. now rewrite T3. }
  assert (Hid : forall g, group_id (upd g) = group_id g).
  { intros g. unfold upd. destruct (group_id g =? group_id target); reflexivity. }
  assert (Hupd_other : forall g, In g (groups h) -> g <> target -> upd g = g).
  { intros g Hg N. unfold upd.
    destruct (Z.eqb_spec (group_id g) (group_id target)) as [E|]; [|reflexivity].
    exfalso. apply N. now apply Ft. }
  assert (Hupd_target : inClass cs (w, k) (upd target) = true).
  { unfold upd. rewrite Z.eqb_refl. apply inClass_iff. simpl. f_equal.
    - apply Hb in Ht. destruct Ht as [_ Ht]. apply inClass_iff in Ht. now inversion Ht.
    - apply titleToSet_keeps_key; [|exact Ht].
      intros g Hg. apply Hb in Hg. destruct Hg as [_ Hg].
      apply inClass_iff in Hg. now inversion Hg. }
  destruct WF2 as (UG2 & UT2 & Pop2).
  split; [split; [|split]|split].
  - unfold uniqueGroups. rewrite G3, map_map.
    rewrite (map_ext _ group_id Hid). rewrite <- G2'. exact UG2.
  - unfold uniqueTabs. now rewrite T3.
  - intros g Hg. rewrite G3 in Hg. apply in_map_iff in Hg.
    destruct Hg as (g0 & <- & Hg0). rewrite <- G2' in Hg0.
    rewrite Hid. unfold tabsOf. rewrite T3. exact (Pop2 g0 Hg0).
  - exact Str.
  - intros c. cbv beta. destruct (class_eqb c (w, k)) eqn:Ec; cbn [andb].
    + apply class_eqb_eq in Ec. subst c. fold cs. rewrite <- Eb.
      replace (2 <=? length b)%nat with true by (symmetry; now apply Nat.leb_le).
      unfold merged. fold cs. rewrite <- Eb.
      exists (upd target). split.
      * unfold classGroups. rewrite G3, filter_map_swap, filter_twice.
        rewrite (filter_single _ (groups h) target); [reflexivity| | |].
        -- exact (NoDup_of_map group_id _ UG).
        -- exact Hta.
        -- intros g Hg. split.
           ++ intros H. apply andb_true_iff in H. destruct H as [Hk Hc].
              destruct (Z.eqb_spec (group_id g) (group_id target)) as [E|N];
                [now apply Ft|].
              exfalso. assert (Ng : g <> target) by congruence.
              rewrite (Hupd_other g Hg Ng) in Hc.
              assert (Hgb : In g b) by (apply Hb; auto).
              apply Fb in Hgb. destruct Hgb as [->|Hgo]; [congruence|].
              apply (Fo g Hg) in Hgo. rewrite Hgo in Hk. discriminate.
           ++ intros ->. apply andb_true_iff. split; [|exact Hupd_target].
              apply negb_true_iff.
              destruct (chrome.mem (group_id target) oids) eqn:M; [|reflexivity].
              apply mem_In in M. contradiction.
      * rewrite Hid, C3, C2'.
        replace (chrome.mem (group_id target) oids) with false.
        2: { symmetry. destruct (chrome.mem (group_id target) oids) eqn:M; [|reflexivity].
             apply mem_In in M. contradiction. }
        rewrite Z.eqb_refl, totalTabs_sumCounts.
        rewrite <- (sumCounts_perm _ _ h (Permutation_map group_id Perm)).
        unfold sumCounts. simpl. reflexivity.
    + assert (Nc : c <> (w, k)).
      { intros ->. rewrite (proj2 (class_eqb_eq (w, k) (w, k)) eq_refl) in Ec.
        discriminate. }
      assert (Hout : forall g, In g (groups h) -> inClass cs c g = true ->
                               g <> target /\ chrome.mem (group_id g) oids = false).
      { intros g Hg Hc.
        assert (Hnb : ~ In g b).
        { intros Hgb. apply Hb in Hgb. destruct Hgb as [_ Hgb].
          apply inClass_iff in Hc. apply inClass_iff in Hgb. congruence. }
        split.
        - intros ->. contradiction.
        - destruct (chrome.mem (group_id g) oids) eqn:M; [|reflexivity].
          apply (Fo g Hg) in M. exfalso. apply Hnb. apply Fb. now right. }
      split.
      * unfold classGroups. rewrite G3. apply filter_map_filter_keep.
        intros g Hg. split.
        -- intros Hc. destruct (Hout g Hg Hc) as [Ng Mg].
           rewrite Mg. split; [reflexivity|]. now apply Hupd_other.
        -- intros Hc _.
           destruct (Z.eqb_spec (group_id g) (group_id target)) as [E|N].
           ++ apply Ft in E; [|exact Hg]. subst g.
              destruct (inClass cs c (upd target)) eqn:X; [|reflexivity].
              apply inClass_iff in X. apply inClass_iff in Hupd_target. congruence.
           ++ rewrite Hupd_other; auto. congruence.
      * intros g Hg. unfold classGroups in Hg. apply filter_In in Hg.
        destruct Hg as [Hg Hc]. destruct (Hout g Hg Hc) as [Ng Mg].
        rewrite C3, C2', Mg.
        replace (group_id g =? group_id target) with false; [reflexivity|].
        symmetry. apply Z.eqb_neq. intros E. apply Ng. now apply Ft.
Qed.
End BucketEffect.

(* ================================================================== *)
(** * Merging bucket after bucket *)

Lemma totalTabs_ext (gs : list Group) (h h' : Host) :
  (forall g, In g gs -> tabCount (group_id g) h' = tabCount (group_id g) h) ->
  totalTabs gs h' = totalTabs gs h.
Proof.
  unfold totalTabs. induction gs as [|g r IH]; simpl; intros H; [reflexivity|].
  rewrite (H g (or_introl eq_refl)), IH; auto.
Qed.

Lemma untouched_trans (cs : bool) (c : class) (h1 h2 h3 : Host) :
  untouched cs c h1 h2 -> untouched cs c h2 h3 -> untouched cs c h1 h3.
Proof.
  intros [G1 C1] [G2 C2]. split; [congruence|].
  intros g Hg. rewrite C2 by (now rewrite G1). now apply C1.
Qed.

Lemma merged_then_untouched (cs : bool) (c : class) (h1 h2 h3 : Host) :
  merged cs c h1 h2 -> untouched cs c h2 h3 -> merged cs c h1 h3.
Proof.
  intros (g & G & C) [G2 C2]. exists g. split; [congruence|].
  rewrite C2; [exact C|]. rewrite G. now left.
Qed.

Lemma untouched_then_merged (cs : bool) (c : class) (h1 h2 h3 : Host) :
  untouched cs c h1 h2 -> merged cs c h2 h3 -> merged cs c h1 h3.
Proof.
  intros [G1 C1] (g & G & C). exists g. split; [exact G|].
  rewrite C, G1. now apply totalTabs_ext.
Qed.

Lemma effect_none (cs : bool) (h : Host) :
  wellFormed h -> effect cs (fun _ => false) h h.
Proof.
  intros WF. split; [exact WF|]. split; [reflexivity|].
  intros c. apply untouched_refl.
Qed.

(** Only the classes with two or more groups matter to [handled]. *)
Lemma effect_ext (cs : bool) (H H' : class -> bool) (h h' : Host) :
  (forall c, (2 <= length (classGroups cs c h))%nat -> H c = H' c) ->
  effect cs H h h' -> effect cs H' h h'.
Proof.
  intros Hext (WF & Ids & Hc). split; [exact WF|]. split; [exact Ids|].
  intros c. specialize (Hc c).
  destruct (2 <=? length (classGroups cs c h))%nat eqn:Big.
  - apply Nat.leb_le in Big. now rewrite <- (Hext c Big).
  - rewrite andb_false_r in *. exact Hc.
Qed.

Lemma effect_compose (cs : bool) (H1 H2 : class -> bool) (h h1 h2 : Host) :
  (forall c, H1 c = true -> H2 c = false) ->
  effect cs H1 h h1 -> effect cs H2 h1 h2 ->
  effect cs (fun c => H1 c || H2 c) h h2.
Proof.
  intros Hdis (WF1 & I1 & E1) (WF2 & I2 & E2).
  split; [exact WF2|]. split; [congruence|].
  intros c. specialize (E1 c). specialize (E2 c). cbv beta.
  destruct (H1 c && (2 <=? length (classGroups cs c h))%nat) eqn:X1.
  - apply andb_true_iff in X1. destruct X1 as [X1 Big].
    rewrite X1, Big. simpl. rewrite (Hdis c X1) in E2. simpl in E2.
    eapply merged_then_untouched; eauto.
  - assert (Gsame : classGroups cs c h1 = classGroups cs c h) by apply E1.
    rewrite Gsame in E2.
    destruct (H2 c && (2 <=? length (classGroups cs c h))%nat) eqn:X2.
    + apply andb_true_iff in X2. destruct X2 as [X2 Big].
      rewrite X2, Big, orb_true_r. simpl.
      eapply untouched_then_merged; eauto.
    + replace ((H1 c || H2 c) && (2 <=? length (classGroups cs c h))%nat) with false.
      * eapply untouched_trans; eauto.
      * symmetry. rewrite andb_orb_distrib_l, X1, X2. reflexivity.
Qed.

(** A loop whose iterations handle disjoint sets of classes. *)
Lemma for_collect_effect {A R} (cs : bool) (body : A -> Async (list R))
      (H : A -> class -> bool) (pre : A -> Host -> Prop) (xs : list A) :
  ForallOrdPairs (fun x y => forall c, H x c = true -> H y c = false) xs ->
  (forall x h, In x xs -> wellFormed h -> pre x h ->
     exists res h', body x h = (Returned res, h') /\ effect cs (H x) h h') ->
  (forall x y h h',
      (forall c, H x c = true -> H y c = false) ->
      effect cs (H x) h h' -> pre y h -> pre y h') ->
  forall h, wellFormed h -> (forall x, In x xs -> pre x h) ->
    exists res h',
      for_collect xs body h = (Returned res, h') /\
      effect cs (fun c => existsb (fun x => H x c) xs) h h'.
Proof.
  intros Hdis Hbody Htrans.
  induction xs as [|x r IH]; intros h WF Hpre.
  - exists [], h. split; [reflexivity|]. now apply effect_none.
  - inversion Hdis as [|? ? Hx Hr]; subst.
    destruct (Hbody x h (or_introl eq_refl) WF (Hpre x (or_introl eq_refl)))
      as (res1 & h1 & E1 & F1).
    assert (Hpre1 : forall y, In y r -> pre y h1).
    { intros y Hy. apply (Htrans x y h h1); auto.
      - exact (proj1 (Forall_forall _ _) Hx y Hy).
      - apply Hpre. now right. }
    destruct (IH Hr (fun y h0 Hy => Hbody y h0 (or_intror Hy)) h1 (proj1 F1) Hpre1)
      as (res2 & h2 & E2 & F2).
    exists (res1 ++ res2), h2. split.
    + simpl. unfold bind. rewrite E1, E2. reflexivity.
    + simpl. apply effect_compose with (h1 := h1); auto.
      intros c Hc. apply not_true_is_false. intros Hex.
      apply existsb_exists in Hex. destruct Hex as (y & Hy & Hyc).
      rewrite (proj1 (Forall_forall _ _) Hx y Hy c Hc) in Hyc. discriminate.
Qed.

Lemma NoDup_ordered_pairs {A B} (f : A -> B) (R : A -> A -> Prop) (l : list A) :
  NoDup (map f l) ->
  (forall x y, In x l -> In y l -> f x <> f y -> R x y) ->
  ForallOrdPairs R l.
Proof.
  induction l as [|x r IH]; simpl; intros ND HR; [constructor|].
  apply NoDup_cons_iff in ND. destruct ND as [Hx ND].
  constructor.
  - apply Forall_forall. intros y Hy. apply HR; auto.
    intros E. apply Hx. rewrite E. now apply in_map.
  - apply IH; auto.
Qed.

(* ================================================================== *)
(** * The whole explicit merge *)

Lemma included_key (cs iu : bool) (g : Group) :
  included cs iu g = includedKey iu (keyOf cs g).
Proof. reflexivity. Qed.

Lemma listGroups_spec (scope : Scope) (wid : option Z) (h : Host) :
  listGroups scope wid h
  = (Returned (filter (fun g => inScope scope wid h (group_windowId g)) (groups h)), h).
Proof.
  unfold listGroups, inScope, bind, chrome.tabGroups_query, chrome.windows_getCurrent.
  destruct wid as [w|]; [reflexivity|]. destruct scope; [reflexivity|].
  now rewrite filter_all.
Qed.

(** Every bucket built from the listing is a class of the host. *)
Lemma bucket_is_class (scope : Scope) (wid : option Z) (cs iu : bool) (h : Host)
      (w : Z) (wg : list Group) (k : string) (b : list Group) :
  In (w, wg) (partitionByWindow
                (filter (fun g => inScope scope wid h (group_windowId g)) (groups h))) ->
  In (k, b) (buildBuckets cs iu wg) ->
  b = classGroups cs (w, k) h /\
  inScope scope wid h w = true /\ includedKey iu k = true.
Proof.
  intros Hw Hk.
  destruct (partitionByWindow_spec
              (filter (fun g => inScope scope wid h (group_windowId g)) (groups h)))
    as (_ & HBw & _).
  destruct (HBw _ _ Hw) as [_ Ewg].
  destruct (buildBuckets_spec cs iu wg) as (_ & HBk & _).
  destruct (HBk _ _ Hk) as [Hne Eb].
  assert (Hmem : forall g, In g b ->
             In g (groups h) /\ inScope scope wid h (group_windowId g) = true /\
             group_windowId g = w /\ included cs iu g = true /\ keyOf cs g = k).
  { intros g Hg. rewrite Eb in Hg. apply filter_In in Hg. destruct Hg as [Hg Ek].
    apply String.eqb_eq in Ek. apply filter_In in Hg. destruct Hg as [Hg Inc].
    rewrite Ewg in Hg. apply filter_In in Hg. destruct Hg as [Hg Ew].
    apply Z.eqb_eq in Ew. apply filter_In in Hg. tauto. }
  destruct b as [|g0 b0] eqn:Ebb; [congruence|]. rewrite <- Ebb in *.
  destruct (Hmem g0) as (_ & S0 & W0 & I0 & K0); [rewrite Ebb; now left|].
  rewrite W0 in S0. rewrite included_key, K0 in I0.
  split; [|auto].
  rewrite Eb, Ewg, !filter_twice. unfold classGroups. apply filter_ext.
  intros g. unfold inClass. simpl.
  destruct (Z.eqb_spec (group_windowId g) w) as [->|]; simpl.
  - rewrite S0. simpl. rewrite included_key. unfold keyOf in *.
    destruct (String.eqb_spec (normalizeTitle (group_title g) cs) k) as [->|].
    + now rewrite I0.
    + now rewrite andb_false_r.
  - now rewrite andb_false_r.
Qed.

Section RunEffect.
Variable avoidDiscard : Tab -> bool.

Lemma mergeWindow_effect (st : Settings) (w : Z) (wg : list Group) (h : Host) :
  wellFormed h ->
  (forall k b, In (k, b) (buildBuckets (caseSensitive st) (includeUnnamed st) wg) ->
               b = classGroups (caseSensitive st) (w, k) h) ->
  exists res h',
    mergeWindow avoidDiscard st (w, wg) h = (Returned res, h') /\
    effect (caseSensitive st)
           (fun c => existsb (fun e : string * list Group => class_eqb c (w, fst e))
                             (buildBuckets (caseSensitive st) (includeUnnamed st) wg))
           h h'.
Proof.
  intros WF Hpre. unfold mergeWindow.
  apply (for_collect_effect (caseSensitive st) (mergeBucket avoidDiscard st w)
           (fun e c => class_eqb c (w, fst e))
           (fun e h0 => snd e = classGroups (caseSensitive st) (w, fst e) h0)).
  - apply (NoDup_ordered_pairs fst).
    + apply (buildBuckets_spec (caseSensitive st) (includeUnnamed st) wg).
    + intros x y _ _ N c Hc. apply class_eqb_eq in Hc. subst c.
      apply not_true_is_false. intros E. apply class_eqb_eq in E.
      inversion E. congruence.
  - intros [k b] h0 _ WF0 Eb. simpl in Eb. subst b.
    apply mergeBucket_effect. exact WF0.
  - intros x y h0 h1 Hdis (_ & _ & Hc) Ey.
    specialize (Hc (w, fst y)). cbv beta in Hc.
    replace (class_eqb (w, fst y) (w, fst x)) with false in Hc.
    + simpl in Hc. destruct Hc as [G _]. congruence.
    + symmetry. apply not_true_is_false. intros E.
      specialize (Hdis (w, fst y) E).
      rewrite (proj2 (class_eqb_eq (w, fst y) (w, fst y)) eq_refl) in Hdis.
      discriminate.
  - exact WF.
  - intros [k b] Hin. simpl. now apply Hpre.
Qed.

(** In a well-formed host [mergeDuplicatesByName] returns, having merged
    every class in scope that takes part in bucketing and has two or more
    groups, and left every other class as it was. *)
Lemma mergeDuplicatesByName_effect (scope : Scope) (wid : option Z) (st : Settings)
      (h : Host) :
  wellFormed h ->
  exists res h',
    mergeDuplicatesByName avoidDiscard scope wid st h = (Returned res, h') /\
    effect (caseSensitive st)
           (fun c => inScope scope wid h (fst c) && includedKey (includeUnnamed st) (snd c))
           h h'.
Proof.
  intros WF. unfold mergeDuplicatesByName, bind at 1. rewrite listGroups_spec.
  set (cs := caseSensitive st). set (iu := includeUnnamed st).
  set (L := filter (fun g => inScope scope wid h (group_windowId g)) (groups h)).
  set (Hw := fun (e : Z * list Group) (c : class) =>
               existsb (fun b : string * list Group => class_eqb c (fst e, fst b))
                       (buildBuckets cs iu (snd e))).
  destruct (for_collect_effect cs (mergeWindow avoidDiscard st) Hw
              (fun e h0 => forall k b, In (k, b) (buildBuckets cs iu (snd e)) ->
                                       b = classGroups cs (fst e, k) h0)
              (partitionByWindow L)) with (h := h) as (res & h' & E & F).
  - apply (NoDup_ordered_pairs fst).
    + apply (partitionByWindow_spec L).
    + intros x y _ _ N c Hc. unfold Hw in *.
      apply existsb_exists in Hc. destruct Hc as (bx & _ & Hc).
      apply class_eqb_eq in Hc. subst c.
      apply not_true_is_false. intros E. apply existsb_exists in E.
      destruct E as (b_y & _ & E). apply class_eqb_eq in E. inversion E. congruence.
  - intros [w wg] h0 _ WF0 Hpre. simpl in Hpre.
    exact (mergeWindow_effect st w wg h0 WF0 Hpre).
  - intros x y h0 h1 Hdis (_ & _ & Hc) Hy k b Hin.
    specialize (Hc (fst y, k)). cbv beta in Hc.
    replace (Hw x (fst y, k)) with false in Hc.
    + simpl in Hc. destruct Hc as [G _]. rewrite G. now apply Hy.
    + symmetry. apply not_true_is_false. intros E.
      specialize (Hdis (fst y, k) E). unfold Hw in Hdis.
      assert (X : existsb (fun b0 : string * list Group =>
                             class_eqb (fst y, k) (fst y, fst b0))
                          (buildBuckets cs iu (snd y)) = true).
      { apply existsb_exists. exists (k, b). split; [exact Hin|].
        now apply class_eqb_eq. }
      congruence.
  - exact WF.
  - intros [w wg] Hin k b Hk. simpl in *.
    now destruct (bucket_is_class scope wid cs iu h w wg k b Hin Hk).
  - exists res, h'. split; [exact E|].
    apply effect_ext with (2 := F). intros c Big.
    destruct c as [w k]. simpl.
    destruct (existsb (fun x => Hw x (w, k)) (partitionByWindow L)) eqn:X.
    + apply existsb_exists in X. destruct X as ([w' wg] & Hin & X).
      unfold Hw in X. simpl in X. apply existsb_exists in X.
      destruct X as ([k' b] & Hk & X). apply class_eqb_eq in X. inversion X; subst.
      destruct (bucket_is_class scope wid cs iu h w' wg k' b Hin Hk) as (_ & -> & ->).
      reflexivity.
    + destruct (inScope scope wid h w && includedKey iu k) eqn:Y; [|reflexivity].
      exfalso. apply andb_true_iff in Y. destruct Y as [Ys Yk].
      destruct (classGroups cs (w, k) h) as [|g gs] eqn:Eg; [simpl in Big; lia|].
      assert (Hg : In g (classGroups cs (w, k) h)) by (rewrite Eg; now left).
      apply filter_In in Hg. destruct Hg as [Hg Hc]. apply inClass_iff in Hc.
      inversion Hc as [[Ew Ek]].
      assert (HgL : In g L).
      { apply filter_In. split; [exact Hg|]. now rewrite Ew. }
      destruct (partitionByWindow_spec L) as (_ & HBw & HKw).
      pose proof (HKw g HgL) as Hwin. rewrite Ew in Hwin.
      apply in_map_iff in Hwin. destruct Hwin as ([w' wg] & Ew' & Hin).
      simpl in Ew'. subst w'.
      destruct (HBw _ _ Hin) as [_ Ewg].
      destruct (buildBuckets_spec cs iu wg) as (_ & _ & HKk).
      assert (Hgw : In g (filter (included cs iu) wg)).
      { apply filter_In. split.
        - rewrite Ewg. apply filter_In. split; [exact HgL|]. rewrite Ew. apply Z.eqb_refl.
        - rewrite included_key. unfold keyOf in *. now rewrite Ek. }
      pose proof (HKk g Hgw) as Hkey. apply in_map_iff in Hkey.
      destruct Hkey as ([k' b] & Ek' & Hkb). simpl in Ek'.
      assert (Xt : existsb (fun x => Hw x (w, k)) (partitionByWindow L) = true).
      { apply existsb_exists. exists (w, wg). split; [exact Hin|].
        unfold Hw. simpl. apply existsb_exists. exists (k', b). split; [exact Hkb|].
        apply class_eqb_eq. simpl. unfold keyOf in *. congruence. }
      congruence.
Qed.
End RunEffect.

(* ================================================================== *)
(** * A second run *)

Lemma steps_currentWindow (avoid : Tab -> bool) (canMove : Z -> Z -> Prop)
      (canUpdate : Z -> Prop) (h h' : Host) (l : list Request) :
  steps avoid canMove canUpdate h l h' -> currentWindow h' = currentWindow h.
Proof.
  intros S. induction S as [|h r h1 l h2 St S IH]; [reflexivity|].
  rewrite IH. destruct St.
  - reflexivity.
  - unfold chrome.tabs_group.
    destruct (chrome.find_group dst h); [destruct (find _ _)|]; reflexivity.
  - unfold chrome.tabGroups_update. destruct (chrome.find_group gid h); reflexivity.
Qed.

Lemma for_collect_noop {A R} (xs : list A) (body : A -> Async (list R)) (h : Host) :
  (forall x, In x xs -> body x h = (Returned [], h)) ->
  for_collect xs body h = (Returned [], h).
Proof.
  induction xs as [|x r IH]; simpl; intros H; [reflexivity|].
  unfold bind. rewrite (H x (or_introl eq_refl)), IH; [reflexivity|].
  intros y Hy. apply H. now right.
Qed.

Section SecondRun.
Variable avoidDiscard : Tab -> bool.

(** When no class in scope that takes part has two groups, the operation
    returns no result and asks nothing of the browser. *)
Lemma mergeDuplicatesByName_noop (scope : Scope) (wid : option Z) (st : Settings)
      (h : Host) :
  (forall w k, inScope scope wid h w = true ->
               includedKey (includeUnnamed st) k = true ->
               (length (classGroups (caseSensitive st) (w, k) h) < 2)%nat) ->
  mergeDuplicatesByName avoidDiscard scope wid st h = (Returned [], h).
Proof.
  intros Hsmall. unfold mergeDuplicatesByName, bind at 1. rewrite listGroups_spec.
  apply for_collect_noop. intros [w wg] Hw. unfold mergeWindow.
  apply for_collect_noop. intros [k b] Hk.
  destruct (bucket_is_class scope wid (caseSensitive st) (includeUnnamed st) h w wg k b
              Hw Hk) as (Eb & Hs & Hi).
  specialize (Hsmall w k Hs Hi). rewrite <- Eb in Hsmall.
  unfold mergeBucket. destruct b as [|g1 [|g2 r]]; try reflexivity.
  simpl in Hsmall. lia.
Qed.

Lemma merged_classes_are_small (scope : Scope) (wid : option Z) (st : Settings)
      (h h' : Host) (w : Z) (k : string) :
  effect (caseSensitive st)
         (fun c => inScope scope wid h (fst c) && includedKey (includeUnnamed st) (snd c))
         h h' ->
  inScope scope wid h w = true -> includedKey (includeUnnamed st) k = true ->
  (length (classGroups (caseSensitive st) (w, k) h') < 2)%nat.
Proof.
  intros (_ & _ & Hc) Hs Hi. specialize (Hc (w, k)). cbn [fst snd] in Hc.
  rewrite Hs, Hi in Hc. cbn [andb] in Hc.
  destruct (2 <=? length (classGroups (caseSensitive st) (w, k) h))%nat eqn:Big.
  - destruct Hc as (g & -> & _). simpl. lia.
  - destruct Hc as [-> _]. now apply Nat.leb_gt in Big.
Qed.
End SecondRun.

(* ================================================================== *)
(** * The sample window is well formed, and tabs are never lost *)

Lemma sample_host_wellFormed : wellFormed Sample.host.
Proof.
  split; [|split].
  - unfold uniqueGroups. simpl.
    repeat (apply NoDup_cons; [simpl; intuition discriminate|]). apply NoDup_nil.
  - unfold uniqueTabs. simpl.
    repeat (apply NoDup_cons; [simpl; intuition discriminate|]). apply NoDup_nil.
  - intros g Hg. simpl in Hg.
    repeat (destruct Hg as [<-|Hg]; [discriminate|]). destruct Hg.
Qed.

(** A move the browser rejects changes neither groups nor tabs: the tabs
    stay in the group they were in. *)
Lemma rejected_move_changes_nothing (ids : list Z) (gid : Z) (h : Host) (e : string) :
  fst (chrome.tabs_group ids gid h) = Thrown e ->
  groups (snd (chrome.tabs_group ids gid h)) = groups h /\
  tabs (snd (chrome.tabs_group ids gid h)) = tabs h.
Proof.
  unfold chrome.tabs_group.
  destruct (chrome.find_group gid h); [destruct (find _ ids)|]; simpl; auto.
  discriminate.
Qed.

(** Whatever the host, the explicit merge keeps every tab. *)
Lemma mergeDuplicatesByName_keeps_tabs (avoid : Tab -> bool) (scope : Scope)
      (wid : option Z) (st : Settings) (h : Host) :
  map tab_id (tabs (snd (mergeDuplicatesByName avoid scope wid st h)))
  = map tab_id (tabs h).
Proof.
  destruct (mergeDuplicatesByName_steps avoid scope wid st h) as [l S].
  eapply steps_tab_ids. exact S.
Qed.
(* ================================================================== *)
(** * The incremental lookup *)

(** What [findDuplicateTargetGroup] returns, without touching the host. *)
Lemma findDuplicateTargetGroup_run (w : Z) (title : option string) (cs iu : bool) (h : Host) :
  let key := normalizeTitle title cs in
  let same := filter (fun g => String.eqb (normalizeTitle (group_title g) cs) key)
                     (filter (fun g => group_windowId g =? w) (groups h)) in
  exists r,
    findDuplicateTargetGroup w title cs iu h = (Returned r, h) /\
    match r with
    | Some i => (2 <= length same)%nat /\ smallestId same i
    | None => (length same < 2)%nat \/ (iu = false /\ key = EmptyString)
    end.
Proof.
  intros key same. unfold findDuplicateTargetGroup. fold key.
  destruct (negb iu && String.eqb key "") eqn:X.
  - exists None. split; [reflexivity|]. right.
    apply andb_true_iff in X. destruct X as [X1 X2].
    apply negb_true_iff in X1. apply String.eqb_eq in X2. auto.
  - unfold bind, listGroups, chrome.tabGroups_query. fold same.
    destruct (length same <? 2)%nat eqn:L.
    + exists None. split; [reflexivity|]. left. now apply Nat.ltb_lt in L.
    + apply Nat.ltb_ge in L.
      destruct (sortById_head same) as (target & others & Hs & Hin & Hmin).
      { destruct same; simpl in L; [lia|discriminate]. }
      rewrite Hs. exists (Some (group_id target)). split; [reflexivity|].
      split; [exact L|]. split; [now apply in_map|exact Hmin].
Qed.


(* ================================================================== *)
(** * Debouncing *)

(** C8: At every state the event loop can reach, each window has at most
    one pending timer, and a call to [debounceByWindow] leaves the window
    with exactly the timer it has just armed (the previous one is
    cancelled first).  Hence a burst of calls for one window, each made
    before the timer of the previous call is due, runs nothing during the
    burst and exactly one callback afterwards: the one of the last call,
    when that call's delay has elapsed. *)
Theorem debounce_one_pending_one_execution :
  forall (Fn : Type) (es : list (Debounce.Event Fn)) (w : Z)
         (calls : list (Z * Fn * Z)) (T : Z) (fired : Z * Fn * Z),
    let l := Debounce.run es Debounce.start in
    let l' := Debounce.run (Debounce.burstEvents w calls) l in
    Debounce.isBurst (Debounce.now l) calls ->
    Debounce.quietUntil w (Debounce.firstTime calls 0) l ->
    Debounce.lastArmed w calls = Some fired ->
    snd fired <= T ->
    (forall v, (length (Debounce.pendingFor v l) <= 1)%nat) /\
    (forall v fn d,
        Debounce.pendingFor v (Debounce.debounceByWindow v fn d l)
        = [Debounce.mkTimer (Debounce.nextTimer l) v
                            (Debounce.now l + Z.max 0 d) fn]) /\
    length (Debounce.pendingFor w l') = 1%nat /\
    Debounce.executedFor w l' = Debounce.executedFor w l /\
    Debounce.executedFor w (Debounce.advance T l')
      = Debounce.executedFor w l ++ [fired].
Proof.
  intros Fn es w calls T fired l l' B Q L D.
  assert (WK : Debounce.wellKept l)
    by (apply DebounceFacts.wellKept_run, DebounceFacts.wellKept_start).
  assert (Hne : calls <> []) by (intros ->; discriminate).
  destruct (DebounceFacts.burst_armed Fn w calls l WK Hne B Q) as (WK' & Ex & x & Px & Lx).
  fold l' in WK', Ex, Px.
  rewrite L in Lx. inversion Lx; subst fired. simpl in D.
  destruct (DebounceFacts.advance_fires Fn w T l' x Px D) as [Fx _].
  split; [intros v; now apply DebounceFacts.pending_at_most_one|].
  split; [intros v fn d; now apply DebounceFacts.debounce_effect|].
  split; [now rewrite Px|]. split; [exact Ex|].
  rewrite Fx, Ex. reflexivity.
Qed.

Lemma debounce_one_pending_one_execution_witness :
  let es := [Debounce.Schedule 1 tt 400; Debounce.Elapse 100] in
  let calls := [(100, tt, 400); (200, tt, 400); (450, tt, 80)] in
  let l := Debounce.run es Debounce.start in
  let l' := Debounce.run (Debounce.burstEvents 1 calls) l in
  Debounce.isBurst (Debounce.now l) calls /\
  Debounce.quietUntil 1 (Debounce.firstTime calls 0) l /\
  Debounce.lastArmed 1 calls = Some (1, tt, 530) /\
  530 <= 1000 /\
  (forall v, (length (Debounce.pendingFor v l) <= 1)%nat) /\
  (forall v fn d,
      Debounce.pendingFor v (Debounce.debounceByWindow v fn d l)
      = [Debounce.mkTimer (Debounce.nextTimer l) v (Debounce.now l + Z.max 0 d) fn]) /\
  length (Debounce.pendingFor 1 l') = 1%nat /\
  Debounce.executedFor 1 l' = Debounce.executedFor 1 l /\
  Debounce.executedFor 1 (Debounce.advance 1000 l')
    = Debounce.executedFor 1 l ++ [(1, tt, 530)].
Proof.
  intros es calls l l'.
  assert (B : Debounce.isBurst (Debounce.now l) calls) by (simpl; lia).
  assert (Q : Debounce.quietUntil 1 (Debounce.firstTime calls 0) l).
  { intros x [<-|[]] _. simpl. lia. }
  assert (L : Debounce.lastArmed 1 calls = Some (1, tt, 530)) by reflexivity.
  assert (D : snd (1, tt, 530) <= 1000) by (simpl; lia).
  split; [exact B|]. split; [exact Q|]. split; [exact L|]. split; [lia|].
  exact (debounce_one_pending_one_execution unit es 1 calls 1000 (1, tt, 530) B Q L D).
Defined.

(** Three calls at 100, 200 and 450 ms: one execution, 80 ms after the
    last. *)
Example debounce_example :
  Debounce.executed
    (Debounce.advance 1000
       (Debounce.run (Debounce.burstEvents 1 [(100, tt, 400); (200, tt, 400); (450, tt, 80)])
                     Debounce.start))
  = [(1, tt, 530)].
Proof. reflexivity. Qed.

(* ================================================================== *)
(** * Merging a selection *)

(** C6: [mergeSelectedGroups] called with fewer than two group ids, or
    with ids of existing groups of which two lie in different windows,
    returns a failure carrying a reason and leaves the host exactly as it
    was: no move, no discard and no update has been requested. *)
Theorem mergeSelectedGroups_rejects_bad_selection :
  forall (avoid : Tab -> bool) (targetTitle : option string)
         (groupIds : list Z) (h : Host),
    (length groupIds < 2)%nat \/
    (Forall (fun i => chrome.find_group i h <> None) groupIds /\
     exists i j gi gj,
       In i groupIds /\ In j groupIds /\
       chrome.find_group i h = Some gi /\ chrome.find_group j h = Some gj /\
       group_windowId gi <> group_windowId gj) ->
    exists msg,
      mergeSelectedGroups avoid targetTitle groupIds h = (Returned (failure msg), h) /\
      msg = (if (length groupIds <? 2)%nat
             then "Select at least two groups."%string
             else "For now, merge groups from one window at a time."%string) /\
      requests (snd (mergeSelectedGroups avoid targetTitle groupIds h)) = requests h.
Proof.
  intros avoid targetTitle groupIds h Hbad.
  unfold mergeSelectedGroups.
  destruct (length groupIds <? 2)%nat eqn:L.
  - eexists. split; [reflexivity|]. split; reflexivity.
  - destruct Hbad as [Hlt|(Hall & i & j & gi & gj & Hi & Hj & Gi & Gj & N)].
    { apply Nat.ltb_ge in L. lia. }
    destruct (promise_all_get_found groupIds h Hall) as (gs & E & F).
    destruct (Forall2_In_left _ _ _ i F Hi) as (gi' & Hgi & Ei).
    destruct (Forall2_In_left _ _ _ j F Hj) as (gj' & Hgj & Ej).
    assert (gi' = gi) by congruence. assert (gj' = gj) by congruence. subst gi' gj'.
    pose proof (partitionByWindow_two gs gi gj Hgi Hgj N) as P2.
    unfold bind. rewrite E.
    replace (1 <? length (partitionByWindow gs))%nat with true
      by (symmetry; apply Nat.ltb_lt; lia).
    eexists. split; [reflexivity|]. split; reflexivity.
Qed.

Lemma mergeSelectedGroups_rejects_bad_selection_witness :
  ((length [40; 90] < 2)%nat \/
   (Forall (fun i => chrome.find_group i Sample.twoWindows <> None) [40; 90] /\
    exists i j gi gj,
      In i [40; 90] /\ In j [40; 90] /\
      chrome.find_group i Sample.twoWindows = Some gi /\
      chrome.find_group j Sample.twoWindows = Some gj /\
      group_windowId gi <> group_windowId gj)) /\
  exists msg,
    mergeSelectedGroups isActive None [40; 90] Sample.twoWindows
      = (Returned (failure msg), Sample.twoWindows) /\
    msg = "For now, merge groups from one window at a time."%string /\
    requests (snd (mergeSelectedGroups isActive None [40; 90] Sample.twoWindows))
      = requests Sample.twoWindows.
Proof.
  assert (Hbad : (length [40; 90] < 2)%nat \/
   (Forall (fun i => chrome.find_group i Sample.twoWindows <> None) [40; 90] /\
    exists i j gi gj,
      In i [40; 90] /\ In j [40; 90] /\
      chrome.find_group i Sample.twoWindows = Some gi /\
      chrome.find_group j Sample.twoWindows = Some gj /\
      group_windowId gi <> group_windowId gj)).
  { right. split.
    - repeat constructor; discriminate.
    - exists 40, 90, Sample.g40, Sample.g90. simpl.
      repeat split; auto; discriminate. }
  split; [exact Hbad|].
  exact (mergeSelectedGroups_rejects_bad_selection isActive None [40; 90]
           Sample.twoWindows Hbad).
Defined.

(** A single id is refused before anything is looked up. *)
Example too_few_example :
  mergeSelectedGroups isActive None [40] Sample.host
  = (Returned (failure "Select at least two groups."), Sample.host).
Proof. reflexivity. Qed.

(* ================================================================== *)
(** * Unnamed groups *)

(** C9: With [includeUnnamed] off no bucket has the empty key or contains
    a group whose normalised title is empty; and in a well-formed host both
    [mergeDuplicatesByName] and [recomputeAndDrainDuplicates] leave every
    such group in place with exactly the tabs it had: no request moves tabs
    into it, moves one of its tabs, or updates it. *)
Theorem unnamed_groups_left_alone :
  forall (avoid : Tab -> bool) (scope : Scope) (wid : option Z) (w : Z)
         (st : Settings) (h : Host) (u : Group),
    includeUnnamed st = false ->
    wellFormed h ->
    In u (groups h) ->
    normalizeTitle (group_title u) (caseSensitive st) = EmptyString ->
    (forall gs k b,
        In (k, b) (buildBuckets (caseSensitive st) (includeUnnamed st) gs) ->
        k <> EmptyString /\
        forall g, In g b ->
                  normalizeTitle (group_title g) (caseSensitive st) <> EmptyString) /\
    (In u (groups (snd (mergeDuplicatesByName avoid scope wid st h))) /\
     tabsOf (group_id u) (snd (mergeDuplicatesByName avoid scope wid st h))
       = tabsOf (group_id u) h /\
     exists l,
       requests (snd (mergeDuplicatesByName avoid scope wid st h)) = requests h ++ l /\
       Forall (leavesAlone u h) l) /\
    (In u (groups (snd (recomputeAndDrainDuplicates avoid w st h))) /\
     tabsOf (group_id u) (snd (recomputeAndDrainDuplicates avoid w st h))
       = tabsOf (group_id u) h /\
     exists l,
       requests (snd (recomputeAndDrainDuplicates avoid w st h)) = requests h ++ l /\
       Forall (leavesAlone u h) l).
Proof.
  intros avoid scope wid w st h u Hiu (UG & UT & Pop) Hu Ku.
  assert (Hpart : forall i, takesPart (caseSensitive st) (includeUnnamed st) (groups h) i ->
                            i <> group_id u).
  { rewrite Hiu. intros i. now apply takesPart_named. }
  split; [|split].
  - rewrite Hiu. intros gs k b. apply buckets_exclude_unnamed.
  - destruct (mergeDuplicatesByName_steps avoid scope wid st h) as [l S].
    pose proof (fun HM HU => steps_leave_alone avoid _ _ u h _ l HM HU UT Hu (Pop u Hu) S) as X.
    edestruct X as (G & T & P); [|exact Hpart|].
    + intros s d [Hs Hd]. split; now apply Hpart.
    + split; [exact G|]. split; [exact T|]. exists l. split; [|exact P].
      eapply steps_requests. exact S.
  - destruct (recomputeAndDrainDuplicates_steps avoid w st h) as [l S].
    pose proof (fun HM HU => steps_leave_alone avoid _ _ u h _ l HM HU UT Hu (Pop u Hu) S) as X.
    edestruct X as (G & T & P); [|exact Hpart|].
    + intros s d [Hs Hd]. split; now apply Hpart.
    + split; [exact G|]. split; [exact T|]. exists l. split; [|exact P].
      eapply steps_requests. exact S.
Qed.

Lemma unnamed_groups_left_alone_witness :
  includeUnnamed Sample.settings = false /\
  wellFormed Sample.host /\
  In Sample.u6 (groups Sample.host) /\
  normalizeTitle (group_title Sample.u6) (caseSensitive Sample.settings) = EmptyString /\
  (forall gs k b,
      In (k, b) (buildBuckets (caseSensitive Sample.settings)
                              (includeUnnamed Sample.settings) gs) ->
      k <> EmptyString /\
      forall g, In g b ->
                normalizeTitle (group_title g) (caseSensitive Sample.settings)
                <> EmptyString) /\
  (In Sample.u6
      (groups (snd (mergeDuplicatesByName isActive CurrentWindow None Sample.settings
                                          Sample.host))) /\
   tabsOf (group_id Sample.u6)
          (snd (mergeDuplicatesByName isActive CurrentWindow None Sample.settings
                                      Sample.host))
     = tabsOf (group_id Sample.u6) Sample.host /\
   exists l,
     requests (snd (mergeDuplicatesByName isActive CurrentWindow None Sample.settings
                                          Sample.host))
       = requests Sample.host ++ l /\
     Forall (leavesAlone Sample.u6 Sample.host) l) /\
  (In Sample.u6
      (groups (snd (recomputeAndDrainDuplicates isActive 1 Sample.settings Sample.host))) /\
   tabsOf (group_id Sample.u6)
          (snd (recomputeAndDrainDuplicates isActive 1 Sample.settings Sample.host))
     = tabsOf (group_id Sample.u6) Sample.host /\
   exists l,
     requests (snd (recomputeAndDrainDuplicates isActive 1 Sample.settings Sample.host))
       = requests Sample.host ++ l /\
     Forall (leavesAlone Sample.u6 Sample.host) l).
Proof.
  assert (H1 : includeUnnamed Sample.settings = false) by reflexivity.
  assert (H3 : In Sample.u6 (groups Sample.host)) by (simpl; tauto).
  assert (H4 : normalizeTitle (group_title Sample.u6) (caseSensitive Sample.settings)
               = EmptyString) by reflexivity.
  split; [exact H1|]. split; [exact sample_host_wellFormed|].
  split; [exact H3|]. split; [exact H4|].
  exact (unnamed_groups_left_alone isActive CurrentWindow None 1 Sample.settings
           Sample.host Sample.u6 H1 sample_host_wellFormed H3 H4).
Defined.

(** Three unnamed groups and nothing else: neither path asks anything of
    the browser. *)
Example three_unnamed_example :
  requests (snd (mergeDuplicatesByName isActive CurrentWindow None Sample.settings
                                       Sample.unnamedOnly)) = [] /\
  requests (snd (recomputeAndDrainDuplicates isActive 1 Sample.settings
                                             Sample.unnamedOnly)) = [].
Proof. split; reflexivity. Qed.

(* ================================================================== *)
(** * A selection that names a group more than once *)

(** C10: [mergeSelectedGroups] called with two or more ids, all of
    existing groups of one window (the same id may occur several times),
    returns success; every move it requests goes into the chosen target and
    takes none of the tabs the target had; and the reported [mergedCount]
    is the number of entries of the list minus one, whether or not those
    entries are distinct groups. *)
Theorem mergeSelectedGroups_duplicate_ids :
  forall (avoid : Tab -> bool) (targetTitle : option string) (groupIds : list Z)
         (h : Host),
    (2 <= length groupIds)%nat ->
    Forall (fun i => chrome.find_group i h <> None) groupIds ->
    (forall i j gi gj, In i groupIds -> In j groupIds ->
       chrome.find_group i h = Some gi -> chrome.find_group j h = Some gj ->
       group_windowId gi = group_windowId gj) ->
    uniqueTabs h ->
    exists target res h' l,
      mergeSelectedGroups avoid targetTitle groupIds h = (Returned res, h') /\
      sel_ok res = true /\
      In target groupIds /\
      sel_targetGroupId res = Some target /\
      sel_mergedCount res = Some (Z.of_nat (length groupIds) - 1) /\
      requests h' = requests h ++ l /\
      Forall (sparesTarget target h) l.
Proof.
  intros avoid targetTitle groupIds h Hlen Hall Hwin UT.
  destruct (mergeSelectedGroups_accepts avoid targetTitle groupIds h Hlen Hall Hwin)
    as (target & l & h' & Hin & E & S).
  eexists (group_id target), _, h', l.
  split; [exact E|]. simpl. repeat split; auto.
  - eapply steps_requests. exact S.
  - eapply steps_spare_target; [|exact UT|exact S].
    intros s d [-> N]. auto.
Qed.

Lemma mergeSelectedGroups_duplicate_ids_witness :
  (2 <= length [40; 40])%nat /\
  Forall (fun i => chrome.find_group i Sample.host <> None) [40; 40] /\
  (forall i j gi gj, In i [40; 40] -> In j [40; 40] ->
     chrome.find_group i Sample.host = Some gi ->
     chrome.find_group j Sample.host = Some gj ->
     group_windowId gi = group_windowId gj) /\
  uniqueTabs Sample.host /\
  exists target res h' l,
    mergeSelectedGroups isActive None [40; 40] Sample.host = (Returned res, h') /\
    sel_ok res = true /\
    In target [40; 40] /\
    sel_targetGroupId res = Some target /\
    sel_mergedCount res = Some (Z.of_nat (length [40; 40]) - 1) /\
    requests h' = requests Sample.host ++ l /\
    Forall (sparesTarget target Sample.host) l.
Proof.
  assert (H1 : (2 <= length [40; 40])%nat) by (simpl; lia).
  assert (H2 : Forall (fun i => chrome.find_group i Sample.host <> None) [40; 40])
    by (repeat constructor; discriminate).
  assert (H3 : forall i j gi gj, In i [40; 40] -> In j [40; 40] ->
             chrome.find_group i Sample.host = Some gi ->
             chrome.find_group j Sample.host = Some gj ->
             group_windowId gi = group_windowId gj).
  { intros i j gi gj [<-|[<-|[]]] [<-|[<-|[]]] Ei Ej;
      vm_compute in Ei; vm_compute in Ej; inversion Ei; inversion Ej; reflexivity. }
  assert (H4 : uniqueTabs Sample.host) by apply sample_host_wellFormed.
  split; [exact H1|]. split; [exact H2|]. split; [exact H3|]. split; [exact H4|].
  exact (mergeSelectedGroups_duplicate_ids isActive None [40; 40] Sample.host
           H1 H2 H3 H4).
Defined.

(** The list [40, 40]: success, one entry reported as merged, and not a
    single move requested. *)
Example duplicate_ids_example :
  let r := mergeSelectedGroups isActive None [40; 40] Sample.host in
  fst r = Returned (mkSelectedResult true None (Some 40) (Some "Work"%string) (Some 1)) /\
  requests (snd r)
    = [ReqUpdate 40 (Some "Work"%string) true; ReqDiscard 2; ReqDiscard 3] /\
  map group_id (groups (snd r)) = map group_id (groups Sample.host).
Proof. repeat split; reflexivity. Qed.

(* ================================================================== *)
(** * Discard eligibility *)

(** The two revisions on the sample window, with [fastMerge] on:
    src/background.js asks the browser to discard tab 3, which has no
    committed URL, and tab 6, which is still on about:blank; the later
    revision's [shouldAvoidDiscard] protects both, and it requests neither
    discard. *)
Example discard_revisions_example :
  let old := requests (snd (mergeDuplicatesByName isActive CurrentWindow None
                                                  Sample.settings Sample.host)) in
  let new := requests (snd (mergeDuplicatesByName shouldAvoidDiscard CurrentWindow None
                                                  Sample.settings Sample.host)) in
  fastMerge Sample.settings = true /\
  In (Sample.tab 3 40 false "") (tabs Sample.host) /\
  In (Sample.tab 6 77 false "about:blank") (tabs Sample.host) /\
  shouldAvoidDiscard (Sample.tab 3 40 false "") = true /\
  shouldAvoidDiscard (Sample.tab 6 77 false "about:blank") = true /\
  In (ReqDiscard 3) old /\ In (ReqDiscard 6) old /\
  ~ In (ReqDiscard 3) new /\ ~ In (ReqDiscard 6) new.
Proof.
  cbv zeta. repeat split; try reflexivity; vm_compute; intuition discriminate.
Qed.

(* ================================================================== *)
(** * The explicit merge collapses duplicates, once *)

(** C1: In a well-formed host, for every window in scope and every key
    that takes part in bucketing and is shared by at least two groups of
    that window, one run of [mergeDuplicatesByName] returns and leaves
    exactly one group of that window with that key; that group holds as
    many tabs as the groups of the bucket held together, and the host has
    the very tabs it had (none is dropped). *)
Theorem mergeDuplicatesByName_collapses_bucket :
  forall (avoid : Tab -> bool) (scope : Scope) (wid : option Z) (st : Settings)
         (h : Host) (w : Z) (k : string),
    wellFormed h ->
    inScope scope wid h w = true ->
    includedKey (includeUnnamed st) k = true ->
    (2 <= length (classGroups (caseSensitive st) (w, k) h))%nat ->
    exists res h' g',
      mergeDuplicatesByName avoid scope wid st h = (Returned res, h') /\
      classGroups (caseSensitive st) (w, k) h' = [g'] /\
      tabCount (group_id g') h'
        = totalTabs (classGroups (caseSensitive st) (w, k) h) h /\
      map tab_id (tabs h') = map tab_id (tabs h).
Proof.
  intros avoid scope wid st h w k WF Hs Hi Big.
  destruct (mergeDuplicatesByName_effect avoid scope wid st h WF)
    as (res & h' & E & _ & Ids & Hc).
  specialize (Hc (w, k)). cbn [fst snd] in Hc. rewrite Hs, Hi in Hc. cbn [andb] in Hc.
  replace (2 <=? length (classGroups (caseSensitive st) (w, k) h))%nat with true in Hc
    by (symmetry; now apply Nat.leb_le).
  destruct Hc as (g' & G & C).
  exists res, h', g'. auto.
Qed.

Lemma mergeDuplicatesByName_collapses_bucket_witness :
  wellFormed Sample.host /\
  inScope CurrentWindow None Sample.host 1 = true /\
  includedKey (includeUnnamed Sample.settings) "work" = true /\
  (2 <= length (classGroups (caseSensitive Sample.settings) (1%Z, "work"%string)
                            Sample.host))%nat /\
  exists res h' g',
    mergeDuplicatesByName isActive CurrentWindow None Sample.settings Sample.host
      = (Returned res, h') /\
    classGroups (caseSensitive Sample.settings) (1%Z, "work"%string) h' = [g'] /\
    tabCount (group_id g') h'
      = totalTabs (classGroups (caseSensitive Sample.settings) (1%Z, "work"%string)
                               Sample.host) Sample.host /\
    map tab_id (tabs h') = map tab_id (tabs Sample.host).
Proof.
  assert (H2 : inScope CurrentWindow None Sample.host 1 = true) by reflexivity.
  assert (H3 : includedKey (includeUnnamed Sample.settings) "work" = true) by reflexivity.
  assert (H4 : (2 <= length (classGroups (caseSensitive Sample.settings)
                                         (1%Z, "work"%string) Sample.host))%nat)
    by (vm_compute; lia).
  split; [exact sample_host_wellFormed|]. split; [exact H2|].
  split; [exact H3|]. split; [exact H4|].
  exact (mergeDuplicatesByName_collapses_bucket isActive CurrentWindow None
           Sample.settings Sample.host 1 "work" sample_host_wellFormed H2 H3 H4).
Defined.

(** The sample window: groups 40, 12 and 77 with 3, 1 and 5 tabs collapse
    into group 77, titled "Work", with 9 tabs. *)
Example collapse_example :
  let h' := snd (mergeDuplicatesByName isActive CurrentWindow None Sample.settings
                                       Sample.host) in
  classGroups false (1%Z, "work"%string) h' = [mkGroup 77 (Some "Work"%string) 1 true] /\
  tabCount 77 h' = 9 /\
  map group_id (groups h') = [77; 5; 6; 7].
Proof. repeat split; reflexivity. Qed.

(** C2: In a well-formed host [mergeDuplicatesByName] returns, and run
    again at once on the host it leaves, with the same arguments, it
    returns no result and leaves the host, the list of requests included,
    exactly as it found it: the second run asks for no move (and for
    nothing else). *)
Theorem mergeDuplicatesByName_idempotent :
  forall (avoid : Tab -> bool) (scope : Scope) (wid : option Z) (st : Settings)
         (h : Host),
    wellFormed h ->
    exists res h1,
      mergeDuplicatesByName avoid scope wid st h = (Returned res, h1) /\
      mergeDuplicatesByName avoid scope wid st h1 = (Returned [], h1) /\
      requests (snd (mergeDuplicatesByName avoid scope wid st h1)) = requests h1.
Proof.
  intros avoid scope wid st h WF.
  destruct (mergeDuplicatesByName_effect avoid scope wid st h WF) as (res & h1 & E & F).
  assert (Ecw : currentWindow h1 = currentWindow h).
  { destruct (mergeDuplicatesByName_steps avoid scope wid st h) as [l S].
    rewrite E in S. simpl in S. eapply steps_currentWindow. exact S. }
  assert (Hscope : forall w, inScope scope wid h1 w = inScope scope wid h w).
  { intros w. unfold inScope. now rewrite Ecw. }
  assert (E2 : mergeDuplicatesByName avoid scope wid st h1 = (Returned [], h1)).
  { apply mergeDuplicatesByName_noop. intros w k Hs Hi.
    rewrite Hscope in Hs.
    exact (merged_classes_are_small scope wid st h h1 w k F Hs Hi). }
  exists res, h1. split; [exact E|]. split; [exact E2|]. now rewrite E2.
Qed.

Lemma mergeDuplicatesByName_idempotent_witness :
  wellFormed Sample.host /\
  exists res h1,
    mergeDuplicatesByName isActive CurrentWindow None Sample.settings Sample.host
      = (Returned res, h1) /\
    mergeDuplicatesByName isActive CurrentWindow None Sample.settings h1
      = (Returned [], h1) /\
    requests (snd (mergeDuplicatesByName isActive CurrentWindow None Sample.settings h1))
      = requests h1.
Proof.
  split; [exact sample_host_wellFormed|].
  exact (mergeDuplicatesByName_idempotent isActive CurrentWindow None Sample.settings
           Sample.host sample_host_wellFormed).
Defined.

(* ================================================================== *)
(** * Further properties of the script *)

(** ** Keys and buckets *)

Module JsStringCase.
Import JsString.

Lemma isWhiteSpace_lowerChar (c : ascii) : isWhiteSpace (lowerChar c) = isWhiteSpace c.
Proof. destruct c as [[] [] [] [] [] [] [] []]; reflexivity. Qed.

Lemma lowerChar_idem (c : ascii) : lowerChar (lowerChar c) = lowerChar c.
Proof. destruct c as [[] [] [] [] [] [] [] []]; reflexivity. Qed.

Lemma toLowerCase_idem (s : string) : toLowerCase (toLowerCase s) = toLowerCase s.
Proof.
  induction s as [|c r IH]; simpl; [reflexivity|]. now rewrite lowerChar_idem, IH.
Qed.

Lemma trimStart_toLowerCase (s : string) :
  trimStart (toLowerCase s) = toLowerCase (trimStart s).
Proof.
  induction s as [|c r IH]; simpl; [reflexivity|].
  rewrite isWhiteSpace_lowerChar. now destruct (isWhiteSpace c).
Qed.

Lemma trimEnd_toLowerCase (s : string) :
  trimEnd (toLowerCase s) = toLowerCase (trimEnd s).
Proof.
  induction s as [|c r IH]; simpl; [reflexivity|].
  rewrite IH, isWhiteSpace_lowerChar.
  destruct (trimEnd r) as [|c' r']; simpl; [|reflexivity].
  now destruct (isWhiteSpace c).
Qed.

Lemma trim_toLowerCase (s : string) : trim (toLowerCase s) = toLowerCase (trim s).
Proof. unfold trim. now rewrite trimStart_toLowerCase, trimEnd_toLowerCase. Qed.

End JsStringCase.

(** X1: A key is a fixed point of normalisation.  Normalising a title that
    is itself the result of [normalizeTitle] changes nothing when the same
    case rule is used, and gives the case-insensitive key of the original
    title as soon as one of the two passes folds case: a key never carries
    leading or trailing white space or, when case is folded, capitals. *)
Theorem normalizeTitle_of_key :
  forall (title : option string) (cs cs' : bool),
    normalizeTitle (Some (normalizeTitle title cs)) cs'
    = normalizeTitle title (cs && cs').
Proof.
  intros title cs cs'. unfold normalizeTitle, orEmpty.
  destruct cs, cs'; cbn [andb].
  - apply JsStringFacts.trim_idem.
  - now rewrite JsStringFacts.trim_idem.
  - now rewrite JsStringCase.trim_toLowerCase, JsStringFacts.trim_idem.
  - now rewrite JsStringCase.trim_toLowerCase, JsStringFacts.trim_idem,
      JsStringCase.toLowerCase_idem.
Qed.

(** X2: The bucketing loop partitions the groups that take part.  The keys
    of the buckets are distinct; a bucket is never empty and holds, in
    listing order, exactly the listed groups that take part and have its
    key; a group that takes part is in the bucket of its own key, and a
    group that is skipped is in no bucket. *)
Theorem buildBuckets_partition :
  forall (cs iu : bool) (gs : list Group),
    let buckets := buildBuckets cs iu gs in
    NoDup (map fst buckets) /\
    (forall k b, In (k, b) buckets ->
       b <> [] /\
       b = filter (fun g => included cs iu g && String.eqb (keyOf cs g) k) gs) /\
    (forall g, In g gs -> included cs iu g = true ->
       exists b, In (keyOf cs g, b) buckets /\ In g b) /\
    (forall g k b, In (k, b) buckets -> In g b ->
       In g gs /\ included cs iu g = true /\ keyOf cs g = k).
Proof.
  intros cs iu gs buckets.
  destruct (buildBuckets_spec cs iu gs) as (ND & HB & HK). fold buckets in ND, HB, HK.
  assert (Hb : forall k b, In (k, b) buckets ->
             b = filter (fun g => included cs iu g && String.eqb (keyOf cs g) k) gs).
  { intros k b Hin. destruct (HB k b Hin) as [_ ->]. apply filter_twice. }
  split; [exact ND|]. split; [|split].
  - intros k b Hin. split; [apply (HB k b Hin)|now apply Hb].
  - intros g Hg Hi.
    assert (Hgi : In g (filter (included cs iu) gs)) by (apply filter_In; auto).
    pose proof (HK g Hgi) as Hk. apply in_map_iff in Hk.
    destruct Hk as ([k b] & Ek & Hin). simpl in Ek. subst k.
    exists b. split; [exact Hin|]. rewrite (Hb _ _ Hin). apply filter_In.
    split; [exact Hg|]. rewrite Hi. apply String.eqb_refl.
  - intros g k b Hin Hg. rewrite (Hb _ _ Hin) in Hg. apply filter_In in Hg.
    destruct Hg as [Hg Hc]. apply andb_true_iff in Hc. destruct Hc as [Hi Hk].
    apply String.eqb_eq in Hk. auto.
Qed.

(** ** Draining groups *)

Lemma for_each_ext {A} (xs : list A) (f g : A -> Async unit) (h : Host) :
  (forall x h0, In x xs -> f x h0 = g x h0) -> for_each xs f h = for_each xs g h.
Proof.
  revert h. induction xs as [|x r IH]; intros h E; simpl; [reflexivity|].
  unfold bind. rewrite (E x h (or_introl eq_refl)).
  destruct (g x h) as [[[]|e] h1]; [|reflexivity].
  apply IH. intros y h0 Hy. apply E. now right.
Qed.

Lemma find_filter_keep {A} (p q : A -> bool) (l : list A) :
  (forall x, In x l -> p x = true -> q x = true) ->
  find p (filter q l) = find p l.
Proof.
  induction l as [|x r IH]; intros H; simpl; [reflexivity|].
  destruct (q x) eqn:Q; simpl.
  - destruct (p x); [reflexivity|]. apply IH. intros y Hy. apply H. now right.
  - destruct (p x) eqn:P.
    + rewrite (H x (or_introl eq_refl) P) in Q. discriminate.
    + apply IH. intros y Hy. apply H. now right.
Qed.

Section DrainMore.
Variable avoidDiscard : Tab -> bool.

Lemma mergeGroupSet_returns (target : Z) (others : list Z) (fast : bool) (h : Host) :
  mergeGroupSet avoidDiscard target others fast h
  = (Returned tt, snd (mergeGroupSet avoidDiscard target others fast h)).
Proof.
  destruct (runs_mergeGroupSet avoidDiscard (fun _ _ => True) (fun _ => True)
              target others fast (fun _ _ _ => I) h) as ([] & l & h' & E & _).
  now rewrite E.
Qed.

Lemma drain_is_merge_one (target source : Z) (fast : bool) (h : Host) :
  drainGroupToTarget avoidDiscard target source fast h
  = mergeGroupSet avoidDiscard target [source] fast h.
Proof.
  unfold drainGroupToTarget, mergeGroupSet. simpl for_each.
  rewrite (Z.eqb_sym target source).
  destruct (source =? target); [reflexivity|].
  unfold bind. rewrite listTabsInGroup_run.
  destruct (tabsOf source h) as [|t ts].
  - destruct fast; reflexivity.
  - change (map tab_id (t :: ts)) with (tab_id t :: map tab_id ts).
    destruct fast; cbv iota.
    + rewrite safeDiscardFromTabs_run, !try_catch_run. reflexivity.
    + unfold ret. rewrite !try_catch_run. reflexivity.
Qed.

Lemma drain_loop_is_mergeGroupSet (target : Z) (others : list Group) (fast : bool)
      (h : Host) :
  for_each others (fun src => drainGroupToTarget avoidDiscard target (group_id src) fast) h
  = mergeGroupSet avoidDiscard target (map group_id others) fast h.
Proof.
  revert h. induction others as [|o os IH]; intros h; [reflexivity|].
  simpl map.
  rewrite (mergeGroupSet_cons avoidDiscard target (group_id o) (map group_id os) fast h _
             (mergeGroupSet_returns target [group_id o] fast h)).
  simpl for_each. unfold bind.
  rewrite drain_is_merge_one, (mergeGroupSet_returns target [group_id o] fast h).
  apply IH.
Qed.

(** One source, at the level of tabs. *)
Lemma mergeGroupSet_one_tabs (target o : Z) (fast : bool) (h : Host) (gd : Group) :
  wellFormed h -> o <> target -> chrome.find_group target h = Some gd ->
  exists h1,
    mergeGroupSet avoidDiscard target [o] fast h = (Returned tt, h1) /\
    wellFormed h1 /\
    tabs h1 = map (fun t => if tab_groupId t =? o
                            then chrome.set_group target (group_windowId gd) t
                            else t) (tabs h) /\
    groups h1 = filter (fun g => negb (group_id g =? o)) (groups h).
Proof.
  intros WF N F.
  assert (Ht : In target (map group_id (groups h))).
  { apply exists_group_iff. now exists gd. }
  destruct (mergeGroupSet_one avoidDiscard target o fast h WF N Ht)
    as (h1 & E & WF1 & G1 & _).
  exists h1. split; [exact E|]. split; [exact WF1|]. split; [|exact G1].
  revert E. unfold mergeGroupSet. simpl for_each.
  replace (o =? target) with false by (symmetry; now apply Z.eqb_neq).
  unfold bind at 1. unfold bind at 1. rewrite listTabsInGroup_run.
  destruct (tabsOf o h) as [|t ts] eqn:Ets.
  - intros E. assert (Eh : h1 = h).
    { destruct fast; simpl in E; unfold bind, ret in E; congruence. }
    subst h1. etransitivity; [symmetry; apply map_id|]. apply map_ext_in.
    intros x Hx. destruct (tab_groupId x =? o) eqn:Ex; [|reflexivity].
    exfalso. assert (Hin : In x (tabsOf o h)) by (apply filter_In; auto).
    rewrite Ets in Hin. destruct Hin.
  - assert (Hd : exists L,
               (match fast, map tab_id (t :: ts) with
                | true, _ :: _ => safeDiscardFromTabs avoidDiscard (t :: ts)
                | _, _ => ret tt
                end) h = (Returned tt, logged L h)).
    { destruct fast; simpl.
      - eexists. apply safeDiscardFromTabs_run.
      - exists []. unfold ret. now rewrite logged_nil. }
    destruct Hd as [L Hd]. unfold bind at 1. rewrite Hd.
    change (map tab_id (t :: ts)) with (tab_id t :: map tab_id ts).
    cbv iota. rewrite try_catch_run. unfold bind, ret. intros E.
    assert (Hne : tabsOf o (logged L h) <> []).
    { change (tabsOf o (logged L h)) with (tabsOf o h). rewrite Ets. discriminate. }
    destruct (move_all_effect o target (logged L h) gd WF N F Hne) as [Et _].
    change (tabsOf o (logged L h)) with (tabsOf o h) in Et. rewrite Ets in Et.
    change (map tab_id (t :: ts)) with (tab_id t :: map tab_id ts) in Et.
    inversion E as [E']. exact Et.
Qed.

(** Any list of sources, at the level of tabs: the same source may occur
    more than once, and the target itself may be among them. *)
Lemma mergeGroupSet_tabs (target : Z) (fast : bool) (others : list Z) (h : Host)
      (gd : Group) :
  wellFormed h -> chrome.find_group target h = Some gd ->
  exists h',
    mergeGroupSet avoidDiscard target others fast h = (Returned tt, h') /\
    wellFormed h' /\
    tabs h' = map (fun t => if chrome.mem (tab_groupId t) others
                               && negb (tab_groupId t =? target)
                            then chrome.set_group target (group_windowId gd) t
                            else t) (tabs h) /\
    groups h' = filter (fun g => negb (chrome.mem (group_id g) others
                                       && negb (group_id g =? target))) (groups h).
Proof.
  revert h. induction others as [|o os IH]; intros h WF F.
  - exists h. split; [reflexivity|]. split; [exact WF|]. split.
    + simpl. symmetry. apply map_id.
    + symmetry. now apply filter_all.
  - destruct (Z.eq_dec o target) as [->|N].
    + destruct (IH h WF F) as (h' & E & WF' & T' & G').
      exists h'. split.
      { unfold mergeGroupSet in *. simpl for_each. rewrite Z.eqb_refl.
        unfold bind at 1. unfold ret at 1. exact E. }
      split; [exact WF'|]. split.
      * rewrite T'. apply map_ext. intros t. unfold chrome.mem. cbn [existsb].
        destruct (Z.eqb_spec (tab_groupId t) target) as [->|]; [|reflexivity].
        now rewrite !andb_false_r.
      * rewrite G'. apply filter_ext. intros g. unfold chrome.mem. cbn [existsb].
        destruct (Z.eqb_spec (group_id g) target) as [->|]; [|reflexivity].
        now rewrite !andb_false_r.
    + destruct (mergeGroupSet_one_tabs target o fast h gd WF N F)
        as (h1 & E1 & WF1 & T1 & G1).
      assert (F1 : chrome.find_group target h1 = Some gd).
      { unfold chrome.find_group in *. rewrite G1.
        rewrite find_filter_keep; [exact F|].
        intros g _ Eg. apply Z.eqb_eq in Eg. apply negb_true_iff, Z.eqb_neq.
        congruence. }
      destruct (IH h1 WF1 F1) as (h' & E' & WF' & T' & G').
      exists h'. split.
      { rewrite (mergeGroupSet_cons avoidDiscard target o os fast h h1 E1). exact E'. }
      split; [exact WF'|]. split.
      * rewrite T', T1, map_map. apply map_ext. intros t.
        unfold chrome.mem. cbn [existsb].
        destruct (Z.eqb_spec (tab_groupId t) o) as [Eo|No]; cbn [orb andb].
        -- cbn [tab_groupId chrome.set_group].
           rewrite Z.eqb_refl, andb_false_r, Eo.
           replace (o =? target) with false by (symmetry; now apply Z.eqb_neq).
           reflexivity.
        -- reflexivity.
      * rewrite G', G1, filter_twice. apply filter_ext. intros g.
        unfold chrome.mem. cbn [existsb].
        destruct (Z.eqb_spec (group_id g) o) as [Eo|No]; cbn [orb andb negb].
        -- rewrite Eo.
           replace (o =? target) with false by (symmetry; now apply Z.eqb_neq).
           reflexivity.
        -- reflexivity.
Qed.

End DrainMore.

(** X3: [drainGroupToTarget] is [mergeGroupSet] on a single source: on every
    host the two return the same outcome and leave the same state, so the
    loop over [others] in the incremental path is one [mergeGroupSet] into
    the target. *)
Theorem drainGroupToTarget_as_mergeGroupSet :
  forall (avoid : Tab -> bool) (target : Z) (fast : bool) (h : Host),
    (forall source,
        drainGroupToTarget avoid target source fast h
        = mergeGroupSet avoid target [source] fast h) /\
    (forall others : list Group,
        for_each others (fun src => drainGroupToTarget avoid target (group_id src) fast) h
        = mergeGroupSet avoid target (map group_id others) fast h).
Proof.
  intros avoid target fast h. split.
  - intros source. apply drain_is_merge_one.
  - intros others. apply drain_loop_is_mergeGroupSet.
Qed.

(** X4: On any host, whatever the browser rejects, [mergeGroupSet] returns
    and has asked only for discards and for moves into the target: it never
    updates a group and never moves a tab anywhere else; every move takes
    at least one tab; with [fastMerge] off it asks for no discard at all;
    and the host has the very tabs it had. *)
Theorem mergeGroupSet_asks_only_moves_into_target :
  forall (avoid : Tab -> bool) (target : Z) (others : list Z) (fast : bool) (h : Host),
    exists l h',
      mergeGroupSet avoid target others fast h = (Returned tt, h') /\
      requests h' = requests h ++ l /\
      Forall (movesInto target) l /\
      (forall ids g, In (ReqMove ids g) l -> ids <> []) /\
      (fast = false -> forall i, ~ In (ReqDiscard i) l) /\
      map tab_id (tabs h') = map tab_id (tabs h).
Proof.
  intros avoid target others fast h.
  set (canMove := fun s d : Z => d = target /\ True).
  destruct (runs_mergeGroupSet avoid canMove (fun _ => False) target others fast
              (fun _ _ _ => conj eq_refl I) h) as ([] & l & h' & E & S).
  exists l, h'. split; [exact E|].
  split; [exact (steps_requests _ _ _ _ _ _ S)|].
  split; [exact (steps_movesInto avoid target (fun _ => True) h h' l S)|].
  split; [|split].
  - intros ids g Hin.
    destruct (steps_invariant avoid canMove (fun _ => False) (fun _ => True)
                (fun r => forall ids g, r = ReqMove ids g -> ids <> [])) with (2 := S)
      as [_ Hall]; [|exact I|].
    + intros h0 r h1 _ St. split; [exact I|]. destruct St; intros ids' g' Er;
        try discriminate.
      inversion Er; subst. intros Em. apply map_eq_nil in Em. contradiction.
    + rewrite Forall_forall in Hall. exact (Hall _ Hin ids g eq_refl).
  - intros -> i Hin.
    assert (Es : mergeGroupSet avoid target others false h
                 = mergeGroupSet (fun _ => true) target others false h).
    { unfold mergeGroupSet. apply for_each_ext. intros x h0 _. reflexivity. }
    destruct (runs_mergeGroupSet (fun _ => true) canMove (fun _ => False) target others
                false (fun _ _ _ => conj eq_refl I) h) as ([] & l' & h'' & E' & S').
    assert (El : l' = l).
    { rewrite Es, E' in E. inversion E; subst h''.
      pose proof (steps_requests _ _ _ _ _ _ S) as R.
      pose proof (steps_requests _ _ _ _ _ _ S') as R'.
      rewrite R in R'. now apply app_inv_head in R'. }
    subst l'.
    destruct (steps_invariant (fun _ => true) canMove (fun _ => False) (fun _ => True)
                (fun r => forall j, r <> ReqDiscard j)) with (2 := S')
      as [_ Hall]; [|exact I|].
    + intros h0 r h1 _ St. split; [exact I|]. destruct St; intros j; discriminate.
    + rewrite Forall_forall in Hall. exact (Hall _ Hin i eq_refl).
  - exact (steps_tab_ids _ _ _ _ _ _ S).
Qed.

(** X5: In a well-formed host where the target exists, [mergeGroupSet]
    returns having re-homed exactly the tabs of the listed sources: a tab
    whose group is listed (and is not the target) now belongs to the
    target, in the target's window, and every other tab is untouched; the
    listed groups other than the target are gone and all other groups are
    where they were.  A source listed twice, or the target listed among the
    sources, makes no difference. *)
Theorem mergeGroupSet_rehomes_sources :
  forall (avoid : Tab -> bool) (target : Z) (others : list Z) (fast : bool)
         (h : Host) (gd : Group),
    wellFormed h ->
    chrome.find_group target h = Some gd ->
    exists h',
      mergeGroupSet avoid target others fast h = (Returned tt, h') /\
      wellFormed h' /\
      tabs h' = map (fun t => if chrome.mem (tab_groupId t) others
                                 && negb (tab_groupId t =? target)
                              then chrome.set_group target (group_windowId gd) t
                              else t) (tabs h) /\
      groups h' = filter (fun g => negb (chrome.mem (group_id g) others
                                         && negb (group_id g =? target))) (groups h).
Proof.
  intros avoid target others fast h gd WF F.
  exact (mergeGroupSet_tabs avoid target fast others h gd WF F).
Qed.

Lemma mergeGroupSet_rehomes_sources_witness :
  wellFormed Sample.host /\
  chrome.find_group 40 Sample.host = Some Sample.g40 /\
  exists h',
    mergeGroupSet isActive 40 [12; 40; 77; 12] true Sample.host = (Returned tt, h') /\
    wellFormed h' /\
    tabs h' = map (fun t => if chrome.mem (tab_groupId t) [12; 40; 77; 12]
                               && negb (tab_groupId t =? 40)
                            then chrome.set_group 40 (group_windowId Sample.g40) t
                            else t) (tabs Sample.host) /\
    groups h' = filter (fun g => negb (chrome.mem (group_id g) [12; 40; 77; 12]
                                       && negb (group_id g =? 40)))
                       (groups Sample.host).
Proof.
  split; [exact sample_host_wellFormed|]. split; [reflexivity|].
  apply (mergeGroupSet_rehomes_sources isActive 40 [12; 40; 77; 12] true Sample.host
           Sample.g40).
  - exact sample_host_wellFormed.
  - reflexivity.
Defined.

(** ** The incremental recompute *)

Lemma sortById_perm (b : list Group) : Permutation (sortById b) b.
Proof. apply js_sort_perm. Qed.

Lemma classGroups_as_listing (cs : bool) (w : Z) (k : string) (h : Host) :
  filter (fun g => String.eqb (normalizeTitle (group_title g) cs) k)
         (filter (fun g => group_windowId g =? w) (groups h))
  = classGroups cs (w, k) h.
Proof. rewrite filter_twice. reflexivity. Qed.

(** A loop that keeps, for every iteration, a fact about what it yielded
    and the host, as long as later iterations do not handle its classes. *)
Lemma for_collect_effect_each {A R} (cs : bool) (body : A -> Async (list R))
      (H : A -> class -> bool) (pre : A -> Host -> Prop)
      (Q : A -> list R -> Host -> Prop) (xs : list A) :
  ForallOrdPairs (fun x y => forall c, H x c = true -> H y c = false) xs ->
  (forall x h, In x xs -> wellFormed h -> pre x h ->
     exists res h', body x h = (Returned res, h') /\ effect cs (H x) h h' /\ Q x res h') ->
  (forall x y h h',
      (forall c, H x c = true -> H y c = false) ->
      effect cs (H x) h h' -> pre y h -> pre y h') ->
  (forall x res (Hs : class -> bool) h h',
      (forall c, H x c = true -> Hs c = false) ->
      effect cs Hs h h' -> Q x res h -> Q x res h') ->
  forall h, wellFormed h -> (forall x, In x xs -> pre x h) ->
    exists rs h',
      for_collect xs body h = (Returned (concat rs), h') /\
      effect cs (fun c => existsb (fun x => H x c) xs) h h' /\
      Forall2 (fun x res => Q x res h') xs rs.
Proof.
  intros Hdis Hbody Htrans Hkeep.
  induction xs as [|x r IH]; intros h WF Hpre.
  - exists [], h. split; [reflexivity|]. split; [now apply effect_none|constructor].
  - inversion Hdis as [|? ? Hx Hr]; subst.
    destruct (Hbody x h (or_introl eq_refl) WF (Hpre x (or_introl eq_refl)))
      as (res1 & h1 & E1 & F1 & Q1).
    assert (Hpre1 : forall y, In y r -> pre y h1).
    { intros y Hy. apply (Htrans x y h h1); auto.
      - exact (proj1 (Forall_forall _ _) Hx y Hy).
      - apply Hpre. now right. }
    destruct (IH Hr (fun y h0 Hy => Hbody y h0 (or_intror Hy)) h1 (proj1 F1) Hpre1)
      as (rs & h2 & E2 & F2 & Q2).
    assert (Hsep : forall c, H x c = true -> existsb (fun y => H y c) r = false).
    { intros c Hc. apply not_true_is_false. intros Hex.
      apply existsb_exists in Hex. destruct Hex as (y & Hy & Hyc).
      rewrite (proj1 (Forall_forall _ _) Hx y Hy c Hc) in Hyc. discriminate. }
    exists (res1 :: rs), h2. split; [|split].
    + simpl. unfold bind. rewrite E1, E2. reflexivity.
    + simpl. apply effect_compose with (h1 := h1); auto.
    + constructor; [|exact Q2].
      exact (Hkeep x res1 _ h1 h2 Hsep F2 Q1).
Qed.

Section RecomputeEffect.
Variable avoidDiscard : Tab -> bool.

(** Draining the rest of a class into one of its members and then giving
    that member a title of the same key merges the class and nothing
    else. *)
Lemma drain_then_update_effect (cs kc fast : bool) (w : Z) (k : string) (h : Host)
      (L : list Request) (target : Group) (others : list Group)
      (title : option string) :
  wellFormed h ->
  Permutation (target :: others) (classGroups cs (w, k) h) ->
  others <> [] ->
  keyOf cs (chrome.set_props title kc target) = k ->
  exists h2 h3,
    mergeGroupSet avoidDiscard (group_id target) (map group_id others) fast (logged L h)
      = (Returned tt, h2) /\
    chrome.tabGroups_update (group_id target) title kc h2
      = (Returned (chrome.set_props title kc target), h3) /\
    effect cs (fun c => class_eqb c (w, k)) h h3 /\
    classGroups cs (w, k) h3 = [chrome.set_props title kc target].
Proof.
  intros WF Perm Hothers Hkey.
  remember (classGroups cs (w, k) h) as b eqn:Eb.
  set (oids := map group_id others).
  assert (Big : (2 <= length b)%nat).
  { rewrite <- (Permutation_length Perm). destruct others; [congruence|simpl; lia]. }
  destruct WF as (UG & UT & Pop).
  assert (WF : wellFormed h) by (split; [|split]; assumption).
  assert (Hb : forall g, In g b <-> In g (groups h) /\ inClass cs (w, k) g = true).
  { intros g. rewrite Eb. apply filter_In. }
  assert (Fb : forall g, In g b <-> g = target \/ In g others).
  { intros g. split; intros H.
    - apply (Permutation_in _ (Permutation_sym Perm)) in H. destruct H; auto.
    - apply (Permutation_in _ Perm). destruct H; [left|right]; auto. }
  assert (Ht : In target b) by (apply Fb; now left).
  assert (Hta : In target (groups h)) by (now apply Hb in Ht).
  assert (NDp : NoDup (map group_id (target :: others))).
  { apply (Permutation_NoDup (Permutation_sym (Permutation_map group_id Perm))).
    rewrite Eb. now apply NoDup_map_filter. }
  simpl in NDp. apply NoDup_cons_iff in NDp. destruct NDp as [Hnot NDo].
  fold oids in Hnot, NDo.
  assert (Fo : forall g, In g (groups h) ->
                         (chrome.mem (group_id g) oids = true <-> In g others)).
  { intros g Hg. rewrite mem_In. split; intros H.
    - apply in_map_iff in H. destruct H as (o & E & Ho).
      assert (Hob : In o (groups h)) by (apply Hb, Fb; now right).
      replace g with o; [exact Ho|].
      apply (unique_group_by_id (groups h)); auto.
    - now apply in_map. }
  assert (Ft : forall g, In g (groups h) -> group_id g = group_id target -> g = target).
  { intros g Hg E. apply (unique_group_by_id (groups h)); auto. }
  assert (Mt : chrome.mem (group_id target) oids = false).
  { destruct (chrome.mem (group_id target) oids) eqn:M; [|reflexivity].
    apply mem_In in M. contradiction. }
  destruct (mergeGroupSet_effect avoidDiscard (group_id target) fast oids
              (logged L h) WF (in_map group_id _ _ Hta) NDo Hnot)
    as (h2 & E2 & WF2 & G2 & C2).
  assert (G2' : groups h2
                = filter (fun g => negb (chrome.mem (group_id g) oids)) (groups h))
    by exact G2.
  assert (C2' : forall x, tabCount x h2
                          = if chrome.mem x oids then 0
                            else if x =? group_id target
                                 then tabCount (group_id target) h + sumCounts oids h
                                 else tabCount x h)
    by exact C2.
  clear G2 C2.
  assert (Ids2 : map tab_id (tabs h2) = map tab_id (tabs h)).
  { destruct (runs_mergeGroupSet avoidDiscard (fun _ _ => True) (fun _ => True)
                (group_id target) oids fast (fun _ _ _ => I) (logged L h))
      as ([] & l & h2' & E2' & S2).
    rewrite E2 in E2'. inversion E2'; subst h2'.
    exact (steps_tab_ids _ _ _ _ _ _ S2). }
  assert (Hkeep : In target (groups h2)).
  { rewrite G2'. apply filter_In. split; [exact Hta|]. now rewrite Mt. }
  assert (Fk : chrome.find_group (group_id target) h2 = Some target).
  { destruct (proj1 (exists_group_iff (group_id target) h2)
                    (in_map group_id _ _ Hkeep)) as [g' F].
    destruct (find_group_id _ _ _ F) as [Eg Hg].
    rewrite G2' in Hg. apply filter_In in Hg. destruct Hg as [Hg _].
    rewrite (Ft g' Hg Eg) in F. exact F. }
  set (h3 := snd (chrome.tabGroups_update (group_id target) title kc h2)).
  assert (Eu : chrome.tabGroups_update (group_id target) title kc h2
               = (Returned (chrome.set_props title kc target), h3)).
  { unfold h3, chrome.tabGroups_update. now rewrite Fk. }
  set (upd := fun g => if group_id g =? group_id target
                       then chrome.set_props title kc g else g).
  assert (G3 : groups h3 = map upd (filter (fun g => negb (chrome.mem (group_id g) oids))
                                           (groups h))).
  { unfold h3. now rewrite tabGroups_update_groups, G2'. }
  assert (T3 : tabs h3 = tabs h2) by apply tabGroups_update_tabs.
  assert (C3 : forall x, tabCount x h3 = tabCount x h2).
  { intros x. unfold tabCount, tabsOf. now rewrite T3. }
  assert (Hid : forall g, group_id (upd g) = group_id g).
  { intros g. unfold upd. destruct (group_id g =? group_id target); reflexivity. }
  assert (Hupd_other : forall g, In g (groups h) -> g <> target -> upd g = g).
  { intros g Hg N. unfold upd.
    destruct (Z.eqb_spec (group_id g) (group_id target)) as [E|]; [|reflexivity].
    exfalso. apply N. now apply Ft. }
  assert (Hupd_is : upd target = chrome.set_props title kc target).
  { unfold upd. now rewrite Z.eqb_refl. }
  assert (Hupd_target : inClass cs (w, k) (upd target) = true).
  { rewrite Hupd_is. apply inClass_iff. simpl. f_equal; [|exact Hkey].
    apply Hb in Ht. destruct Ht as [_ Ht]. apply inClass_iff in Ht. now inversion Ht. }
  assert (Hclass : classGroups cs (w, k) h3 = [upd target]).
  { unfold classGroups. rewrite G3, filter_map_swap, filter_twice.
    rewrite (filter_single _ (groups h) target); [reflexivity| | |].
    - exact (NoDup_of_map group_id _ UG).
    - exact Hta.
    - intros g Hg. split.
      + intros H. apply andb_true_iff in H. destruct H as [Hk Hc].
        destruct (Z.eqb_spec (group_id g) (group_id target)) as [E|N];
          [now apply Ft|].
        exfalso. assert (Ng : g <> target) by congruence.
        rewrite (Hupd_other g Hg Ng) in Hc.
        assert (Hgb : In g b) by (apply Hb; auto).
        apply Fb in Hgb. destruct Hgb as [->|Hgo]; [congruence|].
        apply (Fo g Hg) in Hgo. rewrite Hgo in Hk. discriminate.
      + intros ->. apply andb_true_iff. split; [|exact Hupd_target].
        now rewrite Mt. }
  exists h2, h3. split; [exact E2|]. split; [exact Eu|].
  split; [|now rewrite Hclass, Hupd_is].
  destruct WF2 as (UG2 & UT2 & Pop2).
  split; [split; [|split]|split].
  - unfold uniqueGroups. rewrite G3, map_map.
    rewrite (map_ext _ group_id Hid). rewrite <- G2'. exact UG2.
  - unfold uniqueTabs. now rewrite T3.
  - intros g Hg. rewrite G3 in Hg. apply in_map_iff in Hg.
    destruct Hg as (g0 & <- & Hg0). rewrite <- G2' in Hg0.
    rewrite Hid. unfold tabsOf. rewrite T3. exact (Pop2 g0 Hg0).
  - now rewrite T3.
  - intros c. cbv beta. destruct (class_eqb c (w, k)) eqn:Ec; cbn [andb].
    + apply class_eqb_eq in Ec. subst c. rewrite <- Eb.
      replace (2 <=? length b)%nat with true by (symmetry; now apply Nat.leb_le).
      unfold merged. rewrite <- Eb.
      exists (upd target). split; [exact Hclass|].
      rewrite Hid, C3, C2', Mt.
      rewrite Z.eqb_refl, totalTabs_sumCounts.
      rewrite <- (sumCounts_perm _ _ h (Permutation_map group_id Perm)).
      unfold sumCounts. simpl. reflexivity.
    + assert (Nc : c <> (w, k)).
      { intros ->. rewrite (proj2 (class_eqb_eq (w, k) (w, k)) eq_refl) in Ec.
        discriminate. }
      assert (Hout : forall g, In g (groups h) -> inClass cs c g = true ->
                               g <> target /\ chrome.mem (group_id g) oids = false).
      { intros g Hg Hc.
        assert (Hnb : ~ In g b).
        { intros Hgb. apply Hb in Hgb. destruct Hgb as [_ Hgb].
          apply inClass_iff in Hc. apply inClass_iff in Hgb. congruence. }
        split.
        - intros ->. contradiction.
        - destruct (chrome.mem (group_id g) oids) eqn:M; [|reflexivity].
          apply (Fo g Hg) in M. exfalso. apply Hnb. apply Fb. now right. }
      split.
      * unfold classGroups. rewrite G3. apply filter_map_filter_keep.
        intros g Hg. split.
        -- intros Hc. destruct (Hout g Hg Hc) as [Ng Mg].
           rewrite Mg. split; [reflexivity|]. now apply Hupd_other.
        -- intros Hc _.
           destruct (Z.eqb_spec (group_id g) (group_id target)) as [E|N].
           ++ apply Ft in E; [|exact Hg]. subst g.
              destruct (inClass cs c (upd target)) eqn:X; [|reflexivity].
              apply inClass_iff in X. apply inClass_iff in Hupd_target. congruence.
           ++ rewrite Hupd_other; auto. congruence.
      * intros g Hg. unfold classGroups in Hg. apply filter_In in Hg.
        destruct Hg as [Hg Hc]. destruct (Hout g Hg Hc) as [Ng Mg].
        rewrite C3, C2', Mg.
        replace (group_id g =? group_id target) with false; [reflexivity|].
        symmetry. apply Z.eqb_neq. intros E. apply Ng. now apply Ft.
Qed.

Lemma recomputeBucket_effect (st : Settings) (w : Z) (k : string) (h : Host) :
  wellFormed h ->
  exists res h',
    recomputeBucket avoidDiscard st (k, classGroups (caseSensitive st) (w, k) h) h
      = (Returned res, h') /\
    effect (caseSensitive st) (fun c => class_eqb c (w, k)) h h' /\
    recomputed st w (k, classGroups (caseSensitive st) (w, k) h) res h'.
Proof.
  intros WF. set (cs := caseSensitive st).
  remember (classGroups cs (w, k) h) as b eqn:Eb.
  destruct (2 <=? length b)%nat eqn:Big.
  2: { exists [], h. apply Nat.leb_gt in Big.
       assert (Small : recomputeBucket avoidDiscard st (k, b) h = (Returned [], h)
                       /\ indexEntry (k, b) = []).
       { unfold recomputeBucket, indexEntry.
         destruct b as [|g1 [|g2 r]]; try (split; reflexivity). simpl in Big. lia. }
       destruct Small as [Er Ei]. split; [exact Er|]. split.
       - split; [exact WF|]. split; [reflexivity|]. intros c. cbv beta.
         destruct (class_eqb c (w, k)) eqn:E; cbn [andb]; [|apply untouched_refl].
         apply class_eqb_eq in E. subst c. fold cs. rewrite <- Eb.
         replace (2 <=? length b)%nat with false by (symmetry; now apply Nat.leb_gt).
         apply untouched_refl.
       - split; [now rewrite Ei|]. simpl. lia. }
  apply Nat.leb_le in Big.
  assert (Hne : b <> []) by (destruct b; simpl in Big; [lia|discriminate]).
  destruct (sortById_head b Hne) as (target & others & Hs & Ht & _).
  assert (Perm : Permutation (target :: others) b).
  { rewrite <- Hs. apply sortById_perm. }
  assert (Hothers : others <> []).
  { intros ->. apply Permutation_length in Perm. simpl in Perm. lia. }
  assert (Hkey : keyOf cs (chrome.set_props (group_title target) (keepCollapsed st) target)
                 = k).
  { rewrite Eb in Ht. apply filter_In in Ht. destruct Ht as [_ Ht].
    apply inClass_iff in Ht. assert (Ek : keyOf cs target = k) by congruence.
    rewrite <- Ek. unfold keyOf. simpl. now destruct (group_title target). }
  rewrite Eb in Perm.
  destruct (drain_then_update_effect cs (keepCollapsed st) (fastMerge st) w k h []
              target others (group_title target) WF Perm Hothers Hkey)
    as (h2 & h3 & E2 & E3 & F & C).
  rewrite logged_nil in E2. rewrite <- Eb in Perm.
  exists [(k, (group_id target, map group_id others))], h3.
  assert (Ei : indexEntry (k, b) = [(k, (group_id target, map group_id others))]).
  { unfold indexEntry. destruct b as [|g1 [|g2 r]]; simpl in Big; try lia.
    now rewrite Hs. }
  split; [|split; [exact F|]].
  - unfold recomputeBucket. destruct b as [|g1 [|g2 r]]; simpl in Big; try lia.
    rewrite Hs. unfold bind at 1.
    rewrite drain_loop_is_mergeGroupSet, E2.
    unfold bind. rewrite E3. reflexivity.
  - split; [now rewrite Ei|]. intros _. exists target, others. simpl. auto.
Qed.

Lemma recompute_listing (w : Z) (h : Host) :
  listGroups CurrentWindow (Some w) h
  = (Returned (filter (fun g => group_windowId g =? w) (groups h)), h).
Proof. reflexivity. Qed.

(** Every bucket of the window's listing is a class of the host. *)
Lemma recompute_bucket_is_class (cs iu : bool) (w : Z) (h : Host) (k : string)
      (b : list Group) :
  In (k, b) (buildBuckets cs iu (filter (fun g => group_windowId g =? w) (groups h))) ->
  b = classGroups cs (w, k) h /\ includedKey iu k = true.
Proof.
  intros Hk.
  destruct (buildBuckets_spec cs iu (filter (fun g => group_windowId g =? w) (groups h)))
    as (_ & HB & _).
  destruct (HB _ _ Hk) as [Hne Eb].
  assert (E : b = filter (fun g => includedKey iu (keyOf cs g) && inClass cs (w, k) g)
                         (groups h)).
  { rewrite Eb, !filter_twice. apply filter_ext. intros g. unfold inClass. simpl.
    rewrite included_key.
    destruct (group_windowId g =? w), (includedKey iu (keyOf cs g)),
      (String.eqb (keyOf cs g) k); reflexivity. }
  destruct b as [|g0 b0] eqn:Ebb; [congruence|]. rewrite <- Ebb in *.
  assert (H0 : In g0 b) by (rewrite Ebb; now left).
  rewrite E in H0. apply filter_In in H0. destruct H0 as [_ H0].
  apply andb_true_iff in H0. destruct H0 as [I0 C0].
  apply inClass_iff in C0. assert (K0 : keyOf cs g0 = k) by congruence.
  clear C0. rewrite K0 in I0.
  split; [|exact I0].
  rewrite E. unfold classGroups. apply filter_ext_in. intros g _.
  destruct (inClass cs (w, k) g) eqn:C; [|apply andb_false_r].
  apply inClass_iff in C. assert (Kg : keyOf cs g = k) by congruence.
  now rewrite Kg, I0.
Qed.

Lemma recompute_class_has_bucket (cs iu : bool) (w : Z) (h : Host) (k : string) :
  includedKey iu k = true -> classGroups cs (w, k) h <> [] ->
  In (k, classGroups cs (w, k) h)
     (buildBuckets cs iu (filter (fun g => group_windowId g =? w) (groups h))).
Proof.
  intros Hi Hne.
  destruct (classGroups cs (w, k) h) as [|g gs] eqn:Eg; [congruence|].
  assert (Hg : In g (classGroups cs (w, k) h)) by (rewrite Eg; now left).
  apply filter_In in Hg. destruct Hg as [Hg Hc]. apply inClass_iff in Hc.
  assert (Ew : group_windowId g = w) by congruence.
  assert (Ek : keyOf cs g = k) by congruence.
  set (L := filter (fun g => group_windowId g =? w) (groups h)).
  destruct (buildBuckets_spec cs iu L) as (_ & _ & HK).
  assert (HgL : In g (filter (included cs iu) L)).
  { apply filter_In. split.
    - apply filter_In. split; [exact Hg|]. rewrite Ew. apply Z.eqb_refl.
    - rewrite included_key. now rewrite Ek. }
  pose proof (HK g HgL) as Hkey. apply in_map_iff in Hkey.
  destruct Hkey as ([k' b] & Ek' & Hkb). simpl in Ek'. rewrite Ek in Ek'. subst k'.
  destruct (recompute_bucket_is_class cs iu w h k b Hkb) as [-> _].
  rewrite <- Eg. exact Hkb.
Qed.

(** In a well-formed host the recompute returns, having merged every class
    of the window that takes part and has two or more groups; what it
    returns is the entry of every bucket, and every merged class is left
    with its member of smallest id, titled as it was. *)
Lemma recomputeAndDrainDuplicates_effect (w : Z) (st : Settings) (h : Host) :
  wellFormed h ->
  let buckets := buildBuckets (caseSensitive st) (includeUnnamed st)
                   (filter (fun g => group_windowId g =? w) (groups h)) in
  exists rs h',
    recomputeAndDrainDuplicates avoidDiscard w st h = (Returned (concat rs), h') /\
    effect (caseSensitive st)
           (fun c => (fst c =? w) && includedKey (includeUnnamed st) (snd c)) h h' /\
    Forall2 (fun e res => recomputed st w e res h') buckets rs.
Proof.
  intros WF buckets.
  unfold recomputeAndDrainDuplicates, bind at 1. rewrite recompute_listing.
  set (cs := caseSensitive st). set (iu := includeUnnamed st).
  fold cs iu in buckets. fold buckets.
  destruct (for_collect_effect_each cs (recomputeBucket avoidDiscard st)
              (fun e c => class_eqb c (w, fst e))
              (fun e h0 => snd e = classGroups cs (w, fst e) h0)
              (fun e res h0 => recomputed st w e res h0)
              buckets) with (h := h) as (rs & h' & E & F & Q).
  - apply (NoDup_ordered_pairs fst).
    + apply (buildBuckets_spec cs iu).
    + intros x y _ _ N c Hc. apply class_eqb_eq in Hc. subst c.
      apply not_true_is_false. intros E. apply class_eqb_eq in E.
      inversion E. congruence.
  - intros [k b] h0 _ WF0 Eb. simpl in Eb. subst b.
    apply recomputeBucket_effect. exact WF0.
  - intros x y h0 h1 Hdis (_ & _ & Hc) Ey.
    specialize (Hc (w, fst y)). cbv beta in Hc.
    replace (class_eqb (w, fst y) (w, fst x)) with false in Hc.
    + simpl in Hc. destruct Hc as [G _]. congruence.
    + symmetry. apply not_true_is_false. intros E.
      specialize (Hdis (w, fst y) E).
      rewrite (proj2 (class_eqb_eq (w, fst y) (w, fst y)) eq_refl) in Hdis.
      discriminate.
  - intros x res Hs h0 h1 Hdis (_ & _ & Hc) [Hr Hq]. split; [exact Hr|].
    intros Big. destruct (Hq Big) as (target & others & Hsort & Hcl).
    exists target, others. split; [exact Hsort|].
    specialize (Hc (w, fst x)). cbv beta in Hc.
    rewrite (Hdis (w, fst x) (proj2 (class_eqb_eq _ _) eq_refl)) in Hc.
    simpl in Hc. destruct Hc as [G _]. fold cs. now rewrite G.
  - exact WF.
  - intros [k b] Hin. simpl.
    now destruct (recompute_bucket_is_class cs iu w h k b Hin).
  - exists rs, h'. split; [exact E|]. split; [|exact Q].
    apply effect_ext with (2 := F). intros [w' k] Big. simpl.
    destruct (existsb (fun x : string * list Group => class_eqb (w', k) (w, fst x))
                      buckets) eqn:X.
    + apply existsb_exists in X. destruct X as ([k' b] & Hin & X).
      apply class_eqb_eq in X. inversion X; subst. simpl.
      destruct (recompute_bucket_is_class cs iu w h k' b Hin) as [_ ->].
      now rewrite Z.eqb_refl.
    + destruct ((w' =? w) && includedKey iu k) eqn:Y; [|reflexivity].
      exfalso. apply andb_true_iff in Y. destruct Y as [Yw Yk].
      apply Z.eqb_eq in Yw. subst w'.
      assert (Hne : classGroups cs (w, k) h <> []).
      { intros E0. rewrite E0 in Big. simpl in Big. lia. }
      pose proof (recompute_class_has_bucket cs iu w h k Yk Hne) as Hin.
      assert (Xt : existsb (fun x : string * list Group => class_eqb (w, k) (w, fst x))
                           buckets = true).
      { apply existsb_exists. eexists. split; [exact Hin|]. now apply class_eqb_eq. }
      congruence.
Qed.

End RecomputeEffect.

(** Looking a key up in the entries of buckets with distinct keys. *)
Lemma index_get_entries (m : list (string * list Group)) (k : string) :
  NoDup (map fst m) ->
  (forall b, In (k, b) m ->
     index_get k (flat_map indexEntry m) = option_map snd (hd_error (indexEntry (k, b)))) /\
  (~ In k (map fst m) -> index_get k (flat_map indexEntry m) = None).
Proof.
  assert (Hkey : forall k' b' e, In e (indexEntry (k', b')) -> fst e = k').
  { intros k' b' e. unfold indexEntry.
    destruct b' as [|g1 [|g2 r]]; try (intros []).
    destruct (sortById (g1 :: g2 :: r)); [intros []|].
    intros [<-|[]]. reflexivity. }
  assert (Hmiss : forall k' b', k' <> k ->
            find (fun e : string * (Z * list Z) => String.eqb (fst e) k)
                 (indexEntry (k', b')) = None).
  { intros k' b' N.
    destruct (find _ (indexEntry (k', b'))) as [e|] eqn:F; [|reflexivity].
    apply find_some in F. destruct F as [Hin He]. apply String.eqb_eq in He.
    apply Hkey in Hin. congruence. }
  assert (Hfind : forall (l1 l2 : list (string * (Z * list Z))) p,
            find p (l1 ++ l2) = match find p l1 with Some e => Some e | None => find p l2 end).
  { intros l1 l2 p. induction l1 as [|x r IH]; simpl; [reflexivity|].
    now destruct (p x). }
  intros ND.
  assert (Main :
    (forall b, In (k, b) m ->
       find (fun e : string * (Z * list Z) => String.eqb (fst e) k)
            (flat_map indexEntry m) = hd_error (indexEntry (k, b))) /\
    (~ In k (map fst m) ->
       find (fun e : string * (Z * list Z) => String.eqb (fst e) k)
            (flat_map indexEntry m) = None)).
  { induction m as [|[k' b'] r IH]; cbn [flat_map].
    - split; [intros b []|reflexivity].
    - simpl in ND. apply NoDup_cons_iff in ND. destruct ND as [Hk' ND].
      destruct (IH ND) as [IH1 IH2]. rewrite Hfind. split.
      + intros b [E|Hin].
        * inversion E; subst k' b'. rewrite (IH2 Hk').
          destruct (indexEntry (k, b)) as [|e es] eqn:Ee; [reflexivity|].
          assert (He : fst e = k) by (apply (Hkey k b); rewrite Ee; now left).
          cbn [find hd_error]. rewrite He, String.eqb_refl. reflexivity.
        * assert (N : k' <> k).
          { intros ->. apply Hk'. apply in_map_iff. exists (k, b). auto. }
          rewrite (Hmiss k' b' N). now apply IH1.
      + intros Hnot.
        assert (N : k' <> k) by (intros ->; apply Hnot; now left).
        rewrite (Hmiss k' b' N). apply IH2. intros H. apply Hnot. now right. }
  destruct Main as [M1 M2]. unfold index_get. split.
  - intros b Hin. now rewrite (M1 b Hin).
  - intros Hnot. now rewrite (M2 Hnot).
Qed.

Lemma recomputed_entries (st : Settings) (w : Z) (h' : Host)
      (m : list (string * list Group)) (rs : list (list (string * (Z * list Z)))) :
  Forall2 (fun e res => recomputed st w e res h') m rs ->
  concat rs = flat_map indexEntry m.
Proof.
  induction 1 as [|e res m' rs' [Hr _] _ IH]; simpl; [reflexivity|].
  now rewrite Hr, IH.
Qed.

(** X6: In a well-formed host, for every key that takes part and is shared
    by two or more groups of the window, [recomputeAndDrainDuplicates]
    returns having collapsed those groups into the one with the smallest
    id: that group is recorded as the target under the key, with the other
    ids as [others]; it is the only group of the key left in the window,
    keeps its own title, holds as many tabs as the groups of the key held
    together, and the host has the very tabs it had. *)
Theorem recomputeAndDrainDuplicates_collapses_into_smallest :
  forall (avoid : Tab -> bool) (w : Z) (st : Settings) (h : Host) (k : string),
    wellFormed h ->
    includedKey (includeUnnamed st) k = true ->
    (2 <= length (classGroups (caseSensitive st) (w, k) h))%nat ->
    exists idx h' target others,
      recomputeAndDrainDuplicates avoid w st h = (Returned idx, h') /\
      sortById (classGroups (caseSensitive st) (w, k) h) = target :: others /\
      smallestId (classGroups (caseSensitive st) (w, k) h) (group_id target) /\
      index_get k idx = Some (group_id target, map group_id others) /\
      classGroups (caseSensitive st) (w, k) h'
        = [chrome.set_props (group_title target) (keepCollapsed st) target] /\
      tabCount (group_id target) h'
        = totalTabs (classGroups (caseSensitive st) (w, k) h) h /\
      map tab_id (tabs h') = map tab_id (tabs h).
Proof.
  intros avoid w st h k WF Hi Big.
  set (cs := caseSensitive st) in *. set (iu := includeUnnamed st) in *.
  destruct (recomputeAndDrainDuplicates_effect avoid w st h WF)
    as (rs & h' & E & F & Q).
  fold cs iu in Q, F.
  set (buckets := buildBuckets cs iu (filter (fun g => group_windowId g =? w) (groups h)))
    in *.
  assert (Hne : classGroups cs (w, k) h <> []).
  { intros E0. rewrite E0 in Big. simpl in Big. lia. }
  pose proof (recompute_class_has_bucket cs iu w h k Hi Hne) as Hin.
  fold buckets in Hin.
  destruct (Forall2_In_left _ _ _ _ Q Hin) as (res & _ & [Hres Hq]).
  destruct (Hq Big) as (target & others & Hs & Hcl). simpl in Hs, Hcl.
  fold cs in Hcl.
  destruct (sortById_head _ Hne) as (t' & o' & Hs' & Ht' & Hmin).
  rewrite Hs in Hs'. inversion Hs'; subst t' o'.
  exists (concat rs), h', target, others.
  split; [exact E|]. split; [exact Hs|]. split; [|split; [|split; [exact Hcl|split]]].
  - split; [now apply in_map|exact Hmin].
  - rewrite (recomputed_entries st w h' buckets rs Q).
    destruct (index_get_entries buckets k) as [Hget _].
    { apply (buildBuckets_spec cs iu). }
    rewrite (Hget _ Hin). unfold indexEntry.
    destruct (classGroups cs (w, k) h) as [|g1 [|g2 r]] eqn:Ec; simpl in Big; try lia.
    rewrite Hs. reflexivity.
  - destruct F as (_ & _ & Hc). specialize (Hc (w, k)). cbn [fst snd] in Hc.
    rewrite Z.eqb_refl, Hi in Hc. cbn [andb] in Hc.
    replace (2 <=? length (classGroups cs (w, k) h))%nat with true in Hc
      by (symmetry; now apply Nat.leb_le).
    destruct Hc as (g' & Eg & Cnt). rewrite Hcl in Eg. inversion Eg; subst g'.
    exact Cnt.
  - apply F.
Qed.

Lemma recomputeAndDrainDuplicates_collapses_into_smallest_witness :
  wellFormed Sample.host /\
  includedKey (includeUnnamed Sample.settings) "work" = true /\
  (2 <= length (classGroups (caseSensitive Sample.settings) (1%Z, "work"%string)
                            Sample.host))%nat /\
  exists idx h' target others,
    recomputeAndDrainDuplicates isActive 1 Sample.settings Sample.host
      = (Returned idx, h') /\
    sortById (classGroups (caseSensitive Sample.settings) (1%Z, "work"%string) Sample.host)
      = target :: others /\
    smallestId (classGroups (caseSensitive Sample.settings) (1%Z, "work"%string)
                            Sample.host) (group_id target) /\
    index_get "work" idx = Some (group_id target, map group_id others) /\
    classGroups (caseSensitive Sample.settings) (1%Z, "work"%string) h'
      = [chrome.set_props (group_title target) (keepCollapsed Sample.settings) target] /\
    tabCount (group_id target) h'
      = totalTabs (classGroups (caseSensitive Sample.settings) (1%Z, "work"%string)
                               Sample.host) Sample.host /\
    map tab_id (tabs h') = map tab_id (tabs Sample.host).
Proof.
  split; [exact sample_host_wellFormed|]. split; [reflexivity|].
  split; [vm_compute; lia|].
  apply (recomputeAndDrainDuplicates_collapses_into_smallest isActive 1 Sample.settings
           Sample.host "work").
  - exact sample_host_wellFormed.
  - reflexivity.
  - vm_compute. lia.
Defined.

(** The sample window: groups 40, 12 and 77 collapse into group 12, which
    keeps the title "work" and ends with the nine tabs. *)
Example recompute_example :
  let r := recomputeAndDrainDuplicates isActive 1 Sample.settings Sample.host in
  fst r = Returned [("work"%string, (12, [40; 77]))] /\
  classGroups false (1%Z, "work"%string) (snd r)
    = [mkGroup 12 (Some "work"%string) 1 true] /\
  tabCount 12 (snd r) = 9 /\
  map group_id (groups (snd r)) = [12; 5; 6; 7].
Proof. vm_compute. repeat split. Qed.

Lemma sample_twoWindows_wellFormed : wellFormed Sample.twoWindows.
Proof.
  split; [|split].
  - unfold uniqueGroups. vm_compute. repeat constructor; simpl; intuition discriminate.
  - unfold uniqueTabs. vm_compute. repeat constructor; simpl; intuition discriminate.
  - intros g Hg. vm_compute in Hg.
    repeat (destruct Hg as [<-|Hg]; [vm_compute; discriminate|]). destruct Hg.
Qed.

(** X7: In a well-formed host [recomputeAndDrainDuplicates] returns and
    leaves a well-formed host in which no key that takes part is shared by
    two groups of the window; the groups of every other window are exactly
    as they were, with as many tabs each; and run again at once it finds
    nothing to merge: it returns an empty index and asks nothing of the
    browser. *)
Theorem recomputeAndDrainDuplicates_settles :
  forall (avoid : Tab -> bool) (w : Z) (st : Settings) (h : Host),
    wellFormed h ->
    exists idx h1,
      recomputeAndDrainDuplicates avoid w st h = (Returned idx, h1) /\
      wellFormed h1 /\
      (forall k, includedKey (includeUnnamed st) k = true ->
                 (length (classGroups (caseSensitive st) (w, k) h1) < 2)%nat) /\
      (forall c, fst c <> w -> untouched (caseSensitive st) c h h1) /\
      recomputeAndDrainDuplicates avoid w st h1 = (Returned [], h1).
Proof.
  intros avoid w st h WF.
  set (cs := caseSensitive st). set (iu := includeUnnamed st).
  destruct (recomputeAndDrainDuplicates_effect avoid w st h WF)
    as (rs & h1 & E & F & _).
  fold cs iu in F.
  assert (Small : forall k, includedKey iu k = true ->
                            (length (classGroups cs (w, k) h1) < 2)%nat).
  { intros k Hi. destruct F as (_ & _ & Hc). specialize (Hc (w, k)).
    cbn [fst snd] in Hc. rewrite Z.eqb_refl, Hi in Hc. cbn [andb] in Hc.
    destruct (2 <=? length (classGroups cs (w, k) h))%nat eqn:Big.
    - destruct Hc as (g & -> & _). simpl. lia.
    - destruct Hc as [-> _]. now apply Nat.leb_gt in Big. }
  exists (concat rs), h1. split; [exact E|]. split; [apply F|].
  split; [exact Small|]. split.
  - intros c Nc. destruct F as (_ & _ & Hc). specialize (Hc c).
    replace (fst c =? w) with false in Hc by (symmetry; now apply Z.eqb_neq).
    exact Hc.
  - unfold recomputeAndDrainDuplicates, bind at 1. rewrite recompute_listing.
    apply for_collect_noop. intros [k b] Hk.
    destruct (recompute_bucket_is_class cs iu w h1 k b Hk) as [Eb Hi].
    specialize (Small k Hi). rewrite <- Eb in Small.
    unfold recomputeBucket. destruct b as [|g1 [|g2 r]]; try reflexivity.
    simpl in Small. lia.
Qed.

Lemma recomputeAndDrainDuplicates_settles_witness :
  wellFormed Sample.twoWindows /\
  exists idx h1,
    recomputeAndDrainDuplicates isActive 1 Sample.settings Sample.twoWindows
      = (Returned idx, h1) /\
    wellFormed h1 /\
    (forall k, includedKey (includeUnnamed Sample.settings) k = true ->
               (length (classGroups (caseSensitive Sample.settings) (1%Z, k) h1) < 2)%nat) /\
    (forall c, fst c <> 1 ->
               untouched (caseSensitive Sample.settings) c Sample.twoWindows h1) /\
    recomputeAndDrainDuplicates isActive 1 Sample.settings h1 = (Returned [], h1).
Proof.
  split; [exact sample_twoWindows_wellFormed|].
  exact (recomputeAndDrainDuplicates_settles isActive 1 Sample.settings
           Sample.twoWindows sample_twoWindows_wellFormed).
Defined.

(** X8: The index that [recomputeAndDrainDuplicates] returns for a window
    and [findDuplicateTargetGroup] agree.  In a well-formed host, for every
    title, the target recorded in the index under the title's key is what
    [findDuplicateTargetGroup] answers for that title on the same host, and
    the index has no entry under the key exactly when it answers null. *)
Theorem index_agrees_with_findDuplicateTargetGroup :
  forall (avoid : Tab -> bool) (w : Z) (st : Settings) (h : Host),
    wellFormed h ->
    exists idx h',
      recomputeAndDrainDuplicates avoid w st h = (Returned idx, h') /\
      forall title,
        findDuplicateTargetGroup w title (caseSensitive st) (includeUnnamed st) h
        = (Returned (option_map fst
                       (index_get (normalizeTitle title (caseSensitive st)) idx)), h).
Proof.
  intros avoid w st h WF.
  set (cs := caseSensitive st). set (iu := includeUnnamed st).
  destruct (recomputeAndDrainDuplicates_effect avoid w st h WF)
    as (rs & h' & E & _ & Q).
  fold cs iu in Q.
  set (buckets := buildBuckets cs iu (filter (fun g => group_windowId g =? w) (groups h)))
    in *.
  exists (concat rs), h'. split; [exact E|]. intros title.
  rewrite (recomputed_entries st w h' buckets rs Q).
  set (key := normalizeTitle title cs).
  destruct (index_get_entries buckets key) as [Hget Hnone].
  { apply (buildBuckets_spec cs iu). }
  unfold findDuplicateTargetGroup. fold key.
  assert (Hi : includedKey iu key = negb (negb iu && String.eqb key EmptyString))
    by reflexivity.
  destruct (negb iu && String.eqb key EmptyString); cbn [negb] in Hi.
  1: { rewrite Hnone; [reflexivity|]. intros Hk. apply in_map_iff in Hk.
       destruct Hk as ([k b] & Ek & Hin). simpl in Ek. subst k.
       destruct (recompute_bucket_is_class cs iu w h key b Hin) as [_ Hi'].
       congruence. }
  unfold bind. rewrite recompute_listing, classGroups_as_listing.
  destruct (classGroups cs (w, key) h) as [|g1 gs] eqn:Ec.
  { simpl. rewrite Hnone; [reflexivity|]. intros Hk. apply in_map_iff in Hk.
    destruct Hk as ([k b] & Ek & Hin). simpl in Ek. subst k.
    destruct (recompute_bucket_is_class cs iu w h key b Hin) as [Eb _].
    destruct (buildBuckets_spec cs iu (filter (fun g => group_windowId g =? w) (groups h)))
      as (_ & HB & _).
    destruct (HB _ _ Hin) as [Hne _]. congruence. }
  assert (Hin : In (key, g1 :: gs) buckets).
  { rewrite <- Ec. apply recompute_class_has_bucket; [exact Hi|]. now rewrite Ec. }
  rewrite (Hget _ Hin). unfold indexEntry.
  destruct gs as [|g2 r]; [reflexivity|].
  change (length (g1 :: g2 :: r) <? 2)%nat with false. cbv iota.
  destruct (sortById (g1 :: g2 :: r)) as [|t os] eqn:Hs; [|reflexivity].
  exfalso. pose proof (js_sort_length (fun a b => group_id a - group_id b)
                         (g1 :: g2 :: r)) as L.
  unfold sortById in Hs. rewrite Hs in L. discriminate.
Qed.

Lemma index_agrees_with_findDuplicateTargetGroup_witness :
  wellFormed Sample.host /\
  exists idx h',
    recomputeAndDrainDuplicates isActive 1 Sample.settings Sample.host
      = (Returned idx, h') /\
    forall title,
      findDuplicateTargetGroup 1 title (caseSensitive Sample.settings)
                               (includeUnnamed Sample.settings) Sample.host
      = (Returned (option_map fst
                     (index_get (normalizeTitle title (caseSensitive Sample.settings))
                                idx)), Sample.host).
Proof.
  split; [exact sample_host_wellFormed|].
  exact (index_agrees_with_findDuplicateTargetGroup isActive 1 Sample.settings
           Sample.host sample_host_wellFormed).
Defined.

(* ================================================================== *)
(** * The explicit merge, bucket by bucket *)

Lemma Forall2_impl_left {A B} (P Q : A -> B -> Prop) (l : list A) (l' : list B) :
  Forall2 P l l' -> (forall x y, In x l -> P x y -> Q x y) -> Forall2 Q l l'.
Proof.
  induction 1 as [|x y l l' Hxy F IH]; intros H; constructor.
  - apply H; [now left|exact Hxy].
  - apply IH. intros a b Ha. apply H. now right.
Qed.

(** A class in scope that takes part has a bucket in its window's entry. *)
Lemma class_has_bucket (scope : Scope) (wid : option Z) (cs iu : bool) (h : Host)
      (w : Z) (k : string) :
  inScope scope wid h w = true -> includedKey iu k = true ->
  classGroups cs (w, k) h <> [] ->
  exists wg,
    In (w, wg) (partitionByWindow
                  (filter (fun g => inScope scope wid h (group_windowId g)) (groups h))) /\
    In (k, classGroups cs (w, k) h) (buildBuckets cs iu wg).
Proof.
  intros Ys Yk Hne.
  set (L := filter (fun g => inScope scope wid h (group_windowId g)) (groups h)).
  destruct (classGroups cs (w, k) h) as [|g gs] eqn:Eg; [congruence|].
  assert (Hg : In g (classGroups cs (w, k) h)) by (rewrite Eg; now left).
  apply filter_In in Hg. destruct Hg as [Hg Hc]. apply inClass_iff in Hc.
  assert (Ew : group_windowId g = w) by congruence.
  assert (Ek : keyOf cs g = k) by congruence.
  assert (HgL : In g L).
  { apply filter_In. split; [exact Hg|]. now rewrite Ew. }
  destruct (partitionByWindow_spec L) as (_ & HBw & HKw).
  pose proof (HKw g HgL) as Hwin. rewrite Ew in Hwin.
  apply in_map_iff in Hwin. destruct Hwin as ([w' wg] & Ew' & Hin).
  simpl in Ew'. subst w'.
  destruct (HBw _ _ Hin) as [_ Ewg].
  destruct (buildBuckets_spec cs iu wg) as (_ & _ & HKk).
  assert (Hgw : In g (filter (included cs iu) wg)).
  { apply filter_In. split.
    - rewrite Ewg. apply filter_In. split; [exact HgL|]. rewrite Ew. apply Z.eqb_refl.
    - rewrite included_key. now rewrite Ek. }
  pose proof (HKk g Hgw) as Hkey. rewrite Ek in Hkey. apply in_map_iff in Hkey.
  destruct Hkey as ([k' b] & Ek' & Hkb). simpl in Ek'. subst k'.
  exists wg. split; [exact Hin|].
  destruct (bucket_is_class scope wid cs iu h w wg k b Hin Hkb) as (Eb & _).
  rewrite <- Eg, <- Eb. exact Hkb.
Qed.

Section MergeEach.
Variable avoidDiscard : Tab -> bool.

(** A bucket that is a class of the current host, whose tab counts are
    still those of [h0]. *)
Lemma mergeBucket_merges (st : Settings) (w : Z) (k : string) (h0 h : Host) :
  wellFormed h ->
  (forall g, In g (classGroups (caseSensitive st) (w, k) h) ->
             tabCount (group_id g) h = tabCount (group_id g) h0) ->
  exists res h',
    mergeBucket avoidDiscard st w (k, classGroups (caseSensitive st) (w, k) h) h
      = (Returned res, h') /\
    effect (caseSensitive st) (fun c => class_eqb c (w, k)) h h' /\
    mergedBucket st w h0 (k, classGroups (caseSensitive st) (w, k) h) res h'.
Proof.
  intros WF. set (cs := caseSensitive st).
  remember (classGroups cs (w, k) h) as b eqn:Eb. intros Hcnt.
  destruct (2 <=? length b)%nat eqn:Big.
  2: { exists [], h. apply Nat.leb_gt in Big.
       assert (Small : mergeBucket avoidDiscard st w (k, b) h = (Returned [], h)
                       /\ mergedBucket st w h0 (k, b) [] h).
       { unfold mergeBucket, mergedBucket. cbn [snd].
         destruct b as [|g1 [|g2 r]]; try (split; reflexivity). simpl in Big. lia. }
       destruct Small as [Er Em]. split; [exact Er|]. split; [|exact Em].
       split; [exact WF|]. split; [reflexivity|]. intros c. cbv beta.
       destruct (class_eqb c (w, k)) eqn:E; cbn [andb]; [|apply untouched_refl].
       apply class_eqb_eq in E. subst c. fold cs. rewrite <- Eb.
       replace (2 <=? length b)%nat with false by (symmetry; now apply Nat.leb_gt).
       apply untouched_refl. }
  apply Nat.leb_le in Big.
  assert (Hne : b <> []) by (destruct b; simpl in Big; [lia|discriminate]).
  destruct (sortByCount_head b h Hne) as (target & rest & _ & _ & Hs & _).
  pose proof (sortByCount_perm b h target _ rest Hs) as Perm.
  assert (Ht : In target b) by (apply (Permutation_in _ Perm); now left).
  assert (Hothers : map fst rest <> []).
  { intros E0. rewrite E0 in Perm. apply Permutation_length in Perm.
    simpl in Perm. lia. }
  assert (Hkey : keyOf cs (chrome.set_props (titleToSet b target) (keepCollapsed st) target)
                 = k).
  { apply titleToSet_keeps_key; [|exact Ht].
    intros g Hg. rewrite Eb in Hg. apply filter_In in Hg. destruct Hg as [_ Hg].
    apply inClass_iff in Hg. congruence. }
  assert (E1 : exists L,
             (if fastMerge st
              then try_catch (discardNonActiveTabsInGroup avoidDiscard (group_id target))
              else ret tt) h = (Returned tt, logged L h)).
  { destruct (fastMerge st).
    - rewrite try_catch_run, discardNonActiveTabsInGroup_run. eexists. reflexivity.
    - exists []. unfold ret. now rewrite logged_nil. }
  destruct E1 as [L E1].
  assert (Perm' : Permutation (target :: map fst rest) (classGroups cs (w, k) h))
    by (now rewrite <- Eb).
  destruct (drain_then_update_effect avoidDiscard cs (keepCollapsed st) (fastMerge st)
              w k h L target (map fst rest) (titleToSet b target) WF Perm' Hothers Hkey)
    as (h2 & h3 & E2 & E3 & F & C).
  exists [mkMergeResult w (titleToSet b target) (group_id target)
                        (Z.of_nat (length b) - 1)], h3.
  split; [|split; [exact F|]].
  - unfold mergeBucket. destruct b as [|g1 [|g2 r]]; simpl in Big; try lia.
    unfold bind at 1. rewrite promise_all_countTabs, Hs.
    unfold bind at 1. rewrite E1.
    unfold bind at 1. rewrite E2.
    unfold bind at 1. rewrite E3. reflexivity.
  - assert (Em : map (fun g => (g, tabCount (group_id g) h0)) b
                 = map (fun g => (g, tabCount (group_id g) h)) b).
    { apply map_ext_in. intros g Hg. now rewrite Hcnt. }
    unfold mergedBucket. cbn [snd fst]. rewrite Em, Hs.
    destruct b as [|g1 [|g2 r]]; simpl in Big; try lia.
    exists target, (tabCount (group_id target) h), rest.
    split; [reflexivity|]. split; [reflexivity|exact C].
Qed.

Lemma mergeWindow_merges (st : Settings) (w : Z) (wg : list Group) (h0 h : Host) :
  wellFormed h ->
  (forall k b, In (k, b) (buildBuckets (caseSensitive st) (includeUnnamed st) wg) ->
               b = classGroups (caseSensitive st) (w, k) h /\
               forall g, In g b -> tabCount (group_id g) h = tabCount (group_id g) h0) ->
  exists res h',
    mergeWindow avoidDiscard st (w, wg) h = (Returned res, h') /\
    effect (caseSensitive st)
           (fun c => existsb (fun e : string * list Group => class_eqb c (w, fst e))
                             (buildBuckets (caseSensitive st) (includeUnnamed st) wg))
           h h' /\
    mergedWindow st h0 (w, wg) res h'.
Proof.
  intros WF Hpre. unfold mergeWindow.
  set (cs := caseSensitive st) in *. set (iu := includeUnnamed st) in *.
  destruct (for_collect_effect_each cs (mergeBucket avoidDiscard st w)
              (fun e c => class_eqb c (w, fst e))
              (fun e hi => snd e = classGroups cs (w, fst e) hi /\
                           forall g, In g (snd e) ->
                                     tabCount (group_id g) hi = tabCount (group_id g) h0)
              (fun e res hi => mergedBucket st w h0 e res hi)
              (buildBuckets cs iu wg)) with (h := h) as (rs & h' & E & F & Q).
  - apply (NoDup_ordered_pairs fst).
    + apply (buildBuckets_spec cs iu wg).
    + intros x y _ _ N c Hc. apply class_eqb_eq in Hc. subst c.
      apply not_true_is_false. intros E. apply class_eqb_eq in E.
      inversion E. congruence.
  - intros [k b] hi _ WFi [Eb Hc]. cbn [fst snd] in Eb, Hc. subst b.
    apply mergeBucket_merges; assumption.
  - intros x y hi hj Hdis (_ & _ & Hc) [Ey Cy].
    specialize (Hc (w, fst y)). cbv beta in Hc.
    replace (class_eqb (w, fst y) (w, fst x)) with false in Hc.
    + cbn [andb] in Hc. destruct Hc as [G Cn]. split; [congruence|].
      intros g Hg. rewrite <- (Cy g Hg). apply Cn. rewrite <- Ey. exact Hg.
    + symmetry. apply not_true_is_false. intros E.
      specialize (Hdis (w, fst y) E).
      rewrite (proj2 (class_eqb_eq (w, fst y) (w, fst y)) eq_refl) in Hdis.
      discriminate.
  - intros x res Hs hi hj Hdis (_ & _ & Hc) Hq. unfold mergedBucket in *.
    destruct (snd x) as [|g1 [|g2 r]]; try exact Hq.
    destruct Hq as (target & n & rest & S & R & C).
    exists target, n, rest. split; [exact S|]. split; [exact R|].
    specialize (Hc (w, fst x)). cbv beta in Hc.
    rewrite (Hdis (w, fst x) (proj2 (class_eqb_eq _ _) eq_refl)) in Hc.
    cbn [andb] in Hc. destruct Hc as [G _]. fold cs. now rewrite G.
  - exact WF.
  - intros [k b] Hin. cbn [fst snd]. now apply Hpre.
  - exists (concat rs), h'. split; [exact E|]. split; [exact F|].
    exists rs. split; [reflexivity|exact Q].
Qed.

(** In a well-formed host [mergeDuplicatesByName] returns the entries of
    its buckets, window by window, each bucket of two or more groups being
    left as the group in front of its counts (taken in the host the
    operation started from), under the title chosen for it. *)
Lemma mergeDuplicatesByName_merges (scope : Scope) (wid : option Z) (st : Settings)
      (h : Host) :
  wellFormed h ->
  exists rs h',
    mergeDuplicatesByName avoidDiscard scope wid st h = (Returned (concat rs), h') /\
    Forall2 (fun e res => mergedWindow st h e res h')
            (partitionByWindow
               (filter (fun g => inScope scope wid h (group_windowId g)) (groups h)))
            rs.
Proof.
  intros WF. unfold mergeDuplicatesByName, bind at 1. rewrite listGroups_spec.
  set (cs := caseSensitive st). set (iu := includeUnnamed st).
  set (L := filter (fun g => inScope scope wid h (group_windowId g)) (groups h)).
  set (Hw := fun (e : Z * list Group) (c : class) =>
               existsb (fun b : string * list Group => class_eqb c (fst e, fst b))
                       (buildBuckets cs iu (snd e))).
  destruct (for_collect_effect_each cs (mergeWindow avoidDiscard st) Hw
              (fun e hi => forall k b, In (k, b) (buildBuckets cs iu (snd e)) ->
                 b = classGroups cs (fst e, k) hi /\
                 forall g, In g b -> tabCount (group_id g) hi = tabCount (group_id g) h)
              (fun e res hi => mergedWindow st h e res hi)
              (partitionByWindow L)) with (h := h) as (rs & h' & E & F & Q).
  - apply (NoDup_ordered_pairs fst).
    + apply (partitionByWindow_spec L).
    + intros x y _ _ N c Hc. unfold Hw in *.
      apply existsb_exists in Hc. destruct Hc as (bx & _ & Hc).
      apply class_eqb_eq in Hc. subst c.
      apply not_true_is_false. intros E. apply existsb_exists in E.
      destruct E as (b_y & _ & E). apply class_eqb_eq in E. inversion E. congruence.
  - intros [w wg] hi _ WFi Hpre. cbn [fst snd] in Hpre.
    exact (mergeWindow_merges st w wg h hi WFi Hpre).
  - intros x y hi hj Hdis (_ & _ & Hc) Hy k b Hin.
    specialize (Hc (fst y, k)). cbv beta in Hc.
    replace (Hw x (fst y, k)) with false in Hc.
    + cbn [andb] in Hc. destruct Hc as [G Cn]. destruct (Hy k b Hin) as [Eb Cb].
      split; [congruence|]. intros g Hg. rewrite <- (Cb g Hg). apply Cn.
      rewrite <- Eb. exact Hg.
    + symmetry. apply not_true_is_false. intros E.
      specialize (Hdis (fst y, k) E). unfold Hw in Hdis.
      assert (X : existsb (fun b0 : string * list Group =>
                             class_eqb (fst y, k) (fst y, fst b0))
                          (buildBuckets cs iu (snd y)) = true).
      { apply existsb_exists. exists (k, b). split; [exact Hin|].
        now apply class_eqb_eq. }
      congruence.
  - intros x res Hs hi hj Hdis (_ & _ & Hc) (rs0 & Er & Q0).
    exists rs0. split; [exact Er|].
    apply (Forall2_impl_left _ _ _ _ Q0). intros e r Hin Hq.
    unfold mergedBucket in *.
    destruct (snd e) as [|g1 [|g2 r0]]; try exact Hq.
    destruct Hq as (target & n & rest & S & R & C).
    exists target, n, rest. split; [exact S|]. split; [exact R|].
    specialize (Hc (fst x, fst e)). cbv beta in Hc.
    assert (X : Hw x (fst x, fst e) = true).
    { unfold Hw. apply existsb_exists. exists e. split; [exact Hin|].
      now apply class_eqb_eq. }
    rewrite (Hdis _ X) in Hc. cbn [andb] in Hc. destruct Hc as [G _].
    fold cs. now rewrite G.
  - exact WF.
  - intros [w wg] Hin k b Hk. cbn [fst snd] in *.
    destruct (bucket_is_class scope wid cs iu h w wg k b Hin Hk) as (Eb & _).
    split; [exact Eb|reflexivity].
  - exists rs, h'. split; [exact E|exact Q].
Qed.

(** The same, for one class at a time: what the operation reports for it
    and what it leaves of it. *)
Lemma mergeDuplicatesByName_class (scope : Scope) (wid : option Z) (st : Settings)
      (h : Host) (w : Z) (k : string) :
  wellFormed h ->
  inScope scope wid h w = true ->
  includedKey (includeUnnamed st) k = true ->
  (2 <= length (classGroups (caseSensitive st) (w, k) h))%nat ->
  exists results h' target n rest,
    mergeDuplicatesByName avoidDiscard scope wid st h = (Returned results, h') /\
    sortByCount (map (fun g => (g, tabCount (group_id g) h))
                     (classGroups (caseSensitive st) (w, k) h))
      = (target, n) :: rest /\
    In (mkMergeResult w (titleToSet (classGroups (caseSensitive st) (w, k) h) target)
                      (group_id target)
                      (Z.of_nat (length (classGroups (caseSensitive st) (w, k) h)) - 1))
       results /\
    classGroups (caseSensitive st) (w, k) h'
      = [chrome.set_props (titleToSet (classGroups (caseSensitive st) (w, k) h) target)
                          (keepCollapsed st) target] /\
    tabCount (group_id target) h'
      = totalTabs (classGroups (caseSensitive st) (w, k) h) h /\
    map tab_id (tabs h') = map tab_id (tabs h).
Proof.
  intros WF Ys Yk Big.
  set (cs := caseSensitive st) in *. set (iu := includeUnnamed st) in *.
  destruct (mergeDuplicatesByName_merges scope wid st h WF) as (rs & h' & E & Q).
  destruct (mergeDuplicatesByName_effect avoidDiscard scope wid st h WF)
    as (res2 & h2 & E2 & F).
  rewrite E in E2. assert (Eh : h2 = h') by congruence. subst h2. clear E2 res2.
  fold cs iu in Q, F.
  assert (Hne : classGroups cs (w, k) h <> []).
  { intros E0. rewrite E0 in Big. simpl in Big. lia. }
  destruct (class_has_bucket scope wid cs iu h w k Ys Yk Hne) as (wg & Hw & Hb).
  destruct (Forall2_In_left _ _ _ _ Q Hw) as (res & Hres & (rs0 & Er & Q0)).
  cbn [fst snd] in Q0.
  destruct (Forall2_In_left _ _ _ _ Q0 Hb) as (r & Hr & Hq).
  unfold mergedBucket in Hq. cbn [fst snd] in Hq. fold cs in Hq.
  destruct (classGroups cs (w, k) h) as [|g1 [|g2 r0]] eqn:Ec; simpl in Big; try lia.
  rewrite <- Ec in *.
  destruct Hq as (target & n & rest & S & R & C).
  exists (concat rs), h', target, n, rest.
  split; [exact E|]. split; [exact S|]. split; [|split; [exact C|split]].
  - apply in_concat. exists res. split; [exact Hres|].
    rewrite Er. apply in_concat. exists r. split; [exact Hr|].
    rewrite R. now left.
  - destruct F as (_ & _ & Hc). specialize (Hc (w, k)). cbn [fst snd] in Hc.
    rewrite Ys, Yk in Hc. cbn [andb] in Hc.
    replace (2 <=? length (classGroups cs (w, k) h))%nat with true in Hc
      by (symmetry; apply Nat.leb_le; rewrite Ec; simpl; lia).
    destruct Hc as (g' & Eg & Cnt). rewrite C in Eg. inversion Eg; subst g'.
    exact Cnt.
  - apply F.
Qed.

End MergeEach.

(** ** Merging a selection, to the end *)

Lemma update_keeps_wellFormed (gid : Z) (title : option string) (c : bool) (h : Host) :
  wellFormed h -> wellFormed (snd (chrome.tabGroups_update gid title c h)).
Proof.
  intros (UG & UT & Pop).
  assert (Hid : forall g, group_id (if group_id g =? gid
                                    then chrome.set_props title c g else g) = group_id g).
  { intros g. destruct (group_id g =? gid); reflexivity. }
  split; [|split].
  - unfold uniqueGroups. rewrite tabGroups_update_groups, map_map.
    now rewrite (map_ext _ group_id Hid).
  - unfold uniqueTabs. now rewrite tabGroups_update_tabs.
  - intros g Hg. rewrite tabGroups_update_groups in Hg. apply in_map_iff in Hg.
    destruct Hg as (g0 & <- & Hg0). rewrite Hid. unfold tabsOf.
    rewrite tabGroups_update_tabs. exact (Pop g0 Hg0).
Qed.

Lemma update_finds (gid : Z) (title : option string) (c : bool) (h : Host) (g : Group) :
  chrome.find_group gid h = Some g ->
  chrome.tabGroups_update gid title c h
    = (Returned (chrome.set_props title c g), snd (chrome.tabGroups_update gid title c h)) /\
  chrome.find_group gid (snd (chrome.tabGroups_update gid title c h))
    = Some (chrome.set_props title c g).
Proof.
  intros F. split.
  - unfold chrome.tabGroups_update. now rewrite F.
  - unfold chrome.find_group in *. rewrite tabGroups_update_groups.
    revert F. generalize (groups h). intros l. induction l as [|x r IH]; simpl.
    + discriminate.
    + destruct (group_id x =? gid) eqn:E.
      * intros H. inversion H; subst x. simpl. now rewrite E.
      * rewrite E. exact IH.
Qed.

Lemma promise_all_get_missing (ids : list Z) (h : Host) :
  Exists (fun i => chrome.find_group i h = None) ids ->
  exists pre i post,
    ids = pre ++ i :: post /\
    Forall (fun j => chrome.find_group j h <> None) pre /\
    chrome.find_group i h = None /\
    promise_all ids chrome.tabGroups_get h = (Thrown (chrome.noGroupWithId i), h).
Proof.
  induction ids as [|i r IH]; intros Hex; [inversion Hex|].
  destruct (chrome.find_group i h) as [g|] eqn:F.
  - assert (Hr : Exists (fun j => chrome.find_group j h = None) r).
    { inversion Hex; subst; [congruence|assumption]. }
    destruct (IH Hr) as (pre & j & post & -> & Hpre & Fj & E).
    exists (i :: pre), j, post. split; [reflexivity|]. split; [|split; [exact Fj|]].
    + constructor; [congruence|exact Hpre].
    + cbn [promise_all]. unfold bind at 1, chrome.tabGroups_get at 1. rewrite F.
      unfold bind at 1. now rewrite E.
  - exists [], i, r. split; [reflexivity|]. split; [constructor|]. split; [exact F|].
    cbn [promise_all]. unfold bind at 1, chrome.tabGroups_get at 1. now rewrite F.
Qed.

Lemma found_ids (ids : list Z) (gs : list Group) (h : Host) :
  Forall2 (fun i g => chrome.find_group i h = Some g) ids gs ->
  map group_id gs = ids.
Proof.
  induction 1 as [|i g ids' gs' F _ IH]; simpl; [reflexivity|].
  destruct (find_group_id i h g F) as [-> _]. now rewrite IH.
Qed.

Lemma mem_perm (x : Z) (l l' : list Z) :
  Permutation l l' -> chrome.mem x l = chrome.mem x l'.
Proof.
  intros P. destruct (chrome.mem x l') eqn:M.
  - apply mem_In. apply mem_In in M. exact (Permutation_in _ (Permutation_sym P) M).
  - destruct (chrome.mem x l) eqn:M'; [|reflexivity].
    apply mem_In in M'. apply (Permutation_in _ P) in M'. apply mem_In in M'. congruence.
Qed.

Section SelectedEffect.
Variable avoidDiscard : Tab -> bool.

Lemma mergeSelectedGroups_effect (targetTitle : option string) (ids : list Z) (h : Host) :
  wellFormed h ->
  (2 <= length ids)%nat ->
  Forall (fun i => chrome.find_group i h <> None) ids ->
  (forall i j gi gj, In i ids -> In j ids ->
     chrome.find_group i h = Some gi -> chrome.find_group j h = Some gj ->
     group_windowId gi = group_windowId gj) ->
  exists gt h',
    In (group_id gt) ids /\
    chrome.find_group (group_id gt) h = Some gt /\
    (forall i, In i ids -> tabCount i h <= tabCount (group_id gt) h) /\
    let finalTitle := JsString.trim (match targetTitle with
                                     | Some t => t
                                     | None => orEmpty (group_title gt)
                                     end) in
    let kc := match stored_keepCollapsed h with Some b => b | None => true end in
    mergeSelectedGroups avoidDiscard targetTitle ids h
      = (Returned (mkSelectedResult true None (Some (group_id gt)) (Some finalTitle)
                                    (Some (Z.of_nat (length ids) - 1))), h') /\
    wellFormed h' /\
    tabs h' = map (fun t => if chrome.mem (tab_groupId t) ids
                               && negb (tab_groupId t =? group_id gt)
                            then chrome.set_group (group_id gt) (group_windowId gt) t
                            else t) (tabs h) /\
    groups h' = filter (fun g => negb (chrome.mem (group_id g) ids
                                       && negb (group_id g =? group_id gt)))
                       (map (fun g => if group_id g =? group_id gt
                                      then chrome.set_props (Some finalTitle) kc g
                                      else g) (groups h)).
Proof.
  intros WF Hlen Hall Hwin.
  destruct (promise_all_get_found ids h Hall) as (gs & E & F).
  pose proof (Forall2_length F) as Lgs.
  pose proof (found_ids ids gs h F) as Eids.
  destruct gs as [|g0 gr]; [simpl in Lgs; lia|].
  set (gs := g0 :: gr) in *.
  assert (Hg0 : In g0 gs) by now left.
  assert (Hsame : forall g, In g gs -> group_windowId g = group_windowId g0).
  { intros g Hg.
    destruct (Forall2_In_right _ _ _ g F Hg) as (i & Hi & Fi).
    destruct (Forall2_In_right _ _ _ g0 F Hg0) as (j & Hj & Fj).
    exact (Hwin i j g g0 Hi Hj Fi Fj). }
  assert (Hne : gs <> []) by discriminate.
  destruct (sortByCount_head gs h Hne) as (target & rest & pre & post & Hs & Egs & Hpre & Hpost).
  pose proof (sortByCount_perm gs h target _ rest Hs) as Perm.
  assert (Ht : In target gs).
  { rewrite Egs. apply in_or_app. right. now left. }
  destruct (Forall2_In_right _ _ _ target F Ht) as (it & Hit & Fit).
  destruct (find_group_id it h target Fit) as [Eit _].
  pose proof (find_group_self h target it Fit) as Fself.
  assert (Lrest : length rest = pred (length ids)).
  { pose proof (js_sort_length (fun a b : Group * Z => snd b - snd a)
                  (map (fun g => (g, tabCount (group_id g) h)) gs)) as L.
    unfold sortByCount in Hs. rewrite Hs, length_map in L.
    unfold gs in L, Lgs. simpl in L, Lgs. lia. }
  set (others := map fst rest) in *.
  set (oids := map group_id others).
  set (title := JsString.trim (match targetTitle with
                               | Some t => t
                               | None => orEmpty (group_title target)
                               end)).
  set (kc := match stored_keepCollapsed h with Some b => b | None => true end).
  set (fm := match stored_fastMerge h with Some b => b | None => true end).
  destruct (update_finds (group_id target) (Some title) kc h target Fself) as [Eu Fu].
  set (h0 := snd (chrome.tabGroups_update (group_id target) (Some title) kc h)) in *.
  pose proof (update_keeps_wellFormed (group_id target) (Some title) kc h WF) as WF0.
  fold h0 in WF0.
  assert (E1 : exists L,
             (if fm
              then try_catch (discardNonActiveTabsInGroup avoidDiscard (group_id target))
              else ret tt) h0 = (Returned tt, logged L h0)).
  { destruct fm.
    - rewrite try_catch_run, discardNonActiveTabsInGroup_run. eexists. reflexivity.
    - exists []. unfold ret. now rewrite logged_nil. }
  destruct E1 as [L E1].
  destruct (mergeGroupSet_tabs avoidDiscard (group_id target) fm oids (logged L h0)
              (chrome.set_props (Some title) kc target) WF0 Fu)
    as (h2 & E2 & WF2 & T2 & G2).
  assert (Hmem : forall x, chrome.mem x oids && negb (x =? group_id target)
                           = chrome.mem x ids && negb (x =? group_id target)).
  { intros x. rewrite <- Eids.
    rewrite <- (mem_perm x _ _ (Permutation_map group_id Perm)).
    unfold chrome.mem. cbn [map existsb]. fold (chrome.mem x oids).
    destruct (x =? group_id target); [now rewrite !andb_false_r|reflexivity]. }
  exists target, h2.
  split; [now rewrite Eit|]. split; [exact Fself|]. split; [|split; [|split; [|split]]].
  - intros i Hi. rewrite <- Eids in Hi. apply in_map_iff in Hi.
    destruct Hi as (g & <- & Hg). rewrite Egs in Hg.
    apply in_app_or in Hg. destruct Hg as [Hg|[<-|Hg]].
    + specialize (Hpre g Hg). lia.
    + lia.
    + exact (Hpost g Hg).
  - unfold mergeSelectedGroups.
    replace (length ids <? 2)%nat with false by (symmetry; apply Nat.ltb_ge; lia).
    unfold bind at 1. rewrite E.
    rewrite (partitionByWindow_one gs (group_windowId g0)); [|discriminate|exact Hsame].
    change (1 <? length [(group_windowId g0, gs)])%nat with false. cbv iota.
    unfold bind at 1. rewrite promise_all_countTabs, Hs.
    unfold bind at 1, chrome.storage_get at 1. cbv beta iota. simpl fst. simpl snd.
    fold title kc fm.
    unfold bind at 1. rewrite Eu.
    unfold bind at 1. rewrite E1.
    unfold bind at 1. fold others oids. rewrite E2. unfold ret.
    unfold others. rewrite !length_map, Lrest. repeat f_equal. lia.
  - exact WF2.
  - rewrite T2. change (tabs (logged L h0)) with (tabs h0).
    unfold h0. rewrite tabGroups_update_tabs. apply map_ext. intros t.
    now rewrite Hmem.
  - rewrite G2. change (groups (logged L h0)) with (groups h0).
    unfold h0. rewrite tabGroups_update_groups. apply filter_ext. intros g.
    now rewrite Hmem.
Qed.

End SelectedEffect.

Lemma mergeSelectedGroups_missing_run (avoid : Tab -> bool) (targetTitle : option string)
      (groupIds : list Z) (h : Host) :
  (2 <= length groupIds)%nat ->
  Exists (fun i => chrome.find_group i h = None) groupIds ->
  exists pre i post,
    groupIds = pre ++ i :: post /\
    Forall (fun j => chrome.find_group j h <> None) pre /\
    chrome.find_group i h = None /\
    mergeSelectedGroups avoid targetTitle groupIds h
    = (Thrown (chrome.noGroupWithId i), h).
Proof.
  intros Hlen Hex. unfold mergeSelectedGroups.
  replace (length groupIds <? 2)%nat with false by (symmetry; apply Nat.ltb_ge; lia).
  destruct (promise_all_get_missing groupIds h Hex) as (pre & i & post & E & Hpre & F & R).
  exists pre, i, post. split; [exact E|]. split; [exact Hpre|]. split; [exact F|].
  unfold bind. now rewrite R.
Qed.

(** X9: [mergeSelectedGroups] called with two or more ids of which one
    names no existing group rejects, with the browser's error for the
    first such id in the list, before anything has been asked of the
    browser: the host, its trace of requests included, is exactly as it
    was. *)
Theorem mergeSelectedGroups_missing_group :
  forall (avoid : Tab -> bool) (targetTitle : option string) (groupIds : list Z)
         (h : Host),
    (2 <= length groupIds)%nat ->
    Exists (fun i => chrome.find_group i h = None) groupIds ->
    exists pre i post,
      groupIds = pre ++ i :: post /\
      Forall (fun j => chrome.find_group j h <> None) pre /\
      chrome.find_group i h = None /\
      mergeSelectedGroups avoid targetTitle groupIds h
      = (Thrown (chrome.noGroupWithId i), h).
Proof.
  intros avoid targetTitle groupIds h Hlen Hex.
  now apply mergeSelectedGroups_missing_run.
Qed.

Lemma mergeSelectedGroups_missing_group_witness :
  (2 <= length [40; 41; 12])%nat /\
  Exists (fun i => chrome.find_group i Sample.host = None) [40; 41; 12] /\
  exists pre i post,
    [40; 41; 12] = pre ++ i :: post /\
    Forall (fun j => chrome.find_group j Sample.host <> None) pre /\
    chrome.find_group i Sample.host = None /\
    mergeSelectedGroups isActive None [40; 41; 12] Sample.host
    = (Thrown (chrome.noGroupWithId i), Sample.host).
Proof.
  assert (Hex : Exists (fun i => chrome.find_group i Sample.host = None) [40; 41; 12]).
  { apply Exists_cons_tl, Exists_cons_hd. reflexivity. }
  split; [simpl; lia|]. split; [exact Hex|].
  apply (mergeSelectedGroups_missing_group isActive None [40; 41; 12] Sample.host).
  - simpl. lia.
  - exact Hex.
Defined.

(** Group 41 does not exist: the selection is refused in the browser's
    words for it. *)
Example missing_group_example :
  mergeSelectedGroups isActive None [40; 41; 12] Sample.host
  = (Thrown "No group with id: 41.", Sample.host).
Proof. reflexivity. Qed.

(** X10: In a well-formed host, [mergeSelectedGroups] called with two or
    more ids of existing groups of one window (repetitions allowed) returns
    success with a target that is one of the selected groups and has at
    least as many tabs as any of them.  Afterwards every tab of a selected
    group belongs to the target and every other tab is untouched; the
    selected groups other than the target are gone; the target carries the
    trimmed final title and the stored collapse setting; every group that
    was not selected is as it was; and the host is still well formed. *)
Theorem mergeSelectedGroups_merges_selection :
  forall (avoid : Tab -> bool) (targetTitle : option string) (groupIds : list Z)
         (h : Host),
    wellFormed h ->
    (2 <= length groupIds)%nat ->
    Forall (fun i => chrome.find_group i h <> None) groupIds ->
    (forall i j gi gj, In i groupIds -> In j groupIds ->
       chrome.find_group i h = Some gi -> chrome.find_group j h = Some gj ->
       group_windowId gi = group_windowId gj) ->
    exists gt h',
      In (group_id gt) groupIds /\
      chrome.find_group (group_id gt) h = Some gt /\
      (forall i, In i groupIds -> tabCount i h <= tabCount (group_id gt) h) /\
      let finalTitle := JsString.trim (match targetTitle with
                                       | Some t => t
                                       | None => orEmpty (group_title gt)
                                       end) in
      let kc := match stored_keepCollapsed h with Some b => b | None => true end in
      mergeSelectedGroups avoid targetTitle groupIds h
        = (Returned (mkSelectedResult true None (Some (group_id gt)) (Some finalTitle)
                                      (Some (Z.of_nat (length groupIds) - 1))), h') /\
      wellFormed h' /\
      tabs h' = map (fun t => if chrome.mem (tab_groupId t) groupIds
                                 && negb (tab_groupId t =? group_id gt)
                              then chrome.set_group (group_id gt) (group_windowId gt) t
                              else t) (tabs h) /\
      groups h' = filter (fun g => negb (chrome.mem (group_id g) groupIds
                                         && negb (group_id g =? group_id gt)))
                         (map (fun g => if group_id g =? group_id gt
                                        then chrome.set_props (Some finalTitle) kc g
                                        else g) (groups h)).
Proof.
  intros avoid targetTitle groupIds h WF Hlen Hall Hwin.
  exact (mergeSelectedGroups_effect avoid targetTitle groupIds h WF Hlen Hall Hwin).
Qed.

Lemma mergeSelectedGroups_merges_selection_witness :
  wellFormed Sample.host /\
  (2 <= length [40; 12; 40])%nat /\
  Forall (fun i => chrome.find_group i Sample.host <> None) [40; 12; 40] /\
  (forall i j gi gj, In i [40; 12; 40] -> In j [40; 12; 40] ->
     chrome.find_group i Sample.host = Some gi ->
     chrome.find_group j Sample.host = Some gj ->
     group_windowId gi = group_windowId gj) /\
  exists gt h',
    In (group_id gt) [40; 12; 40] /\
    chrome.find_group (group_id gt) Sample.host = Some gt /\
    (forall i, In i [40; 12; 40] -> tabCount i Sample.host <= tabCount (group_id gt) Sample.host) /\
    let finalTitle := JsString.trim (match Some " Jobs "%string with
                                     | Some t => t
                                     | None => orEmpty (group_title gt)
                                     end) in
    let kc := match stored_keepCollapsed Sample.host with Some b => b | None => true end in
    mergeSelectedGroups isActive (Some " Jobs "%string) [40; 12; 40] Sample.host
      = (Returned (mkSelectedResult true None (Some (group_id gt)) (Some finalTitle)
                                    (Some (Z.of_nat (length [40; 12; 40]) - 1))), h') /\
    wellFormed h' /\
    tabs h' = map (fun t => if chrome.mem (tab_groupId t) [40; 12; 40]
                               && negb (tab_groupId t =? group_id gt)
                            then chrome.set_group (group_id gt) (group_windowId gt) t
                            else t) (tabs Sample.host) /\
    groups h' = filter (fun g => negb (chrome.mem (group_id g) [40; 12; 40]
                                       && negb (group_id g =? group_id gt)))
                       (map (fun g => if group_id g =? group_id gt
                                      then chrome.set_props (Some finalTitle) kc g
                                      else g) (groups Sample.host)).
Proof.
  assert (H1 : (2 <= length [40; 12; 40])%nat) by (simpl; lia).
  assert (H2 : Forall (fun i => chrome.find_group i Sample.host <> None) [40; 12; 40])
    by (repeat constructor; discriminate).
  assert (H3 : forall i j gi gj, In i [40; 12; 40] -> In j [40; 12; 40] ->
             chrome.find_group i Sample.host = Some gi ->
             chrome.find_group j Sample.host = Some gj ->
             group_windowId gi = group_windowId gj).
  { intros i j gi gj [<-|[<-|[<-|[]]]] [<-|[<-|[<-|[]]]] Ei Ej;
      vm_compute in Ei; vm_compute in Ej; inversion Ei; inversion Ej; reflexivity. }
  split; [exact sample_host_wellFormed|].
  split; [exact H1|]. split; [exact H2|]. split; [exact H3|].
  exact (mergeSelectedGroups_merges_selection isActive (Some " Jobs "%string) [40; 12; 40]
           Sample.host sample_host_wellFormed H1 H2 H3).
Defined.

(** Groups 40 and 12 selected, 40 named twice, with the title " Jobs ":
    group 40 keeps its three tabs and gains tab 4, and is titled "Jobs". *)
Example merge_selection_example :
  let r := mergeSelectedGroups isActive (Some " Jobs "%string) [40; 12; 40] Sample.host in
  fst r = Returned (mkSelectedResult true None (Some 40) (Some "Jobs"%string) (Some 2)) /\
  map tab_id (tabsOf 40 (snd r)) = [1; 2; 3; 4] /\
  map (fun g => (group_id g, group_title g)) (groups (snd r))
    = [(40, Some "Jobs"%string); (77, Some "Work "%string); (5, Some EmptyString);
       (6, Some "  "%string); (7, None)].
Proof. vm_compute. repeat split. Qed.

(** ** Moving one tab at once *)

Lemma title_or_empty_key (g : Group) (cs : bool) :
  normalizeTitle (Some (orEmpty (group_title g))) cs = keyOf cs g.
Proof. unfold keyOf, normalizeTitle. now destruct (group_title g). Qed.

Lemma smallestId_unique (gs : list Group) (i j : Z) :
  smallestId gs i -> smallestId gs j -> i = j.
Proof.
  intros [Hi Fi] [Hj Fj]. rewrite Forall_forall in Fi, Fj.
  apply in_map_iff in Hi. destruct Hi as (gi & <- & Hgi).
  apply in_map_iff in Hj. destruct Hj as (gj & <- & Hgj).
  specialize (Fi gj Hgj). specialize (Fj gi Hgi). lia.
Qed.

(** What [findDuplicateTargetGroup] answers for the title of a group. *)
Lemma findDuplicateTargetGroup_of_group (w : Z) (g : Group) (cs iu : bool) (h : Host) :
  exists r,
    findDuplicateTargetGroup w (Some (orEmpty (group_title g))) cs iu h = (Returned r, h) /\
    match r with
    | Some i => includedKey iu (keyOf cs g) = true /\
                (2 <= length (classGroups cs (w, keyOf cs g) h))%nat /\
                smallestId (classGroups cs (w, keyOf cs g) h) i
    | None => includedKey iu (keyOf cs g) = false \/
              (length (classGroups cs (w, keyOf cs g) h) < 2)%nat
    end.
Proof.
  pose proof (findDuplicateTargetGroup_run w (Some (orEmpty (group_title g))) cs iu h) as R.
  cbv zeta in R. rewrite title_or_empty_key, classGroups_as_listing in R.
  destruct R as (r & E & Hr). exists r. split; [exact E|].
  destruct r as [i|].
  - destruct Hr as [Big Hs]. split; [|split; assumption].
    unfold findDuplicateTargetGroup in E. rewrite title_or_empty_key in E.
    unfold includedKey. destruct (negb iu && String.eqb (keyOf cs g) EmptyString);
      [discriminate|reflexivity].
  - destruct Hr as [Small|[-> Ek]]; [now right|]. left. unfold includedKey.
    rewrite Ek. reflexivity.
Qed.

Lemma moveTab_run (tab : Tab) (cs iu : bool) (h : Host) :
  moveTabToDuplicateTargetIfAny tab cs iu h
  = (Returned tt,
     if tab_groupId tab <? 0 then h
     else match chrome.find_group (tab_groupId tab) h with
          | Some g =>
              match fst (findDuplicateTargetGroup (tab_windowId tab)
                           (Some (orEmpty (group_title g))) cs iu h) with
              | Returned (Some i) =>
                  if negb (i =? 0) && negb (i =? group_id g)
                  then snd (chrome.tabs_group [tab_id tab] i h)
                  else h
              | _ => h
              end
          | None => h
          end).
Proof.
  unfold moveTabToDuplicateTargetIfAny. rewrite try_catch_run. f_equal.
  destruct (tab_groupId tab <? 0); [reflexivity|].
  unfold bind at 1, chrome.tabGroups_get at 1.
  destruct (chrome.find_group (tab_groupId tab) h) as [g|]; [|reflexivity].
  destruct (findDuplicateTargetGroup_of_group (tab_windowId tab) g cs iu h)
    as (r & E & _).
  unfold bind. rewrite E. cbn [fst]. destruct r as [i|]; [|reflexivity].
  destruct (negb (i =? 0) && negb (i =? group_id g)); [|reflexivity].
  now rewrite try_catch_run.
Qed.

Lemma moveTab_when_target (tab : Tab) (cs iu : bool) (h : Host) (g : Group) (i : Z) :
  hasDuplicateTarget tab cs iu h g i ->
  moveTabToDuplicateTargetIfAny tab cs iu h
  = (Returned tt, snd (chrome.tabs_group [tab_id tab] i h)).
Proof.
  intros (Pos & Fg & Hi & Big & Hs & N0 & Ng). rewrite moveTab_run. f_equal.
  replace (tab_groupId tab <? 0) with false by (symmetry; apply Z.ltb_ge; lia).
  rewrite Fg.
  destruct (findDuplicateTargetGroup_of_group (tab_windowId tab) g cs iu h)
    as (r & E & Hr).
  rewrite E. cbn [fst]. destruct r as [j|].
  - destruct Hr as (_ & _ & Hs'). rewrite (smallestId_unique _ _ _ Hs' Hs).
    replace (i =? 0) with false by (symmetry; now apply Z.eqb_neq).
    replace (i =? group_id g) with false by (symmetry; now apply Z.eqb_neq).
    reflexivity.
  - destruct Hr as [Hr|Hr]; [congruence|lia].
Qed.

Lemma moveTab_without_target (tab : Tab) (cs iu : bool) (h : Host) :
  (~ exists g i, hasDuplicateTarget tab cs iu h g i) ->
  moveTabToDuplicateTargetIfAny tab cs iu h = (Returned tt, h).
Proof.
  intros Hno. rewrite moveTab_run. f_equal.
  destruct (Z.ltb_spec (tab_groupId tab) 0) as [Neg|Pos]; [reflexivity|].
  destruct (chrome.find_group (tab_groupId tab) h) as [g|] eqn:Fg; [|reflexivity].
  destruct (findDuplicateTargetGroup_of_group (tab_windowId tab) g cs iu h)
    as (r & E & Hr).
  rewrite E. cbn [fst]. destruct r as [i|]; [|reflexivity].
  destruct Hr as (Hi & Big & Hs).
  destruct (Z.eqb_spec i 0) as [Z0|N0]; [reflexivity|].
  destruct (Z.eqb_spec i (group_id g)) as [Eg|Ng]; [reflexivity|].
  exfalso. apply Hno. exists g, i.
  exact (conj Pos (conj Fg (conj Hi (conj Big (conj Hs (conj N0 Ng)))))).
Qed.

(** One tab moved into an existing group. *)
Lemma move_one_tab (tabId i : Z) (h : Host) (gi : Group) :
  chrome.find_group i h = Some gi ->
  In tabId (map tab_id (tabs h)) ->
  let h' := snd (chrome.tabs_group [tabId] i h) in
  tabs h' = map (fun t => if tab_id t =? tabId
                          then chrome.set_group i (group_windowId gi) t else t) (tabs h) /\
  groups h' = filter (chrome.has_tabs (tabs h')) (groups h).
Proof.
  intros F Hin. unfold chrome.tabs_group. rewrite F. cbn [find].
  replace (chrome.mem tabId (map tab_id (tabs h))) with true
    by (symmetry; now apply mem_In).
  cbn [negb snd with_groups with_tabs tabs groups issue].
  assert (E : map (fun t => if chrome.mem (tab_id t) [tabId]
                            then chrome.set_group i (group_windowId gi) t else t) (tabs h)
              = map (fun t => if tab_id t =? tabId
                              then chrome.set_group i (group_windowId gi) t else t)
                    (tabs h)).
  { apply map_ext. intros t. unfold chrome.mem. cbn [existsb].
    now rewrite orb_false_r. }
  rewrite E. split; reflexivity.
Qed.

(** X11: [moveTabToDuplicateTargetIfAny] never rejects and asks at most one
    thing of the browser: to move this one tab.  It does so exactly when
    the tab's snapshot names a group (id not negative) that still exists,
    the key of that group's title takes part, two or more groups of the
    tab's window share the key, and the one with the smallest id is neither
    the tab's group nor has id 0; the move then goes into that group.
    Otherwise the host is exactly as it was. *)
Theorem moveTabToDuplicateTargetIfAny_moves_this_tab_only :
  forall (tab : Tab) (cs iu : bool) (h : Host),
    exists h',
      moveTabToDuplicateTargetIfAny tab cs iu h = (Returned tt, h') /\
      ((exists g i,
          hasDuplicateTarget tab cs iu h g i /\
          h' = snd (chrome.tabs_group [tab_id tab] i h) /\
          requests h' = requests h ++ [ReqMove [tab_id tab] i])
       \/
       (h' = h /\ ~ exists g i, hasDuplicateTarget tab cs iu h g i)).
Proof.
  intros tab cs iu h.
  assert (Dec : (exists g i, hasDuplicateTarget tab cs iu h g i) \/
                ~ (exists g i, hasDuplicateTarget tab cs iu h g i)).
  { destruct (Z.ltb_spec (tab_groupId tab) 0) as [Neg|Pos].
    { right. intros (g & i & H0 & _). lia. }
    destruct (chrome.find_group (tab_groupId tab) h) as [g|] eqn:Fg.
    2: { right. intros (g & i & _ & F & _). congruence. }
    destruct (findDuplicateTargetGroup_of_group (tab_windowId tab) g cs iu h)
      as ([i|] & _ & Hr).
    - destruct Hr as (Hi & Big & Hs).
      destruct (Z.eq_dec i 0) as [Z0|N0].
      { right. intros (g' & j & _ & F' & _ & _ & Hs' & Nj & _).
        assert (g' = g) by congruence. subst g'.
        apply Nj. rewrite <- Z0. exact (smallestId_unique _ _ _ Hs' Hs). }
      destruct (Z.eq_dec i (group_id g)) as [Eg|Ng].
      { right. intros (g' & j & _ & F' & _ & _ & Hs' & _ & Nj).
        assert (g' = g) by congruence. subst g'.
        apply Nj. rewrite <- Eg. exact (smallestId_unique _ _ _ Hs' Hs). }
      left. exists g, i.
      exact (conj Pos (conj Fg (conj Hi (conj Big (conj Hs (conj N0 Ng)))))).
    - right. intros (g' & j & _ & F' & Hi & Big & _).
      assert (g' = g) by congruence. subst g'.
      destruct Hr as [Hr|Hr]; [congruence|lia]. }
  destruct Dec as [(g & i & Ht)|Hno].
  - exists (snd (chrome.tabs_group [tab_id tab] i h)).
    split; [now apply (moveTab_when_target tab cs iu h g i)|].
    left. exists g, i. split; [exact Ht|]. split; [reflexivity|].
    apply tabs_group_requests.
  - exists h. split; [now apply moveTab_without_target|]. right. now split.
Qed.

(** X12: When [moveTabToDuplicateTargetIfAny] has a target for a tab the
    host has (group ids being unique), the tab afterwards belongs to the
    group with the smallest id among the groups of its window that share
    its group's key; no other tab changes; a group stays exactly when it
    still has a tab; and the only request made is that move. *)
Theorem moveTabToDuplicateTargetIfAny_joins_smallest :
  forall (tab : Tab) (cs iu : bool) (h : Host) (g : Group) (i : Z),
    uniqueGroups h ->
    In (tab_id tab) (map tab_id (tabs h)) ->
    hasDuplicateTarget tab cs iu h g i ->
    exists h',
      moveTabToDuplicateTargetIfAny tab cs iu h = (Returned tt, h') /\
      tabs h' = map (fun t => if tab_id t =? tab_id tab
                              then chrome.set_group i (tab_windowId tab) t
                              else t) (tabs h) /\
      groups h' = filter (chrome.has_tabs (tabs h')) (groups h) /\
      requests h' = requests h ++ [ReqMove [tab_id tab] i].
Proof.
  intros tab cs iu h g i UG Hid Ht.
  exists (snd (chrome.tabs_group [tab_id tab] i h)).
  split; [now apply (moveTab_when_target tab cs iu h g i)|].
  destruct Ht as (_ & _ & _ & _ & [Hin _] & _ & _).
  apply in_map_iff in Hin. destruct Hin as (gi & Ei & Hgi).
  apply filter_In in Hgi. destruct Hgi as [Hgi Hc]. apply inClass_iff in Hc.
  assert (Ew : group_windowId gi = tab_windowId tab) by congruence.
  assert (Fi : chrome.find_group i h = Some gi).
  { destruct (proj1 (exists_group_iff i h)) as [g' F'].
    { rewrite <- Ei. now apply in_map. }
    destruct (find_group_id _ _ _ F') as [Eg' Hg'].
    assert (g' = gi).
    { apply (unique_group_by_id (groups h)); auto. congruence. }
    now subst g'. }
  destruct (move_one_tab (tab_id tab) i h gi Fi Hid) as [T G].
  rewrite Ew in T. split; [exact T|]. split; [exact G|apply tabs_group_requests].
Qed.

Lemma sample_tab_has_target :
  hasDuplicateTarget (Sample.tab 1 40 true "https://a.example/") false false
                     Sample.host Sample.g40 12.
Proof.
  unfold hasDuplicateTarget.
  change (classGroups false
            (tab_windowId (Sample.tab 1 40 true "https://a.example/"),
             keyOf false Sample.g40) Sample.host)
    with [Sample.g40; Sample.g12; Sample.g77].
  split; [simpl; lia|]. split; [reflexivity|]. split; [reflexivity|].
  split; [simpl; lia|]. split; [|split; [lia|simpl; lia]].
  split; [simpl; auto|]. repeat constructor; simpl; lia.
Qed.

Lemma moveTabToDuplicateTargetIfAny_joins_smallest_witness :
  uniqueGroups Sample.host /\
  In (tab_id (Sample.tab 1 40 true "https://a.example/")) (map tab_id (tabs Sample.host)) /\
  hasDuplicateTarget (Sample.tab 1 40 true "https://a.example/") false false
                     Sample.host Sample.g40 12 /\
  exists h',
    moveTabToDuplicateTargetIfAny (Sample.tab 1 40 true "https://a.example/") false false
                                  Sample.host = (Returned tt, h') /\
    tabs h' = map (fun t => if tab_id t =? tab_id (Sample.tab 1 40 true "https://a.example/")
                            then chrome.set_group 12
                                   (tab_windowId (Sample.tab 1 40 true "https://a.example/")) t
                            else t) (tabs Sample.host) /\
    groups h' = filter (chrome.has_tabs (tabs h')) (groups Sample.host) /\
    requests h' = requests Sample.host
                  ++ [ReqMove [tab_id (Sample.tab 1 40 true "https://a.example/")] 12].
Proof.
  assert (H1 : uniqueGroups Sample.host) by apply sample_host_wellFormed.
  assert (H2 : In (tab_id (Sample.tab 1 40 true "https://a.example/"))
                  (map tab_id (tabs Sample.host))) by (simpl; auto).
  split; [exact H1|]. split; [exact H2|]. split; [exact sample_tab_has_target|].
  exact (moveTabToDuplicateTargetIfAny_joins_smallest
           (Sample.tab 1 40 true "https://a.example/") false false Sample.host
           Sample.g40 12 H1 H2 sample_tab_has_target).
Defined.

(** Tab 1 of group 40 ("Work") goes to group 12 ("work"), the smallest id
    of the three groups sharing the key; a tab of group 12 stays. *)
Example move_one_tab_example :
  requests (snd (moveTabToDuplicateTargetIfAny
                   (Sample.tab 1 40 true "https://a.example/") false false Sample.host))
    = [ReqMove [1] 12] /\
  map tab_id (tabsOf 12 (snd (moveTabToDuplicateTargetIfAny
                                (Sample.tab 1 40 true "https://a.example/") false false
                                Sample.host))) = [1; 4] /\
  snd (moveTabToDuplicateTargetIfAny
         (Sample.tab 4 12 false "https://c.example/") false false Sample.host)
    = Sample.host.
Proof. vm_compute. repeat split. Qed.

(** ** The tab listeners of src/background.js *)

Lemma moveToRecordedTarget_run (dt : Z -> option (list (string * (Z * list Z))))
      (cs : bool) (tabId : Z) (tab : Tab) (h : Host) :
  moveToRecordedTarget dt cs tabId tab h
  = (Returned tt,
     if 0 <=? tab_groupId tab
     then match dt (tab_windowId tab) with
          | Some st =>
              match chrome.find_group (tab_groupId tab) h with
              | Some g =>
                  match index_get (keyOf cs g) st with
                  | Some e =>
                      if negb (fst e =? 0) && negb (fst e =? group_id g)
                      then snd (chrome.tabs_group [tabId] (fst e) h)
                      else h
                  | None => h
                  end
              | None => h
              end
          | None => h
          end
     else h).
Proof.
  unfold moveToRecordedTarget.
  destruct (0 <=? tab_groupId tab); [|reflexivity].
  destruct (dt (tab_windowId tab)) as [st|]; [|reflexivity].
  rewrite try_catch_run. f_equal.
  unfold bind, chrome.tabGroups_get.
  destruct (chrome.find_group (tab_groupId tab) h) as [g|]; [|reflexivity].
  fold (keyOf cs g).
  destruct (index_get (keyOf cs g) st) as [e|]; [|reflexivity].
  destruct (negb (fst e =? 0) && negb (fst e =? group_id g)); [|reflexivity].
  now rewrite try_catch_run.
Qed.

Lemma moveToRecordedTarget_cases (dt : Z -> option (list (string * (Z * list Z))))
      (cs : bool) (tabId : Z) (tab : Tab) (h : Host) :
  (exists g target,
      hasRecordedTarget dt cs tab h g target /\
      moveToRecordedTarget dt cs tabId tab h
      = (Returned tt, snd (chrome.tabs_group [tabId] target h)))
  \/
  ((~ exists g target, hasRecordedTarget dt cs tab h g target) /\
   moveToRecordedTarget dt cs tabId tab h = (Returned tt, h)).
Proof.
  rewrite moveToRecordedTarget_run.
  destruct (Z.leb_spec 0 (tab_groupId tab)) as [Pos|Neg].
  2: { right. split; [|reflexivity]. intros (g & t & H0 & _). lia. }
  destruct (dt (tab_windowId tab)) as [st|] eqn:Est.
  2: { right. split; [|reflexivity].
       intros (g & t & _ & st & os & E & _). congruence. }
  destruct (chrome.find_group (tab_groupId tab) h) as [g|] eqn:Fg.
  2: { right. split; [|reflexivity].
       intros (g & t & _ & st' & os & _ & F & _). congruence. }
  destruct (index_get (keyOf cs g) st) as [[target others]|] eqn:Ei.
  2: { right. split; [|reflexivity].
       intros (g' & t & _ & st' & os & E & F & I & _).
       assert (g' = g) by congruence. subst g'.
       assert (st' = st) by congruence. subst st'. congruence. }
  cbn [fst].
  destruct (Z.eqb_spec target 0) as [Z0|N0]; cbn [negb andb].
  { right. split; [|reflexivity].
    intros (g' & t & _ & st' & os & E & F & I & Nt & _).
    assert (g' = g) by congruence. subst g'.
    assert (st' = st) by congruence. subst st'. congruence. }
  destruct (Z.eqb_spec target (group_id g)) as [Eg|Ng]; cbn [negb].
  { right. split; [|reflexivity].
    intros (g' & t & _ & st' & os & E & F & I & _ & Nt).
    assert (g' = g) by congruence. subst g'.
    assert (st' = st) by congruence. subst st'. congruence. }
  left. exists g, target. split; [|reflexivity].
  split; [exact Pos|]. exists st, others. auto.
Qed.

(** What both listeners ask of the browser once they act on a tab. *)
Lemma discard_then_redirect (dt : Z -> option (list (string * (Z * list Z))))
      (cs : bool) (tabId : Z) (tab : Tab) (h : Host) :
  exists h' l,
    (try_catch (chrome.tabs_discard tabId) ;;;
     moveToRecordedTarget dt cs tabId tab) h = (Returned tt, h') /\
    requests h' = requests h ++ ReqDiscard tabId :: l /\
    ((exists g target,
         hasRecordedTarget dt cs tab h g target /\ l = [ReqMove [tabId] target])
     \/ (l = [] /\ ~ exists g target, hasRecordedTarget dt cs tab h g target)) /\
    map tab_id (tabs h') = map tab_id (tabs h).
Proof.
  unfold bind. rewrite try_catch_run, tabs_discard_snd.
  set (h1 := issue (ReqDiscard tabId) h).
  assert (Same : forall g t, hasRecordedTarget dt cs tab h1 g t
                             <-> hasRecordedTarget dt cs tab h g t) by (intros; reflexivity).
  destruct (moveToRecordedTarget_cases dt cs tabId tab h1)
    as [(g & target & Ht & E)|[Hno E]]; rewrite E.
  - exists (snd (chrome.tabs_group [tabId] target h1)), [ReqMove [tabId] target].
    split; [reflexivity|]. split; [|split].
    + rewrite tabs_group_requests. unfold h1. simpl. now rewrite <- app_assoc.
    + left. exists g, target. split; [now apply Same|reflexivity].
    + now rewrite tabs_group_ids.
  - exists h1, []. split; [reflexivity|]. split; [reflexivity|]. split; [|reflexivity].
    right. split; [reflexivity|]. intros (g & t & Ht). apply Hno.
    exists g, t. now apply Same.
Qed.

(** X13: The tab listeners that src/background.js attaches when
    [fastMerge] is on never touch an active tab.  For any other tab (the
    update listener only when the tab has just joined a group or started
    loading) they return having asked first for this tab to be discarded,
    whatever its URL, and then for at most one move: of this tab, into the
    target that the index last stored for the tab's window records under
    the key of the tab's group, when that target is neither 0 nor the
    tab's own group.  The host keeps the very tabs it had. *)
Theorem tab_listeners_discard_and_redirect_one_tab :
  forall (duplicateTargets : Z -> option (list (string * (Z * list Z))))
         (cs : bool) (tabId : Z) (changeInfo : ChangeInfo) (tab : Tab) (h : Host),
    (if tab_active tab
     then tabCreatedHandler duplicateTargets cs tab h = (Returned tt, h)
     else exists h' l,
         tabCreatedHandler duplicateTargets cs tab h = (Returned tt, h') /\
         requests h' = requests h ++ ReqDiscard (tab_id tab) :: l /\
         ((exists g target,
              hasRecordedTarget duplicateTargets cs tab h g target /\
              l = [ReqMove [tab_id tab] target])
          \/ (l = [] /\
              ~ exists g target, hasRecordedTarget duplicateTargets cs tab h g target)) /\
         map tab_id (tabs h') = map tab_id (tabs h)) /\
    (if ((match change_groupId changeInfo with Some g => 0 <=? g | None => false end)
         || (match change_status changeInfo with
             | Some s => String.eqb s "loading"
             | None => false
             end))
        && negb (tab_active tab)
     then exists h' l,
         tabUpdatedHandler duplicateTargets cs tabId changeInfo tab h = (Returned tt, h') /\
         requests h' = requests h ++ ReqDiscard tabId :: l /\
         ((exists g target,
              hasRecordedTarget duplicateTargets cs tab h g target /\
              l = [ReqMove [tabId] target])
          \/ (l = [] /\
              ~ exists g target, hasRecordedTarget duplicateTargets cs tab h g target)) /\
         map tab_id (tabs h') = map tab_id (tabs h)
     else tabUpdatedHandler duplicateTargets cs tabId changeInfo tab h = (Returned tt, h)).
Proof.
  intros dt cs tabId changeInfo tab h. split.
  - unfold tabCreatedHandler. destruct (tab_active tab); [reflexivity|].
    apply discard_then_redirect.
  - unfold tabUpdatedHandler.
    destruct (((match change_groupId changeInfo with Some g => 0 <=? g | None => false end)
               || (match change_status changeInfo with
                   | Some s => String.eqb s "loading"
                   | None => false
                   end))
              && negb (tab_active tab)); [|reflexivity].
    apply discard_then_redirect.
Qed.

(** X14: The move into a recorded target either happens in full or not at
    all.  When the recorded target still exists and the browser still has
    the tab, the tab afterwards belongs to the target, every other tab is
    as it was and a group stays exactly when it still has a tab; when the
    index is stale (the target has vanished) or the tab is gone, the
    browser rejects the move, the rejection is swallowed, and no group and
    no tab has changed; and without a recorded target the host is exactly
    as it was. *)
Theorem moveToRecordedTarget_all_or_nothing :
  forall (duplicateTargets : Z -> option (list (string * (Z * list Z))))
         (cs : bool) (tabId : Z) (tab : Tab) (h : Host),
    exists h',
      moveToRecordedTarget duplicateTargets cs tabId tab h = (Returned tt, h') /\
      ((exists g target,
           hasRecordedTarget duplicateTargets cs tab h g target /\
           match chrome.find_group target h with
           | Some gt =>
               if chrome.mem tabId (map tab_id (tabs h))
               then tabs h' = map (fun t => if tab_id t =? tabId
                                            then chrome.set_group target (group_windowId gt) t
                                            else t) (tabs h) /\
                    groups h' = filter (chrome.has_tabs (tabs h')) (groups h)
               else groups h' = groups h /\ tabs h' = tabs h
           | None => groups h' = groups h /\ tabs h' = tabs h
           end)
       \/
       ((~ exists g target, hasRecordedTarget duplicateTargets cs tab h g target) /\
        h' = h)).
Proof.
  intros dt cs tabId tab h.
  destruct (moveToRecordedTarget_cases dt cs tabId tab h)
    as [(g & target & Ht & E)|[Hno E]].
  - exists (snd (chrome.tabs_group [tabId] target h)). split; [exact E|].
    left. exists g, target. split; [exact Ht|].
    destruct (chrome.find_group target h) as [gt|] eqn:Ft.
    + destruct (chrome.mem tabId (map tab_id (tabs h))) eqn:M.
      * apply mem_In in M. exact (move_one_tab tabId target h gt Ft M).
      * apply (rejected_move_changes_nothing [tabId] target h (chrome.noTabWithId tabId)).
        unfold chrome.tabs_group. rewrite Ft. cbn [find]. now rewrite M.
    + apply (rejected_move_changes_nothing [tabId] target h (chrome.noGroupWithId target)).
      unfold chrome.tabs_group. now rewrite Ft.
  - exists h. split; [exact E|]. right. now split.
Qed.

Section RedirectAfterRecompute.
Variable avoidDiscard : Tab -> bool.

(** An entry of the returned index stands for a class that the recompute
    has reduced to its target. *)
Lemma recompute_index_entry (w : Z) (st : Settings) (h : Host) :
  wellFormed h ->
  exists idx h1,
    recomputeAndDrainDuplicates avoidDiscard w st h = (Returned idx, h1) /\
    forall k e, index_get k idx = Some e ->
      exists target others,
        e = (group_id target, map group_id others) /\
        classGroups (caseSensitive st) (w, k) h1
        = [chrome.set_props (group_title target) (keepCollapsed st) target].
Proof.
  intros WF.
  destruct (recomputeAndDrainDuplicates_effect avoidDiscard w st h WF)
    as (rs & h1 & E & _ & Q).
  set (cs := caseSensitive st) in *. set (iu := includeUnnamed st) in *.
  set (buckets := buildBuckets cs iu (filter (fun g => group_windowId g =? w) (groups h)))
    in *.
  exists (concat rs), h1. split; [exact E|]. intros k e He.
  rewrite (recomputed_entries st w h1 buckets rs Q) in He.
  destruct (index_get_entries buckets k) as [Hget Hnone].
  { apply (buildBuckets_spec cs iu). }
  destruct (in_dec string_dec k (map fst buckets)) as [Hk|Hk].
  2: { rewrite (Hnone Hk) in He. discriminate. }
  apply in_map_iff in Hk. destruct Hk as ([k' b] & Ek & Hin). simpl in Ek. subst k'.
  rewrite (Hget b Hin) in He.
  destruct (Forall2_In_left _ _ _ _ Q Hin) as (res & _ & [_ Hq]).
  simpl in Hq.
  assert (Big : (2 <= length b)%nat).
  { unfold indexEntry in He. destruct b as [|g1 [|g2 r]]; try discriminate.
    simpl. lia. }
  destruct (Hq Big) as (target & others & Hs & Hcl).
  exists target, others. split; [|exact Hcl].
  unfold indexEntry in He. destruct b as [|g1 [|g2 r]]; try discriminate.
  rewrite Hs in He. simpl in He. congruence.
Qed.

End RedirectAfterRecompute.

(** X15: Right after a recompute the redirect has nothing to do.  In a
    well-formed host, let [recomputeAndDrainDuplicates] store its index
    for a window; then on the host it leaves, for any tab snapshot of that
    window whose group exists and lies in that window, looking the group up
    in that index moves nothing and leaves the host exactly as it is: every
    key the index records is by then held by the recorded target alone. *)
Theorem redirect_idle_after_recompute :
  forall (avoid : Tab -> bool) (w : Z) (st : Settings) (h : Host),
    wellFormed h ->
    exists idx h1,
      recomputeAndDrainDuplicates avoid w st h = (Returned idx, h1) /\
      forall (duplicateTargets : Z -> option (list (string * (Z * list Z))))
             (tabId : Z) (tab : Tab) (g : Group),
        duplicateTargets w = Some idx ->
        tab_windowId tab = w ->
        chrome.find_group (tab_groupId tab) h1 = Some g ->
        group_windowId g = w ->
        moveToRecordedTarget duplicateTargets (caseSensitive st) tabId tab h1
        = (Returned tt, h1).
Proof.
  intros avoid w st h WF.
  destruct (recompute_index_entry avoid w st h WF) as (idx & h1 & E & Hidx).
  exists idx, h1. split; [exact E|].
  intros dt tabId tab g Hdt Hw Fg Hgw.
  rewrite moveToRecordedTarget_run. f_equal.
  destruct (0 <=? tab_groupId tab); [|reflexivity].
  rewrite Hw, Hdt, Fg.
  destruct (index_get (keyOf (caseSensitive st) g) idx) as [e|] eqn:Ei; [|reflexivity].
  destruct (Hidx _ _ Ei) as (target & others & -> & Hcl). cbn [fst].
  assert (Hg : In g (classGroups (caseSensitive st) (w, keyOf (caseSensitive st) g) h1)).
  { apply filter_In. split; [apply (find_group_id _ _ _ Fg)|].
    apply inClass_iff. now rewrite Hgw. }
  rewrite Hcl in Hg. destruct Hg as [<-|[]]. cbn [group_id chrome.set_props].
  now rewrite Z.eqb_refl, andb_false_r.
Qed.

Lemma redirect_idle_after_recompute_witness :
  wellFormed Sample.host /\
  exists idx h1,
    recomputeAndDrainDuplicates isActive 1 Sample.settings Sample.host
      = (Returned idx, h1) /\
    forall (duplicateTargets : Z -> option (list (string * (Z * list Z))))
           (tabId : Z) (tab : Tab) (g : Group),
      duplicateTargets 1 = Some idx ->
      tab_windowId tab = 1 ->
      chrome.find_group (tab_groupId tab) h1 = Some g ->
      group_windowId g = 1 ->
      moveToRecordedTarget duplicateTargets (caseSensitive Sample.settings) tabId tab h1
      = (Returned tt, h1).
Proof.
  split; [exact sample_host_wellFormed|].
  exact (redirect_idle_after_recompute isActive 1 Sample.settings Sample.host
           sample_host_wellFormed).
Defined.

(** A tab created in a new group "WORK" after the index of the sample
    window was stored: the listener discards it and moves it into group 12;
    with a stale index naming the vanished group 99 the move is rejected
    and no tab changes group. *)
Example redirect_example :
  let fresh := mkTab 20 95 1 false (Some "https://z.example/"%string) None in
  let h := mkHost (groups Sample.host ++ [mkGroup 95 (Some "WORK"%string) 1 false])
                  (tabs Sample.host ++ [fresh]) 1 None None [] in
  let recorded := fun w : Z => if w =? 1 then Some [("work"%string, (12, [40; 77]))]
                               else None in
  let stale := fun w : Z => if w =? 1 then Some [("work"%string, (99, [40; 77]))]
                            else None in
  requests (snd (tabCreatedHandler recorded false fresh h))
    = [ReqDiscard 20; ReqMove [20] 12] /\
  map tab_id (tabsOf 12 (snd (tabCreatedHandler recorded false fresh h))) = [4; 20] /\
  requests (snd (tabCreatedHandler stale false fresh h))
    = [ReqDiscard 20; ReqMove [20] 99] /\
  tabs (snd (tabCreatedHandler stale false fresh h)) = tabs h /\
  groups (snd (tabCreatedHandler stale false fresh h)) = groups h.
Proof. vm_compute. repeat split. Qed.

(** ** Stored settings, the router and the shortcut *)

Lemma obj_get_set (k k' : string) (v : JsValue) (o : JsObject) :
  obj_get k (obj_set k' v o) = if String.eqb k k' then Some v else obj_get k o.
Proof.
  induction o as [|[k1 v1] r IH]; simpl; [reflexivity|].
  destruct (String.eqb_spec k' k1) as [->|N]; simpl.
  - now destruct (String.eqb k k1).
  - rewrite IH. destruct (String.eqb_spec k k1) as [->|N1]; [|reflexivity].
    destruct (String.eqb_spec k1 k'); [congruence|reflexivity].
Qed.

Lemma obj_set_keys (k : string) (v : JsValue) (o : JsObject) :
  obj_keys (obj_set k v o)
  = if existsb (String.eqb k) (obj_keys o) then obj_keys o else obj_keys o ++ [k].
Proof.
  unfold obj_keys. induction o as [|[k1 v1] r IH]; simpl; [reflexivity|].
  destruct (String.eqb k k1); simpl; [reflexivity|].
  rewrite IH. now destruct (existsb (String.eqb k) (map fst r)).
Qed.

Lemma obj_set_NoDup (k : string) (v : JsValue) (o : JsObject) :
  NoDup (obj_keys o) -> NoDup (obj_keys (obj_set k v o)).
Proof.
  intros ND. rewrite obj_set_keys.
  destruct (existsb (String.eqb k) (obj_keys o)) eqn:E; [exact ND|].
  apply NoDup_app; [exact ND|repeat constructor; intros []|].
  intros x Hx [Ex|[]]. subst x.
  assert (X : existsb (String.eqb k) (obj_keys o) = true).
  { apply existsb_exists. exists k. split; [exact Hx|apply String.eqb_refl]. }
  congruence.
Qed.

Lemma obj_get_keys (k : string) (o : JsObject) :
  existsb (String.eqb k) (obj_keys o) = match obj_get k o with
                                        | Some _ => true
                                        | None => false
                                        end.
Proof.
  unfold obj_keys. induction o as [|[k1 v1] r IH]; simpl; [reflexivity|].
  now destruct (String.eqb k k1).
Qed.

Lemma obj_assign_get (target source : JsObject) (k : string) :
  NoDup (obj_keys source) ->
  obj_get k (obj_assign target source)
  = match obj_get k source with
    | Some v => Some v
    | None => obj_get k target
    end.
Proof.
  unfold obj_assign. revert target.
  induction source as [|[k1 v1] r IH]; intros target ND; simpl; [reflexivity|].
  simpl in ND. apply NoDup_cons_iff in ND. destruct ND as [Hk1 ND].
  rewrite (IH _ ND), obj_get_set.
  destruct (String.eqb_spec k k1) as [->|N]; [|reflexivity].
  pose proof (obj_get_keys k1 r) as X.
  destruct (obj_get k1 r); [|reflexivity].
  apply existsb_exists in X. destruct X as (x & Hx & Ex).
  apply String.eqb_eq in Ex. subst x. contradiction.
Qed.

Lemma storage_sync_get_get (keys : list string) (area : JsObject) (k : string) :
  obj_get k (storage_sync_get keys area)
  = if existsb (String.eqb k) keys then obj_get k area else None.
Proof.
  unfold storage_sync_get. induction keys as [|k1 r IH]; simpl; [reflexivity|].
  destruct (String.eqb_spec k k1) as [->|N]; simpl.
  - destruct (obj_get k1 area) as [v|] eqn:E; simpl.
    + now rewrite String.eqb_refl.
    + rewrite IH. now destruct (existsb (String.eqb k1) r).
  - destruct (obj_get k1 area) as [v|]; simpl; [|exact IH].
    destruct (String.eqb_spec k k1); [congruence|exact IH].
Qed.

Lemma storage_sync_get_NoDup (keys : list string) (area : JsObject) :
  NoDup keys -> NoDup (obj_keys (storage_sync_get keys area)).
Proof.
  unfold storage_sync_get, obj_keys.
  induction keys as [|k1 r IH]; intros ND; simpl; [constructor|].
  apply NoDup_cons_iff in ND. destruct ND as [Hk ND].
  destruct (obj_get k1 area) as [v|]; simpl; [|now apply IH].
  constructor; [|now apply IH].
  intros Hin. apply in_map_iff in Hin. destruct Hin as ([k v'] & Ek & Hin).
  simpl in Ek. subst k. apply in_flat_map in Hin. destruct Hin as (x & Hx & Hin).
  destruct (obj_get x area); simpl in Hin; [|contradiction].
  destruct Hin as [E|[]]. inversion E; subst. contradiction.
Qed.

Lemma flag_of_stored (keys : list string) (area : JsObject) (k : string) :
  existsb (String.eqb k) keys = true ->
  flag k (storage_sync_get keys area) = flag k area.
Proof. intros E. unfold flag. now rewrite storage_sync_get_get, E. Qed.

Lemma DEFAULTS_keys_NoDup : NoDup (obj_keys DEFAULTS).
Proof. repeat constructor; simpl; intuition discriminate. Qed.

(** What the loop over [Object.entries(DEFAULTS)] collects. *)
Lemma toSet_get (stored d acc : JsObject) (k : string) :
  NoDup (obj_keys d) ->
  obj_get k (fold_left (fun o kv => match obj_get (fst kv) stored with
                                    | None => obj_set (fst kv) (snd kv) o
                                    | Some _ => o
                                    end) d acc)
  = match obj_get k d with
    | Some v => match obj_get k stored with
                | None => Some v
                | Some _ => obj_get k acc
                end
    | None => obj_get k acc
    end.
Proof.
  revert acc. induction d as [|[k1 v1] r IH]; intros acc ND; simpl; [reflexivity|].
  simpl in ND. apply NoDup_cons_iff in ND. destruct ND as [Hk1 ND].
  rewrite (IH _ ND).
  destruct (String.eqb_spec k k1) as [->|N].
  - pose proof (obj_get_keys k1 r) as X.
    destruct (obj_get k1 r).
    { apply existsb_exists in X. destruct X as (x & Hx & Ex).
      apply String.eqb_eq in Ex. subst x. contradiction. }
    destruct (obj_get k1 stored); [reflexivity|].
    now rewrite obj_get_set, String.eqb_refl.
  - assert (Eacc : obj_get k (match obj_get k1 stored with
                              | Some _ => acc
                              | None => obj_set k1 v1 acc
                              end) = obj_get k acc).
    { destruct (obj_get k1 stored); [reflexivity|].
      rewrite obj_get_set. destruct (String.eqb_spec k k1); [congruence|reflexivity]. }
    now rewrite Eacc.
Qed.

Lemma toSet_NoDup (stored d acc : JsObject) :
  NoDup (obj_keys acc) ->
  NoDup (obj_keys (fold_left (fun o kv => match obj_get (fst kv) stored with
                                          | None => obj_set (fst kv) (snd kv) o
                                          | Some _ => o
                                          end) d acc)).
Proof.
  revert acc. induction d as [|[k1 v1] r IH]; intros acc ND; simpl; [exact ND|].
  apply IH. destruct (obj_get k1 stored); [exact ND|now apply obj_set_NoDup].
Qed.

Lemma toSet_empty (stored d acc : JsObject) :
  (forall kv, In kv d -> obj_get (fst kv) stored <> None) ->
  fold_left (fun o kv => match obj_get (fst kv) stored with
                         | None => obj_set (fst kv) (snd kv) o
                         | Some _ => o
                         end) d acc = acc.
Proof.
  revert acc. induction d as [|kv r IH]; intros acc H; simpl; [reflexivity|].
  destruct (obj_get (fst kv) stored) eqn:E.
  - apply IH. intros x Hx. apply H. now right.
  - exfalso. now apply (H kv (or_introl eq_refl)).
Qed.

Lemma obj_get_In (k : string) (v : JsValue) (o : JsObject) :
  In (k, v) o -> obj_get k o <> None.
Proof.
  induction o as [|[k1 v1] r IH]; simpl; [intros []|].
  intros [E|Hin].
  - inversion E; subst. now rewrite String.eqb_refl.
  - destruct (String.eqb k k1); [discriminate|now apply IH].
Qed.

Lemma onInstalled_get (area : JsObject) (k : string) :
  obj_get k (onInstalled area)
  = match obj_get k area with
    | Some v => Some v
    | None => obj_get k DEFAULTS
    end.
Proof.
  unfold onInstalled.
  set (stored := storage_sync_get (obj_keys DEFAULTS) area).
  set (toSet := fold_left (fun o kv => match obj_get (fst kv) stored with
                                       | None => obj_set (fst kv) (snd kv) o
                                       | Some _ => o
                                       end) DEFAULTS []).
  assert (Hts : obj_get k toSet
                = match obj_get k DEFAULTS with
                  | Some v => match obj_get k area with
                              | None => Some v
                              | Some _ => None
                              end
                  | None => None
                  end).
  { unfold toSet. rewrite (toSet_get stored DEFAULTS [] k DEFAULTS_keys_NoDup).
    unfold stored. rewrite storage_sync_get_get, obj_get_keys.
    now destruct (obj_get k DEFAULTS). }
  assert (ND : NoDup (obj_keys toSet)).
  { unfold toSet. apply toSet_NoDup. constructor. }
  destruct (obj_keys toSet) as [|k0 ks] eqn:Ek.
  - assert (toSet = []) by (destruct toSet; [reflexivity|discriminate]).
    rewrite H in Hts. change (obj_get k []) with (@None JsValue) in Hts.
    destruct (obj_get k area); [reflexivity|].
    destruct (obj_get k DEFAULTS); [discriminate|reflexivity].
  - unfold storage_sync_set. rewrite obj_assign_get by (rewrite Ek; exact ND).
    rewrite Hts.
    destruct (obj_get k DEFAULTS), (obj_get k area); reflexivity.
Qed.

(** X16: Installing the defaults fills in exactly what is missing.  After
    the [onInstalled] listener every key reads as it was stored before
    and, where nothing was stored, as [DEFAULTS] has it (so every default
    key is defined and no stored value is overwritten); and running the
    listener again changes nothing. *)
Theorem onInstalled_fills_missing_defaults :
  forall (area : JsObject),
    (forall k, obj_get k (onInstalled area)
               = match obj_get k area with
                 | Some v => Some v
                 | None => obj_get k DEFAULTS
                 end) /\
    onInstalled (onInstalled area) = onInstalled area.
Proof.
  intros area. split; [intros k; apply onInstalled_get|].
  set (a1 := onInstalled area). unfold onInstalled at 1.
  rewrite toSet_empty; [reflexivity|].
  intros [k v] Hin. cbn [fst]. rewrite storage_sync_get_get, obj_get_keys.
  pose proof (obj_get_In k v DEFAULTS Hin) as Hd.
  destruct (obj_get k DEFAULTS) as [d|] eqn:Ed; [|congruence].
  unfold a1. rewrite onInstalled_get, Ed. now destruct (obj_get k area).
Qed.

(** An empty storage area and one where the user has switched [fastMerge]
    off and stored a key of their own. *)
Example onInstalled_example :
  onInstalled [] = DEFAULTS /\
  onInstalled [("fastMerge"%string, JsBool false); ("theme"%string, JsText "dark")]
  = [("fastMerge"%string, JsBool false); ("theme"%string, JsText "dark");
     ("autoMerge"%string, JsBool false); ("caseSensitive"%string, JsBool false);
     ("includeUnnamed"%string, JsBool false); ("keepCollapsed"%string, JsBool true);
     ("scope"%string, JsText "currentWindow")].
Proof. split; reflexivity. Qed.

Section RouterFacts.
Variable avoidDiscard : Tab -> bool.

Lemma onMessage_set (msg : Message) (w : World) :
  msg_type msg = "SET_SETTINGS"%string ->
  onMessage avoidDiscard msg w
  = (Saved, mkWorld (storage_sync_set (match msg_settings msg with
                                       | Some s => s
                                       | None => []
                                       end) (storage w)) (browser w)).
Proof. intros E. unfold onMessage. rewrite E. reflexivity. Qed.

Lemma onMessage_get (msg : Message) (w : World) :
  msg_type msg = "GET_SETTINGS"%string ->
  onMessage avoidDiscard msg w
  = (CurrentSettings (obj_assign DEFAULTS
                        (storage_sync_get (obj_keys DEFAULTS) (storage w))), w).
Proof. intros E. unfold onMessage. rewrite E. reflexivity. Qed.

Lemma current_settings_get (area : JsObject) (k : string) :
  obj_get k (obj_assign DEFAULTS (storage_sync_get (obj_keys DEFAULTS) area))
  = match obj_get k DEFAULTS with
    | Some d => match obj_get k area with
                | Some v => Some v
                | None => Some d
                end
    | None => None
    end.
Proof.
  rewrite obj_assign_get by (apply storage_sync_get_NoDup, DEFAULTS_keys_NoDup).
  rewrite storage_sync_get_get, obj_get_keys.
  destruct (obj_get k DEFAULTS), (obj_get k area); reflexivity.
Qed.

End RouterFacts.

(** X17: Settings saved are settings read back.  [SET_SETTINGS] answers
    [{ ok: true }] and touches nothing in the browser; a [GET_SETTINGS]
    that follows reports, for every key of [DEFAULTS], the value just
    saved if the saved object has the key, else the value stored before,
    else the default; and it reports no key outside [DEFAULTS], whatever
    was saved. *)
Theorem settings_saved_are_read_back :
  forall (avoid : Tab -> bool) (set get : Message) (items : JsObject) (w : World),
    msg_type set = "SET_SETTINGS"%string ->
    msg_settings set = Some items ->
    NoDup (obj_keys items) ->
    msg_type get = "GET_SETTINGS"%string ->
    let w1 := snd (onMessage avoid set w) in
    fst (onMessage avoid set w) = Saved /\
    browser w1 = browser w /\
    exists settings,
      onMessage avoid get w1 = (CurrentSettings settings, w1) /\
      forall k,
        obj_get k settings
        = match obj_get k DEFAULTS with
          | Some d => match obj_get k items with
                      | Some v => Some v
                      | None => match obj_get k (storage w) with
                                | Some v => Some v
                                | None => Some d
                                end
                      end
          | None => None
          end.
Proof.
  intros avoid set get items w Es Ei ND Eg w1. unfold w1.
  rewrite (onMessage_set avoid set w Es), Ei. cbn [fst snd browser].
  split; [reflexivity|]. split; [reflexivity|].
  eexists. split; [apply (onMessage_get avoid get _ Eg)|].
  intros k. cbn [storage]. rewrite current_settings_get.
  unfold storage_sync_set. rewrite obj_assign_get by exact ND.
  destruct (obj_get k DEFAULTS), (obj_get k items), (obj_get k (storage w)); reflexivity.
Qed.

Lemma settings_saved_are_read_back_witness :
  let set := mkMessage "SET_SETTINGS" None None None None None None None
                       (Some [("autoMerge"%string, JsBool true);
                              ("theme"%string, JsText "dark")]) in
  let get := mkMessage "GET_SETTINGS" None None None None None None None None in
  let w := mkWorld [("fastMerge"%string, JsBool false)] Sample.host in
  msg_type set = "SET_SETTINGS"%string /\
  msg_settings set = Some [("autoMerge"%string, JsBool true);
                           ("theme"%string, JsText "dark")] /\
  NoDup (obj_keys [("autoMerge"%string, JsBool true); ("theme"%string, JsText "dark")]) /\
  msg_type get = "GET_SETTINGS"%string /\
  let w1 := snd (onMessage isActive set w) in
  fst (onMessage isActive set w) = Saved /\
  browser w1 = browser w /\
  exists settings,
    onMessage isActive get w1 = (CurrentSettings settings, w1) /\
    forall k,
      obj_get k settings
      = match obj_get k DEFAULTS with
        | Some d => match obj_get k [("autoMerge"%string, JsBool true);
                                     ("theme"%string, JsText "dark")] with
                    | Some v => Some v
                    | None => match obj_get k (storage w) with
                              | Some v => Some v
                              | None => Some d
                              end
                    end
        | None => None
        end.
Proof.
  intros set get w.
  assert (ND : NoDup (obj_keys [("autoMerge"%string, JsBool true);
                                ("theme"%string, JsText "dark")])).
  { repeat constructor; simpl; intuition discriminate. }
  split; [reflexivity|]. split; [reflexivity|]. split; [exact ND|].
  split; [reflexivity|].
  exact (settings_saved_are_read_back isActive set get _ w eq_refl eq_refl ND eq_refl).
Defined.

(** Saving [autoMerge] and a key of the page's own over a storage that
    holds [fastMerge: false]: the settings read back. *)
Example settings_example :
  let set := mkMessage "SET_SETTINGS" None None None None None None None
                       (Some [("autoMerge"%string, JsBool true);
                              ("theme"%string, JsText "dark")]) in
  let get := mkMessage "GET_SETTINGS" None None None None None None None None in
  let w := mkWorld [("fastMerge"%string, JsBool false)] Sample.host in
  fst (onMessage isActive get (snd (onMessage isActive set w)))
  = CurrentSettings [("autoMerge"%string, JsBool true);
                     ("caseSensitive"%string, JsBool false);
                     ("includeUnnamed"%string, JsBool false);
                     ("fastMerge"%string, JsBool false);
                     ("keepCollapsed"%string, JsBool true);
                     ("scope"%string, JsText "currentWindow")].
Proof. reflexivity. Qed.

Lemma respond_storage {A} (f : A -> Response) (area : JsObject) (r : Outcome A * Host) :
  storage (snd (respond f area r)) = area /\
  browser (snd (respond f area r)) = snd r.
Proof. destruct r as [[a|e] h]; split; reflexivity. Qed.

Lemma list_groups_run (scope : Scope) (h : Host) :
  (gs <- listGroups scope None ;; promise_all gs countTabs) h
  = (Returned (map (fun g => (g, tabCount (group_id g) h))
                   (filter (fun g => inScope scope None h (group_windowId g)) (groups h))),
     h).
Proof. unfold bind. now rewrite listGroups_spec, promise_all_countTabs. Qed.

(** X18: The router keeps the storage area and the browser apart.  Only
    [SET_SETTINGS] changes what is stored, and it changes nothing in the
    browser; only [MERGE_DUPLICATES] and [MERGE_SELECTED] ask anything of
    the browser, so after any other message the groups, the tabs and the
    trace of requests are as they were; and a message of any other type
    than the five the router knows is answered with the error "Unknown
    message type." and changes nothing at all. *)
Theorem router_keeps_storage_and_browser_apart :
  forall (avoid : Tab -> bool) (msg : Message) (w : World),
    let w' := snd (onMessage avoid msg w) in
    (msg_type msg <> "SET_SETTINGS"%string -> storage w' = storage w) /\
    (msg_type msg = "SET_SETTINGS"%string -> browser w' = browser w) /\
    (msg_type msg <> "MERGE_DUPLICATES"%string ->
     msg_type msg <> "MERGE_SELECTED"%string ->
     groups (browser w') = groups (browser w) /\
     tabs (browser w') = tabs (browser w) /\
     requests (browser w') = requests (browser w)) /\
    (msg_type msg <> "LIST_GROUPS"%string ->
     msg_type msg <> "MERGE_DUPLICATES"%string ->
     msg_type msg <> "MERGE_SELECTED"%string ->
     msg_type msg <> "GET_SETTINGS"%string ->
     msg_type msg <> "SET_SETTINGS"%string ->
     onMessage avoid msg w = (Failed "Unknown message type.", w)).
Proof.
  intros avoid msg w w'. unfold w', onMessage.
  destruct (String.eqb_spec (msg_type msg) "LIST_GROUPS") as [E1|N1].
  { rewrite list_groups_run. cbn [respond snd storage browser].
    repeat split; try reflexivity; intros; congruence. }
  destruct (String.eqb_spec (msg_type msg) "MERGE_DUPLICATES") as [E2|N2].
  { split; [intros _; apply respond_storage|].
    repeat split; intros; congruence. }
  destruct (String.eqb_spec (msg_type msg) "MERGE_SELECTED") as [E3|N3].
  { split; [intros _; apply respond_storage|].
    repeat split; intros; congruence. }
  destruct (String.eqb_spec (msg_type msg) "GET_SETTINGS") as [E4|N4].
  { cbn [snd]. repeat split; try reflexivity; intros; congruence. }
  destruct (String.eqb_spec (msg_type msg) "SET_SETTINGS") as [E5|N5].
  { cbn [snd storage browser]. repeat split; try reflexivity; intros; congruence. }
  cbn [snd]. repeat split; reflexivity.
Qed.

(** A message of a type the router does not know. *)
Example unknown_message_example :
  onMessage isActive (mkMessage "PING" None None None None None None None None)
            (mkWorld [] Sample.host)
  = (Failed "Unknown message type.", mkWorld [] Sample.host).
Proof. reflexivity. Qed.

(** X19: A [MERGE_SELECTED] message that names a group the browser no
    longer has is answered with the browser's error for the first such id
    in the list, [{ ok: false, error: "No group with id: <id>." }], and
    nothing has been asked of the browser: its groups, tabs and trace of
    requests are as they were, and so is the storage.  When [groupIds] is
    not an array the answer is the failure "Select at least two groups.",
    again with nothing done. *)
Theorem router_surfaces_missing_group :
  forall (avoid : Tab -> bool) (msg : Message) (groupIds : list Z) (w : World),
    msg_type msg = "MERGE_SELECTED"%string ->
    msg_groupIds msg = Some groupIds ->
    (2 <= length groupIds)%nat ->
    Exists (fun i => chrome.find_group i (browser w) = None) groupIds ->
    let r := onMessage avoid msg w in
    (exists pre i post,
        groupIds = pre ++ i :: post /\
        Forall (fun j => chrome.find_group j (browser w) <> None) pre /\
        chrome.find_group i (browser w) = None /\
        fst r = Failed (chrome.noGroupWithId i)) /\
    storage (snd r) = storage w /\
    groups (browser (snd r)) = groups (browser w) /\
    tabs (browser (snd r)) = tabs (browser w) /\
    requests (browser (snd r)) = requests (browser w) /\
    fst (onMessage avoid
           (mkMessage "MERGE_SELECTED" None None None None None (msg_targetTitle msg)
                      None None) w)
    = MergedSelected (failure "Select at least two groups.").
Proof.
  intros avoid msg groupIds w Et Ei Hlen Hex r. unfold r, onMessage.
  rewrite Et, Ei. cbn [String.eqb Ascii.eqb Bool.eqb andb].
  destruct (mergeSelectedGroups_missing_run avoid (msg_targetTitle msg) groupIds (seen w)
              Hlen Hex) as (pre & i & post & E & Hpre & F & R).
  rewrite R.
  cbn [msg_type msg_groupIds String.eqb Ascii.eqb Bool.eqb andb].
  split; [|repeat split; reflexivity].
  exists pre, i, post. split; [exact E|]. split; [exact Hpre|]. split; [exact F|].
  reflexivity.
Qed.

Lemma router_surfaces_missing_group_witness :
  let msg := mkMessage "MERGE_SELECTED" None None None None None (Some "Jobs"%string)
                       (Some [40; 41; 12]) None in
  let w := mkWorld DEFAULTS Sample.host in
  msg_type msg = "MERGE_SELECTED"%string /\
  msg_groupIds msg = Some [40; 41; 12] /\
  (2 <= length [40; 41; 12])%nat /\
  Exists (fun i => chrome.find_group i (browser w) = None) [40; 41; 12] /\
  let r := onMessage isActive msg w in
  (exists pre i post,
      [40; 41; 12] = pre ++ i :: post /\
      Forall (fun j => chrome.find_group j (browser w) <> None) pre /\
      chrome.find_group i (browser w) = None /\
      fst r = Failed (chrome.noGroupWithId i)) /\
  storage (snd r) = storage w /\
  groups (browser (snd r)) = groups (browser w) /\
  tabs (browser (snd r)) = tabs (browser w) /\
  requests (browser (snd r)) = requests (browser w) /\
  fst (onMessage isActive
         (mkMessage "MERGE_SELECTED" None None None None None (msg_targetTitle msg)
                    None None) w)
  = MergedSelected (failure "Select at least two groups.").
Proof.
  intros msg w.
  assert (Hex : Exists (fun i => chrome.find_group i (browser w) = None) [40; 41; 12]).
  { apply Exists_cons_tl, Exists_cons_hd. reflexivity. }
  assert (Hlen : (2 <= length [40; 41; 12])%nat) by (simpl; lia).
  split; [reflexivity|]. split; [reflexivity|]. split; [exact Hlen|]. split; [exact Hex|].
  exact (router_surfaces_missing_group isActive msg [40; 41; 12] w eq_refl eq_refl
           Hlen Hex).
Defined.

(** The popup selects groups 40, 41 and 12 after group 41 has been closed. *)
Example missing_group_message_example :
  fst (onMessage isActive
         (mkMessage "MERGE_SELECTED" None None None None None (Some "Jobs"%string)
                    (Some [40; 41; 12]) None)
         (mkWorld DEFAULTS Sample.host))
  = Failed "No group with id: 41.".
Proof. reflexivity. Qed.

(** X20: The keyboard shortcut does what a [MERGE_DUPLICATES] message
    without any field does: the same merge of the current window, with
    every flag read from the storage area and taken for false when it is
    not stored (not for the value [DEFAULTS] gives it).  Any other command
    does nothing. *)
Theorem shortcut_is_plain_merge_message :
  forall (avoid : Tab -> bool) (cmd : string) (w : World),
    onCommand avoid cmd w
    = if String.eqb cmd "merge_same_names_current_window"
      then snd (onMessage avoid
                  (mkMessage "MERGE_DUPLICATES" None None None None None None None None) w)
      else w.
Proof.
  intros avoid cmd w. unfold onCommand, onMessage.
  destruct (String.eqb cmd "merge_same_names_current_window"); [|reflexivity].
  cbn [msg_type msg_scope msg_caseSensitive msg_includeUnnamed msg_fastMerge
       msg_keepCollapsed String.eqb Ascii.eqb Bool.eqb andb scopeOf orStored].
  rewrite !flag_of_stored by reflexivity.
  set (r := mergeDuplicatesByName avoid CurrentWindow None _ (seen w)).
  destruct r as [[a|e] h]; reflexivity.
Qed.

(** With nothing stored the shortcut merges with [fastMerge] off, although
    [DEFAULTS] has it on: no discard is requested. *)
Example shortcut_example :
  requests (browser (onCommand isActive "merge_same_names_current_window"
                               (mkWorld [] Sample.host)))
  = [ReqMove [1; 2; 3] 77; ReqMove [4] 77; ReqUpdate 77 (Some "Work"%string) false] /\
  requests (browser (onCommand isActive "merge_same_names_current_window"
                               (mkWorld DEFAULTS Sample.host)))
  = [ReqDiscard 5; ReqDiscard 6; ReqDiscard 7; ReqDiscard 8; ReqDiscard 9;
     ReqDiscard 2; ReqDiscard 3; ReqMove [1; 2; 3] 77; ReqDiscard 4; ReqMove [4] 77;
     ReqUpdate 77 (Some "Work"%string) true].
Proof. split; vm_compute; reflexivity. Qed.

(** X21: [LIST_GROUPS] answers with the groups of the current window, or,
    when the message carries any scope other than "currentWindow", with
    the groups of all windows, in the browser's order, each with the number
    of tabs it has. *)
Theorem list_groups_reports_tab_counts :
  forall (avoid : Tab -> bool) (msg : Message) (w : World),
    msg_type msg = "LIST_GROUPS"%string ->
    fst (onMessage avoid msg w)
    = ListedGroups
        (map (fun g => (g, tabCount (group_id g) (browser w)))
             (filter (fun g => match msg_scope msg with
                               | None => group_windowId g =? currentWindow (browser w)
                               | Some s =>
                                   if String.eqb s "currentWindow"
                                   then group_windowId g =? currentWindow (browser w)
                                   else true
                               end)
                     (groups (browser w)))).
Proof.
  intros avoid msg w E. unfold onMessage. rewrite E.
  cbn [String.eqb Ascii.eqb Bool.eqb andb]. rewrite list_groups_run.
  cbn [respond fst]. f_equal.
  change (groups (seen w)) with (groups (browser w)).
  f_equal. apply filter_ext. intros g. unfold scopeOf, inScope.
  destruct (msg_scope msg) as [s|]; [|reflexivity].
  destruct (String.eqb s "currentWindow"); reflexivity.
Qed.

Lemma list_groups_reports_tab_counts_witness :
  let msg := mkMessage "LIST_GROUPS" (Some "allwindows"%string) None None None None None
                       None None in
  let w := mkWorld [] Sample.twoWindows in
  msg_type msg = "LIST_GROUPS"%string /\
  fst (onMessage isActive msg w)
  = ListedGroups
      (map (fun g => (g, tabCount (group_id g) (browser w)))
           (filter (fun g => match msg_scope msg with
                             | None => group_windowId g =? currentWindow (browser w)
                             | Some s =>
                                 if String.eqb s "currentWindow"
                                 then group_windowId g =? currentWindow (browser w)
                                 else true
                             end)
                   (groups (browser w)))).
Proof.
  intros msg w. split; [reflexivity|].
  exact (list_groups_reports_tab_counts isActive msg w eq_refl).
Defined.

(** ** Attaching the listeners again and again *)

Lemma same_call (n : nat) (r r' : Role) (c c' : Captured) :
  same_function (mkListener n r c) (mkListener n r' c') = role_eqb r r'.
Proof. unfold same_function. cbn [made role]. now rewrite Nat.eqb_refl. Qed.

Lemma later_call (n : nat) (r r' : Role) (c c' : Captured) :
  same_function (mkListener (S n) r c) (mkListener n r' c') = false.
Proof.
  unfold same_function. cbn [made role].
  replace (S n =? n)%nat with false; [reflexivity|].
  symmetry. apply Nat.eqb_neq. lia.
Qed.

Lemma earlier_call (n : nat) (r r' : Role) (c c' : Captured) :
  same_function (mkListener n r c) (mkListener (S n) r' c') = false.
Proof.
  unfold same_function. cbn [made role].
  replace (n =? S n)%nat with false; [reflexivity|].
  symmetry. apply Nat.eqb_neq. lia.
Qed.

Ltac registry_step :=
  first [ rewrite same_call | rewrite later_call | rewrite earlier_call
        | progress cbn [filter existsb negb app role_eqb andb orb] ].

Lemma attach_fresh (area : JsObject) :
  attachedAs 0 (capturedFrom area) (maybeAttachAutoMergeListeners area freshScript).
Proof.
  unfold attachedAs, maybeAttachAutoMergeListeners.
  cbn [freshScript attachments autoHandlerRef tabCreatedHandlerRef tabUpdatedHandlerRef
       tabGroupHandlersAttached listeners].
  generalize (capturedFrom area). intros c.
  destruct (cap_fastMerge c) eqn:Fm;
    cbn [attachments autoHandlerRef tabCreatedHandlerRef tabUpdatedHandlerRef
         tabGroupHandlersAttached listeners];
    repeat (split; [reflexivity|]);
    intros e; destruct e;
    cbn [fold_left autoEvents removeListener addListener event_eqb fst snd registered];
    rewrite ?Fm; repeat registry_step; reflexivity.
Qed.

Lemma attach_again (area : JsObject) (n : nat) (c : Captured) (s : Script) :
  attachedAs n c s ->
  attachedAs (S n) (capturedFrom area) (maybeAttachAutoMergeListeners area s).
Proof.
  intros (Ea & Er & Et & Ec & Eu & Hreg).
  unfold attachedAs, maybeAttachAutoMergeListeners.
  rewrite Ea, Er, Et, Ec, Eu.
  generalize (capturedFrom area). intros c'.
  destruct (cap_fastMerge c') eqn:Fm', (cap_fastMerge c) eqn:Fm;
    cbn [attachments autoHandlerRef tabCreatedHandlerRef tabUpdatedHandlerRef
         tabGroupHandlersAttached listeners fst snd];
    repeat (split; [reflexivity|]);
    intros e; destruct e;
    cbn [fold_left autoEvents removeListener addListener event_eqb fst snd];
    rewrite ?Hreg; cbn [registered]; rewrite ?Fm, ?Fm';
    repeat registry_step; reflexivity.
Qed.

Lemma attachAll_snoc (areas : list JsObject) (a : JsObject) (s : Script) :
  attachAll (areas ++ [a]) s = maybeAttachAutoMergeListeners a (attachAll areas s).
Proof. unfold attachAll. now rewrite fold_left_app. Qed.

Lemma attachAll_attached (areas : list JsObject) (a : JsObject) :
  attachedAs (length areas) (capturedFrom a) (attachAll (areas ++ [a]) freshScript).
Proof.
  revert a. induction areas as [|b r IH] using rev_ind; intros a.
  - apply attach_fresh.
  - rewrite attachAll_snoc, length_app. simpl length.
    replace (length r + 1)%nat with (S (length r)) by lia.
    apply attach_again with (c := capturedFrom b). apply IH.
Qed.

(** X22: Attaching again never piles listeners up.  However many times
    [maybeAttachAutoMergeListeners] has run since the service worker
    started, and whatever the storage held each time, every event has
    exactly the listeners the last run created: one for each of the eight
    group and tab events, plus the two early-discard handlers exactly when
    [fastMerge] was on at the last run.  Nothing a previous run registered
    is left, and the script's references name what is registered. *)
Theorem reattachment_leaves_one_set_of_listeners :
  forall (areas : list JsObject) (area : JsObject),
    let s := attachAll (areas ++ [area]) freshScript in
    let n := length areas in
    let c := capturedFrom area in
    (forall e, listeners s e = registered n c e) /\
    autoHandlerRef s = Some (n, c) /\
    tabGroupHandlersAttached s = true /\
    tabCreatedHandlerRef s
    = (if cap_fastMerge c then Some (mkListener n TabCreatedHandler c) else None) /\
    tabUpdatedHandlerRef s
    = (if cap_fastMerge c then Some (mkListener n TabUpdatedHandler c) else None).
Proof.
  intros areas area s n c.
  destruct (attachAll_attached areas area) as (_ & Er & Et & Ec & Eu & Hreg).
  repeat split; assumption.
Qed.

(** X23: An event arms the timers of one set of listeners only.  After any
    number of attachments, what the listeners of an event ask of the
    timers is what the closures of the last attachment ask: with
    auto-merge off in the storage as last read, no recompute at all;
    otherwise exactly one debounced recompute, of the event's own window,
    with the settings as last read, delayed 80 ms for a created group and
    400 ms for any other event (a tab update counts only when the tab is in
    a group, and a created tab arms nothing); and for a created group, when
    [fastMerge] is on, one more timer that discards the group's tabs. *)
Theorem event_arms_timers_once :
  forall (areas : list JsObject) (area : JsObject) (e : BrowserEvent),
    let s := attachAll (areas ++ [area]) freshScript in
    let c := capturedFrom area in
    dispatch s e
    = match e with
      | GroupCreated g =>
          (if flag "autoMerge" area
           then [Debounced (group_windowId g) 80 (settingsOf c)] else [])
          ++ (if flag "fastMerge" area then [DiscardLater (group_id g) 80] else [])
      | TabUpdated _ _ tab =>
          if (0 <=? tab_groupId tab) && flag "autoMerge" area
          then [Debounced (tab_windowId tab) 400 (settingsOf c)] else []
      | TabCreated _ => []
      | _ =>
          if flag "autoMerge" area
          then [Debounced (windowOf e) 400 (settingsOf c)] else []
      end.
Proof.
  intros areas area e s c.
  destruct (attachAll_attached areas area) as (_ & _ & _ & _ & _ & Hreg).
  unfold dispatch. fold s in Hreg. rewrite Hreg. fold c.
  change (flag "autoMerge" area) with (enabled c).
  change (flag "fastMerge" area) with (cap_fastMerge c).
  generalize (length areas). intros n.
  destruct e; cbn [eventName registered flat_map schedules role captured windowOf handler];
    rewrite ?app_nil_r; try reflexivity.
  - destruct (cap_fastMerge c); cbn [flat_map schedules role captured app];
      rewrite ?app_nil_r; destruct (0 <=? tab_groupId tab); reflexivity.
  - now destruct (cap_fastMerge c).
Qed.

(** Three attachments, the last with auto-merge on and [fastMerge] off: a
    group created in window 7 arms one recompute, 80 ms later. *)
Example attach_example :
  let on := [("autoMerge"%string, JsBool true)] in
  let s := attachAll [DEFAULTS; []; on] freshScript in
  map (fun r => length (listeners s r))
      [TabGroupsOnCreated; TabsOnUpdated; TabsOnCreated] = [1%nat; 1%nat; 0%nat] /\
  dispatch s (GroupCreated (mkGroup 3 None 7 false))
  = [Debounced 7 80 (mkSettings false false false false)].
Proof. split; reflexivity. Qed.

(** ** The options page and the popup *)

(** X24: What the options page saves is what it shows when opened again.
    For every way of checking the five boxes and whatever was stored
    before, after [save] has been answered a [load] shows each of the five
    boxes as it was checked. *)
Theorem options_page_round_trip :
  forall (avoid : Tab -> bool) (checked : string -> bool) (w : World),
    let saved := snd (onMessage avoid (Options.save checked) w) in
    Forall (fun id => Options.load (fst (onMessage avoid Options.getSettings saved)) id
                      = checked id)
           Options.ids.
Proof.
  intros avoid checked w saved. unfold saved.
  rewrite (onMessage_set avoid (Options.save checked) w eq_refl).
  cbn [snd]. rewrite (onMessage_get avoid Options.getSettings _ eq_refl).
  cbn [fst storage Options.load Options.save msg_settings].
  set (items := fold_left (fun settings id => obj_set id (JsBool (checked id)) settings)
                         Options.ids []).
  assert (ND : NoDup (obj_keys items)).
  { unfold items. cbn. repeat constructor; simpl; intuition discriminate. }
  assert (Hflag : forall id b d, obj_get id DEFAULTS = Some d ->
                                 obj_get id items = Some (JsBool b) ->
            flag id (obj_assign DEFAULTS
                       (storage_sync_get (obj_keys DEFAULTS)
                          (storage_sync_set items (storage w)))) = b).
  { intros id b d Ed Ei. unfold flag. rewrite current_settings_get, Ed.
    unfold storage_sync_set. rewrite obj_assign_get by exact ND. now rewrite Ei. }
  unfold Options.ids.
  repeat (constructor; [eapply Hflag; reflexivity|]). constructor.
Qed.

(** X25: The popup's "merge duplicates" button and the keyboard shortcut do
    the same thing.  The button first asks for the settings and sends two
    of them along; the shortcut reads the storage itself; both end with
    the same storage and the same browser, trace of requests included. *)
Theorem popup_button_is_the_shortcut :
  forall (avoid : Tab -> bool) (w : World),
    snd (Popup.mergeDuplicates avoid w)
    = onCommand avoid "merge_same_names_current_window" w.
Proof.
  intros avoid w. unfold Popup.mergeDuplicates.
  rewrite (onMessage_get avoid Options.getSettings w eq_refl). cbn [fst snd Options.load].
  assert (Hflag : forall k, obj_get k DEFAULTS = Some (JsBool false) ->
            flag k (obj_assign DEFAULTS (storage_sync_get (obj_keys DEFAULTS) (storage w)))
            = flag k (storage w)).
  { intros k Ed. unfold flag. rewrite current_settings_get, Ed.
    now destruct (obj_get k (storage w)). }
  rewrite !Hflag by reflexivity.
  unfold onCommand, onMessage.
  cbn [msg_type msg_scope msg_caseSensitive msg_includeUnnamed msg_fastMerge
       msg_keepCollapsed String.eqb Ascii.eqb Bool.eqb andb scopeOf orStored].
  rewrite !flag_of_stored by reflexivity.
  set (r := mergeDuplicatesByName avoid CurrentWindow None _ (seen w)).
  destruct r as [[a|e] h]; reflexivity.
Qed.

(** ** What no operation does *)

Section SelectedSteps.
Variable avoidDiscard : Tab -> bool.

(** Whatever the selection and whatever the browser rejects, what
    [mergeSelectedGroups] has asked of the browser is a sequence of
    discards the filter allows, moves of all the tabs of one group, and
    updates. *)
Lemma mergeSelectedGroups_steps (targetTitle : option string) (ids : list Z) (h : Host) :
  exists l,
    steps avoidDiscard (fun _ _ => True) (fun _ => True) h l
          (snd (mergeSelectedGroups avoidDiscard targetTitle ids h)).
Proof.
  unfold mergeSelectedGroups.
  destruct (length ids <? 2)%nat; [exists []; constructor|].
  unfold bind at 1.
  pose proof (promise_all_get_snd ids h) as Eh.
  destruct (promise_all ids chrome.tabGroups_get h) as [[details|e] h1].
  2: { simpl in Eh. subst h1. exists []. constructor. }
  simpl in Eh. subst h1.
  destruct (1 <? length (partitionByWindow details))%nat; [exists []; constructor|].
  destruct (partitionByWindow details) as [|[w0 windowGroups] rest0];
    [exists []; constructor|].
  unfold bind at 1. rewrite promise_all_countTabs.
  destruct (sortByCount _) as [|[target n] rest]; [exists []; constructor|].
  unfold bind at 1, chrome.storage_get at 1. cbv beta iota.
  apply reaches_bind.
  - now apply reaches_update.
  - intros _. apply reaches_bind.
    + destruct (match snd (stored_keepCollapsed h, stored_fastMerge h) with
                | Some b => b
                | None => true
                end); [|apply reaches_ret].
      apply runs_reaches, runs_try_catch, runs_discardNonActiveTabsInGroup.
    + intros _. apply reaches_bind; [|intros; apply reaches_ret].
      apply runs_reaches, runs_mergeGroupSet. intros; exact I.
Qed.

(** The three operations, with what each has asked of the browser. *)
Lemma operations_steps (scope : Scope) (wid : option Z) (w : Z) (st : Settings)
      (targetTitle : option string) (ids : list Z) (h : Host) (h' : Host) :
  h' = snd (mergeDuplicatesByName avoidDiscard scope wid st h) \/
  h' = snd (recomputeAndDrainDuplicates avoidDiscard w st h) \/
  h' = snd (mergeSelectedGroups avoidDiscard targetTitle ids h) ->
  exists l, steps avoidDiscard (fun _ _ => True) (fun _ => True) h l h'.
Proof.
  intros [ -> | [ -> | -> ] ].
  - destruct (mergeDuplicatesByName_steps avoidDiscard scope wid st h) as [l S].
    exists l. eapply steps_mono; [| |exact S]; intros; exact I.
  - destruct (recomputeAndDrainDuplicates_steps avoidDiscard w st h) as [l S].
    exists l. eapply steps_mono; [| |exact S]; intros; exact I.
  - apply mergeSelectedGroups_steps.
Qed.

End SelectedSteps.

Lemma discardsOnly_of_eligible (avoid : Tab -> bool) (P : Tab -> Prop) (h0 : Host)
      (l : list Request) :
  (forall t, avoid t = false -> P t) ->
  Forall (discardsEligible avoid h0) l -> discardsOnly P h0 l.
Proof.
  intros HP Hall i Hin. rewrite Forall_forall in Hall.
  destruct (Hall _ Hin) as (t & Ht & Ei & Ha). exists t. auto.
Qed.

(** X26: Which tabs may be asked to be discarded.  On any host, for the
    explicit merge, the incremental recompute and the merge of a selection
    alike: in src/background.js every discard request names a tab the host
    had at the start that is not active; in the later revision every
    discard request names such a tab that moreover shows a page (its URL is
    neither empty nor about:blank, and no navigation is pending). *)
Theorem discards_only_what_the_filter_allows :
  forall (scope : Scope) (wid : option Z) (w : Z) (st : Settings)
         (targetTitle : option string) (groupIds : list Z) (h : Host),
    Forall (fun h' => exists l, requests h' = requests h ++ l /\
                                discardsOnly (fun t => tab_active t = false) h l)
           [snd (mergeDuplicatesByName isActive scope wid st h);
            snd (recomputeAndDrainDuplicates isActive w st h);
            snd (mergeSelectedGroups isActive targetTitle groupIds h)] /\
    Forall (fun h' => exists l, requests h' = requests h ++ l /\
                                discardsOnly (fun t => tab_active t = false /\ committed t)
                                             h l)
           [snd (mergeDuplicatesByName shouldAvoidDiscard scope wid st h);
            snd (recomputeAndDrainDuplicates shouldAvoidDiscard w st h);
            snd (mergeSelectedGroups shouldAvoidDiscard targetTitle groupIds h)].
Proof.
  intros scope wid w st targetTitle groupIds h.
  assert (Old : forall h',
             h' = snd (mergeDuplicatesByName isActive scope wid st h) \/
             h' = snd (recomputeAndDrainDuplicates isActive w st h) \/
             h' = snd (mergeSelectedGroups isActive targetTitle groupIds h) ->
             exists l, requests h' = requests h ++ l /\
                       discardsOnly (fun t => tab_active t = false) h l).
  { intros h' Hh.
    destruct (operations_steps isActive scope wid w st targetTitle groupIds h h' Hh)
      as [l S].
    exists l. split; [exact (steps_requests _ _ _ _ _ _ S)|].
    apply (discardsOnly_of_eligible isActive); [intros t Ht; exact Ht|].
    eapply steps_discard_eligible; [exact isActive_set_group|exact S]. }
  assert (New : forall h',
             h' = snd (mergeDuplicatesByName shouldAvoidDiscard scope wid st h) \/
             h' = snd (recomputeAndDrainDuplicates shouldAvoidDiscard w st h) \/
             h' = snd (mergeSelectedGroups shouldAvoidDiscard targetTitle groupIds h) ->
             exists l, requests h' = requests h ++ l /\
                       discardsOnly (fun t => tab_active t = false /\ committed t) h l).
  { intros h' Hh.
    destruct (operations_steps shouldAvoidDiscard scope wid w st targetTitle groupIds
                h h' Hh) as [l S].
    exists l. split; [exact (steps_requests _ _ _ _ _ _ S)|].
    apply (discardsOnly_of_eligible shouldAvoidDiscard).
    - intros t Ht. destruct (shouldAvoidDiscard_false t Ht) as (A & B & C & D).
      split; [exact A|]. split; [exact B|]. split; [exact C|exact D].
    - eapply steps_discard_eligible; [exact shouldAvoidDiscard_set_group|exact S]. }
  split; repeat (constructor; [first [apply Old|apply New]; auto|]); constructor.
Qed.

(** X27: No operation drops or creates a tab.  On any host, whatever the
    browser rejects along the way, after the explicit merge, the
    incremental recompute or the merge of a selection the host has the
    very tabs it had, by id and in the same order; and in none of the
    three has the current window changed. *)
Theorem operations_keep_every_tab :
  forall (avoid : Tab -> bool) (scope : Scope) (wid : option Z) (w : Z) (st : Settings)
         (targetTitle : option string) (groupIds : list Z) (h : Host),
    Forall (fun h' => map tab_id (tabs h') = map tab_id (tabs h) /\
                      currentWindow h' = currentWindow h)
           [snd (mergeDuplicatesByName avoid scope wid st h);
            snd (recomputeAndDrainDuplicates avoid w st h);
            snd (mergeSelectedGroups avoid targetTitle groupIds h)].
Proof.
  intros avoid scope wid w st targetTitle groupIds h.
  assert (All : forall h',
             h' = snd (mergeDuplicatesByName avoid scope wid st h) \/
             h' = snd (recomputeAndDrainDuplicates avoid w st h) \/
             h' = snd (mergeSelectedGroups avoid targetTitle groupIds h) ->
             map tab_id (tabs h') = map tab_id (tabs h) /\
             currentWindow h' = currentWindow h).
  { intros h' Hh.
    destruct (operations_steps avoid scope wid w st targetTitle groupIds h h' Hh)
      as [l S].
    split; [exact (steps_tab_ids _ _ _ _ _ _ S)|exact (steps_currentWindow _ _ _ _ _ _ S)]. }
  repeat (constructor; [apply All; auto|]). constructor.
Qed.

(** X28: The debouncer keeps windows apart.  At any state the event loop
    can reach, a call of [debounceByWindow] for one window leaves the
    pending timer of every other window as it is and runs nothing; so a
    timer pending for another window still fires when it is due, with its
    own callback. *)
Theorem debounce_keeps_windows_apart :
  forall (Fn : Type) (es : list (Debounce.Event Fn)) (w v : Z) (fn : Fn) (d : Z)
         (x : Debounce.Timer Fn) (T : Z),
    let l := Debounce.run es Debounce.start in
    let l' := Debounce.debounceByWindow w fn d l in
    v <> w ->
    Debounce.pendingFor v l = [x] ->
    Debounce.timer_due x <= T ->
    Debounce.pendingFor v l' = [x] /\
    Debounce.executed l' = Debounce.executed l /\
    Debounce.executedFor v (Debounce.advance T l')
    = Debounce.executedFor v l ++ [(v, Debounce.timer_fn x, Debounce.timer_due x)].
Proof.
  intros Fn es w v fn d x T l l' Nv Hp Hd.
  assert (WK : Debounce.wellKept l).
  { apply DebounceFacts.wellKept_run, DebounceFacts.wellKept_start. }
  destruct (DebounceFacts.debounce_effect Fn w fn d l WK) as (_ & _ & Ex & _ & Hother).
  fold l' in Ex, Hother.
  assert (Hp' : Debounce.pendingFor v l' = [x]) by (rewrite (Hother v Nv); exact Hp).
  split; [exact Hp'|]. split; [exact Ex|].
  destruct (DebounceFacts.advance_fires Fn v T l' x Hp' Hd) as [Ef _].
  rewrite Ef. unfold Debounce.executedFor. now rewrite Ex.
Qed.

Lemma debounce_keeps_windows_apart_witness :
  let es := [Debounce.Schedule 1 tt 400; Debounce.Elapse 100] in
  let x := Debounce.mkTimer 1 1 400 tt in
  let l := Debounce.run es Debounce.start in
  let l' := Debounce.debounceByWindow 2 tt 80 l in
  1 <> 2 /\
  Debounce.pendingFor 1 l = [x] /\
  Debounce.timer_due x <= 400 /\
  Debounce.pendingFor 1 l' = [x] /\
  Debounce.executed l' = Debounce.executed l /\
  Debounce.executedFor 1 (Debounce.advance 400 l')
  = Debounce.executedFor 1 l ++ [(1, Debounce.timer_fn x, Debounce.timer_due x)].
Proof.
  intros es x l l'.
  assert (H1 : 1 <> 2) by lia.
  assert (H2 : Debounce.pendingFor 1 l = [x]) by reflexivity.
  assert (H3 : Debounce.timer_due x <= 400) by (simpl; lia).
  split; [exact H1|]. split; [exact H2|]. split; [exact H3|].
  exact (debounce_keeps_windows_apart unit es 2 1 tt 80 x 400 H1 H2 H3).
Defined.

(** Window 1 has a timer due at 400 ms; a call for window 2 at 100 ms
    changes nothing for window 1, and both callbacks run. *)
Example two_windows_debounce_example :
  Debounce.executed
    (Debounce.advance 1000
       (Debounce.run [Debounce.Schedule 1 tt 400; Debounce.Elapse 100;
                      Debounce.Schedule 2 tt 80]
                     Debounce.start))
  = [(2, tt, 180); (1, tt, 400)].
Proof. reflexivity. Qed.

(* ================================================================== *)
(** * The target and the title of the explicit merge *)

Lemma bucketTitles_spec (bucket : list Group) :
  bucketTitles bucket = nonEmptyTrimmedTitles bucket.
Proof.
  unfold bucketTitles, nonEmptyTrimmedTitles, orEmpty.
  apply filter_ext. intros [|c s]; reflexivity.
Qed.

Lemma occurrences_count (t : string) (titles : list string) :
  occurrences t titles = Z.of_nat (count_occ string_dec titles t).
Proof.
  unfold occurrences. f_equal.
  induction titles as [|x r IH]; simpl; [reflexivity|].
  destruct (String.eqb_spec x t) as [E|N], (string_dec x t) as [E'|N'];
    simpl; congruence.
Qed.

(** The title chosen for a bucket, in the specification's terms. *)
Lemma titleToSet_spec (bucket : list Group) (target : Group) :
  match nonEmptyTrimmedTitles bucket with
  | [] => titleToSet bucket target = group_title target
  | _ :: _ =>
      exists t, titleToSet bucket target = Some t /\
                mostFrequentFirst (nonEmptyTrimmedTitles bucket) t
  end.
Proof.
  destruct (nonEmptyTrimmedTitles bucket) as [|t0 ts] eqn:E.
  - unfold titleToSet. rewrite bucketTitles_spec, E. reflexivity.
  - assert (Hne : bucketTitles bucket <> []).
    { rewrite bucketTitles_spec, E. discriminate. }
    destruct (titleToSet_most_frequent bucket target Hne)
      as (t & pre & post & Et & Es & Hpre & Hpost).
    rewrite bucketTitles_spec, E in Es, Hpre, Hpost.
    exists t. split; [exact Et|]. exists pre, post. split; [exact Es|]. split.
    + intros x Hx. specialize (Hpre x Hx). rewrite !occurrences_count in Hpre. lia.
    + intros x Hx. specialize (Hpost x Hx). rewrite !occurrences_count in Hpost. lia.
Qed.

(** C4: In a well-formed host, for every window in scope and every key
    that takes part in bucketing and is shared by at least two groups of
    that window, [mergeDuplicatesByName] returns having selected as target
    the first group of the bucket, in the order the browser lists it, that
    has the largest tab count: no group of the bucket has more tabs, and
    every group listed before it has fewer.  That group is the one reported
    as [mergedInto] in the results, the one group of the bucket that is
    left, and it ends with the tabs of the whole bucket. *)
Theorem mergeDuplicatesByName_target_by_size :
  forall (avoid : Tab -> bool) (scope : Scope) (wid : option Z) (st : Settings)
         (h : Host) (w : Z) (k : string),
    wellFormed h ->
    inScope scope wid h w = true ->
    includedKey (includeUnnamed st) k = true ->
    (2 <= length (classGroups (caseSensitive st) (w, k) h))%nat ->
    exists results h' target title,
      mergeDuplicatesByName avoid scope wid st h = (Returned results, h') /\
      firstLargest h (classGroups (caseSensitive st) (w, k) h) target /\
      (forall g, In g (classGroups (caseSensitive st) (w, k) h) ->
                 tabCount (group_id g) h <= tabCount (group_id target) h) /\
      In (mkMergeResult w title (group_id target)
            (Z.of_nat (length (classGroups (caseSensitive st) (w, k) h)) - 1))
         results /\
      classGroups (caseSensitive st) (w, k) h'
        = [chrome.set_props title (keepCollapsed st) target] /\
      tabCount (group_id target) h'
        = totalTabs (classGroups (caseSensitive st) (w, k) h) h.
Proof.
  intros avoid scope wid st h w k WF Ys Yk Big.
  destruct (mergeDuplicatesByName_class avoid scope wid st h w k WF Ys Yk Big)
    as (results & h' & target & n & rest & E & S & Hres & C & Cnt & _).
  set (b := classGroups (caseSensitive st) (w, k) h) in *.
  assert (Hne : b <> []).
  { intros E0. rewrite E0 in Big. simpl in Big. lia. }
  destruct (sortByCount_head b h Hne) as (t' & rest' & pre & post & S' & Eb & Hpre & Hpost).
  rewrite S in S'. assert (Et : t' = target) by congruence. subst t'.
  exists results, h', target, (titleToSet b target).
  split; [exact E|]. split; [|split; [|split; [exact Hres|split; [exact C|exact Cnt]]]].
  - exists pre, post. auto.
  - intros g Hg. rewrite Eb in Hg. apply in_app_or in Hg.
    destruct Hg as [Hg|[<-|Hg]]; [specialize (Hpre g Hg)|lia|specialize (Hpost g Hg)]; lia.
Qed.

Lemma mergeDuplicatesByName_target_by_size_witness :
  wellFormed Sample.host /\
  inScope CurrentWindow None Sample.host 1 = true /\
  includedKey (includeUnnamed Sample.settings) "work" = true /\
  (2 <= length (classGroups (caseSensitive Sample.settings) (1%Z, "work"%string)
                            Sample.host))%nat /\
  exists results h' target title,
    mergeDuplicatesByName isActive CurrentWindow None Sample.settings Sample.host
      = (Returned results, h') /\
    firstLargest Sample.host
      (classGroups (caseSensitive Sample.settings) (1%Z, "work"%string) Sample.host)
      target /\
    (forall g, In g (classGroups (caseSensitive Sample.settings) (1%Z, "work"%string)
                                 Sample.host) ->
               tabCount (group_id g) Sample.host <= tabCount (group_id target) Sample.host) /\
    In (mkMergeResult 1 title (group_id target)
          (Z.of_nat (length (classGroups (caseSensitive Sample.settings)
                                         (1%Z, "work"%string) Sample.host)) - 1))
       results /\
    classGroups (caseSensitive Sample.settings) (1%Z, "work"%string) h'
      = [chrome.set_props title (keepCollapsed Sample.settings) target] /\
    tabCount (group_id target) h'
      = totalTabs (classGroups (caseSensitive Sample.settings) (1%Z, "work"%string)
                               Sample.host) Sample.host.
Proof.
  split; [exact sample_host_wellFormed|]. split; [reflexivity|]. split; [reflexivity|].
  split; [vm_compute; lia|].
  apply (mergeDuplicatesByName_target_by_size isActive CurrentWindow None Sample.settings
           Sample.host 1 "work").
  - exact sample_host_wellFormed.
  - reflexivity.
  - reflexivity.
  - vm_compute. lia.
Defined.

(** With tab counts 3, 1 and 5 the group with five tabs is in front of the
    sorted counts. *)
Example by_size_example :
  hd_error (sortByCount (map (fun g => (g, tabCount (group_id g) Sample.host))
                             Sample.bucket))
  = Some (Sample.g77, 5).
Proof. reflexivity. Qed.

(** In whichever order the browser lists the three groups, the operation
    reports one merge, into the group with five tabs. *)
Example by_size_any_order_example :
  forallb (fun bucket =>
             match fst (mergeDuplicatesByName isActive CurrentWindow None Sample.settings
                          (with_groups (bucket ++ [Sample.u5; Sample.u6; Sample.u7])
                                       Sample.host)) with
             | Returned [r] => (res_mergedInto r =? 77) && (res_mergedCount r =? 2)
             | _ => false
             end)
          [[Sample.g40; Sample.g12; Sample.g77]; [Sample.g40; Sample.g77; Sample.g12];
           [Sample.g12; Sample.g40; Sample.g77]; [Sample.g12; Sample.g77; Sample.g40];
           [Sample.g77; Sample.g40; Sample.g12]; [Sample.g77; Sample.g12; Sample.g40]]
  = true.
Proof. reflexivity. Qed.

(** Two groups of two tabs each: the one listed first is the target. *)
Example by_size_tie_example :
  let h := mkHost [Sample.g40; Sample.g12]
                  [Sample.tab 1 40 false "https://a.example/";
                   Sample.tab 2 12 false "https://b.example/";
                   Sample.tab 3 12 false "https://c.example/";
                   Sample.tab 4 40 false "https://d.example/"]
                  1 None None [] in
  fst (mergeDuplicatesByName isActive CurrentWindow None Sample.settings h)
    = Returned [mkMergeResult 1 (Some "Work"%string) 40 1] /\
  fst (mergeDuplicatesByName isActive CurrentWindow None Sample.settings
         (with_groups [Sample.g12; Sample.g40] h))
    = Returned [mkMergeResult 1 (Some "work"%string) 12 1].
Proof. split; reflexivity. Qed.

(** C5 (as amended): In a well-formed host, for every window in scope and
    every key that takes part in bucketing and is shared by at least two
    groups of that window, the title [mergeDuplicatesByName] gives the
    target, reports in the results and leaves on the one group that
    remains is the most frequent non-empty trimmed title among the members
    of the bucket, the first such in bucket order on a tie; and when no
    member has a non-empty trimmed title, it is the target's own title, as
    it is. *)
Theorem mergeDuplicatesByName_title_most_frequent :
  forall (avoid : Tab -> bool) (scope : Scope) (wid : option Z) (st : Settings)
         (h : Host) (w : Z) (k : string),
    wellFormed h ->
    inScope scope wid h w = true ->
    includedKey (includeUnnamed st) k = true ->
    (2 <= length (classGroups (caseSensitive st) (w, k) h))%nat ->
    exists results h' target title,
      mergeDuplicatesByName avoid scope wid st h = (Returned results, h') /\
      firstLargest h (classGroups (caseSensitive st) (w, k) h) target /\
      In (mkMergeResult w title (group_id target)
            (Z.of_nat (length (classGroups (caseSensitive st) (w, k) h)) - 1))
         results /\
      classGroups (caseSensitive st) (w, k) h'
        = [mkGroup (group_id target) title w (keepCollapsed st)] /\
      match nonEmptyTrimmedTitles (classGroups (caseSensitive st) (w, k) h) with
      | [] => title = group_title target
      | _ :: _ =>
          exists t,
            title = Some t /\
            mostFrequentFirst
              (nonEmptyTrimmedTitles (classGroups (caseSensitive st) (w, k) h)) t
      end.
Proof.
  intros avoid scope wid st h w k WF Ys Yk Big.
  destruct (mergeDuplicatesByName_class avoid scope wid st h w k WF Ys Yk Big)
    as (results & h' & target & n & rest & E & S & Hres & C & _ & _).
  set (b := classGroups (caseSensitive st) (w, k) h) in *.
  assert (Hne : b <> []).
  { intros E0. rewrite E0 in Big. simpl in Big. lia. }
  destruct (sortByCount_head b h Hne) as (t' & rest' & pre & post & S' & Eb & Hpre & Hpost).
  rewrite S in S'. assert (Et : t' = target) by congruence. subst t'.
  assert (Hw : group_windowId target = w).
  { assert (Hin : In target b) by (rewrite Eb; apply in_or_app; right; now left).
    apply filter_In in Hin. destruct Hin as [_ Hc]. apply inClass_iff in Hc.
    congruence. }
  pose proof (titleToSet_spec b target) as Ht.
  exists results, h', target, (titleToSet b target).
  split; [exact E|]. split; [exists pre, post; auto|]. split; [exact Hres|].
  split; [|exact Ht].
  rewrite C. unfold chrome.set_props. rewrite Hw. do 2 f_equal.
  destruct (nonEmptyTrimmedTitles b).
  - rewrite Ht. now destruct (group_title target).
  - destruct Ht as (t & -> & _). reflexivity.
Qed.

Lemma mergeDuplicatesByName_title_most_frequent_witness :
  wellFormed Sample.host /\
  inScope CurrentWindow None Sample.host 1 = true /\
  includedKey (includeUnnamed Sample.settings) "work" = true /\
  (2 <= length (classGroups (caseSensitive Sample.settings) (1%Z, "work"%string)
                            Sample.host))%nat /\
  exists results h' target title,
    mergeDuplicatesByName isActive CurrentWindow None Sample.settings Sample.host
      = (Returned results, h') /\
    firstLargest Sample.host
      (classGroups (caseSensitive Sample.settings) (1%Z, "work"%string) Sample.host)
      target /\
    In (mkMergeResult 1 title (group_id target)
          (Z.of_nat (length (classGroups (caseSensitive Sample.settings)
                                         (1%Z, "work"%string) Sample.host)) - 1))
       results /\
    classGroups (caseSensitive Sample.settings) (1%Z, "work"%string) h'
      = [mkGroup (group_id target) title 1 (keepCollapsed Sample.settings)] /\
    match nonEmptyTrimmedTitles (classGroups (caseSensitive Sample.settings)
                                             (1%Z, "work"%string) Sample.host) with
    | [] => title = group_title target
    | _ :: _ =>
        exists t,
          title = Some t /\
          mostFrequentFirst
            (nonEmptyTrimmedTitles (classGroups (caseSensitive Sample.settings)
                                                (1%Z, "work"%string) Sample.host)) t
    end.
Proof.
  split; [exact sample_host_wellFormed|]. split; [reflexivity|]. split; [reflexivity|].
  split; [vm_compute; lia|].
  apply (mergeDuplicatesByName_title_most_frequent isActive CurrentWindow None
           Sample.settings Sample.host 1 "work").
  - exact sample_host_wellFormed.
  - reflexivity.
  - reflexivity.
  - vm_compute. lia.
Defined.

(** Titles "Work", "work", "Work" with case-insensitive matching share the
    key "work" and converge on "Work". *)
Example title_convergence_example :
  let h := mkHost [mkGroup 1 (Some "Work"%string) 1 false;
                   mkGroup 2 (Some "work"%string) 1 false;
                   mkGroup 3 (Some "Work"%string) 1 false]
                  [Sample.tab 1 1 false "https://a.example/";
                   Sample.tab 2 2 false "https://b.example/";
                   Sample.tab 3 3 false "https://c.example/"]
                  1 None None [] in
  let r := mergeDuplicatesByName isActive CurrentWindow None Sample.settings h in
  map (fun g => normalizeTitle (group_title g) false) (groups h)
    = ["work"%string; "work"%string; "work"%string] /\
  fst r = Returned [mkMergeResult 1 (Some "Work"%string) 1 2] /\
  groups (snd r) = [mkGroup 1 (Some "Work"%string) 1 true].
Proof. repeat split; reflexivity. Qed.

(** The specification's wording of the title rule fails for a bucket none
    of whose members has a non-empty trimmed title: with [includeUnnamed]
    on, the groups titled with the empty string and with two spaces form a
    bucket of two; no non-empty trimmed title exists, and the title applied
    is the target's own two spaces, untrimmed. *)
Lemma blank_bucket_title_counterexample :
  classGroups (caseSensitive Sample.withUnnamed) (1%Z, EmptyString) Sample.blankTitles
    = [Sample.u5; Sample.u6] /\
  nonEmptyTrimmedTitles [Sample.u5; Sample.u6] = [] /\
  requests (snd (mergeDuplicatesByName isActive CurrentWindow None Sample.withUnnamed
                                       Sample.blankTitles))
    = [ReqDiscard 11; ReqDiscard 12; ReqDiscard 10; ReqMove [10] 6;
       ReqUpdate 6 (Some "  "%string) true] /\
  groups (snd (mergeDuplicatesByName isActive CurrentWindow None Sample.withUnnamed
                                     Sample.blankTitles))
    = [mkGroup 6 (Some "  "%string) 1 true] /\
  ~ (exists t,
        mostFrequentFirst (nonEmptyTrimmedTitles [Sample.u5; Sample.u6]) t /\
        map group_title
            (classGroups (caseSensitive Sample.withUnnamed) (1%Z, EmptyString)
               (snd (mergeDuplicatesByName isActive CurrentWindow None Sample.withUnnamed
                                           Sample.blankTitles)))
        = [Some t]).
Proof.
  split; [reflexivity|]. split; [reflexivity|]. split; [reflexivity|].
  split; [reflexivity|].
  intros (t & (pre & post & E & _) & _).
  change (nonEmptyTrimmedTitles [Sample.u5; Sample.u6]) with (@nil string) in E.
  destruct pre; discriminate.
Qed.

(* ================================================================== *)
(** * The target of the incremental path *)

(** C7: In a well-formed host, for every key that takes part in bucketing
    and is shared by at least two groups of the window,
    [recomputeAndDrainDuplicates] returns having selected as target the
    group of the bucket with the smallest identifier: that group is
    recorded as [target] under the key in the index, with the other
    members as [others]; it is the one group of the bucket that is left,
    titled as it was, and it ends with the tabs of the whole bucket.
    [findDuplicateTargetGroup], asked on the same host for a title of that
    key, answers the same group.  And on any host
    [findDuplicateTargetGroup] answers the smallest identifier among the
    groups of the window that share the title's key, and no target when
    fewer than two groups share it. *)
Theorem incremental_target_by_id :
  forall (avoid : Tab -> bool) (w : Z) (st : Settings) (h : Host) (k : string),
    wellFormed h ->
    includedKey (includeUnnamed st) k = true ->
    (2 <= length (classGroups (caseSensitive st) (w, k) h))%nat ->
    (exists idx h' target others,
        recomputeAndDrainDuplicates avoid w st h = (Returned idx, h') /\
        Permutation (target :: others) (classGroups (caseSensitive st) (w, k) h) /\
        Forall (fun g => group_id target <= group_id g)
               (classGroups (caseSensitive st) (w, k) h) /\
        index_get k idx = Some (group_id target, map group_id others) /\
        classGroups (caseSensitive st) (w, k) h'
          = [chrome.set_props (group_title target) (keepCollapsed st) target] /\
        tabCount (group_id target) h'
          = totalTabs (classGroups (caseSensitive st) (w, k) h) h /\
        (forall title,
            normalizeTitle title (caseSensitive st) = k ->
            findDuplicateTargetGroup w title (caseSensitive st) (includeUnnamed st) h
            = (Returned (Some (group_id target)), h))) /\
    (forall (h0 : Host) (w0 : Z) (title : option string) (cs iu : bool),
        let same := filter (fun g => String.eqb (normalizeTitle (group_title g) cs)
                                                (normalizeTitle title cs))
                           (filter (fun g => group_windowId g =? w0) (groups h0)) in
        exists r,
          findDuplicateTargetGroup w0 title cs iu h0 = (Returned r, h0) /\
          match r with
          | Some i => (2 <= length same)%nat /\ smallestId same i
          | None => (length same < 2)%nat \/
                    (iu = false /\ normalizeTitle title cs = EmptyString)
          end).
Proof.
  intros avoid w st h k WF Hi Big.
  split; [|intros h0 w0 title cs iu; apply findDuplicateTargetGroup_run].
  set (cs := caseSensitive st) in *. set (iu := includeUnnamed st) in *.
  destruct (recomputeAndDrainDuplicates_effect avoid w st h WF)
    as (rs & h' & E & F & Q).
  fold cs iu in Q, F.
  set (buckets := buildBuckets cs iu (filter (fun g => group_windowId g =? w) (groups h)))
    in *.
  assert (Hne : classGroups cs (w, k) h <> []).
  { intros E0. rewrite E0 in Big. simpl in Big. lia. }
  pose proof (recompute_class_has_bucket cs iu w h k Hi Hne) as Hin.
  fold buckets in Hin.
  destruct (Forall2_In_left _ _ _ _ Q Hin) as (res & _ & [Hres Hq]).
  destruct (Hq Big) as (target & others & Hs & Hcl). simpl in Hs, Hcl.
  fold cs in Hcl.
  destruct (sortById_head _ Hne) as (t' & o' & Hs' & Ht' & Hmin).
  rewrite Hs in Hs'. assert (Et : t' = target) by congruence. subst t'. clear Hs' o'.
  exists (concat rs), h', target, others.
  split; [exact E|]. split; [|split; [exact Hmin|split; [|split; [exact Hcl|split]]]].
  - rewrite <- Hs. apply sortById_perm.
  - rewrite (recomputed_entries st w h' buckets rs Q).
    destruct (index_get_entries buckets k) as [Hget _].
    { apply (buildBuckets_spec cs iu). }
    rewrite (Hget _ Hin). unfold indexEntry.
    destruct (classGroups cs (w, k) h) as [|g1 [|g2 r]] eqn:Ec; simpl in Big; try lia.
    rewrite Hs. reflexivity.
  - destruct F as (_ & _ & Hc). specialize (Hc (w, k)). cbn [fst snd] in Hc.
    rewrite Z.eqb_refl, Hi in Hc. cbn [andb] in Hc.
    replace (2 <=? length (classGroups cs (w, k) h))%nat with true in Hc
      by (symmetry; now apply Nat.leb_le).
    destruct Hc as (g' & Eg & Cnt). rewrite Hcl in Eg. inversion Eg; subst g'.
    exact Cnt.
  - intros title Ek.
    pose proof (findDuplicateTargetGroup_run w title cs iu h) as R.
    cbv zeta in R. rewrite Ek, classGroups_as_listing in R.
    destruct R as (r & Er & Hr). rewrite Er. do 2 f_equal.
    destruct r as [i|].
    + destruct Hr as [_ Sm]. f_equal.
      apply (smallestId_unique (classGroups cs (w, k) h)); [exact Sm|].
      split; [now apply in_map|exact Hmin].
    + exfalso. destruct Hr as [Small|[Eiu Ekey]]; [lia|].
      unfold includedKey in Hi. rewrite Eiu, Ekey in Hi. discriminate.
Qed.

Lemma incremental_target_by_id_witness :
  wellFormed Sample.host /\
  includedKey (includeUnnamed Sample.settings) "work" = true /\
  (2 <= length (classGroups (caseSensitive Sample.settings) (1%Z, "work"%string)
                            Sample.host))%nat /\
  (exists idx h' target others,
      recomputeAndDrainDuplicates isActive 1 Sample.settings Sample.host
        = (Returned idx, h') /\
      Permutation (target :: others)
                  (classGroups (caseSensitive Sample.settings) (1%Z, "work"%string)
                               Sample.host) /\
      Forall (fun g => group_id target <= group_id g)
             (classGroups (caseSensitive Sample.settings) (1%Z, "work"%string)
                          Sample.host) /\
      index_get "work" idx = Some (group_id target, map group_id others) /\
      classGroups (caseSensitive Sample.settings) (1%Z, "work"%string) h'
        = [chrome.set_props (group_title target) (keepCollapsed Sample.settings) target] /\
      tabCount (group_id target) h'
        = totalTabs (classGroups (caseSensitive Sample.settings) (1%Z, "work"%string)
                                 Sample.host) Sample.host /\
      (forall title,
          normalizeTitle title (caseSensitive Sample.settings) = "work"%string ->
          findDuplicateTargetGroup 1 title (caseSensitive Sample.settings)
                                   (includeUnnamed Sample.settings) Sample.host
          = (Returned (Some (group_id target)), Sample.host))) /\
  (forall (h0 : Host) (w0 : Z) (title : option string) (cs iu : bool),
      let same := filter (fun g => String.eqb (normalizeTitle (group_title g) cs)
                                              (normalizeTitle title cs))
                         (filter (fun g => group_windowId g =? w0) (groups h0)) in
      exists r,
        findDuplicateTargetGroup w0 title cs iu h0 = (Returned r, h0) /\
        match r with
        | Some i => (2 <= length same)%nat /\ smallestId same i
        | None => (length same < 2)%nat \/
                  (iu = false /\ normalizeTitle title cs = EmptyString)
        end).
Proof.
  split; [exact sample_host_wellFormed|]. split; [reflexivity|].
  split; [vm_compute; lia|].
  apply (incremental_target_by_id isActive 1 Sample.settings Sample.host "work").
  - exact sample_host_wellFormed.
  - reflexivity.
  - vm_compute. lia.
Defined.

(** Identifiers 40, 12 and 77 under one title: the recompute records 12 as
    the target and leaves group 12 alone with the nine tabs; the lookup
    answers 12 for a title of the same key and nothing for a title no group
    bears. *)
Example by_id_example :
  let r := recomputeAndDrainDuplicates isActive 1 Sample.settings Sample.host in
  fst r = Returned [("work"%string, (12, [40; 77]))] /\
  map group_id (classGroups false (1%Z, "work"%string) (snd r)) = [12] /\
  tabCount 12 (snd r) = 9 /\
  fst (findDuplicateTargetGroup 1 (Some "WORK"%string) false false Sample.host)
    = Returned (Some 12) /\
  fst (findDuplicateTargetGroup 1 (Some "Solo"%string) false false Sample.host)
    = Returned None.
Proof. vm_compute. repeat split. Qed.

(* ================================================================== *)
(** * Which tabs a merge may discard *)

(** C3 (as amended): Whatever the operation (the explicit merge, the
    incremental recompute, the merge of a selection) and whatever the
    settings, in a host whose tab identifiers are unique: in
    src/background.js no discard request is ever issued for an active tab,
    and only tabs that are not active may be discarded, whether or not
    they have a committed URL; in the later revision (src/unnamed/part_001)
    no discard request is issued for a tab that is active or has no
    committed URL (blank, about:blank, or a navigation pending), and only
    tabs that are not active and have a committed URL may be discarded. *)
Theorem merge_discards_by_revision :
  forall (scope : Scope) (wid : option Z) (w : Z) (st : Settings)
         (targetTitle : option string) (groupIds : list Z) (h : Host),
    uniqueTabs h ->
    Forall (fun h' =>
              exists l,
                requests h' = requests h ++ l /\
                discardsOnly (fun t => tab_active t = false) h l /\
                forall t, In t (tabs h) -> tab_active t = true ->
                          ~ In (ReqDiscard (tab_id t)) l)
           [snd (mergeDuplicatesByName isActive scope wid st h);
            snd (recomputeAndDrainDuplicates isActive w st h);
            snd (mergeSelectedGroups isActive targetTitle groupIds h)] /\
    Forall (fun h' =>
              exists l,
                requests h' = requests h ++ l /\
                discardsOnly (fun t => tab_active t = false /\ committed t) h l /\
                forall t, In t (tabs h) -> tab_active t = true \/ ~ committed t ->
                          ~ In (ReqDiscard (tab_id t)) l)
           [snd (mergeDuplicatesByName shouldAvoidDiscard scope wid st h);
            snd (recomputeAndDrainDuplicates shouldAvoidDiscard w st h);
            snd (mergeSelectedGroups shouldAvoidDiscard targetTitle groupIds h)].
Proof.
  intros scope wid w st targetTitle groupIds h UT.
  assert (Never : forall (P : Tab -> Prop) l t,
             discardsOnly P h l -> In t (tabs h) -> ~ P t ->
             ~ In (ReqDiscard (tab_id t)) l).
  { intros P l t D Ht N Hin. destruct (D _ Hin) as (t' & Ht' & Ei & Pt').
    assert (t' = t) by (apply (unique_by_id (tabs h)); auto). subst t'.
    exact (N Pt'). }
  assert (Old : forall h',
             h' = snd (mergeDuplicatesByName isActive scope wid st h) \/
             h' = snd (recomputeAndDrainDuplicates isActive w st h) \/
             h' = snd (mergeSelectedGroups isActive targetTitle groupIds h) ->
             exists l, requests h' = requests h ++ l /\
                       discardsOnly (fun t => tab_active t = false) h l /\
                       forall t, In t (tabs h) -> tab_active t = true ->
                                 ~ In (ReqDiscard (tab_id t)) l).
  { intros h' Hh.
    destruct (operations_steps isActive scope wid w st targetTitle groupIds h h' Hh)
      as [l S].
    assert (D : discardsOnly (fun t => tab_active t = false) h l).
    { apply (discardsOnly_of_eligible isActive); [intros t Ht; exact Ht|].
      eapply steps_discard_eligible; [exact isActive_set_group|exact S]. }
    exists l. split; [exact (steps_requests _ _ _ _ _ _ S)|]. split; [exact D|].
    intros t Ht A. apply (Never _ l t D Ht). cbv beta. congruence. }
  assert (New : forall h',
             h' = snd (mergeDuplicatesByName shouldAvoidDiscard scope wid st h) \/
             h' = snd (recomputeAndDrainDuplicates shouldAvoidDiscard w st h) \/
             h' = snd (mergeSelectedGroups shouldAvoidDiscard targetTitle groupIds h) ->
             exists l, requests h' = requests h ++ l /\
                       discardsOnly (fun t => tab_active t = false /\ committed t) h l /\
                       forall t, In t (tabs h) -> tab_active t = true \/ ~ committed t ->
                                 ~ In (ReqDiscard (tab_id t)) l).
  { intros h' Hh.
    destruct (operations_steps shouldAvoidDiscard scope wid w st targetTitle groupIds
                h h' Hh) as [l S].
    assert (D : discardsOnly (fun t => tab_active t = false /\ committed t) h l).
    { apply (discardsOnly_of_eligible shouldAvoidDiscard).
      - intros t Ht. destruct (shouldAvoidDiscard_false t Ht) as (A & B & C & D).
        split; [exact A|]. split; [exact B|]. split; [exact C|exact D].
      - eapply steps_discard_eligible; [exact shouldAvoidDiscard_set_group|exact S]. }
    exists l. split; [exact (steps_requests _ _ _ _ _ _ S)|]. split; [exact D|].
    intros t Ht A. apply (Never _ l t D Ht). cbv beta.
    intros [Na Co]. destruct A as [A|A]; [congruence|exact (A Co)]. }
  split; repeat (constructor; [first [apply Old|apply New]; auto|]); constructor.
Qed.

Lemma merge_discards_by_revision_witness :
  uniqueTabs Sample.host /\
  Forall (fun h' =>
            exists l,
              requests h' = requests Sample.host ++ l /\
              discardsOnly (fun t => tab_active t = false) Sample.host l /\
              forall t, In t (tabs Sample.host) -> tab_active t = true ->
                        ~ In (ReqDiscard (tab_id t)) l)
         [snd (mergeDuplicatesByName isActive CurrentWindow None Sample.settings
                                     Sample.host);
          snd (recomputeAndDrainDuplicates isActive 1 Sample.settings Sample.host);
          snd (mergeSelectedGroups isActive None [40; 12; 77] Sample.host)] /\
  Forall (fun h' =>
            exists l,
              requests h' = requests Sample.host ++ l /\
              discardsOnly (fun t => tab_active t = false /\ committed t) Sample.host l /\
              forall t, In t (tabs Sample.host) -> tab_active t = true \/ ~ committed t ->
                        ~ In (ReqDiscard (tab_id t)) l)
         [snd (mergeDuplicatesByName shouldAvoidDiscard CurrentWindow None
                                     Sample.settings Sample.host);
          snd (recomputeAndDrainDuplicates shouldAvoidDiscard 1 Sample.settings
                                           Sample.host);
          snd (mergeSelectedGroups shouldAvoidDiscard None [40; 12; 77] Sample.host)].
Proof.
  split; [exact (proj1 (proj2 sample_host_wellFormed))|].
  apply (merge_discards_by_revision CurrentWindow None 1 Sample.settings None
           [40; 12; 77] Sample.host).
  exact (proj1 (proj2 sample_host_wellFormed)).
Defined.

(** The specification's wording of the discard rule fails in
    src/background.js: with [fastMerge] on, merging the sample window asks
    the browser to discard tab 3, which is not active and whose URL is
    empty, so that it has no committed URL. *)
Lemma uncommitted_tab_discarded_counterexample :
  fastMerge Sample.settings = true /\
  ~ (forall t, In t (tabs Sample.host) ->
               tab_active t = true \/ ~ committed t ->
               ~ In (ReqDiscard (tab_id t))
                    (requests (snd (mergeDuplicatesByName isActive CurrentWindow None
                                                          Sample.settings Sample.host)))).
Proof.
  split; [reflexivity|]. intros H.
  apply (H (Sample.tab 3 40 false "")).
  - simpl. tauto.
  - right. intros [C _]. apply C. reflexivity.
  - vm_compute. tauto.
Qed.
